(* ===== verification/_CoqProject ===== *)
-Q . S2P
Prelude.v
Exec.v
Sha256.v
Ffi.v
PrimeCert.v
RefKernel.v
Vli.v
Ecc.v
Ecdsa.v
Ioctl.v
Externs.v
Layout.v
SetOnce.v
Tarako.v
Programs.v
Concurrent.v
Wire.v
Attester.v
Verifier.v
Attestation.v
Client.v
Canonical.v
Security.v
Flow.v
Rfc6979.v
Qgs.v
EndToEnd.v
Protocol.v
ProtocolSafety.v
ProtocolAttacks.v
QuoteTools.v
