(* ===== verification/Prelude.v ===== *)
(** * The tarako kernel module

    Tarako is a Linux kernel module, written in Rust, for attesting running
    applications.  On load it generates an ECDSA P-256 key pair and has IMA
    measure the public key; through [/dev/tarako] a process obtains a signature
    over the fs-verity digest of its own executable and 128 bytes of its choice.
    This library models the module's source, [src/driver/src/], and the userspace
    programs around it, and proves what a relying party depends on: a signature
    is only ever given for the caller's own fs-verity digest, under a measured
    key, and it verifies; the code is memory safe, leaks nothing, and unloading
    destroys the secret.

    ** Parts of the program and the files that model them

    - [Prelude]: digit lists (limbs, bytes) and their values, shared tactics and
      hint databases.
    - [Exec]: how Rust code runs.  A function is a computation [M S A] on a state
      that returns, returns an error (the [?] operator), or faults (a slice
      panic, a bad pointer).  [with_drop] runs a destructor when a scope is
      left.  [wp] is a weakest precondition that excludes faults.
    - [Ffi]: [driver/src/ffi.rs] and the parts of the [kernel] crate the driver
      calls.  The kernel's functions are not in this repository: they are the
      operations of the class [Kernel], and their documented behaviour is in
      the law classes [VliLaws], [EccLaws], [CurveLaws], [ImaLaws],
      [VerityLaws], [UserLaws], [IoctlLaws], [MiscLaws], which a theorem names
      when it depends on them.  The state [kstate] has the live [ecc_point]
      structures, the live limb buffers and an abstract rest of the kernel, with
      a record [user_log] of the driver's transfers to and from user memory.
    - [PrimeCert]: the order of the P-256 base point is prime (Pocklington).
    - [RefKernel]: an executable kernel with all the laws, on which the examples
      run.  Its hash is SHA-256 and its order P-256's; its group is a stand-in.
    - [Vli]: [driver/src/vli.rs], integers of [N] 64-bit limbs.
    - [Ecc]: [driver/src/ecc.rs], the wrappers of the kernel's curve, hash and
      measurement functions, with the ownership of kernel-allocated points.
    - [Ecdsa]: ECDSA over the integers, the specification of signing, and why a
      signature verifies in a group of prime order.
    - [Ioctl]: [driver/src/ioctl.rs], signing, key generation, the fs-verity
      lookup, the request layout and both handlers.  The static [KEY_PAIR] is
      passed to the handlers as the result of its [as_ref].
    - [Externs]: the [extern] block of [ffi.rs] with its pointers, a memory of limb
      and byte buffers, and the [unsafe] blocks of [vli.rs], [ecc.rs] and
      [ioctl.rs] that call it.
    - [Layout]: the [repr(C)] layout of the driver's structures.
    - [SetOnce]: [driver/src/set_once.rs], the cell behind [KEY_PAIR]: its
      methods run to completion, and their atomic actions interleaved under
      release/acquire memory.
    - [Tarako]: [driver/src/lib.rs], initialization, teardown, open, release and
      ioctl dispatch, and the life cycle that interleaves them and other
      changes of the kernel's and the callers' memory.
    - [Programs]: the handlers as trees of kernel calls and memory accesses, which
      can stop between two of them; [Concurrent]: ioctls that run at the same
      time, interleaved at every such action.
    - [Sha256], [Wire]: the standard-library functions the userspace programs use:
      SHA-256 (with its test vectors), hexadecimal, JSON strings, DER.
    - [Attester]: [attester/main.go], from a request to a quote, over an interface
      [SigningDevice] of the device file.
    - [Verifier]: [test/attestation/verifier.py], challenges and appraisal.
    - [Attestation]: the driver provides [SigningDevice], and its quotes are what
      the verifier accepts.
    - [Client]: [test/attestation/client.py], with the network, openssl and the
      certificates as interfaces; [Flow]: the exchange of client, verifier,
      attester and driver.
    - [Security]: what an accepted quote says about the runs of the module;
      [Canonical]: canonical JSON can be read back; [EndToEnd]: what the result
      that the client prints says about the runs of the module.
    - [Rfc6979]: test vectors for the signing code.
    - [Qgs]: [tdx/tdx-qgs-protocol.h] and the code that [tdx/qemu-qgs-protocol.patch]
      adds around it, the framing of TDX quotes.
    - [Protocol]: [formal-verification/tarako-attestation.pv], the symbolic model
      of the protocol against an attacker on the network: terms, roles as
      handlers, and the twelve queries; [ProtocolSafety]: the invariant behind
      them; [ProtocolAttacks]: [formal-verification/test-negative-models.py], the
      honest run and the attacks on weakened models.
    - [QuoteTools]: [test/tarako-quote.py], [test/tdx-attest.py],
      [test/tpm-quote.py] and [test/quote-bench.py], as programs over an arbitrary
      host with a log of what they ask of it; and the command line of the
      attester.

    ** What the theorems show

    - Arithmetic ([Vli]): [carrying_add], [unswap], the comparisons and
      [from_be_bytes] agree with the integers, for every number of limbs.
    - Signing ([Ecdsa], [Ioctl]): the limb code refines integer ECDSA
      ([ecdsa_sign_refines]) and its signatures verify ([ecdsa_sign_verifies]);
      the addition is exact although it can overflow 256 bits
      ([add_reduce_correct]); with the key and nonces of RFC 6979 the code gives
      the published signatures ([Rfc6979]).
    - The [unsafe] blocks ([Externs], [Layout]): pointers, lengths and aliasing are
      what the kernel asks for, so each block computes the function on values
      that the rest of the development uses; the structures have the kernel's
      layout, and no padding of kernel memory reaches a process.
    - Memory and resources ([Ecc], [Ioctl], [Tarako]): no fault on any path, the
      kernel heap is restored by every call, at most the 257 bytes at the
      caller's address are accessed, one device reference per open file.
      [module_releases]: all that ever leaves the module is its public key and
      validly signed responses for the digest of the very caller, each written by
      the run of that caller's ioctl.
    - Policy ([Ioctl], [Tarako]): no key [ENXIO], unmeasured key [EPERM], caller
      without fs-verity never served; [signing_attests] puts this together for
      every reachable state of the life cycle.  The statements hold while other
      threads rewrite the caller's buffer: they speak of what was read and
      written, and of what the buffer holds only if nobody else writes there.
    - The cell ([SetOnce]): an optional value filled once, when used from one
      thread; race freedom, agreement and stability of references under every
      interleaving.
    - Life cycle ([Tarako]): references never dangle, [EBUSY] is unreachable,
      refusals change nothing ([ioctl_refusals]), an unloaded module holds no
      secret, and the module can be removed from every reachable state
      ([removal_possible]).
    - Ioctls at the same time ([Programs], [Concurrent]): a tree of actions runs like
      the handler it is made from ([ioctl_agrees]) and is finite; interleaved in any
      way, no call faults, each answers as promised, and nothing of them is left
      in the kernel ([concurrent_calls]).  A call that runs among others sees a
      kernel with the same laws, [view_kernel]; so the theorems on handlers apply
      to it.
    - Userspace ([Wire], [Attester], [Verifier], [Attestation], [Client], [Flow]):
      the encodings round trip; a challenge is used at most once; acceptance is
      sound ([verify_sound]); the text the client checks determines the result
      ([canonical_json]);
      the attester's quotes are good because the driver is a [SigningDevice];
      the honest exchange succeeds ([client_accepts_honest]) for requests that
      the Go and Python JSON encoders write alike, which [request_contexts_agree]
      characterizes: for others the programs disagree.
    - End to end ([Security], [EndToEnd]): acceptance by the verifier means that a
      process with the approved digest was served by the module for this very
      request and nonce, in one run of an ioctl that wrote the response to it
      ([acceptance_implies_attestation]); and so does the result that the client
      prints ([client_acceptance_attests]).  Nothing is assumed of signatures,
      certificates and hashes: the other outcomes are an explicit forgery in the
      evidence, an explicit collision, or a text that is signed under a certified
      key and is no result of the service.
    - Framing ([Qgs]): the parser accepts exactly complete frames of nonempty
      quotes; the receiver gives a quote exactly if a piece of the stream ends
      where its frame ends, wherever the others end ([receive_exact]); and the
      request is framed correctly.
    - Protocol ([ProtocolSafety], [ProtocolAttacks]): all queries hold in every
      reachable state, for any number of verifiers, requests and clients
      ([queries_hold]); they are not vacuous, and every check that the test
      removes is needed ([negative_models]).
    - Tools ([QuoteTools]): a quote of the tool attests its nonce
      ([tarako_quote_attests]); a time is reported only for a verified quote
      ([tdx_timing_verified]), and the benchmark counts nothing else
      ([bench_samples]).

    ** Bounds

    Limbs, bytes and sizes are integers with their width written out: [mod 2^64]
    in the carry chain, [mod 2^32] for [c_uint] casts, [checked_add] and
    [checked_mul] for [usize].  The signing loop has the source's own bound of
    100 attempts, the client's of 5; nothing else needs fuel, since every other
    loop of the source runs over a list.  Theorems over [Vli] hold for every [N] below the [c_uint]
    range; the handlers use [N = 4].

    ** What is not modelled

    - Log messages; the [module!] and [vtable] macros; [Send] and [Sync].
    - The allocator below [ecc_alloc_point]: it may fail or return a point
      without buffers, at its own discretion.
    - Copies that moving a [Vli] leaves on the stack: [drop] wipes the storage
      the value has when it is dropped, and nothing is claimed of older copies.
    - Loading and unloading inside a handler: in the life cycle of [Tarako] an
      ioctl takes its reference to the key in one step and runs in another.  The
      interleaving of the bodies of ioctls is that of [Concurrent], where the key
      of a call is the one it found, and the points and buffers are those of the
      calls and of the start: what other users of the kernel's curve functions
      allocate meanwhile is not there.  Its actions are calls of kernel functions
      and accesses to kernel memory as a whole, one after the other.
    - What orders the uses of the cell after a [clear] behind it: the contract of
      the unsafe method asks its caller for that, and [SetOnce] relies on it.
    - The RCU read section around the fs-verity lookup: the task's links do not
      change during the lookup.
    - The web frameworks, the transport of JSON between the programs (a decoded
      value is taken to be the one that was encoded; numbers are integers), the
      HTTP and command-line parts of the attester and the verifier; the
      completion of a TDX quote request inside QEMU, whose source is not in the
      repository; the statistics of the benchmark, tests and packaging.
    - In the protocol, the execution of a role between two inputs is one step;
      running ProVerif is left out.
    - P-256 itself: the group enters through [EcGroup] and the kernel's and the
      [cryptography] package's documented behaviour; unforgeability is not a
      property of this code, and a forgery is a case of the theorems of [Security]
      and [EndToEnd].
*)
From stdpp Require Import base gmap list numbers.
From Stdlib Require Import ZArith Lia.
#[global] Open Scope Z_scope.

(** ** Automation *)

Create HintDb digits.
Create Rewrite HintDb len.

(** Splits hypotheses and goals that are conjunctions or existentials. *)
Ltac split_hyps :=
  repeat match goal with
  | H : _ /\ _ |- _ => destruct H
  | H : exists _, _ |- _ => destruct H
  end.

(** Rewrites list lengths, then finishes with linear arithmetic. *)
Ltac len := autorewrite with len in *; simpl in *; lia.

#[export] Hint Rewrite @length_app @length_take @length_drop @length_replicate
  @length_fmap @length_reverse @length_seq : len.

(** Well-formedness of a concrete list of digits or bytes. *)
Ltac concrete_digits :=
  repeat first [apply List.Forall_nil | apply List.Forall_cons; [split; done|]].

(** Equal triples, without reducing the components. *)
Lemma triple_eq {A B C} (a a' : A) (b b' : B) (c c' : C) :
  (a, b, c) = (a', b', c') -> a = a' /\ b = b' /\ c = c'.
Proof. by intros [= -> -> ->]. Qed.

(** ** Fixed-width digits

    A little-endian digit string in base [2^w] and the number it stands for.
    Bytes are the instance [w = 8], limbs the instance [w = 64]. *)

Definition digit_ok (w d : Z) : Prop := 0 <= d < 2 ^ w.

Definition digits_ok (w : Z) (l : list Z) : Prop := Forall (digit_ok w) l.

Fixpoint value (w : Z) (l : list Z) : Z :=
  match l with
  | [] => 0
  | d :: l => d + 2 ^ w * value w l
  end.

Fixpoint digits (w : Z) (n : nat) (z : Z) : list Z :=
  match n with
  | O => []
  | S n => z mod 2 ^ w :: digits w n (z / 2 ^ w)
  end.

Lemma value_nil w : value w [] = 0.
Proof. done. Qed.

Lemma value_cons w d l : value w (d :: l) = d + 2 ^ w * value w l.
Proof. done. Qed.

Section Digits.
Context (w : Z) (Hw : 0 < w).

Lemma radix_pos : 0 < 2 ^ w.
Proof using Hw. apply Z.pow_pos_nonneg; lia. Qed.

Lemma digits_length n z : length (digits w n z) = n.
Proof. revert z; induction n; simpl; auto. Qed.

Lemma digits_wf n z : digits_ok w (digits w n z).
Proof using Hw.
  pose proof radix_pos. revert z; induction n; intros z; cbn [digits].
  - constructor.
  - constructor; [by apply Z.mod_pos_bound | apply IHn].
Qed.

Lemma radix_succ n : 2 ^ (w * Z.of_nat (S n)) = 2 ^ w * 2 ^ (w * Z.of_nat n).
Proof using Hw. rewrite <- Z.pow_add_r by lia. f_equal. lia. Qed.

Lemma radix_pow_pos n : 0 < 2 ^ (w * Z.of_nat n).
Proof using Hw. apply Z.pow_pos_nonneg; lia. Qed.

Lemma value_digits n z : value w (digits w n z) = z mod 2 ^ (w * Z.of_nat n).
Proof using Hw.
  pose proof radix_pos. revert z; induction n; intros z.
  - rewrite Z.mul_0_r, Z.mod_1_r. done.
  - cbn [digits value]. rewrite IHn, radix_succ, Z.rem_mul_r; try lia.
Qed.

Lemma value_bound l : digits_ok w l -> 0 <= value w l < 2 ^ (w * Z.of_nat (length l)).
Proof using Hw.
  pose proof radix_pos. induction 1 as [|d l Hd _ IH].
  - simpl. rewrite Z.mul_0_r. lia.
  - cbn [length value]. rewrite radix_succ. unfold digit_ok in Hd. nia.
Qed.

Lemma value_app l1 l2 :
  value w (l1 ++ l2) = value w l1 + 2 ^ (w * Z.of_nat (length l1)) * value w l2.
Proof using Hw.
  induction l1 as [|d l1 IH]; cbn [app length value].
  - rewrite Z.mul_0_r. lia.
  - rewrite IH, radix_succ. ring.
Qed.

Lemma digits_value l : digits_ok w l -> digits w (length l) (value w l) = l.
Proof using Hw.
  pose proof radix_pos. induction 1 as [|d l Hd _ IH]; cbn [length digits value]; [done|].
  unfold digit_ok in Hd. f_equal.
  - rewrite Z.mul_comm, Z.mod_add by lia. by apply Z.mod_small.
  - rewrite Z.mul_comm, Z.div_add, (Z.div_small d) by lia. by rewrite Z.add_0_l.
Qed.

Lemma value_inj l1 l2 :
  digits_ok w l1 -> digits_ok w l2 -> length l1 = length l2 ->
  value w l1 = value w l2 -> l1 = l2.
Proof using Hw.
  intros H1 H2 Hl Hv. rewrite <- (digits_value l1), <- (digits_value l2) by done. congruence.
Qed.

Lemma value_replicate_0 n : value w (replicate n 0) = 0.
Proof. induction n; cbn [replicate value]; lia. Qed.

Lemma value_0_iff l : digits_ok w l -> value w l = 0 <-> l = replicate (length l) 0.
Proof using Hw.
  intros Hl. split; [|intros ->; apply value_replicate_0].
  intros H0. apply value_inj; auto.
  - apply Forall_replicate. pose proof radix_pos. unfold digit_ok. lia.
  - by rewrite length_replicate.
  - by rewrite value_replicate_0.
Qed.
End Digits.

Arguments digits : simpl never.
Arguments value : simpl never.

#[export] Hint Resolve digits_wf : digits.
#[export] Hint Rewrite digits_length : len.

(** ** Regrouping digits: one digit of [m * w] bits is [m] digits of [w] bits *)

Section Regroup.
Context (w : Z) (m : nat) (Hw : 0 < w).

Definition regroup (l : list Z) : list Z := mjoin (digits w m <$> l).

Lemma length_regroup l : length (regroup l) = (m * length l)%nat.
Proof using Type.
  induction l as [|d l IH]; [simpl; lia|].
  change (regroup (d :: l)) with (digits w m d ++ regroup l).
  rewrite length_app, digits_length, IH. simpl. lia.
Qed.

Lemma regroup_wf l : digits_ok w (regroup l).
Proof using Hw.
  unfold regroup. induction l; simpl; [constructor|].
  apply Forall_app; split; [by apply digits_wf | done].
Qed.

Lemma regroup_app l1 l2 : regroup (l1 ++ l2) = regroup l1 ++ regroup l2.
Proof. unfold regroup. by rewrite fmap_app, join_app. Qed.

Lemma value_regroup l :
  digits_ok (w * Z.of_nat m) l -> value w (regroup l) = value (w * Z.of_nat m) l.
Proof using Hw.
  induction 1 as [|d l Hd _ IH]; [done|].
  change (regroup (d :: l)) with (digits w m d ++ regroup l).
  rewrite value_app, digits_length, value_digits, IH by done. cbn [value].
  by rewrite Z.mod_small.
Qed.
End Regroup.

#[export] Hint Rewrite length_regroup : len.
#[export] Hint Resolve regroup_wf : digits.

(** ** Bytes: the conversions of the Rust [u64] and of byte arrays *)

Definition byte_ok (b : Z) : Prop := digit_ok 8 b.
Abbreviation bytes_ok := (digits_ok 8).
Abbreviation limbs_ok := (digits_ok 64).

(** [u64::to_le_bytes], [u64::to_be_bytes] and [u64::from_be] on a
    little-endian target, where [from_be] reverses the eight bytes. *)
Definition to_le_bytes (v : Z) : list Z := digits 8 8 v.
Definition to_be_bytes (v : Z) : list Z := reverse (to_le_bytes v).
Definition from_be (v : Z) : Z := value 8 (to_be_bytes v).

(** The number a big-endian byte string stands for. *)
Definition be_value (bs : list Z) : Z := value 8 (reverse bs).

(** The object representation of an array of limbs. *)
Definition limbs_bytes (l : list Z) : list Z := regroup 8 8 l.

Lemma to_be_bytes_wf v : bytes_ok (to_be_bytes v).
Proof. apply Forall_reverse, digits_wf. lia. Qed.

Lemma to_be_bytes_length v : length (to_be_bytes v) = 8%nat.
Proof. unfold to_be_bytes, to_le_bytes. by rewrite length_reverse, digits_length. Qed.

#[export] Hint Rewrite to_be_bytes_length : len.
#[export] Hint Resolve to_be_bytes_wf : digits.

Lemma from_be_wf v : digit_ok 64 (from_be v).
Proof.
  pose proof (value_bound 8 ltac:(lia) (to_be_bytes v) (to_be_bytes_wf v)) as H.
  by rewrite to_be_bytes_length in H.
Qed.

#[export] Hint Resolve from_be_wf : digits.

Lemma to_le_bytes_from_be v : to_le_bytes (from_be v) = to_be_bytes v.
Proof.
  pose proof (digits_value 8 ltac:(lia) (to_be_bytes v) (to_be_bytes_wf v)) as H.
  by rewrite to_be_bytes_length in H.
Qed.

(** Byte reversal is an involution on 64-bit words. *)
Lemma from_be_involutive v : digit_ok 64 v -> from_be (from_be v) = v.
Proof.
  intros Hv. unfold from_be at 1, to_be_bytes. rewrite to_le_bytes_from_be.
  unfold to_be_bytes. rewrite reverse_involutive. unfold to_le_bytes.
  rewrite value_digits by lia. by apply Z.mod_small.
Qed.

(** Reversing the limbs and the bytes of each limb reverses the bytes. *)
Lemma limbs_bytes_reverse l :
  limbs_bytes (from_be <$> reverse l) = reverse (limbs_bytes l).
Proof.
  unfold limbs_bytes. induction l as [|d l IH]; [done|].
  rewrite reverse_cons, fmap_app, regroup_app, IH.
  change (regroup 8 8 (d :: l)) with (to_le_bytes d ++ regroup 8 8 l).
  rewrite reverse_app. f_equal.
  change (to_le_bytes (from_be d) ++ [] = reverse (to_le_bytes d)).
  by rewrite app_nil_r, to_le_bytes_from_be.
Qed.

Lemma limbs_value_bytes l : limbs_ok l -> value 64 l = value 8 (limbs_bytes l).
Proof. intros Hl. symmetry. apply (value_regroup 8 8 ltac:(lia) l Hl). Qed.

Lemma limbs_bytes_length l : length (limbs_bytes l) = (8 * length l)%nat.
Proof. exact (length_regroup 8 8 l). Qed.

Lemma limbs_bytes_wf l : bytes_ok (limbs_bytes l).
Proof. apply regroup_wf. lia. Qed.

#[export] Hint Rewrite limbs_bytes_length : len.
#[export] Hint Resolve limbs_bytes_wf : digits.

(** Concatenating the big-endian bytes of the limbs, most significant limb
    first, is the big-endian byte string of the number. *)
Lemma be_limbs_reverse l : mjoin (to_be_bytes <$> reverse l) = reverse (limbs_bytes l).
Proof.
  unfold limbs_bytes. induction l as [|d l IH]; [done|].
  rewrite reverse_cons, fmap_app, join_app, IH.
  change (regroup 8 8 (d :: l)) with (to_le_bytes d ++ regroup 8 8 l).
  by rewrite reverse_app.
Qed.

Lemma be_value_limbs l : limbs_ok l -> be_value (mjoin (to_be_bytes <$> reverse l)) = value 64 l.
Proof.
  intros Hl. unfold be_value. rewrite be_limbs_reverse, reverse_involutive.
  symmetry. by apply limbs_value_bytes.
Qed.
