(* ===== verification/Exec.v ===== *)
(** Execution of the driver's Rust code.

    A Rust function of the module is a computation [M S A]: it runs on a state
    [S] and either returns a value, returns [Err e] to its caller (the [?]
    operator propagates it), or stops with a fault.  A fault is what the code
    must never do: a panic of a slice operation, or a use of a raw pointer that
    is not live.  The state reached before an error is kept, as it is in Rust. *)
From S2P Require Import Prelude.
From stdpp Require Import base gmap list numbers.

(** ** Errors, faults and computations *)

(** The [kernel::error::code] values the driver returns by name, and the codes
    it obtains from a kernel function's negative return value. *)
Inductive Error :=
  | EPERM | ENOENT | ENXIO | E2BIG | ENOMEM | EFAULT | EBUSY | EINVAL
  | ENOTTY | EOVERFLOW
  | Errno (e : Z).

#[export] Instance Error_eq_dec : EqDecision Error.
Proof. solve_decision. Defined.

Inductive fault := SlicePanic | CopyLenPanic | BadPointer.

(** Rust's [Result<A>]. *)
Inductive Result (A : Type) :=
  | Ok (a : A)
  | Err (e : Error).
Arguments Ok {A} _.
Arguments Err {A} _.

Inductive exec (A : Type) :=
  | Ret (a : A)
  | Throw (e : Error)
  | Fault (f : fault).
Arguments Ret {A} _.
Arguments Throw {A} _.
Arguments Fault {A} _.

Definition M (S A : Type) : Type := S -> exec A * S.

Section Ops.
Context {S : Type}.

#[global] Instance M_ret : MRet (M S) := fun A a st => (Ret a, st).

#[global] Instance M_bind : MBind (M S) := fun A B k m st =>
  match m st with
  | (Ret a, st') => k a st'
  | (Throw e, st') => (Throw e, st')
  | (Fault f, st') => (Fault f, st')
  end.

Definition throw {A} (e : Error) : M S A := fun st => (Throw e, st).
Definition fail_with {A} (f : fault) : M S A := fun st => (Fault f, st).

(** [Option::ok_or(e)?]. *)
Definition ok_or {A} (o : option A) (e : Error) : M S A :=
  match o with Some a => mret a | None => throw e end.

(** [f()?] where [f] is a function without side effects. *)
Definition question {A} (r : Result A) : M S A :=
  match r with Ok a => mret a | Err e => throw e end.

(** The value of a [Result] expression that is matched on, not propagated. *)
Definition as_result {A} (m : M S A) : M S (Result A) := fun st =>
  match m st with
  | (Ret a, st') => (Ret (Ok a), st')
  | (Throw e, st') => (Ret (Err e), st')
  | (Fault f, st') => (Fault f, st')
  end.

(** A scope that owns a value with a destructor: [d] runs when the scope is
    left, by a value or by an error. *)
Definition with_drop {A} (d : M S unit) (m : M S A) : M S A := fun st =>
  match m st with
  | (Fault f, st') => (Fault f, st')
  | (r, st') =>
      match d st' with
      | (Fault f, st'') => (Fault f, st'')
      | (_, st'') => (r, st'')
      end
  end.

(** [&l[lo..hi]]. *)
Definition slice (lo hi : nat) (l : list Z) : M S (list Z) :=
  if bool_decide (lo <= hi /\ hi <= length l)%nat
  then mret (take (hi - lo) (drop lo l))
  else fail_with SlicePanic.

(** [dst[lo..hi].copy_from_slice(src)]; the result is the new [dst]. *)
Definition copy_from_slice (dst : list Z) (lo hi : nat) (src : list Z) : M S (list Z) :=
  if bool_decide (lo <= hi /\ hi <= length dst)%nat
  then if bool_decide (length src = hi - lo)%nat
       then mret (take lo dst ++ src ++ drop hi dst)
       else fail_with CopyLenPanic
  else fail_with SlicePanic.

(** [l[i]] and [l[i] = v] with a constant or computed index. *)
Definition index (l : list Z) (i : nat) : M S Z :=
  match l !! i with Some v => mret v | None => fail_with SlicePanic end.
Definition set_index (l : list Z) (i : nat) (v : Z) : M S (list Z) :=
  if bool_decide (i < length l)%nat then mret (<[i := v]> l) else fail_with SlicePanic.

(** ** Weakest preconditions

    [wp m Qok Qerr st]: from [st], [m] does not fault; if it returns [a] in a
    state [st'] then [Qok a st'], if it returns an error then [Qerr]. *)
Definition wp {A} (m : M S A) (Qok : A -> S -> Prop) (Qerr : Error -> S -> Prop)
    (st : S) : Prop :=
  match m st with
  | (Ret a, st') => Qok a st'
  | (Throw e, st') => Qerr e st'
  | (Fault _, _) => False
  end.

Lemma wp_bind {A B} (m : M S A) (k : A -> M S B) Qok Qerr st :
  wp m (fun a => wp (k a) Qok Qerr) Qerr st -> wp (m ≫= k) Qok Qerr st.
Proof. unfold wp, mbind, M_bind. destruct (m st) as [[] ?]; auto. Qed.

Lemma wp_ret {A} (a : A) (Qok : A -> S -> Prop) Qerr st :
  Qok a st -> wp (mret a) Qok Qerr st.
Proof. auto. Qed.

Lemma wp_throw {A} e (Qok : A -> S -> Prop) (Qerr : Error -> S -> Prop) st :
  Qerr e st -> wp (throw e) Qok Qerr st.
Proof. auto. Qed.

Lemma wp_mono {A} (m : M S A) (Qok Qok' : A -> S -> Prop) (Qerr Qerr' : Error -> S -> Prop) st :
  wp m Qok Qerr st -> (forall a st', Qok a st' -> Qok' a st') ->
  (forall e st', Qerr e st' -> Qerr' e st') -> wp m Qok' Qerr' st.
Proof. unfold wp. destruct (m st) as [[] ?]; auto. Qed.

Lemma wp_ok_or {A} (o : option A) e (Qok : A -> S -> Prop) (Qerr : Error -> S -> Prop) st :
  (forall a, o = Some a -> Qok a st) -> (o = None -> Qerr e st) -> wp (ok_or o e) Qok Qerr st.
Proof. unfold wp, ok_or. destruct o; simpl; auto. Qed.

Lemma wp_question {A} (r : Result A) (Qok : A -> S -> Prop) (Qerr : Error -> S -> Prop) st :
  (forall a, r = Ok a -> Qok a st) -> (forall e, r = Err e -> Qerr e st) ->
  wp (question r) Qok Qerr st.
Proof. unfold wp, question. destruct r; simpl; auto. Qed.

Lemma wp_as_result {A} (m : M S A) (Qok : Result A -> S -> Prop) Qerr st :
  wp m (fun a => Qok (Ok a)) (fun e => Qok (Err e)) st -> wp (as_result m) Qok Qerr st.
Proof. unfold wp, as_result. destruct (m st) as [[] ?]; auto. Qed.

(** A destructor that cannot fail runs between the scope and what follows. *)
Lemma wp_with_drop {A} (d : M S unit) (m : M S A) (Qok : A -> S -> Prop) Qerr st :
  wp m (fun a => wp d (fun _ => Qok a) (fun _ => Qok a))
       (fun e => wp d (fun _ => Qerr e) (fun _ => Qerr e)) st ->
  wp (with_drop d m) Qok Qerr st.
Proof.
  unfold wp, with_drop.
  destruct (m st) as [[a|e|f] st']; auto; destruct (d st') as [[] ?]; auto.
Qed.

Lemma wp_slice lo hi l (Qok : list Z -> S -> Prop) Qerr st :
  (lo <= hi)%nat -> (hi <= length l)%nat -> Qok (take (hi - lo) (drop lo l)) st ->
  wp (slice lo hi l) Qok Qerr st.
Proof. intros. unfold wp, slice. rewrite bool_decide_true by lia. done. Qed.

Lemma wp_copy_from_slice dst lo hi src (Qok : list Z -> S -> Prop) Qerr st :
  (lo <= hi)%nat -> (hi <= length dst)%nat -> length src = (hi - lo)%nat ->
  Qok (take lo dst ++ src ++ drop hi dst) st ->
  wp (copy_from_slice dst lo hi src) Qok Qerr st.
Proof. intros. unfold wp, copy_from_slice. rewrite !bool_decide_true by lia. done. Qed.

Lemma wp_index l i v (Qok : Z -> S -> Prop) Qerr st :
  l !! i = Some v -> Qok v st -> wp (index l i) Qok Qerr st.
Proof. intros H. unfold wp, index. by rewrite H. Qed.

Lemma wp_set_index l i v (Qok : list Z -> S -> Prop) Qerr st :
  (i < length l)%nat -> Qok (<[i := v]> l) st -> wp (set_index l i v) Qok Qerr st.
Proof. intros H. unfold wp, set_index. rewrite bool_decide_true by done. done. Qed.
End Ops.

(** Reads a concrete run off a [wp]. *)
Lemma wp_run {S A} (m : M S A) Qok Qerr st (a : A) st' :
  wp m Qok Qerr st -> m st = (Ret a, st') -> Qok a st'.
Proof. unfold wp. intros H E. by rewrite E in H. Qed.

Lemma wp_run_err {S A} (m : M S A) Qok Qerr st e st' :
  wp m Qok Qerr st -> m st = (Throw e, st') -> Qerr e st'.
Proof. unfold wp. intros H E. by rewrite E in H. Qed.

Lemma wp_no_fault {S A} (m : M S A) Qok Qerr st f st' :
  wp m Qok Qerr st -> m st <> (Fault f, st').
Proof. unfold wp. intros H E. by rewrite E in H. Qed.

(** Whether a concrete run returns a value, by evaluation. *)
Definition returns {S A} (m : M S A) (st : S) : bool :=
  match fst (m st) with Ret _ => true | _ => false end.

Lemma run_ret {S A} (m : M S A) st : returns m st = true -> exists a st', m st = (Ret a, st').
Proof. unfold returns. destruct (m st) as [[] ?]; [by do 2 eexists | done..]. Qed.

(** A run whose result is known, with its final state left unevaluated. *)
Lemma run_fst {S A} (m : M S A) st r : fst (m st) = r -> m st = (r, snd (m st)).
Proof. intros <-. apply surjective_pairing. Qed.

(** One symbolic step of a computation under [wp]. *)
Ltac wp_step :=
  lazymatch goal with
  | |- wp (mbind _ _) _ _ _ => apply wp_bind
  | |- wp (mret _) _ _ _ => apply wp_ret
  | |- wp (throw _) _ _ _ => apply wp_throw
  | |- wp (ok_or _ _) _ _ _ => apply wp_ok_or; [intros ? ?|intros ?]
  | |- wp (question _) _ _ _ => apply wp_question; [intros ? ?|intros ? ?]
  | |- wp (as_result _) _ _ _ => apply wp_as_result
  | |- wp (with_drop _ _) _ _ _ => apply wp_with_drop
  end.
