(* ===== verification/Sha256.v ===== *)
(** SHA-256 (FIPS 180-4) on lists of bytes.

    The hash function of the standard libraries that the userspace programs use
    (Go's [crypto/sha256], Python's [hashlib]); the kernel's [sha256] is an
    operation of the class [Kernel]. *)
From S2P Require Import Prelude.
From stdpp Require Import base list numbers.
From Stdlib Require Import ZArith Lia.
#[local] Open Scope Z_scope.

Module Sha256.

(** ** Words of 32 bits *)

Definition add32 (x y : Z) : Z := (x + y) mod 2 ^ 32.
Definition rotr (n x : Z) : Z := Z.lor (Z.shiftr x n) (Z.shiftl x (32 - n) mod 2 ^ 32).
Definition not32 (x : Z) : Z := 2 ^ 32 - 1 - x.
Definition xor3 (x y z : Z) : Z := Z.lxor x (Z.lxor y z).

Definition Ch (x y z : Z) : Z := Z.lxor (Z.land x y) (Z.land (not32 x) z).
Definition Maj (x y z : Z) : Z := xor3 (Z.land x y) (Z.land x z) (Z.land y z).
Definition Sigma0 (x : Z) : Z := xor3 (rotr 2 x) (rotr 13 x) (rotr 22 x).
Definition Sigma1 (x : Z) : Z := xor3 (rotr 6 x) (rotr 11 x) (rotr 25 x).
Definition sigma0 (x : Z) : Z := xor3 (rotr 7 x) (rotr 18 x) (Z.shiftr x 3).
Definition sigma1 (x : Z) : Z := xor3 (rotr 17 x) (rotr 19 x) (Z.shiftr x 10).

(** The constants are the first 32 bits of the fractional parts of the cube
    roots of the first 64 primes, and of the square roots of the first 8. *)

(** The largest [x] below [2^bits] with [f x <= y], for a monotone [f]. *)
Fixpoint root (f : Z -> Z) (y : Z) (bits : nat) (x : Z) : Z :=
  match bits with
  | O => x
  | S bits =>
      let x' := x + 2 ^ Z.of_nat bits in root f y bits (if f x' <=? y then x' else x)
  end.

Definition is_prime (n : Z) : bool :=
  forallb (fun d => negb (n mod d =? 0)) (seqZ 2 (n - 2)).

Definition primes : list Z := Eval vm_compute in List.filter is_prime (seqZ 2 310).

Definition round_constants : list Z := Eval vm_compute in
  (fun p => root (fun x => x ^ 3) (p * 2 ^ 96) 36 0 mod 2 ^ 32) <$> primes.

Definition initial : list Z := Eval vm_compute in
  (fun p => root (fun x => x ^ 2) (p * 2 ^ 64) 36 0 mod 2 ^ 32) <$> take 8 primes.

(** ** Compression *)

(** [rws] is the schedule so far, latest word first. *)
Fixpoint schedule (n : nat) (rws : list Z) : list Z :=
  match n with
  | O => rws
  | S n =>
      let at_ := fun i => nth i rws 0 in
      schedule n (add32 (add32 (sigma1 (at_ 1%nat)) (at_ 6%nat))
                        (add32 (sigma0 (at_ 14%nat)) (at_ 15%nat)) :: rws)
  end.

Definition round (h : list Z) (kw : Z * Z) : list Z :=
  match h with
  | [a; b; c; d; e; f; g; i] =>
      let t1 := add32 (add32 i (Sigma1 e)) (add32 (Ch e f g) (add32 (fst kw) (snd kw))) in
      let t2 := add32 (Sigma0 a) (Maj a b c) in
      [add32 t1 t2; a; b; c; add32 d t1; e; f; g]
  | _ => h
  end.

Definition compress (h block : list Z) : list Z :=
  let ws := reverse (schedule 48 (reverse block)) in
  zip_with add32 h (foldl round h (zip round_constants ws)).

(** ** Messages *)

(** A big-endian number of [n] bytes. *)
Definition be_bytes (n : nat) (z : Z) : list Z := reverse (digits 8 n z).

Definition pad (bs : list Z) : list Z :=
  bs ++ [0x80] ++ replicate (Z.to_nat ((55 - Z.of_nat (length bs)) mod 64)) 0 ++
  be_bytes 8 (8 * Z.of_nat (length bs)).

Fixpoint words (n : nat) (bs : list Z) : list Z :=
  match n with O => [] | S n => be_value (take 4 bs) :: words n (drop 4 bs) end.

Fixpoint blocks (n : nat) (h bs : list Z) : list Z :=
  match n with
  | O => h
  | S n => blocks n (compress h (words 16 bs)) (drop 64 bs)
  end.

Definition sha256 (bs : list Z) : list Z :=
  let padded := pad bs in
  mjoin (be_bytes 4 <$> blocks (length padded / 64) initial padded).

(** ** A digest is 32 bytes *)

Lemma round_length h kw : length h = 8%nat -> length (round h kw) = 8%nat.
Proof. intros H. do 9 (destruct h as [|? h]; try done). Qed.

Lemma rounds_length kws : forall h, length h = 8%nat -> length (foldl round h kws) = 8%nat.
Proof. induction kws as [|kw kws IH]; intros h Hh; [done|]. by apply IH, round_length. Qed.

Lemma blocks_length n : forall h bs, length h = 8%nat -> length (blocks n h bs) = 8%nat.
Proof.
  induction n as [|n IH]; intros h bs Hh; [done|]. cbn [blocks]. apply IH. unfold compress.
  rewrite length_zip_with, rounds_length by done. lia.
Qed.

Lemma be_bytes_length n z : length (be_bytes n z) = n.
Proof. unfold be_bytes. by rewrite length_reverse, digits_length. Qed.

Lemma be_bytes_ok n z : bytes_ok (be_bytes n z).
Proof. apply Forall_reverse. by apply digits_wf. Qed.

Lemma sha256_wf bs : length (sha256 bs) = 32%nat /\ bytes_ok (sha256 bs).
Proof.
  unfold sha256.
  assert (forall l, length (mjoin (be_bytes 4 <$> l)) = (4 * length l)%nat /\
                    bytes_ok (mjoin (be_bytes 4 <$> l))) as H.
  { induction l as [|w l [IHl IHb]]; [split; [done|constructor]|].
    rewrite fmap_cons.
    change (mjoin (be_bytes 4 w :: (be_bytes 4 <$> l)))
      with (be_bytes 4 w ++ mjoin (be_bytes 4 <$> l)). split.
    - rewrite length_app, be_bytes_length, IHl. cbn [length]. lia.
    - apply Forall_app. split; [apply be_bytes_ok|done]. }
  destruct (H (blocks (length (pad bs) / 64) initial (pad bs))) as [Hl Hb].
  rewrite Hl, blocks_length by done. by split.
Qed.

(** The digests of the empty message, of "abc" and of a message of two blocks. *)
Example sha256_empty : be_value (sha256 []) =
  0xe3b0c44298fc1c149afbf4c8996fb92427ae41e4649b934ca495991b7852b855.
Proof. vm_compute. reflexivity. Qed.

Example sha256_abc : be_value (sha256 [0x61; 0x62; 0x63]) =
  0xba7816bf8f01cfea414140de5dae2223b00361a396177a9cb410ff61f20015ad.
Proof. vm_compute. reflexivity. Qed.

Example sha256_two_blocks : be_value (sha256 (replicate 64 0x61)) =
  0xffe054fe7ae0cb6dc65c3af9b61d5209f439851db43d0ba5997337df154668eb.
Proof. vm_compute. reflexivity. Qed.
End Sha256.
