(* ===== verification/Ffi.v ===== *)
(** The kernel as the driver sees it: [driver/src/ffi.rs] and the parts of the
    [kernel] crate the driver calls.

    The kernel's functions are not part of this repository.  They are the
    operations of the class [Kernel], and what their documentation promises is
    stated in the law classes [VliLaws], [EccLaws], [CurveLaws], [ImaLaws],
    [VerityLaws], [UserLaws], [IoctlLaws] and [MiscLaws].  A theorem names the law classes
    it depends on; [RefKernel] gives an executable kernel that satisfies all of
    them.  The raw-pointer accesses of the driver are computations that fault
    when the pointer is null or not live. *)
From S2P Require Import Prelude Exec.
From stdpp Require Import base gmap list numbers strings.
From Stdlib Require Import ZArith Zdivisibility Lia.
#[local] Open Scope Z_scope.

(** Addresses of kernel allocations; a raw pointer is an [option loc], with
    [None] the null pointer. *)
Abbreviation loc := positive.

Module ffi.
(** [struct ecc_point]: two separately allocated coordinate buffers. *)
Record Point := mkPoint {
  x : option loc;
  y : option loc;
  ndigits : Z }.

(** [struct ecc_curve].  The curves are constants of the kernel: a pointer
    field is represented by the limbs it points to, [None] being null. *)
Record Curve := mkCurve {
  name : string;
  nbits : Z;
  g : option (list Z) * option (list Z) * Z;   (* x, y and ndigits *)
  p : option (list Z);
  n : option (list Z);
  a : option (list Z);
  b : option (list Z) }.
End ffi.

(** One record of the IMA measurement list, in the [ima-buf] template. *)
Record ImaEvent := mkImaEvent {
  ima_label : string;
  ima_name : string;
  ima_buf : list Z }.

Abbreviation inode := positive.

(** The task structures read by [current_exe_fsverity_digest]: [Task::mm] is
    an [Option], the other links are nullable pointers. *)
Record File := mkFile { f_inode : option inode }.
Record MmStruct := mkMm { exe_file : option File }.
Record Task := mkTask { task_mm : option (option MmStruct) }.

(** The state a computation of the driver runs on: the live [ecc_point]
    structures, the live limb buffers, and everything else of the kernel. *)
Record kstate (W : Type) := KState {
  points : gmap loc ffi.Point;
  mem : gmap loc (list Z);
  world : W }.
Arguments KState {W} _ _ _.
Arguments points {W} _.
Arguments mem {W} _.
Arguments world {W} _.

(** A transfer between the driver and user memory: bytes read, or bytes written
    with whether all of them were stored (a write that faults may have stored a
    prefix). *)
Inductive uaccess :=
  | URead (ptr : Z) (bs : list Z)
  | UWrite (ptr : Z) (bs : list Z) (complete : bool).

(** Rust's [n as c_uint]. *)
Definition c_uint (n : nat) : Z := Z.of_nat n mod 2 ^ 32.

(** A buffer of exactly [n] limbs, and the number it holds. *)
Definition vli_ok (n : nat) (l : list Z) : Prop := length l = n /\ limbs_ok l.
Abbreviation val := (value 64).

(** ** Operations *)

Class Kernel (W : Type) := {
  (* crypto/ecc.c *)
  ecc_alloc_point : Z -> kstate W -> option loc * kstate W;
  ecc_free_point : loc -> kstate W -> kstate W;
  ecc_gen_privkey : Z -> Z -> list Z -> W -> (Z * list Z) * W;
  ecc_make_pub_key : Z -> Z -> list Z -> list Z -> W -> (Z * list Z) * W;
  ecc_get_curve : Z -> option ffi.Curve;
  ecc_digits_from_bytes : list Z -> Z -> Z -> list Z;
  vli_mod_inv : list Z -> list Z -> Z -> list Z;
  vli_mod_mult_slow : list Z -> list Z -> list Z -> Z -> list Z;
  vli_cmp : list Z -> list Z -> Z -> Z;
  vli_sub : list Z -> list Z -> Z -> list Z * Z;
  vli_is_zero : list Z -> Z -> bool;
  (* lib/crypto/sha256.c *)
  sha256 : list Z -> list Z;
  (* security/integrity/ima/ima_main.c; a null [digest] is [None] *)
  ima_measure_critical_data :
    string -> string -> list Z -> bool -> option (list Z) -> W -> Z * W;
  (* fs/verity/measure.c; the optional outputs are always null here *)
  fsverity_get_digest : inode -> list Z -> W -> (Z * list Z) * W;
  (* kernel::error *)
  from_errno : Z -> Error;
  (* kernel::uaccess: [UserSlice::new(ptr, len)] and its reader and writer *)
  read_slice : Z -> Z -> nat -> W -> Result (list Z) * W;
  write_slice : Z -> Z -> list Z -> W -> Result unit * W;
  (* kernel::ioctl; the type parameter of the macros is its size *)
  IO : Z -> Z -> Z;
  IOR : Z -> Z -> Z -> Z;
  IOWR : Z -> Z -> Z -> Z;
  IOC_SIZE : Z -> Z;
  (* kernel::miscdevice *)
  misc_register : string -> W -> Result unit * W;
  misc_deregister : W -> W;
  (* observations used by the laws *)
  ima_log : W -> list ImaEvent;
  user_log : W -> list uaccess;        (* the transfers so far *)
  user_byte : W -> Z -> option Z;
  quiet : Prop;                        (* nobody else writes user memory during calls *)
  verity_digest : inode -> option (list Z);
  curve_order : Z;                     (* the order of the P-256 base point *)
  curve_coords : Z -> Z * Z            (* the affine coordinates of k·G *)
}.

(** What every kernel function keeps: measurements are never removed, and the
    driver transfers data to and from user memory only with [read_slice] and
    [write_slice].  Other threads of the caller may change user memory at any
    time, unless the kernel is [quiet]. *)
Definition keeps `{Kernel W} (w w' : W) : Prop :=
  ima_log w `prefix_of` ima_log w' /\ user_log w' = user_log w /\
  (quiet -> user_byte w' = user_byte w).

(** Adding and removing a coordinate buffer. *)
Definition add_buf (o : option loc) (b : list Z) (m : gmap loc (list Z)) :=
  match o with Some l => <[l := b]> m | None => m end.
Definition del_buf (o : option loc) (m : gmap loc (list Z)) :=
  match o with Some l => delete l m | None => m end.

(** [ecc_swap_digits]: limbs most significant first, each byte-swapped. *)
Definition swap_digits (v : list Z) : list Z := from_be <$> reverse v.

(** ** Laws *)

(** Limb arithmetic of [crypto/ecc.c].  The modulus of [vli_mod_mult_slow] and
    [vli_mod_inv] is a curve order: its top bit is set. *)
Class VliLaws (W : Type) `{!Kernel W} : Prop := {
  vli_is_zero_ok n l : Z.of_nat n < 2 ^ 32 -> vli_ok n l ->
    vli_is_zero l (Z.of_nat n) = bool_decide (val l = 0);
  vli_cmp_ok n l r : Z.of_nat n < 2 ^ 32 -> vli_ok n l -> vli_ok n r ->
    vli_cmp l r (Z.of_nat n) = match val l ?= val r with Lt => -1 | Eq => 0 | Gt => 1 end;
  vli_sub_ok n l r : Z.of_nat n < 2 ^ 32 -> vli_ok n l -> vli_ok n r ->
    vli_sub l r (Z.of_nat n) = (digits 64 n (val l - val r), if val l <? val r then 1 else 0);
  vli_mod_mult_ok n l r m : Z.of_nat n < 2 ^ 32 ->
    vli_ok n l -> vli_ok n r -> vli_ok n m -> 2 ^ (64 * Z.of_nat n - 1) < val m ->
    vli_mod_mult_slow l r m (Z.of_nat n) = digits 64 n ((val l * val r) mod val m);
  vli_mod_inv_ok n l m : Z.of_nat n < 2 ^ 32 ->
    vli_ok n l -> vli_ok n m -> 2 ^ (64 * Z.of_nat n - 1) < val m -> Z.odd (val m) = true ->
    0 < val l < val m -> Z.coprime (val l) (val m) ->
    exists i, vli_mod_inv l m (Z.of_nat n) = digits 64 n i /\ 0 <= i < val m /\
              (val l * i) mod val m = 1;
  ecc_digits_ok n bs : Z.of_nat n < 2 ^ 32 -> bytes_ok bs -> length bs = (8 * n)%nat ->
    ecc_digits_from_bytes bs (Z.of_nat (8 * n)) (Z.of_nat n) = digits 64 n (be_value bs);
  sha256_ok bs : length (sha256 bs) = 32%nat /\ bytes_ok (sha256 bs)
}.

(** Point allocation: a new point has coordinate buffers of its own (either may
    be missing), and freeing it releases exactly those. *)
Class EccLaws (W : Type) `{!Kernel W} : Prop := {
  ecc_alloc_ok nd st o st' : ecc_alloc_point nd st = (o, st') ->
    keeps (world st) (world st') /\
    match o with
    | None => points st' = points st /\ mem st' = mem st
    | Some p => exists pt bx by_,
        points st !! p = None /\ points st' = <[p := pt]> (points st) /\
        mem st' = add_buf (ffi.y pt) by_ (add_buf (ffi.x pt) bx (mem st)) /\
        (forall l, ffi.x pt = Some l -> mem st !! l = None) /\
        (forall l, ffi.y pt = Some l -> mem st !! l = None) /\
        (forall l, ffi.x pt = Some l -> ffi.y pt = Some l -> False) /\
        Z.of_nat (length bx) = nd /\ Z.of_nat (length by_) = nd
    end;
  ecc_free_ok p st pt : points st !! p = Some pt ->
    keeps (world st) (world (ecc_free_point p st)) /\
    points (ecc_free_point p st) = delete p (points st) /\
    mem (ecc_free_point p st) = del_buf (ffi.y pt) (del_buf (ffi.x pt) (mem st));
  ecc_gen_privkey_frame cid nd key w r key' w' :
    ecc_gen_privkey cid nd key w = ((r, key'), w') ->
    keeps w w' /\ length key' = length key;
  ecc_make_pub_key_frame cid nd priv raw w r raw' w' :
    ecc_make_pub_key cid nd priv raw w = ((r, raw'), w') ->
    keeps w w' /\ length raw' = length raw /\ limbs_ok raw'
}.

(** The P-256 group: a private key is in range, a public key is its multiple
    of the base point, in byte-swapped limbs. *)
Class CurveLaws (W : Type) `{!Kernel W} : Prop := {
  order_prime : Z.prime curve_order;
  order_bits : 2 ^ 255 < curve_order < 2 ^ 256;
  coords_bound k : 0 <= fst (curve_coords k) < 2 ^ 256 /\ 0 <= snd (curve_coords k) < 2 ^ 256;
  get_curve_ok c l : ecc_get_curve 2 = Some c -> ffi.n c = Some l ->
    vli_ok 4 l /\ val l = curve_order;
  gen_privkey_ok key w r key' w' :
    length key = 4%nat -> ecc_gen_privkey 2 4 key w = ((r, key'), w') -> 0 <= r ->
    vli_ok 4 key' /\ 0 < val key' < curve_order;
  make_pub_key_ok priv raw w r raw' w' :
    vli_ok 4 priv -> 0 < val priv < curve_order -> length raw = 8%nat ->
    ecc_make_pub_key 2 4 priv raw w = ((r, raw'), w') -> 0 <= r ->
    raw' = swap_digits (digits 64 4 (fst (curve_coords (val priv)))) ++
           swap_digits (digits 64 4 (snd (curve_coords (val priv))))
}.

(** IMA: without a digest output, a non-negative result means the buffer
    itself was appended to the measurement list. *)
Class ImaLaws (W : Type) `{!Kernel W} : Prop := {
  ima_measure_frame label name buf h d w r w' :
    ima_measure_critical_data label name buf h d w = (r, w') -> keeps w w';
  ima_measure_ok label name buf w r w' :
    ima_measure_critical_data label name buf false None w = (r, w') -> 0 <= r ->
    exists l, ima_log w' = ima_log w ++ l /\ mkImaEvent label name buf ∈ l
}.

(** fs-verity: a positive result is the size of the digest, written at the
    start of the buffer; a file without fs-verity has no positive result. *)
Class VerityLaws (W : Type) `{!Kernel W} : Prop := {
  fsverity_frame i buf w r buf' w' :
    fsverity_get_digest i buf w = ((r, buf'), w') ->
    keeps w w' /\ length buf' = length buf /\ bytes_ok buf';
  fsverity_ok i buf w r buf' w' :
    fsverity_get_digest i buf w = ((r, buf'), w') -> 0 < r -> r <= Z.of_nat (length buf) ->
    verity_digest i = Some (take (Z.to_nat r) buf')
}.

(** User memory accesses through a [UserSlice] of [len] bytes.  What is read is
    what was there only if nobody else writes. *)
Class UserLaws (W : Type) `{!Kernel W} : Prop := {
  read_slice_ok ptr len n w bs w' : read_slice ptr len n w = (Ok bs, w') ->
    ima_log w `prefix_of` ima_log w' /\ user_log w' = user_log w ++ [URead ptr bs] /\
    Z.of_nat n <= len /\ length bs = n /\ bytes_ok bs /\
    (quiet -> user_byte w' = user_byte w /\
      forall i b, bs !! i = Some b -> user_byte w (ptr + Z.of_nat i) = Some b);
  read_slice_err ptr len n w e w' : read_slice ptr len n w = (Err e, w') ->
    keeps w w' /\ e = EFAULT;
  write_slice_ok ptr len bs w w' : write_slice ptr len bs w = (Ok tt, w') ->
    ima_log w `prefix_of` ima_log w' /\ user_log w' = user_log w ++ [UWrite ptr bs true] /\
    Z.of_nat (length bs) <= len /\
    (quiet -> bytes_ok bs ->
      forall i b, bs !! i = Some b -> user_byte w' (ptr + Z.of_nat i) = Some b) /\
    (quiet -> forall z, z < ptr \/ ptr + Z.of_nat (length bs) <= z ->
      user_byte w' z = user_byte w z);
  write_slice_err ptr len bs w e w' : write_slice ptr len bs w = (Err e, w') ->
    ima_log w `prefix_of` ima_log w' /\ user_log w' = user_log w ++ [UWrite ptr bs false] /\
    e = EFAULT /\
    (quiet -> forall z, z < ptr \/ ptr + Z.of_nat (length bs) <= z ->
      user_byte w' z = user_byte w z)
}.

(** The ioctl number encoding of [asm-generic/ioctl.h]: eight bits of number,
    eight of type, fourteen of size and two of direction. *)
Definition ioc_encoding (dir ty nr size : Z) : Z :=
  Z.lor (Z.shiftl dir 30) (Z.lor (Z.shiftl size 16) (Z.lor (Z.shiftl ty 8) nr)).

Class IoctlLaws (W : Type) `{!Kernel W} : Prop := {
  IO_ok ty nr : IO ty nr = ioc_encoding 0 ty nr 0;
  IOR_ok ty nr size : IOR ty nr size = ioc_encoding 2 ty nr size;
  IOWR_ok ty nr size : IOWR ty nr size = ioc_encoding 3 ty nr size;
  IOC_SIZE_ok cmd : IOC_SIZE cmd = Z.land (Z.shiftr cmd 16) (2 ^ 14 - 1)
}.

(** Registration of the misc device touches neither the log nor user memory. *)
Class MiscLaws (W : Type) `{!Kernel W} : Prop := {
  misc_register_frame name w r w' : misc_register name w = (r, w') -> keeps w w';
  misc_deregister_frame w : keeps w (misc_deregister w)
}.

(** ** Lemmas on limb buffers and on what calls keep *)

Lemma vli_ok_bound N l : vli_ok N l -> 0 <= val l < 2 ^ (64 * Z.of_nat N).
Proof. intros [<- Hl]. by apply value_bound. Qed.

Lemma vli_ok_digits N z : vli_ok N (digits 64 N z).
Proof. split; [apply digits_length | by apply digits_wf]. Qed.

Lemma val_digits N z : 0 <= z < 2 ^ (64 * Z.of_nat N) -> val (digits 64 N z) = z.
Proof. intros. rewrite value_digits by lia. by apply Z.mod_small. Qed.

Lemma digits_val N l : vli_ok N l -> digits 64 N (val l) = l.
Proof. intros [<- Hl]. by apply digits_value. Qed.

Lemma c_uint_small N : Z.of_nat N < 2 ^ 32 -> c_uint N = Z.of_nat N.
Proof. intros. apply Z.mod_small. lia. Qed.

#[export] Instance keeps_preorder `{Kernel W} : PreOrder keeps.
Proof.
  split; [by intros w|]. intros w1 w2 w3 (H1 & E1 & Q1) (H2 & E2 & Q2).
  split_and!; [by etrans | congruence | intros Hq; by rewrite Q2, Q1].
Qed.

#[export] Hint Resolve vli_ok_digits : digits.

(** ** Calls and raw memory accesses *)

Section Calls.
Context {W : Type} `{!Kernel W}.

Definition KM (A : Type) : Type := M (kstate W) A.

(** A call of a kernel function that touches neither points nor buffers. *)
Definition call {A} (f : W -> A * W) : KM A := fun st =>
  let '(r, w') := f (world st) in (Ret r, KState (points st) (mem st) w').

(** A call of a kernel-crate function that returns a [Result], with [?]. *)
Definition call_result {A} (f : W -> Result A * W) : KM A :=
  r ← call f; question r.

Definition alloc_point (nd : Z) : KM (option loc) := fun st =>
  let '(o, st') := ecc_alloc_point nd st in (Ret o, st').

(** Freeing a point that is not live would corrupt the heap. *)
Definition free_point (p : loc) : KM unit := fun st =>
  match points st !! p with
  | Some _ => (Ret tt, ecc_free_point p st)
  | None => (Fault BadPointer, st)
  end.

(** [NonNull::as_ref] on a point. *)
Definition deref_point (p : loc) : KM ffi.Point := fun st =>
  match points st !! p with
  | Some pt => (Ret pt, st)
  | None => (Fault BadPointer, st)
  end.

(** [core::ptr::read] of [n] limbs. *)
Definition read_limbs (o : option loc) (n : nat) : KM (list Z) := fun st =>
  match o ≫= fun l => mem st !! l with
  | Some b => if bool_decide (n <= length b)%nat then (Ret (take n b), st)
              else (Fault BadPointer, st)
  | None => (Fault BadPointer, st)
  end.

(** [core::ptr::copy_nonoverlapping] of the limbs [src] to the address [o]. *)
Definition write_limbs (o : option loc) (src : list Z) : KM unit := fun st =>
  match o with
  | Some l =>
      match mem st !! l with
      | Some b => if bool_decide (length src <= length b)%nat
          then (Ret tt, KState (points st) (<[l := src ++ drop (length src) b]> (mem st)) (world st))
          else (Fault BadPointer, st)
      | None => (Fault BadPointer, st)
      end
  | None => (Fault BadPointer, st)
  end.
End Calls.
Arguments KM W A : clear implicits.
