(* ===== verification/PrimeCert.v ===== *)
(** Primality by Pocklington certificates, and the order of the P-256 base
    point: a prime with the top bit of its 256 bits set. *)
From S2P Require Import Prelude.
From Stdlib Require Import ZArith Znumtheory Zpow_facts Zmod Lia Wf_Z.
From stdpp Require Import base tactics.
#[local] Open Scope bool_scope.
#[local] Open Scope Z_scope.

(** ** Trial division *)

Fixpoint no_divisor (p d : Z) (fuel : nat) : bool :=
  match fuel with
  | O => true
  | S fuel => negb (p mod d =? 0) && no_divisor p (d + 1) fuel
  end.

Lemma no_divisor_ok p fuel : forall d n, no_divisor p d fuel = true -> 0 < d ->
  d <= n < d + Z.of_nat fuel -> ~ (n | p).
Proof.
  induction fuel as [|fuel IH]; intros d n H Hd Hn; [lia|].
  cbn [no_divisor] in H. apply andb_prop in H as [H1 H2].
  destruct (Z.eq_dec n d) as [->|Hne].
  - intros Hdiv. rewrite (Z.mod0_divide _ _ Hdiv) in H1. discriminate.
  - apply (IH (d + 1)); [assumption | lia | lia].
Qed.

(** A divisor above the square root has a cofactor below it. *)
Lemma prime_from_small p k :
  1 < p -> p < k * k -> 0 < k -> (forall n, 1 < n < k -> ~ (n | p)) -> Z.prime p.
Proof.
  intros Hp Hk Hk0 H. split; [assumption|]. intros n Hn [m Hm].
  destruct (Z.lt_ge_cases n k) as [Hlt|Hge].
  - apply (H n); [lia | exists m; assumption].
  - apply (H m); [nia | exists n; lia].
Qed.

Lemma trial_prime p k :
  (1 <? p) && (p <? Z.of_nat (k + 2) * Z.of_nat (k + 2)) && no_divisor p 2 k = true -> Z.prime p.
Proof.
  rewrite !andb_true_iff, !Z.ltb_lt. intros [[H1 H2] H3].
  apply prime_from_small with (Z.of_nat (k + 2)); [lia | lia | lia |].
  intros n Hn. apply (no_divisor_ok p k 2); [assumption | lia | lia].
Qed.

(** ** Pocklington's criterion *)

Lemma prime_divisor n : 1 < n -> exists r, Z.prime r /\ (r | n).
Proof.
  intros Hn. assert (Hn0 : 0 <= n) by lia. revert Hn.
  pattern n. apply Z_lt_induction; [clear n Hn0|assumption]. intros n IH Hn.
  destruct (prime_dec n) as [Hp|Hp].
  - exists n. split; [by apply prime_alt | apply Z.divide_refl].
  - destruct (not_prime_divide n Hn Hp) as (d & Hd & Hdn).
    destruct (IH d ltac:(lia) ltac:(lia)) as (r & Hr & Hrd).
    exists r. split; [assumption | by apply Z.divide_trans with d].
Qed.

(** If every prime factor of [N] is [1] modulo [F] and [F^2 > N], [N] is prime. *)
Lemma prime_from_factors N F :
  1 < N -> 0 < F -> N < F * F -> (forall r, Z.prime r -> (r | N) -> (F | r - 1)) -> Z.prime N.
Proof.
  intros HN HF Hsq H. apply prime_from_small with F; try assumption.
  intros n Hn Hdiv. destruct (prime_divisor n ltac:(lia)) as (r & Hr & Hrn).
  pose proof (Z.prime_ge_2 _ Hr). pose proof (Z.divide_pos_le r n ltac:(lia) Hrn).
  pose proof (H r Hr (Z.divide_trans _ _ _ Hrn Hdiv)) as HFr.
  pose proof (Z.divide_pos_le F (r - 1) ltac:(lia) HFr). lia.
Qed.

Lemma mod_1_divide b r : 1 < r -> b mod r = 1 -> (r | b - 1).
Proof. intros Hr Hb. exists (b / r). pose proof (Z.div_mod b r ltac:(lia)). lia. Qed.

Lemma pow_mod_1 b r k : 1 < r -> 0 <= k -> b mod r = 1 -> b ^ k mod r = 1.
Proof.
  intros Hr Hk Hb. rewrite <- Z.mod_pow_l, Hb, Z.pow_1_l by assumption. by apply Z.mod_1_l.
Qed.

(** An element of order dividing both [q] and [r - 1], coprime, is one. *)
Lemma coprime_orders b q r :
  Z.prime r -> 0 < q -> Z.coprime q (r - 1) -> b ^ q mod r = 1 -> b mod r = 1.
Proof.
  intros Hr Hq Hco Hbq. pose proof (Z.prime_ge_2 _ Hr).
  assert (Hb0 : b mod r <> 0).
  { intros E. rewrite <- Z.mod_pow_l, E, Z.pow_0_l in Hbq by assumption. discriminate. }
  pose proof (Z.fermat_nz r b Hr Hb0) as Hf.
  destruct (Z.Bezout_coprime _ _ Hco) as (u & v & Huv).
  set (k := Z.abs u + Z.abs v).
  assert (Hk1 : 0 <= u + k * (r - 1)) by nia. assert (Hk2 : 0 <= k * q - v) by nia.
  assert (E : q * (u + k * (r - 1)) = 1 + (r - 1) * (k * q - v)) by lia.
  assert (E1 : b ^ (q * (u + k * (r - 1))) mod r = 1)
    by (rewrite Z.pow_mul_r by lia; apply pow_mod_1; [lia | assumption | assumption]).
  rewrite E, Z.pow_add_r, Z.pow_1_r, Z.pow_mul_r in E1; [|lia|assumption|lia|].
  - rewrite <- Z.mul_mod_idemp_r, pow_mod_1, Z.mul_1_r in E1 by (assumption || lia). assumption.
  - apply Z.mul_nonneg_nonneg; [lia | assumption].
Qed.

Lemma pocklington_step N q a r :
  1 < N -> Z.prime q -> (N - 1) mod q = 0 ->
  a ^ (N - 1) mod N = 1 -> Z.gcd (a ^ ((N - 1) / q) mod N - 1) N = 1 ->
  Z.prime r -> (r | N) -> (q | r - 1).
Proof.
  intros HN Hq Hdiv Hpow Hgcd Hr HrN.
  pose proof (Z.prime_ge_2 _ Hq). pose proof (Z.prime_ge_2 _ Hr).
  set (m := (N - 1) / q) in *. assert (Hm : N - 1 = m * q).
  { pose proof (Z.div_mod (N - 1) q ltac:(lia)). unfold m. lia. }
  assert (Hm0 : 0 <= m) by nia.
  destruct (Z.BoolSpec_divide q (r - 1)) as [Hd|Hd]; [assumption|exfalso].
  assert (Hbq : (a ^ m) ^ q mod r = 1).
  { rewrite <- Z.pow_mul_r, <- Hm by lia.
    rewrite <- (Z.mod_mod_divide _ N r) by assumption.
    rewrite Hpow. apply Z.mod_1_l. lia. }
  pose proof (coprime_orders _ q r Hr ltac:(lia) (Z.coprime_prime_l _ _ Hq Hd) Hbq) as Hb.
  assert (Hr1 : (r | Z.gcd (a ^ m mod N - 1) N)).
  { apply Z.gcd_greatest; [|assumption]. apply mod_1_divide; [lia|].
    rewrite Z.mod_mod_divide; assumption. }
  rewrite Hgcd in Hr1. apply Z.divide_1_r_nonneg in Hr1; lia.
Qed.

(** The numeric part of a certificate for one prime factor [q] of [N - 1]. *)
Definition pock_check (N q a : Z) : bool :=
  (1 <? N) && ((N - 1) mod q =? 0) && (Zpow_mod a (N - 1) N =? 1) &&
  (Z.gcd (Zpow_mod a ((N - 1) / q) N - 1) N =? 1).

Lemma pock_check_pos N q a : pock_check N q a = true -> 1 < N.
Proof. unfold pock_check. rewrite !andb_true_iff, Z.ltb_lt. tauto. Qed.

Lemma pock_check_ok N q a r :
  pock_check N q a = true -> Z.prime q -> Z.prime r -> (r | N) -> (q | r - 1).
Proof.
  intros H Hq Hr HrN. pose proof (Z.prime_ge_2 _ Hq). unfold pock_check in H.
  rewrite !andb_true_iff, !Z.eqb_eq, Z.ltb_lt in H. destruct H as [[[H1 H2] H3] H4].
  rewrite Zpow_mod_correct in H3, H4 by lia.
  by apply (pocklington_step N q a r).
Qed.

Lemma pock1 N q a :
  Z.prime q -> pock_check N q a && (N <? q * q) = true -> Z.prime N.
Proof.
  intros Hq H. pose proof (Z.prime_ge_2 _ Hq). rewrite andb_true_iff, Z.ltb_lt in H.
  destruct H as [Hc Hsq]. pose proof (pock_check_pos _ _ _ Hc).
  apply prime_from_factors with q; [lia.. |].
  intros r Hr HrN. by apply (pock_check_ok N q a r).
Qed.

Lemma pock2 N q1 a1 q2 a2 :
  Z.prime q1 -> Z.prime q2 ->
  pock_check N q1 a1 && pock_check N q2 a2 && (N <? (q1 * q2) * (q1 * q2)) && negb (q1 =? q2) = true ->
  Z.prime N.
Proof.
  intros Hq1 Hq2 H. pose proof (Z.prime_ge_2 _ Hq1). pose proof (Z.prime_ge_2 _ Hq2).
  rewrite !andb_true_iff, negb_true_iff, Z.eqb_neq, Z.ltb_lt in H. destruct H as [[[Hc1 Hc2] Hsq] Hne].
  pose proof (pock_check_pos _ _ _ Hc1).
  apply prime_from_factors with (q1 * q2); [lia | nia | lia |].
  intros r Hr HrN.
  destruct (pock_check_ok N q1 a1 r Hc1 Hq1 Hr HrN) as [c Hc].
  pose proof (pock_check_ok N q2 a2 r Hc2 Hq2 Hr HrN) as Hd. rewrite Hc, Z.mul_comm in Hd.
  apply Z.gauss in Hd as [c' Hc'].
  - exists c'. rewrite Hc, Hc'. ring.
  - apply Z.coprime_prime_l; [assumption|]. intros Hx.
    apply Z.divide_prime_prime in Hx; auto.
Qed.

(** ** The order of the P-256 base point *)

Definition p256_order : Z :=
  0xffffffff00000000ffffffffffffffffbce6faada7179e84f3b9cac2fc632551.

Lemma p256_order_prime : Z.prime p256_order.
Proof.
  apply (pock2 _ 2624747550333869278416773953 2 1002328039319 2); [| |vm_compute; reflexivity].
  - apply (pock1 _ 208150935158385979 2); [|vm_compute; reflexivity].
    apply (pock2 _ 191039911 2 3023 2); [| |vm_compute; reflexivity].
    + apply (pock1 _ 155317 2); [|vm_compute; reflexivity].
      apply (trial_prime _ 400). vm_compute; reflexivity.
    + apply (trial_prime _ 60). vm_compute; reflexivity.
  - apply (pock1 _ 3969899 2); [|vm_compute; reflexivity].
    apply (trial_prime _ 2000). vm_compute; reflexivity.
Qed.

Lemma p256_order_bits : 2 ^ 255 < p256_order < 2 ^ 256.
Proof. split; reflexivity. Qed.
