(* ===== verification/RefKernel.v ===== *)
(** An executable kernel that satisfies every law class of [Ffi].

    It is used to run the driver's definitions on concrete inputs and to show
    that the laws can hold together.  The limb functions compute with integers,
    user memory is a finite map, and private keys are taken from a list of
    values given in advance.  The hash function and the multiples of the base
    point are parameters; the order is the one of P-256. *)
From S2P Require Import Prelude Exec Ffi PrimeCert Sha256.
From stdpp Require Import base gmap list numbers strings.
From Stdlib Require Import ZArith Zdivisibility Zcong Lia.
#[local] Open Scope Z_scope.

(** The kernel state of the model kernel. *)
Record RW := mkRW {
  rw_keys : list Z;            (* values [ecc_gen_privkey] will produce *)
  rw_next : positive;          (* where the next allocation is attempted *)
  rw_ima_on : bool;            (* an IMA policy for critical data is active *)
  rw_ima : list ImaEvent;      (* the measurement list *)
  rw_user : gmap Z Z;          (* mapped user memory *)
  rw_log : list uaccess;       (* transfers with user memory *)
  rw_devices : list string }.  (* registered misc devices *)

Definition set_keys (ks : list Z) (w : RW) : RW :=
  mkRW ks (rw_next w) (rw_ima_on w) (rw_ima w) (rw_user w) (rw_log w) (rw_devices w).
Definition set_next (p : positive) (w : RW) : RW :=
  mkRW (rw_keys w) p (rw_ima_on w) (rw_ima w) (rw_user w) (rw_log w) (rw_devices w).
Definition set_ima (l : list ImaEvent) (w : RW) : RW :=
  mkRW (rw_keys w) (rw_next w) (rw_ima_on w) l (rw_user w) (rw_log w) (rw_devices w).
Definition set_user (m : gmap Z Z) (w : RW) : RW :=
  mkRW (rw_keys w) (rw_next w) (rw_ima_on w) (rw_ima w) m (rw_log w) (rw_devices w).
Definition set_devices (l : list string) (w : RW) : RW :=
  mkRW (rw_keys w) (rw_next w) (rw_ima_on w) (rw_ima w) (rw_user w) (rw_log w) l.

Definition set_log (l : list uaccess) (w : RW) : RW :=
  mkRW (rw_keys w) (rw_next w) (rw_ima_on w) (rw_ima w) (rw_user w) l (rw_devices w).

(** The byte at a mapped user address. *)
Definition ref_user_byte (w : RW) (z : Z) : option Z := (fun b => b mod 256) <$> rw_user w !! z.

(** Bytes [ptr ..+ n] of user memory. *)
Fixpoint ref_load (w : RW) (ptr : Z) (n : nat) : option (list Z) :=
  match n with
  | O => Some []
  | S n => b ← ref_user_byte w ptr; bs ← ref_load w (ptr + 1) n; Some (b :: bs)
  end.

(** Stores [bs] at [ptr]; all the bytes must be mapped. *)
Fixpoint ref_store (m : gmap Z Z) (ptr : Z) (bs : list Z) : option (gmap Z Z) :=
  match bs with
  | [] => Some m
  | b :: bs => _ ← m !! ptr; ref_store (<[ptr := b]> m) (ptr + 1) bs
  end.

(** Allocates a point at [rw_next], its buffers next to it; fails when one of
    the addresses is taken. *)
Definition ref_alloc (nd : Z) (st : kstate RW) : option loc * kstate RW :=
  let p := rw_next (world st) in
  let q := Pos.succ p in
  let buf := replicate (Z.to_nat nd) 0 in
  match points st !! p, mem st !! p, mem st !! q with
  | None, None, None =>
      if nd <? 0 then (None, st) else
      (Some p, KState (<[p := ffi.mkPoint (Some p) (Some q) nd]> (points st))
                      (<[q := buf]> (<[p := buf]> (mem st)))
                      (set_next (Pos.succ q) (world st)))
  | _, _, _ => (None, st)
  end.

Definition ref_free (p : loc) (st : kstate RW) : kstate RW :=
  match points st !! p with
  | Some pt => KState (delete p (points st))
                      (del_buf (ffi.y pt) (del_buf (ffi.x pt) (mem st))) (world st)
  | None => st
  end.

Definition ref_gen_privkey (cid nd : Z) (key : list Z) (w : RW) : (Z * list Z) * RW :=
  match rw_keys w with
  | k :: ks => if (0 <? k) && (k <? p256_order)
               then ((0, digits 64 (length key) k), set_keys ks w)
               else ((-22, key), set_keys ks w)
  | [] => ((-11, key), w)
  end.

Definition ref_curve : ffi.Curve :=
  ffi.mkCurve "nist_256" 256 (None, None, 4) None (Some (digits 64 4 p256_order)) None None.

(** The digest of the one protected file, inode 1. *)
Definition ref_verity (i : inode) : option (list Z) :=
  if decide (i = 1%positive) then Some (replicate 32 7) else None.

Definition ref_fsverity (i : inode) (buf : list Z) (w : RW) : (Z * list Z) * RW :=
  match ref_verity i with
  | Some d => if bool_decide (length d <= length buf)%nat
              then ((Z.of_nat (length d), d ++ replicate (length buf - length d) 0), w)
              else ((-75, replicate (length buf) 0), w)
  | None => ((0, replicate (length buf) 0), w)
  end.

Definition ref_ima (label name : string) (buf : list Z) (h : bool) (d : option (list Z))
    (w : RW) : Z * RW :=
  if rw_ima_on w then (0, set_ima (rw_ima w ++ [mkImaEvent label name buf]) w) else (-2, w).

Definition ref_read (ptr len : Z) (n : nat) (w : RW) : Result (list Z) * RW :=
  if len <? Z.of_nat n then (Err EFAULT, w)
  else match ref_load w ptr n with
       | Some bs => (Ok bs, set_log (rw_log w ++ [URead ptr bs]) w)
       | None => (Err EFAULT, w)
       end.

Definition ref_write (ptr len : Z) (bs : list Z) (w : RW) : Result unit * RW :=
  let logged := fun ok w => set_log (rw_log w ++ [UWrite ptr bs ok]) w in
  if len <? Z.of_nat (length bs) then (Err EFAULT, logged false w)
  else match ref_store (rw_user w) ptr bs with
       | Some m => (Ok tt, logged true (set_user m w))
       | None => (Err EFAULT, logged false w)
       end.

Section Ref.
Context (hash : list Z -> list Z) (kG : Z -> Z * Z).

Definition ref_make_pub_key (cid nd : Z) (priv raw : list Z) (w : RW) : (Z * list Z) * RW :=
  if bool_decide (length raw = 8)%nat
  then let xy := kG (val priv) in
       ((0, swap_digits (digits 64 4 (fst xy)) ++ swap_digits (digits 64 4 (snd xy))), w)
  else ((-22, replicate (length raw) 0), w).

Definition RefKernel : Kernel RW := {|
  ecc_alloc_point := ref_alloc;
  ecc_free_point := ref_free;
  ecc_gen_privkey := ref_gen_privkey;
  ecc_make_pub_key := ref_make_pub_key;
  ecc_get_curve cid := if cid =? 2 then Some ref_curve else None;
  ecc_digits_from_bytes bs nb nd := digits 64 (Z.to_nat nd) (be_value bs);
  vli_mod_inv l m nd := digits 64 (Z.to_nat nd) (Z.invmod (val l) (val m));
  vli_mod_mult_slow l r m nd := digits 64 (Z.to_nat nd) ((val l * val r) mod val m);
  vli_cmp l r nd := match val l ?= val r with Lt => -1 | Eq => 0 | Gt => 1 end;
  vli_sub l r nd := (digits 64 (Z.to_nat nd) (val l - val r), if val l <? val r then 1 else 0);
  vli_is_zero l nd := bool_decide (val l = 0);
  sha256 := hash;
  ima_measure_critical_data := ref_ima;
  fsverity_get_digest := ref_fsverity;
  from_errno := Errno;
  read_slice := ref_read;
  write_slice := ref_write;
  IO ty nr := ioc_encoding 0 ty nr 0;
  IOR := ioc_encoding 2;
  IOWR := ioc_encoding 3;
  IOC_SIZE cmd := Z.land (Z.shiftr cmd 16) (2 ^ 14 - 1);
  misc_register name w := (Ok tt, set_devices (name :: rw_devices w) w);
  misc_deregister w := set_devices (tail (rw_devices w)) w;
  ima_log := rw_ima;
  user_log := rw_log;
  user_byte := ref_user_byte;
  quiet := True;
  verity_digest := ref_verity;
  curve_order := p256_order;
  curve_coords := kG |}.
End Ref.

(** ** The laws hold *)

Lemma ref_load_ok w n : forall ptr bs, ref_load w ptr n = Some bs ->
  length bs = n /\ bytes_ok bs /\
  forall i b, bs !! i = Some b -> ref_user_byte w (ptr + Z.of_nat i) = Some b.
Proof.
  induction n as [|n IH]; intros ptr bs H; simpl in H.
  - injection H as <-. split_and!; [done | constructor | done].
  - destruct (ref_user_byte w ptr) as [b|] eqn:Eb; [|done]. simpl in H.
    destruct (ref_load w (ptr + 1) n) as [bs'|] eqn:Ebs; [|done]. injection H as <-.
    destruct (IH _ _ Ebs) as (Hl & Hok & Hi). split_and!.
    + simpl. by f_equal.
    + constructor; [|done]. unfold ref_user_byte in Eb.
      destruct (rw_user w !! ptr); [|done]. injection Eb as <-. by apply Z.mod_pos_bound.
    + intros [|i] c Hc; simpl in Hc.
      * injection Hc as <-. by rewrite Z.add_0_r.
      * specialize (Hi _ _ Hc).
        by replace (ptr + Z.of_nat (S i)) with (ptr + 1 + Z.of_nat i) by lia.
Qed.

Lemma ref_store_frame bs : forall m ptr m' z, ref_store m ptr bs = Some m' ->
  z < ptr \/ ptr + Z.of_nat (length bs) <= z -> m' !! z = m !! z.
Proof.
  induction bs as [|b bs IH]; intros m ptr m' z H Hz; simpl in H; [congruence|].
  destruct (m !! ptr); [|done]. simpl in H, Hz.
  rewrite (IH _ _ _ z H) by lia. apply lookup_insert_ne. lia.
Qed.

Lemma ref_store_ok bs : forall m ptr m' i b, ref_store m ptr bs = Some m' ->
  bs !! i = Some b -> m' !! (ptr + Z.of_nat i) = Some b.
Proof.
  induction bs as [|b bs IH]; intros m ptr m' i c H Hi; simpl in H; [done|].
  destruct (m !! ptr); [|done]. simpl in H. destruct i as [|i]; simpl in Hi.
  - injection Hi as <-. rewrite Z.add_0_r, (ref_store_frame _ _ _ _ ptr H) by lia.
    apply lookup_insert_eq.
  - replace (ptr + Z.of_nat (S i)) with (ptr + 1 + Z.of_nat i) by lia. by apply (IH _ _ _ _ _ H).
Qed.

Section RefLaws.
Context (hash : list Z -> list Z) (kG : Z -> Z * Z).
Context (Hhash : forall bs, length (hash bs) = 32%nat /\ bytes_ok (hash bs)).
Context (HkG : forall k, 0 <= fst (kG k) < 2 ^ 256 /\ 0 <= snd (kG k) < 2 ^ 256).

Let K : Kernel RW := RefKernel hash kG.
#[local] Existing Instance K.

Lemma ref_VliLaws : VliLaws RW.
Proof using Hhash.
  split; [intros n l .. |]; intros; simpl; rewrite ?Nat2Z.id; auto.
  exists (Z.invmod (val l) (val m)).
  assert (Hb : 0 <= Z.invmod (val l) (val m) < val m) by (apply Z.mod_pos_bound; lia).
  split_and!; [done | apply Hb | apply Hb |].
  rewrite Z.mul_comm. apply Z.invmod_coprime; [lia | done].
Qed.

Lemma ref_EccLaws : EccLaws RW.
Proof.
  split.
  - intros nd st o st'. simpl. unfold ref_alloc.
    destruct (points st !! _) eqn:Ep, (mem st !! rw_next (world st)) eqn:Em,
      (mem st !! Pos.succ (rw_next (world st))) eqn:Eq; try (intros [= <- <-]; by split).
    destruct (Z.ltb_spec nd 0); intros [= <- <-]; [by split|]. split; [done|].
    do 3 eexists. split_and!; [done | reflexivity | reflexivity | | | | |]; simpl.
    + by intros l [= <-].
    + by intros l [= <-].
    + intros l [= <-] [=]. lia.
    + rewrite length_replicate. lia.
    + rewrite length_replicate. lia.
  - intros p st pt Hp. simpl. unfold ref_free. rewrite Hp. by split_and!.
  - intros cid nd key w r key' w'. simpl. unfold ref_gen_privkey.
    destruct (rw_keys w) as [|k ks]; [by intros [= <- <- <-]|].
    destruct (_ && _); intros [= <- <- <-]; (split; [done|]); by rewrite ?digits_length.
  - intros cid nd priv raw w r raw' w'.
    change (ref_make_pub_key kG cid nd priv raw w = (r, raw', w') ->
            keeps w w' /\ length raw' = length raw /\ limbs_ok raw').
    unfold ref_make_pub_key. remember (_ ++ _) as pub eqn:Epub.
    case_bool_decide as Hl; intros [= <- <- <-]; (split_and!; [done| |]); try rewrite Epub.
    + rewrite Hl, length_app. unfold swap_digits.
      by rewrite !length_fmap, !length_reverse, !digits_length.
    + apply Forall_app. split; apply Forall_fmap, Forall_forall; intros; apply from_be_wf.
    + by rewrite length_replicate.
    + apply Forall_replicate. unfold digit_ok. lia.
Qed.

Lemma ref_CurveLaws : CurveLaws RW.
Proof using HkG.
  split.
  - exact p256_order_prime.
  - exact p256_order_bits.
  - apply HkG.
  - intros c l [= <-] [= <-]. split; [apply vli_ok_digits|].
    apply val_digits. split; [discriminate|reflexivity].
  - intros key w r key' w' Hl. simpl. unfold ref_gen_privkey. rewrite Hl.
    destruct (rw_keys w) as [|k ks]; [intros [= <- <- <-]; lia|].
    destruct (Z.ltb_spec 0 k), (Z.ltb_spec k p256_order); simpl; intros [= <- <- <-] Hr; try lia.
    split; [apply vli_ok_digits|]. pose proof p256_order_bits.
    rewrite (val_digits 4) by lia. lia.
  - intros priv raw w r raw' w' _ _ Hl E. revert E.
    change (ecc_make_pub_key 2 4 priv raw w) with (ref_make_pub_key kG 2 4 priv raw w).
    unfold ref_make_pub_key. rewrite bool_decide_true by done.
    remember (_ ++ _) as pub. by intros [= <- <- <-].
Qed.

Lemma ref_ImaLaws : ImaLaws RW.
Proof.
  split; intros *; simpl; unfold ref_ima; destruct (rw_ima_on w); intros [= <- <-]; try lia.
  - split; [by apply prefix_app_r | done].
  - done.
  - intros _. eexists. split; [reflexivity | by apply list_elem_of_singleton].
Qed.

Lemma ref_VerityLaws : VerityLaws RW.
Proof.
  split; intros i buf w r buf' w'; simpl; unfold ref_fsverity, ref_verity;
    destruct (decide (i = 1%positive)); try case_bool_decide as Hl;
    intros (<- & <- & <-)%triple_eq; try lia.
  - split_and!; [done| |].
    + rewrite length_app, !length_replicate in *. lia.
    + apply Forall_app; split; apply Forall_replicate; unfold digit_ok; lia.
  - split_and!; [done | by rewrite length_replicate | apply Forall_replicate; unfold digit_ok; lia].
  - split_and!; [done | by rewrite length_replicate | apply Forall_replicate; unfold digit_ok; lia].
  - intros _ _. by rewrite Nat2Z.id, take_app_length.
Qed.

Lemma ref_UserLaws : UserLaws RW.
Proof.
  split; intros *; simpl; unfold ref_read, ref_write.
  - destruct (Z.ltb_spec len (Z.of_nat n)); [done|].
    destruct (ref_load w ptr n) as [bs'|] eqn:E; [|done]. intros [= <- <-].
    destruct (ref_load_ok _ _ _ _ E) as (? & ? & ?). by split_and!.
  - destruct (_ <? _); [by intros [= <- <-]|].
    destruct (ref_load w ptr n); [done|]. by intros [= <- <-].
  - destruct (Z.ltb_spec len (Z.of_nat (length bs))); [done|].
    destruct (ref_store (rw_user w) ptr bs) as [m|] eqn:E; [|done]. intros [= <-].
    split_and!; [done|done|done| |].
    + intros _ Hok i b Hi. unfold ref_user_byte; simpl. rewrite (ref_store_ok _ _ _ _ _ _ E Hi).
      simpl. f_equal. apply Z.mod_small. apply (Forall_lookup_1 _ _ _ _ Hok Hi).
    + intros _ z Hz. unfold ref_user_byte; simpl. by rewrite (ref_store_frame _ _ _ _ _ E Hz).
  - destruct (_ <? _); [by intros [= <- <-]|].
    destruct (ref_store (rw_user w) ptr bs); [done|]. by intros [= <- <-].
Qed.

Lemma ref_IoctlLaws : IoctlLaws RW.
Proof. by split. Qed.

Lemma ref_MiscLaws : MiscLaws RW.
Proof. split; [by intros name w r w' [= _ <-]|by intros w]. Qed.
End RefLaws.

(** ** A small instance

    The hash is SHA-256, and the group is the additive group of residues modulo
    the order, the coordinates of [k] being [k]. *)

Definition toy_hash (bs : list Z) : list Z := Sha256.sha256 bs.
Definition toy_kG (k : Z) : Z * Z := (k mod p256_order, k mod p256_order).

Lemma toy_hash_ok bs : length (toy_hash bs) = 32%nat /\ bytes_ok (toy_hash bs).
Proof. apply Sha256.sha256_wf. Qed.

Lemma toy_kG_ok k : 0 <= fst (toy_kG k) < 2 ^ 256 /\ 0 <= snd (toy_kG k) < 2 ^ 256.
Proof.
  pose proof p256_order_bits. pose proof (Z.mod_pos_bound k p256_order ltac:(lia)).
  simpl. lia.
Qed.

Definition ToyKernel : Kernel RW := RefKernel toy_hash toy_kG.

Definition toy_Vli : @VliLaws RW ToyKernel := ref_VliLaws toy_hash toy_kG toy_hash_ok.
Definition toy_Ecc : @EccLaws RW ToyKernel := ref_EccLaws toy_hash toy_kG.
Definition toy_Curve : @CurveLaws RW ToyKernel := ref_CurveLaws toy_hash toy_kG toy_kG_ok.
Definition toy_Ima : @ImaLaws RW ToyKernel := ref_ImaLaws toy_hash toy_kG.
Definition toy_Verity : @VerityLaws RW ToyKernel := ref_VerityLaws toy_hash toy_kG.
Definition toy_User : @UserLaws RW ToyKernel := ref_UserLaws toy_hash toy_kG.
Definition toy_Ioctl : @IoctlLaws RW ToyKernel := ref_IoctlLaws toy_hash toy_kG.
Definition toy_Misc : @MiscLaws RW ToyKernel := ref_MiscLaws toy_hash toy_kG.

(** A state with the given private keys to hand out, IMA active, and [n] zero
    bytes of user memory mapped at [ptr]. *)
Definition toy_user (ptr : Z) (n : nat) : gmap Z Z :=
  list_to_map ((fun i => (ptr + Z.of_nat i, 0)) <$> seq 0 n).
Definition toy_state (ks : list Z) (ima : bool) (ptr : Z) (n : nat) : kstate RW :=
  KState ∅ ∅ (mkRW ks 1 ima [] (toy_user ptr n) [] []).
