(* ===== verification/Vli.v ===== *)
(** [driver/src/vli.rs]: integers of [N] 64-bit limbs, least significant first.

    A [Vli<N>] is a list of limbs with [vli_ok N].  The arithmetic that the file
    writes itself ([carrying_add], [unswap]) is proved against the integers; the
    operations it forwards to the kernel are proved from [VliLaws]. *)
From S2P Require Import Prelude Exec Ffi RefKernel.
From stdpp Require Import base gmap list numbers.
From Stdlib Require Import ZArith Lia.
#[local] Open Scope Z_scope.

Module vli.
Section Vli.
Context {W : Type} `{!Kernel W}.

Abbreviation Vli := (list Z).

(** ** Constructors and raw access *)

Definition zero (N : nat) : Vli := replicate N 0.

Definition from_limbs (limbs : list Z) : Vli := limbs.

Definition is_zero (N : nat) (self : Vli) : bool := vli_is_zero self (c_uint N).

(** [u64::overflowing_add]. *)
Definition overflowing_add (l r : Z) : Z * bool :=
  ((l + r) mod 2 ^ 64, 2 ^ 64 <=? l + r).

(** The loop of [carrying_add] over the zipped limbs. *)
Fixpoint carrying_add_loop (lefts rights : list Z) (carry : Z) : list Z * Z :=
  match lefts, rights with
  | l :: lefts, r :: rights =>
      let '(sum, left_carry) := overflowing_add l r in
      let '(sum, carry_carry) := overflowing_add sum carry in
      let carry := Z.b2z left_carry + Z.b2z carry_carry in
      let '(limbs, carry) := carrying_add_loop lefts rights carry in
      (sum :: limbs, carry)
  | _, _ => ([], carry)
  end.

Definition carrying_add (self right : Vli) (carry : Z) : Vli * Z :=
  carrying_add_loop self right carry.

Definition sub_with_borrow (N : nat) (self right : Vli) : Vli * Z :=
  vli_sub self right (c_uint N).

Definition unswap (N : nat) (self : Vli) : Vli :=
  (fun i => from_be (nth (N - 1 - i) self 0)) <$> seq 0 N.

(** ** Operations forwarded to the kernel *)

(** [usize::checked_mul]. *)
Definition checked_mul (a b : Z) : option Z :=
  if a * b <? 2 ^ 64 then Some (a * b) else None.

Definition from_be_bytes (N : nat) (bytes : list Z) : Result Vli :=
  match checked_mul (Z.of_nat N) 8 with
  | None => Err EINVAL
  | Some expected_len =>
      if negb (Z.of_nat (length bytes) =? expected_len) then Err EINVAL
      else Ok (ecc_digits_from_bytes bytes (expected_len mod 2 ^ 32) (c_uint N))
  end.

Definition mod_inv (N : nat) (self modulus : Vli) : Vli :=
  vli_mod_inv self modulus (c_uint N).

Definition mod_mult (N : nat) (self right modulus : Vli) : Vli :=
  vli_mod_mult_slow self right modulus (c_uint N).

(** ** Zeroize on drop: what the storage holds afterwards *)

Definition drop (self : Vli) : Vli := (fun _ => 0) <$> self.

Definition clone (self : Vli) : Vli := self.

(** ** Equality and ordering *)

Definition vli_cmp_to_ordering (r : Z) : comparison :=
  if r =? 0 then Eq else if r <? 0 then Lt else Gt.

Definition cmp_ffi (N : nat) (self other : Vli) : comparison :=
  vli_cmp_to_ordering (vli_cmp self other (c_uint N)).

Definition eq (N : nat) (self other : Vli) : bool :=
  match cmp_ffi N self other with Eq => true | _ => false end.

(** [PartialEq<&Self>], which dereferences its argument first. *)
Definition eq_ref (N : nat) (self other : Vli) : bool :=
  match cmp_ffi N self other with Eq => true | _ => false end.

Definition cmp (N : nat) (self other : Vli) : comparison := cmp_ffi N self other.

Definition partial_cmp (N : nat) (self other : Vli) : option comparison :=
  Some (cmp N self other).

(** The comparison operators Rust derives from [partial_cmp]. *)
Definition ge (N : nat) (self other : Vli) : bool :=
  match partial_cmp N self other with Some Gt | Some Eq => true | _ => false end.

(** ** Arithmetic *)

Definition add (self rhs : Vli) : Vli := fst (carrying_add self rhs 0).

(** [Sub<&Self>] borrows its right operand, [Sub] takes it. *)
Definition sub (N : nat) (self rhs : Vli) : Vli := fst (sub_with_borrow N self rhs).
Definition sub_owned (N : nat) (self rhs : Vli) : Vli := fst (sub_with_borrow N self rhs).

(** ** Lemmas *)

Lemma zero_ok N : vli_ok N (zero N) /\ val (zero N) = 0.
Proof.
  split; [split|].
  - apply length_replicate.
  - apply Forall_replicate. unfold digit_ok. lia.
  - by apply value_replicate_0.
Qed.

(** One limb of the addition. *)
Lemma overflowing_add_ok l r :
  digit_ok 64 l -> digit_ok 64 r ->
  digit_ok 64 (fst (overflowing_add l r)) /\
  fst (overflowing_add l r) + 2 ^ 64 * Z.b2z (snd (overflowing_add l r)) = l + r.
Proof.
  unfold digit_ok, overflowing_add; simpl. intros Hl Hr.
  split; [apply Z.mod_pos_bound; lia|].
  destruct (Z.leb_spec (2 ^ 64) (l + r)); simpl.
  - replace (l + r) with (l + r - 2 ^ 64 + 1 * 2 ^ 64) at 1 by lia.
    rewrite Z.mod_add, Z.mod_small by lia. lia.
  - rewrite Z.mod_small by lia. lia.
Qed.

Lemma carrying_add_loop_ok lefts rights carry :
  limbs_ok lefts -> limbs_ok rights -> length lefts = length rights -> digit_ok 64 carry ->
  let '(limbs, carry') := carrying_add_loop lefts rights carry in
  vli_ok (length lefts) limbs /\ digit_ok 64 carry' /\
  val limbs + 2 ^ (64 * Z.of_nat (length lefts)) * carry' = val lefts + val rights + carry.
Proof.
  intros HL. revert rights carry.
  induction HL as [|l lefts Hl _ IH]; intros [|r rights] carry HR Hlen Hc; try done.
  - cbn [carrying_add_loop length]. rewrite !value_nil. split; [done|]. split; [done|]. lia.
  - apply Forall_cons_1 in HR as [Hr HR]. cbn [carrying_add_loop].
    pose proof (overflowing_add_ok l r Hl Hr) as [Hs1 E1].
    destruct (overflowing_add l r) as [s1 c1]; simpl in Hs1, E1.
    pose proof (overflowing_add_ok s1 carry Hs1 Hc) as [Hs2 E2].
    destruct (overflowing_add s1 carry) as [s2 c2]; simpl in Hs2, E2.
    assert (Hc' : digit_ok 64 (Z.b2z c1 + Z.b2z c2)).
    { unfold digit_ok. destruct c1, c2; simpl; lia. }
    specialize (IH rights (Z.b2z c1 + Z.b2z c2) HR ltac:(simpl in Hlen; lia) Hc').
    destruct (carrying_add_loop lefts rights _) as [limbs c'].
    destruct IH as ([Hl1 Hl2] & Hcc & Ev). split_and!; [|done|].
    + split; [simpl; lia | by constructor].
    + cbn [length]. rewrite !value_cons, radix_succ by lia. nia.
Qed.

(** [unswap] is the reversal of limbs and of their bytes. *)
Lemma unswap_swap_digits N v : length v = N -> unswap N v = swap_digits v.
Proof.
  intros <-. unfold unswap, swap_digits. apply list_eq_same_length with (length v).
  - by rewrite length_fmap, length_reverse.
  - by rewrite length_fmap, length_seq.
  - intros i a b Hi. rewrite !list_lookup_fmap, lookup_seq_lt by done. simpl.
    intros [= <-]. rewrite reverse_lookup by done.
    destruct (lookup_lt_is_Some_2 v (length v - S i)) as [u Hu]; [lia|].
    rewrite Hu. simpl. intros [= <-]. f_equal. apply nth_lookup_Some.
    by replace (length v - 1 - i)%nat with (length v - S i)%nat by lia.
Qed.

Lemma swap_digits_ok N v : length v = N -> vli_ok N (swap_digits v).
Proof.
  intros <-. unfold swap_digits. split; [by rewrite length_fmap, length_reverse|].
  apply Forall_fmap, Forall_forall. intros u _. apply from_be_wf.
Qed.

Lemma swap_digits_involutive v : limbs_ok v -> swap_digits (swap_digits v) = v.
Proof.
  intros Hv. unfold swap_digits. rewrite <- fmap_reverse, reverse_involutive, <- list_fmap_compose.
  rewrite <- (list_fmap_id v) at 2. apply list_fmap_ext. intros i u Hu.
  apply from_be_involutive. by apply (Forall_lookup_1 _ _ _ _ Hv Hu).
Qed.

Lemma unswap_swap N v : vli_ok N v -> unswap N (swap_digits v) = v.
Proof.
  intros [Hl Hv]. rewrite unswap_swap_digits; [by apply swap_digits_involutive|].
  by apply swap_digits_ok.
Qed.

(** The bytes of a swapped value are its big-endian encoding. *)
Lemma be_value_swap v : limbs_ok v -> be_value (limbs_bytes (swap_digits v)) = val v.
Proof.
  intros Hv. unfold be_value, swap_digits. rewrite limbs_bytes_reverse, reverse_involutive.
  symmetry. by apply limbs_value_bytes.
Qed.

Section Laws.
Context `{!VliLaws W} (N : nat) (HN : Z.of_nat N < 2 ^ 32).

Lemma cmp_ffi_ok a b : vli_ok N a -> vli_ok N b -> cmp_ffi N a b = (val a ?= val b).
Proof using All.
  intros Ha Hb. unfold cmp_ffi. rewrite c_uint_small, (vli_cmp_ok N) by done.
  by destruct (val a ?= val b).
Qed.

Lemma ge_ok a b : vli_ok N a -> vli_ok N b -> ge N a b = (val b <=? val a).
Proof using All.
  intros Ha Hb. unfold ge, partial_cmp, cmp. rewrite cmp_ffi_ok by done.
  destruct (Z.compare_spec (val a) (val b)), (Z.leb_spec (val b) (val a)); try done; lia.
Qed.

Lemma is_zero_ok a : vli_ok N a -> is_zero N a = bool_decide (val a = 0).
Proof using All. intros Ha. unfold is_zero. rewrite c_uint_small by done. by apply vli_is_zero_ok. Qed.

Lemma sub_ok a b :
  vli_ok N a -> vli_ok N b -> sub N a b = digits 64 N (val a - val b).
Proof using All.
  intros Ha Hb. unfold sub, sub_with_borrow. rewrite c_uint_small, (vli_sub_ok N) by done. done.
Qed.

(** The operators [+] and [-] are inverse to each other, modulo [2^(64 N)]. *)
Lemma add_sub_cancel a b :
  vli_ok N a -> vli_ok N b -> sub_owned N (add a b) b = a.
Proof using All.
  intros [Ha1 Ha2] [Hb1 Hb2]. unfold add, carrying_add.
  pose proof (carrying_add_loop_ok a b 0 Ha2 Hb2 ltac:(lia) ltac:(unfold digit_ok; lia)) as H.
  destruct (carrying_add_loop a b 0) as [s c]. destruct H as (Hs & _ & E). rewrite Ha1 in Hs, E.
  change (sub N s b = a). rewrite sub_ok by done.
  apply (value_inj 64); [lia | apply digits_wf; lia | done | by rewrite digits_length |].
  rewrite value_digits by lia.
  replace (val s - val b) with (val a + (- c) * 2 ^ (64 * Z.of_nat N)) by lia.
  rewrite Z.mod_add by lia. apply Z.mod_small. rewrite <- Ha1. by apply value_bound.
Qed.

Lemma mod_mult_ok a b m :
  vli_ok N a -> vli_ok N b -> vli_ok N m -> 2 ^ (64 * Z.of_nat N - 1) < val m ->
  mod_mult N a b m = digits 64 N ((val a * val b) mod val m).
Proof using All.
  intros. unfold mod_mult. rewrite c_uint_small by done. by apply vli_mod_mult_ok.
Qed.

Lemma from_be_bytes_ok bs :
  8 * Z.of_nat N < 2 ^ 32 -> bytes_ok bs -> length bs = (8 * N)%nat ->
  from_be_bytes N bs = Ok (digits 64 N (be_value bs)).
Proof using All.
  intros H8 Hbs Hl. unfold from_be_bytes, checked_mul.
  rewrite (proj2 (Z.ltb_lt _ _)) by lia. rewrite Hl.
  replace (Z.of_nat N * 8) with (Z.of_nat (8 * N)) by lia. rewrite Z.eqb_refl. simpl negb.
  cbv iota. rewrite c_uint_small, Z.mod_small by lia. f_equal. by apply ecc_digits_ok.
Qed.

Lemma from_be_bytes_err bs :
  length bs <> (8 * N)%nat -> from_be_bytes N bs = Err EINVAL.
Proof using All.
  intros Hl. unfold from_be_bytes, checked_mul.
  rewrite (proj2 (Z.ltb_lt _ _)) by lia.
  by rewrite (proj2 (Z.eqb_neq (Z.of_nat (length bs)) _)) by lia.
Qed.
End Laws.

Lemma drop_ok v : drop v = zero (length v).
Proof. unfold drop, zero. induction v; simpl; f_equal; auto. Qed.
End Vli.

(** ** Properties *)

(** C32: [carrying_add] is exact addition of [N]-limb numbers: the limbs hold the
    sum modulo [2^(64 N)], the returned carry is the quotient, and with an
    initial carry of at most one the returned carry is at most one. *)
Theorem carrying_add_correct (N : nat) (a b : list Z) (carry : Z) :
  vli_ok N a -> vli_ok N b -> digit_ok 64 carry ->
  let '(sum, c) := carrying_add a b carry in
  vli_ok N sum /\
  val sum = (val a + val b + carry) mod 2 ^ (64 * Z.of_nat N) /\
  c = (val a + val b + carry) / 2 ^ (64 * Z.of_nat N) /\
  (carry <= 1 -> c <= 1).
Proof.
  intros [Ha1 Ha2] [Hb1 Hb2] Hc.
  pose proof (carrying_add_loop_ok a b carry Ha2 Hb2 ltac:(lia) Hc) as H.
  pose proof (vli_ok_bound N a (conj Ha1 Ha2)). pose proof (vli_ok_bound N b (conj Hb1 Hb2)).
  unfold carrying_add. rewrite Ha1 in H.
  destruct (carrying_add_loop a b carry) as [sum c]. destruct H as (Hs & Hc' & E).
  pose proof (vli_ok_bound _ _ Hs). rewrite <- E.
  pose proof (radix_pow_pos 64 ltac:(lia) N).
  rewrite Z.mul_comm, Z.mod_add, Z.mod_small, Z.div_add, Z.div_small by lia.
  split_and!; [done.. |]. intros. nia.
Qed.

Lemma carrying_add_correct_witness :
  let a := [2 ^ 64 - 1; 5] in let b := [1; 2 ^ 64 - 6] in
  vli_ok 2 a /\ vli_ok 2 b /\
  carrying_add a b 1 = ([1; 0], 1) /\ 1 = (val a + val b + 1) / 2 ^ 128.
Proof.
  assert (Ha : vli_ok 2 [2 ^ 64 - 1; 5]) by (split; [done | concrete_digits]).
  assert (Hb : vli_ok 2 [1; 2 ^ 64 - 6]) by (split; [done | concrete_digits]).
  split_and!; [exact Ha | exact Hb | reflexivity |].
  exact (proj1 (proj2 (proj2 (carrying_add_correct 2 _ _ 1 Ha Hb ltac:(split; done))))).
Defined.

(** [unswap] undoes the kernel's [ecc_swap_digits]: on the limbs of a
    coordinate in wire format it returns the number whose big-endian bytes the
    buffer holds, and swapping that result gives the buffer back. *)
Lemma unswap_correct (N : nat) (v : list Z) :
  vli_ok N v ->
  vli_ok N (unswap N v) /\
  val (unswap N v) = be_value (limbs_bytes v) /\
  swap_digits (unswap N v) = v /\ unswap N (swap_digits v) = v.
Proof.
  intros [Hl Hv]. pose proof (swap_digits_ok N v Hl) as Hs.
  rewrite (unswap_swap_digits N v Hl), (unswap_swap_digits N (swap_digits v) (proj1 Hs)).
  rewrite swap_digits_involutive by done. split_and!; try done.
  rewrite <- be_value_swap, swap_digits_involutive by (done || apply Hs). done.
Qed.

(** The comparison operators of [Vli] agree with the order of the numbers:
    [cmp] is integer comparison, [==] holds exactly for equal limbs, and [>=]
    is [>=] on the integers. *)
Lemma vli_ordering_correct {W : Type} `{!Kernel W} `{!VliLaws W} (N : nat) (a b : list Z) :
  Z.of_nat N < 2 ^ 32 -> vli_ok N a -> vli_ok N b ->
  cmp N a b = (val a ?= val b) /\
  partial_cmp N a b = Some (cmp N a b) /\
  (eq N a b = true <-> a = b) /\ eq_ref N a b = eq N a b /\
  (ge N a b = true <-> val b <= val a).
Proof.
  intros HN Ha Hb. unfold eq, partial_cmp, cmp. rewrite (ge_ok N HN), cmp_ffi_ok by done.
  split_and!; [done | done | | by unfold eq_ref; rewrite cmp_ffi_ok | apply Z.leb_le].
  destruct (Z.compare_spec (val a) (val b)) as [E|E|E]; split; try done; intros Hab;
    try (rewrite Hab in E; lia).
  destruct Ha as [Ha1 Ha2], Hb as [Hb1 Hb2]. apply (value_inj 64); [lia|done|done|congruence|done].
Qed.

(** C35: [from_be_bytes] accepts exactly the byte strings of [8 N] bytes, returns
    the number they encode, whose big-endian encoding is the input again, and
    rejects every other length with [EINVAL]. *)
Theorem from_be_bytes_correct {W : Type} `{!Kernel W} `{!VliLaws W} (N : nat) (bs : list Z) :
  8 * Z.of_nat N < 2 ^ 32 -> bytes_ok bs ->
  (length bs = (8 * N)%nat ->
     exists v, from_be_bytes N bs = Ok v /\ vli_ok N v /\ val v = be_value bs /\
               mjoin (to_be_bytes <$> reverse v) = bs) /\
  (length bs <> (8 * N)%nat -> from_be_bytes N bs = Err EINVAL).
Proof.
  intros HN Hbs. split; [|apply from_be_bytes_err; lia].
  intros Hl. exists (digits 64 N (be_value bs)).
  assert (Hr : bytes_ok (reverse bs)) by (by apply Forall_reverse).
  pose proof (value_bound 8 ltac:(lia) _ Hr) as Hb. rewrite length_reverse, Hl in Hb.
  assert (E : val (digits 64 N (be_value bs)) = be_value bs).
  { apply val_digits. replace (64 * Z.of_nat N) with (8 * Z.of_nat (8 * N)) by lia. exact Hb. }
  split_and!; [by apply from_be_bytes_ok; try lia | apply vli_ok_digits | done |].
  rewrite be_limbs_reverse. rewrite <- (reverse_involutive bs) at 2. f_equal.
  apply (value_inj 8); [lia | apply limbs_bytes_wf | done | |].
  - rewrite limbs_bytes_length, digits_length, length_reverse. lia.
  - by rewrite <- limbs_value_bytes, E by (by apply digits_wf).
Qed.

Lemma from_be_bytes_correct_witness :
  let bs := [1; 2; 3; 4; 5; 6; 7; 8] in
  bytes_ok bs /\ length bs = (8 * 1)%nat /\
  @from_be_bytes RW ToyKernel 1 bs = Ok [0x0102030405060708] /\
  @from_be_bytes RW ToyKernel 1 (1 :: bs) = Err EINVAL.
Proof.
  assert (Hb : bytes_ok [1; 1; 2; 3; 4; 5; 6; 7; 8]) by concrete_digits.
  split_and!; [concrete_digits | done | reflexivity |].
  exact (proj2 (@from_be_bytes_correct RW ToyKernel toy_Vli 1 _ ltac:(done) Hb) ltac:(done)).
Defined.
End vli.
