(* ===== verification/Ecc.v ===== *)
(** [driver/src/ecc.rs]: the wrappers around the kernel's elliptic-curve, hash
    and measurement functions.

    A [Point] owns a kernel allocation.  [make_public_key] hands one out and
    [drop_point] returns it; the lemmas track ownership with [holds_point] over
    the heap the caller had before, so that a leak or a double free would show. *)
From S2P Require Import Prelude Exec Ffi RefKernel Vli.
From stdpp Require Import base gmap list numbers strings.
From Stdlib Require Import ZArith Zdivisibility Lia.
#[local] Open Scope Z_scope.

Module ecc.

(** ** Constants *)

Definition P256 : Z := 2.
Definition P256_DIGITS : nat := ((256 + 64 - 1) / 64)%nat.
Definition P256_BYTES : nat := (P256_DIGITS * 8)%nat.
Definition P256_PUBKEY_BYTES : nat := (1 + P256_BYTES)%nat.

Abbreviation Scalar := (list Z).
Abbreviation scalar_ok := (vli_ok P256_DIGITS).

(** A kernel-allocated point; the pointer is never null. *)
Record Point := mkPoint { inner : loc }.

Section Ecc.
Context {W : Type} `{!Kernel W}.

(** ** Reading and dropping a point *)

Definition inner_ref (self : Point) : KM W ffi.Point := deref_point (inner self).

Definition x_scalar (self : Point) : KM W Scalar :=
  pt ← inner_ref self;
  limbs ← read_limbs (ffi.x pt) P256_DIGITS;
  mret (vli.from_limbs limbs).

Definition x_as_bytes (self : Point) : KM W (list Z) :=
  pt ← inner_ref self;
  limbs ← read_limbs (ffi.x pt) P256_DIGITS;
  mret (limbs_bytes limbs).

Definition y_as_bytes (self : Point) : KM W (list Z) :=
  pt ← inner_ref self;
  limbs ← read_limbs (ffi.y pt) P256_DIGITS;
  mret (limbs_bytes limbs).

Definition drop_point (self : Point) : KM W unit := free_point (inner self).

(** ** Kernel wrappers *)

Definition get_curve_n : KM W (option Scalar) :=
  match ecc_get_curve P256 with
  | None => mret None
  | Some curve =>
      match ffi.n curve with
      | None => mret None
      | Some n_buf =>
          if bool_decide (P256_DIGITS <= length n_buf)%nat
          then mret (Some (vli.from_limbs (take P256_DIGITS n_buf)))
          else fail_with BadPointer
      end
  end.

Definition generate_private_key : KM W Scalar :=
  let key := vli.zero P256_DIGITS in
  '(ret, key) ← call (ecc_gen_privkey P256 (c_uint P256_DIGITS) key);
  if ret <? 0 then throw (from_errno ret) else mret key.

Definition is_null (o : option loc) : bool :=
  match o with None => true | Some _ => false end.

Definition make_public_key (privkey : Scalar) : KM W Point :=
  o ← alloc_point (c_uint P256_DIGITS);
  p ← ok_or o ENOMEM;
  point ← deref_point p;
  if is_null (ffi.x point) || is_null (ffi.y point) then
    free_point p ≫= fun _ => throw EFAULT
  else
    let raw := replicate (2 * P256_DIGITS) 0 in
    '(ret, raw) ← call (ecc_make_pub_key P256 (c_uint P256_DIGITS) privkey raw);
    if ret <? 0 then
      free_point p ≫= fun _ => throw (from_errno ret)
    else
      write_limbs (ffi.x point) (take P256_DIGITS raw) ≫= fun _ =>
      write_limbs (ffi.y point) (take P256_DIGITS (drop P256_DIGITS raw)) ≫= fun _ =>
      mret (mkPoint p).

Definition sha256_hash (data : list Z) : list Z := sha256 data.

Definition ima_measure_pubkey (bytes : list Z) : KM W unit :=
  result ← call (ima_measure_critical_data "tarako_pubkey" "public-key-generate" bytes false None);
  if result <? 0 then throw (from_errno result) else mret tt.

(** ** Ownership *)

(** An error that comes from the kernel and not from a check of the driver. *)
Definition kernel_failure (e : Error) : Prop :=
  e = ENOMEM \/ e = EFAULT \/ exists r, r < 0 /\ e = from_errno r.

(** The heap is as in [st] and only the rest of the kernel has moved on. *)
Definition same_heap (st st' : kstate W) : Prop :=
  points st' = points st /\ mem st' = mem st /\ keeps (world st) (world st').

(** [p] is a live point over the heap of [st0], its coordinate buffers hold
    [bx] and [by_]. *)
Definition holds_point (st0 : kstate W) (p : loc) (bx by_ : list Z) (st : kstate W) : Prop :=
  exists lx ly nd,
    points st0 !! p = None /\ mem st0 !! lx = None /\ mem st0 !! ly = None /\ lx <> ly /\
    points st = <[p := ffi.mkPoint (Some lx) (Some ly) nd]> (points st0) /\
    mem st = <[ly := by_]> (<[lx := bx]> (mem st0)) /\
    length bx = P256_DIGITS /\ length by_ = P256_DIGITS /\
    keeps (world st0) (world st).

#[global] Instance same_heap_preorder : PreOrder same_heap.
Proof.
  split; [by intros st|]. intros s1 s2 s3 (E1 & E2 & K1) (F1 & F2 & K2).
  split_and!; [congruence.. | by etrans].
Qed.

Lemma holds_point_heap st0 p bx by_ st st' :
  holds_point st0 p bx by_ st -> same_heap st st' -> holds_point st0 p bx by_ st'.
Proof.
  intros (lx & ly & nd & Hp & Hx & Hy & Hne & Ep & Em & Lx & Ly & Hk) (Ep' & Em' & Hk').
  exists lx, ly, nd. rewrite Ep', Em'. split_and!; try done. by etrans.
Qed.

Lemma wp_call {A} (f : W -> A * W) (Qok : A -> kstate W -> Prop) Qerr st :
  (forall a w', f (world st) = (a, w') -> Qok a (KState (points st) (mem st) w')) ->
  wp (call f) Qok Qerr st.
Proof. intros H. unfold wp, call. destruct (f (world st)) as [a w'] eqn:E. by apply H. Qed.

Lemma wp_call_result {A} (f : W -> Result A * W) (Qok : A -> kstate W -> Prop) Qerr st :
  (forall a w', f (world st) = (Ok a, w') -> Qok a (KState (points st) (mem st) w')) ->
  (forall e w', f (world st) = (Err e, w') -> Qerr e (KState (points st) (mem st) w')) ->
  wp (call_result f) Qok Qerr st.
Proof.
  intros H1 H2. unfold call_result. apply wp_bind, wp_call. intros r w' E.
  apply wp_question; intros x ->; [by apply H1 | by apply H2].
Qed.

Lemma wp_alloc_point nd (Qok : option loc -> kstate W -> Prop) Qerr st :
  (forall o st', ecc_alloc_point nd st = (o, st') -> Qok o st') ->
  wp (alloc_point nd) Qok Qerr st.
Proof. intros H. unfold wp, alloc_point. destruct (ecc_alloc_point nd st). by apply H. Qed.

Lemma wp_deref_point p pt (Qok : ffi.Point -> kstate W -> Prop) Qerr st :
  points st !! p = Some pt -> Qok pt st -> wp (deref_point p) Qok Qerr st.
Proof. intros H. unfold wp, deref_point. by rewrite H. Qed.

Lemma wp_read_limbs l b n (Qok : list Z -> kstate W -> Prop) Qerr st :
  mem st !! l = Some b -> (n <= length b)%nat -> Qok (take n b) st ->
  wp (read_limbs (Some l) n) Qok Qerr st.
Proof. intros H Hn. unfold wp, read_limbs. simpl. rewrite H, bool_decide_true; auto. Qed.

Lemma wp_write_limbs l b src (Qok : unit -> kstate W -> Prop) Qerr st :
  mem st !! l = Some b -> length src = length b ->
  Qok tt (KState (points st) (<[l := src]> (mem st)) (world st)) ->
  wp (write_limbs (Some l) src) Qok Qerr st.
Proof.
  intros H Hn HQ. unfold wp, write_limbs. rewrite H, bool_decide_true by lia.
  by rewrite Hn, drop_all, app_nil_r.
Qed.

(** Removing what an allocation added restores the heap. *)
Lemma del_add_bufs ox oy bx by_ (m : gmap loc (list Z)) :
  (forall l, ox = Some l -> m !! l = None) -> (forall l, oy = Some l -> m !! l = None) ->
  del_buf oy (del_buf ox (add_buf oy by_ (add_buf ox bx m))) = m.
Proof.
  intros Hx Hy. apply map_eq. intros i.
  destruct ox as [lx|], oy as [ly|]; simpl; auto;
    repeat first [rewrite lookup_delete; case_decide; subst; [by rewrite ?Hx, ?Hy by done|]
                 | rewrite lookup_insert_ne by done]; done.
Qed.

Section Laws.
Context `{!EccLaws W}.

(** Freeing a fresh point gives back the heap before its allocation. *)
Lemma wp_free_fresh st0 p pt bx by_ (Qok : unit -> kstate W -> Prop) Qerr st :
  points st0 !! p = None -> points st = <[p := pt]> (points st0) ->
  mem st = add_buf (ffi.y pt) by_ (add_buf (ffi.x pt) bx (mem st0)) ->
  (forall l, ffi.x pt = Some l -> mem st0 !! l = None) ->
  (forall l, ffi.y pt = Some l -> mem st0 !! l = None) ->
  keeps (world st0) (world st) ->
  (forall st', same_heap st0 st' -> keeps (world st) (world st') -> Qok tt st') ->
  wp (free_point p) Qok Qerr st.
Proof using All.
  intros Hp Ep Em Hx Hy Hk HQ. unfold wp, free_point.
  assert (Hpt : points st !! p = Some pt) by (rewrite Ep; apply lookup_insert_eq).
  rewrite Hpt. destruct (ecc_free_ok p st pt Hpt) as (Hk' & Ep' & Em').
  apply HQ; [|done]. split_and!.
  - rewrite Ep', Ep. by apply delete_insert_id.
  - rewrite Em', Em. by apply del_add_bufs.
  - by etrans.
Qed.

Lemma wp_drop_point st0 p bx by_ (Qok : unit -> kstate W -> Prop) Qerr st :
  holds_point st0 p bx by_ st ->
  (forall st', same_heap st0 st' -> keeps (world st) (world st') -> Qok tt st') ->
  wp (drop_point (mkPoint p)) Qok Qerr st.
Proof using All.
  intros (lx & ly & nd & Hp & Hx & Hy & Hne & Ep & Em & _ & _ & Hk) HQ.
  eapply (wp_free_fresh st0 p (ffi.mkPoint (Some lx) (Some ly) nd) bx by_); eauto;
    by intros l [= <-].
Qed.

(** Reading a coordinate of an owned point. *)
Lemma wp_read_x {A} st0 p bx by_ (k : list Z -> KM W A) (Qok : A -> kstate W -> Prop) Qerr st :
  holds_point st0 p bx by_ st -> wp (k bx) Qok Qerr st ->
  wp (pt ← inner_ref (mkPoint p); limbs ← read_limbs (ffi.x pt) P256_DIGITS; k limbs) Qok Qerr st.
Proof using Type.
  intros (lx & ly & nd & Hp & Hx & Hy & Hne & Ep & Em & Lx & Ly & _) HQ.
  apply wp_bind. eapply wp_deref_point; [rewrite Ep; apply lookup_insert_eq|].
  apply wp_bind. eapply wp_read_limbs; [| by rewrite Lx | by rewrite take_ge by lia].
  rewrite Em, lookup_insert_ne by done. apply lookup_insert_eq.
Qed.

Lemma wp_read_y {A} st0 p bx by_ (k : list Z -> KM W A) (Qok : A -> kstate W -> Prop) Qerr st :
  holds_point st0 p bx by_ st -> wp (k by_) Qok Qerr st ->
  wp (pt ← inner_ref (mkPoint p); limbs ← read_limbs (ffi.y pt) P256_DIGITS; k limbs) Qok Qerr st.
Proof using Type.
  intros (lx & ly & nd & Hp & Hx & Hy & Hne & Ep & Em & Lx & Ly & _) HQ.
  apply wp_bind. eapply wp_deref_point; [rewrite Ep; apply lookup_insert_eq|].
  apply wp_bind. eapply wp_read_limbs; [| by rewrite Ly | by rewrite take_ge by lia].
  rewrite Em. apply lookup_insert_eq.
Qed.

Lemma wp_x_scalar st0 p bx by_ (Qok : Scalar -> kstate W -> Prop) Qerr st :
  holds_point st0 p bx by_ st -> Qok bx st -> wp (x_scalar (mkPoint p)) Qok Qerr st.
Proof using Type. intros H HQ. by apply (wp_read_x st0 p bx by_). Qed.

Lemma wp_x_as_bytes st0 p bx by_ (Qok : list Z -> kstate W -> Prop) Qerr st :
  holds_point st0 p bx by_ st -> Qok (limbs_bytes bx) st -> wp (x_as_bytes (mkPoint p)) Qok Qerr st.
Proof using Type. intros H HQ. by apply (wp_read_x st0 p bx by_). Qed.

Lemma wp_y_as_bytes st0 p bx by_ (Qok : list Z -> kstate W -> Prop) Qerr st :
  holds_point st0 p bx by_ st -> Qok (limbs_bytes by_) st -> wp (y_as_bytes (mkPoint p)) Qok Qerr st.
Proof using Type. intros H HQ. by apply (wp_read_y st0 p bx by_). Qed.

(** [ecc_gen_privkey] returned [key] with a non-negative status. *)
Definition generated (w : W) (key : Scalar) : Prop :=
  exists r w', ecc_gen_privkey P256 (c_uint P256_DIGITS) (vli.zero P256_DIGITS) w = ((r, key), w') /\
    0 <= r.

Lemma wp_generate_private_key (Qok : Scalar -> kstate W -> Prop) (Qerr : Error -> kstate W -> Prop) st :
  (forall key st', same_heap st st' -> generated (world st) key -> Qok key st') ->
  (forall e st', same_heap st st' -> kernel_failure e -> Qerr e st') ->
  wp generate_private_key Qok Qerr st.
Proof using All.
  intros H1 H2. unfold generate_private_key. apply wp_bind, wp_call. intros [r key] w' E.
  destruct (ecc_gen_privkey_frame _ _ _ _ _ _ _ E) as [Hk _].
  destruct (Z.ltb_spec r 0).
  - apply wp_throw, H2; [by split_and!|]. right; right. by exists r.
  - apply wp_ret, H1; [by split_and!|]. by exists r, w'.
Qed.

(** [ecc_make_pub_key] returned the coordinates [bx] and [by_] for [privkey]. *)
Definition derived (privkey bx by_ : Scalar) : Prop :=
  exists r w w', 0 <= r /\ limbs_ok (bx ++ by_) /\
    ecc_make_pub_key P256 (c_uint P256_DIGITS) privkey (replicate (2 * P256_DIGITS) 0) w =
      ((r, bx ++ by_), w').

Lemma wp_make_public_key privkey (Qok : Point -> kstate W -> Prop) (Qerr : Error -> kstate W -> Prop) st :
  (forall p bx by_ st', holds_point st p bx by_ st' -> derived privkey bx by_ -> Qok (mkPoint p) st') ->
  (forall e st', same_heap st st' -> kernel_failure e -> Qerr e st') ->
  wp (make_public_key privkey) Qok Qerr st.
Proof using All.
  intros HQ HE. unfold make_public_key. apply wp_bind, wp_alloc_point.
  intros o st1 Ea. destruct (ecc_alloc_ok _ _ _ _ Ea) as [Hk1 Ho].
  apply wp_bind, wp_ok_or; [|intros ->; apply HE; [by destruct Ho | by left]].
  intros p ->. destruct Ho as (pt & bx0 & by0 & Hp & Ep & Em & Hx & Hy & Hxy & Lx & Ly).
  apply wp_bind. eapply wp_deref_point; [rewrite Ep; apply lookup_insert_eq|].
  assert (Hfree : forall (Q : Point -> kstate W -> Prop) e st', points st' = points st1 -> mem st' = mem st1 ->
    keeps (world st1) (world st') -> kernel_failure e -> wp (free_point p ≫= fun _ => throw e) Q Qerr st').
  { intros Q e st' E1 E2 Hk2 He. apply wp_bind.
    eapply (wp_free_fresh st p pt bx0 by0); rewrite ?E1, ?E2; eauto; [by etrans|].
    intros. by apply wp_throw, HE. }
  destruct (ffi.x pt) as [lx|] eqn:Ex, (ffi.y pt) as [ly|] eqn:Ey; cbn [is_null orb];
    try (apply Hfree; [done | done | done | by right; left]).
  apply wp_bind, wp_call. intros [ret raw] w' Er.
  destruct (ecc_make_pub_key_frame _ _ _ _ _ _ _ _ Er) as (Hk2 & Lraw & Hraw).
  rewrite length_replicate in Lraw. change (2 * P256_DIGITS)%nat with 8%nat in Lraw.
  change (c_uint P256_DIGITS) with 4 in Lx, Ly.
  destruct (Z.ltb_spec ret 0); [apply Hfree; [done | done | done |]; right; right; by exists ret|].
  assert (Hne : lx <> ly) by (intros ->; by apply (Hxy ly)).
  apply wp_bind. eapply wp_write_limbs.
  { simpl. rewrite Em. simpl. rewrite lookup_insert_ne by done. apply lookup_insert_eq. }
  { rewrite length_take. change P256_DIGITS with 4%nat. lia. }
  apply wp_bind. eapply wp_write_limbs.
  { simpl. rewrite lookup_insert_ne, Em by done. apply lookup_insert_eq. }
  { rewrite length_take, length_drop. change P256_DIGITS with 4%nat. lia. }
  apply wp_ret, (HQ p (take P256_DIGITS raw) (take P256_DIGITS (drop P256_DIGITS raw))).
  - exists lx, ly, (ffi.ndigits pt). simpl. split_and!; auto.
    + rewrite Ep. f_equal. destruct pt; simpl in *. congruence.
    + rewrite Em. simpl. by rewrite (insert_insert_ne _ lx ly), !insert_insert_eq by done.
    + rewrite length_take. change P256_DIGITS with 4%nat. lia.
    + rewrite length_take, length_drop. change P256_DIGITS with 4%nat. lia.
    + by etrans.
  - exists ret, (world st1), w'. rewrite (take_ge (drop _ _)), take_drop; [done|].
    rewrite length_drop. change P256_DIGITS with 4%nat. lia.
Qed.
End Laws.

Section CurveSec.
Context `{!CurveLaws W}.

Lemma generated_range w key :
  generated w key -> scalar_ok key /\ 0 < val key < curve_order.
Proof using All. intros (r & w' & E & Hr). by apply (gen_privkey_ok (vli.zero P256_DIGITS) w r key w'). Qed.

(** A derived public key is [k·G] in swapped limbs. *)
Lemma derived_coords privkey bx by_ :
  scalar_ok privkey -> 0 < val privkey < curve_order -> derived privkey bx by_ ->
  length bx = P256_DIGITS ->
  bx = swap_digits (digits 64 4 (fst (curve_coords (val privkey)))) /\
  by_ = swap_digits (digits 64 4 (snd (curve_coords (val privkey)))).
Proof using All.
  intros Hok Hr (r & w & w' & Hr0 & _ & E) Hl.
  pose proof (make_pub_key_ok privkey _ w r _ w' Hok Hr (length_replicate _ _) E Hr0) as Happ.
  apply app_inj_1 in Happ; [done|].
  rewrite Hl. unfold swap_digits. by rewrite length_fmap, length_reverse, digits_length.
Qed.

(** The bytes of a swapped coordinate are its big-endian encoding. *)
Lemma coord_bytes z : 0 <= z < 2 ^ 256 ->
  be_value (limbs_bytes (swap_digits (digits 64 4 z))) = z /\
  length (limbs_bytes (swap_digits (digits 64 4 z))) = P256_BYTES.
Proof using Type.
  intros Hz. split.
  - rewrite vli.be_value_swap by (apply digits_wf; lia). by apply (val_digits 4).
  - rewrite limbs_bytes_length. unfold swap_digits.
    by rewrite length_fmap, length_reverse, digits_length.
Qed.

Lemma wp_get_curve_n (Qok : option Scalar -> kstate W -> Prop) Qerr st :
  Qok None st ->
  (forall n, scalar_ok n -> val n = curve_order -> Qok (Some n) st) ->
  wp get_curve_n Qok Qerr st.
Proof using All.
  intros H0 H1. unfold get_curve_n.
  destruct (ecc_get_curve P256) as [c|] eqn:Ec; [|by apply wp_ret].
  destruct (ffi.n c) as [l|] eqn:En; [|by apply wp_ret].
  destruct (get_curve_ok c l Ec En) as [[Hl Hok] Hv].
  rewrite bool_decide_true by (by rewrite Hl). apply wp_ret.
  rewrite take_ge by (by rewrite Hl). by apply H1.
Qed.
End CurveSec.
End Ecc.

(** ** Properties *)

(** C18: [make_public_key] is memory safe and leaks nothing: whatever the kernel
    answers, it never touches a dead or null pointer and never frees twice; on
    every error (no memory, a point without buffers, a failed derivation) the
    heap is exactly the one it was called with, and on success it owns exactly
    one new point. *)
Theorem make_public_key_safe {W : Type} `{!Kernel W} `{!EccLaws W}
    (privkey : Scalar) (st : kstate W) :
  wp (make_public_key privkey)
     (fun p st' => exists bx by_, holds_point st (inner p) bx by_ st')
     (fun e st' => same_heap st st') st.
Proof. apply wp_make_public_key; [|done]. intros p bx by_ st' H _. by exists bx, by_. Qed.

Lemma make_public_key_safe_witness :
  exists st', @make_public_key RW ToyKernel (digits 64 4 5) (toy_state [] true 0 0) =
                (Ret (mkPoint 1), st') /\
    exists bx by_, @holds_point RW ToyKernel (toy_state [] true 0 0) 1 bx by_ st'.
Proof.
  eexists. split; [vm_compute; reflexivity|].
  refine (wp_run _ _ _ _ (mkPoint 1) _
    (@make_public_key_safe RW ToyKernel toy_Ecc (digits 64 4 5) (toy_state [] true 0 0)) _).
  vm_compute; reflexivity.
Defined.

(** The point [make_public_key] returns is the private key's multiple of the
    base point in wire format: its X and Y bytes are the 32-byte big-endian
    encodings of the affine coordinates, and [x_scalar] followed by [unswap] is
    the X coordinate as a number. *)
Lemma make_public_key_coords {W : Type} `{!Kernel W} `{!EccLaws W} `{!CurveLaws W}
    (privkey : Scalar) (st : kstate W) :
  scalar_ok privkey -> 0 < val privkey < curve_order ->
  let '(x, y) := curve_coords (val privkey) in
  wp (p ← make_public_key privkey;
      r ← x_scalar p; bx ← x_as_bytes p; by_ ← y_as_bytes p; mret (r, bx, by_))
     (fun '(r, bx, by_) _ =>
        vli.unswap P256_DIGITS r = digits 64 P256_DIGITS x /\
        be_value bx = x /\ length bx = P256_BYTES /\
        be_value by_ = y /\ length by_ = P256_BYTES)
     (fun e st' => same_heap st st') st.
Proof.
  intros Hok Hr. destruct (curve_coords (val privkey)) as [x y] eqn:Exy.
  apply wp_bind, wp_make_public_key; [|done]. intros p bx by_ st' Hh Hd.
  assert (Lx : length bx = P256_DIGITS) by (destruct Hh as (? & ? & ? & ?); tauto).
  destruct (derived_coords privkey bx by_ Hok Hr Hd Lx) as [-> ->]. rewrite Exy in *. simpl fst in *.
  simpl snd in *. pose proof (coords_bound (val privkey)) as [Hx Hy]. rewrite Exy in Hx, Hy.
  apply wp_bind, (wp_x_scalar st p _ _ _ _ _ Hh).
  apply wp_bind, (wp_x_as_bytes st p _ _ _ _ _ Hh).
  apply wp_bind, (wp_y_as_bytes st p _ _ _ _ _ Hh), wp_ret.
  destruct (coord_bytes x Hx), (coord_bytes y Hy). split_and!; try done.
  apply vli.unswap_swap, vli_ok_digits.
Qed.

End ecc.
