(* ===== verification/Ecdsa.v ===== *)
(** ECDSA over the integers: the specification the driver's limb code is
    proved against.

    [sign_with] is one signing attempt with a given nonce, [first_signature]
    the result of a list of nonces, [verify] the verification equation.  The
    curve group enters through the class [EcGroup]: an abelian group generated
    by the base point, with the kernel's coordinates. *)
From S2P Require Import Prelude Exec Ffi PrimeCert RefKernel.
From stdpp Require Import base gmap list numbers.
From Stdlib Require Import ZArith Zdivisibility Zcong Lia.
#[local] Open Scope Z_scope.

Module ecdsa.

(** ** Signing *)

(** One attempt: [n] the order, [z] the hash, [d] the key, [k] the nonce and
    [x] the x coordinate of [k·G].  [None] is a degenerate nonce. *)
Definition sign_with (n z d k x : Z) : option (Z * Z) :=
  let r := x mod n in
  if r =? 0 then None else
  let s := ((z + r * d) * Z.invmod k n) mod n in
  if s =? 0 then None else Some (r, s).

(** The first signature a list of nonces gives. *)
Fixpoint first_signature (n z d : Z) (x : Z -> Z) (ks : list Z) : option (Z * Z) :=
  match ks with
  | [] => None
  | k :: ks =>
      match sign_with n z d k (x k) with
      | Some rs => Some rs
      | None => first_signature n z d x ks
      end
  end.

(** ** Verification *)

Class EcGroup := {
  pt : Type;
  padd : pt -> pt -> pt;
  smul : Z -> pt -> pt;
  base : pt;
  is_inf : pt -> bool;
  px : pt -> Z }.

Definition verify `{EcGroup} (n : Z) (Q : pt) (z : Z) (rs : Z * Z) : bool :=
  let '(r, s) := rs in
  if (0 <? r) && (r <? n) && (0 <? s) && (s <? n) then
    let w := Z.invmod s n in
    let R := padd (smul ((z * w) mod n) base) (smul ((r * w) mod n) Q) in
    negb (is_inf R) && (px R mod n =? r)
  else false.

Class EcGroupLaws `{EcGroup} (n : Z) (x : Z -> Z) : Prop := {
  smul_add a b : padd (smul a base) (smul b base) = smul (a + b) base;
  smul_smul a b : smul a (smul b base) = smul (a * b) base;
  smul_order a : smul (a mod n) base = smul a base;
  smul_inf a : is_inf (smul a base) = (a mod n =? 0);
  smul_x a : a mod n <> 0 -> px (smul a base) = x a }.

(** ** The equation *)

Section Correct.
Context (n : Z) (Hn : Z.prime n).

Lemma prime_pos : 1 < n.
Proof using Hn. by destruct Hn. Qed.

Lemma invmod_inverse a : 0 < a < n -> (Z.invmod a n * a) mod n = 1.
Proof using Hn. intros. apply Z.invmod_prime; [done|]. rewrite Z.mod_small; lia. Qed.

Lemma invmod_bound a : 0 <= Z.invmod a n < n.
Proof using Hn. pose proof prime_pos. apply Z.mod_pos_bound. lia. Qed.

Lemma invmod_unique a i : 0 < a < n -> 0 <= i < n -> (a * i) mod n = 1 -> i = Z.invmod a n.
Proof using Hn.
  intros Ha Hi E. pose proof prime_pos. pose proof (invmod_inverse a Ha) as Ei.
  pose proof (invmod_bound a) as Hb. set (j := Z.invmod a n) in *.
  rewrite <- (Z.mod_small i n), <- (Z.mod_small j n) by lia.
  transitivity ((j * a * i) mod n).
  - by rewrite <- (Z.mul_mod_idemp_l (j * a)), Ei, Z.mul_1_l by lia.
  - by rewrite <- Z.mul_assoc, <- Z.mul_mod_idemp_r, E, Z.mul_1_r by lia.
Qed.

(** Recovering the nonce: [w (z + r d) = k] when [s = (z + r d) / k]. *)
Lemma recover_nonce z d k r s :
  0 < k < n -> s = ((z + r * d) * Z.invmod k n) mod n -> s <> 0 ->
  ((z * Z.invmod s n) mod n + (r * Z.invmod s n) mod n * d) mod n = k.
Proof using Hn.
  intros Hk Hs Hs0. pose proof prime_pos.
  assert (Hsb : 0 < s < n) by (pose proof (Z.mod_pos_bound ((z + r * d) * Z.invmod k n) n); lia).
  set (w := Z.invmod s n). set (ki := Z.invmod k n) in *.
  pose proof (invmod_inverse s Hsb) as Ew. pose proof (invmod_inverse k Hk) as Ek.
  fold w in Ew. fold ki in Ek.
  rewrite <- Z.add_mod_idemp_r, Z.mul_mod_idemp_l, Z.add_mod_idemp_r, Z.add_mod_idemp_l by lia.
  replace (z * w + r * w * d) with (w * (z + r * d)) by ring.
  transitivity (k mod n); [|apply Z.mod_small; lia].
  assert (E : (w * (z + r * d)) mod n = ((w * s) * k) mod n).
  { rewrite Hs. set (A := z + r * d).
    replace (w * ((A * ki) mod n) * k) with ((A * ki) mod n * (w * k)) by ring.
    rewrite Z.mul_mod_idemp_l by lia.
    replace (A * ki * (w * k)) with (ki * k * (w * A)) by ring.
    by rewrite <- (Z.mul_mod_idemp_l (ki * k)), Ek, Z.mul_1_l by lia. }
  by rewrite E, <- (Z.mul_mod_idemp_l (w * s)), Ew, Z.mul_1_l by lia.
Qed.

Lemma sign_with_range z d k x r s :
  sign_with n z d k x = Some (r, s) -> 0 < r < n /\ 0 < s < n.
Proof using Hn.
  pose proof prime_pos. unfold sign_with.
  pose proof (Z.mod_pos_bound x n ltac:(lia)).
  pose proof (Z.mod_pos_bound ((z + x mod n * d) * Z.invmod k n) n ltac:(lia)).
  destruct (Z.eqb_spec (x mod n) 0); [done|].
  destruct (Z.eqb_spec (((z + x mod n * d) * Z.invmod k n) mod n) 0); [done|].
  intros [= <- <-]. lia.
Qed.

(** The signature only depends on the hash modulo the order. *)
Lemma sign_with_mod z d k x : sign_with n (z mod n) d k x = sign_with n z d k x.
Proof using Hn.
  pose proof prime_pos. unfold sign_with.
  by rewrite <- (Z.mul_mod_idemp_l (z mod n + _)), Z.add_mod_idemp_l, Z.mul_mod_idemp_l by lia.
Qed.

Lemma sign_verifies `{EcGroup} (x : Z -> Z) `{!EcGroupLaws n x} z d k rs :
  0 < k < n -> sign_with n z d k (x k) = Some rs ->
  verify n (smul d base) z rs = true.
Proof using Hn.
  intros Hk Hs. pose proof prime_pos. destruct rs as [r s].
  destruct (sign_with_range _ _ _ _ _ _ Hs) as [Hr Hsb].
  assert (E : s = ((z + r * d) * Z.invmod k n) mod n /\ r = x k mod n).
  { revert Hs. unfold sign_with. destruct (_ =? 0); [done|]. destruct (_ =? 0); [done|].
    by intros [= <- <-]. }
  destruct E as [Es Er]. unfold verify.
  rewrite !(proj2 (Z.ltb_lt _ _)) by lia. simpl.
  rewrite smul_smul, smul_add, <- (smul_order (_ + _)).
  rewrite (recover_nonce z d k r s Hk Es ltac:(lia)).
  rewrite smul_inf, smul_x by (rewrite Z.mod_small; lia).
  rewrite Z.mod_small, (proj2 (Z.eqb_neq k 0)), Er by lia. simpl. apply Z.eqb_refl.
Qed.

Lemma first_signature_verifies `{EcGroup} (x : Z -> Z) `{!EcGroupLaws n x} z d ks rs :
  Forall (fun k => 0 < k < n) ks -> first_signature n z d x ks = Some rs ->
  verify n (smul d base) z rs = true.
Proof using Hn.
  induction 1 as [|k ks Hk _ IH]; simpl; [done|].
  destruct (sign_with n z d k (x k)) eqn:E; [|done].
  intros [= <-]. by apply (sign_verifies x z d k).
Qed.
End Correct.

(** The additive group of residues, as in [ToyKernel]. *)
Definition toy_group : EcGroup := {|
  pt := Z; padd a b := (a + b) mod p256_order; smul a p := (a * p) mod p256_order; base := 1;
  is_inf p := p mod p256_order =? 0; px p := p mod p256_order |}.

Lemma toy_group_laws : @EcGroupLaws toy_group p256_order (fun k => fst (toy_kG k)).
Proof.
  pose proof p256_order_bits. split; simpl; intros; rewrite ?Z.mul_1_r, ?Z.mod_mod by lia; try done.
  - by rewrite <- Z.add_mod by lia.
  - by rewrite Z.mul_mod_idemp_r by lia.
Qed.
End ecdsa.
