(* ===== verification/Ioctl.v ===== *)
(** [driver/src/ioctl.rs]: the request layout, ECDSA signing, key generation,
    the fs-verity lookup and the two ioctl handlers.

    Scopes that own a [Point] run its destructor with [with_drop].  The static
    [KEY_PAIR] is passed to the handlers as the result of its [as_ref] (see
    [SetOnce] for the cell itself and [Tarako] for the module that holds it). *)
From S2P Require Import Prelude Exec Ffi RefKernel Vli Ecc Ecdsa.
From stdpp Require Import base gmap list numbers strings.
From Stdlib Require Import ZArith Zdivisibility Zcong Lia.
#[local] Open Scope Z_scope.

Module ioctl.
Import ecc.

(** ** Layout *)

Definition USER_DATA_BYTES : nat := (1024 / 8)%nat.

Module SignDataReq.
Record SignDataReq := mk {
  user_data : list Z;
  hash : list Z;
  sig_r : list Z;
  sig_s : list Z;
  pubkey : list Z }.
End SignDataReq.

Module KeyPair.
Record KeyPair := mk {
  private : Scalar;
  pubkey : list Z;
  curve_n : Scalar;
  ima_measured : bool }.
End KeyPair.

(** [core::mem::size_of::<SignDataReq>()]: byte arrays under [repr(C)]. *)
Definition size_of_SignDataReq : nat :=
  (USER_DATA_BYTES + P256_BYTES + P256_BYTES + P256_BYTES + P256_PUBKEY_BYTES)%nat.

Section Ioctl.
Context {W : Type} `{!Kernel W}.

Definition TARAKO_HELLO : Z := IO 0x53 0x00.
Definition TARAKO_GET_PUBKEY : Z := IOR 0x53 0x01 (Z.of_nat P256_PUBKEY_BYTES).
Definition TARAKO_SIGN_DATA : Z := IOWR 0x53 0x02 (Z.of_nat size_of_SignDataReq).

(** ** ECDSA signing *)

(** [if v >= curve_n { v - curve_n } else { v }]. *)
Definition reduce_once (v curve_n : Scalar) : Scalar :=
  if vli.ge P256_DIGITS v curve_n then vli.sub P256_DIGITS v curve_n else v.

(** [z + s] modulo the order, with the carry out of the top limb. *)
Definition add_reduce (z s curve_n : Scalar) : Scalar :=
  let '(z_plus_rs, carry) := vli.carrying_add z s 0 in
  if negb (carry =? 0) || vli.ge P256_DIGITS z_plus_rs curve_n
  then vli.sub P256_DIGITS z_plus_rs curve_n
  else z_plus_rs.

(** The loop body once the nonce's point is known; [None] is [continue]. *)
Definition sign_body (data_hash : list Z) (privkey curve_n k : Scalar) (pubk : Point)
    : KM W (option (Scalar * Scalar)) :=
  r_swapped ← x_scalar pubk;
  let r := reduce_once (vli.unswap P256_DIGITS r_swapped) curve_n in
  if vli.is_zero P256_DIGITS r then mret None else
  z ← question (vli.from_be_bytes P256_DIGITS data_hash);
  let z := reduce_once z curve_n in
  let s := vli.mod_mult P256_DIGITS r privkey curve_n in
  let z_plus_rs := add_reduce z s curve_n in
  let k_inv := vli.mod_inv P256_DIGITS k curve_n in
  let s := vli.mod_mult P256_DIGITS z_plus_rs k_inv curve_n in
  if vli.is_zero P256_DIGITS s then mret None else mret (Some (r, s)).

(** One iteration of the loop, with the destructor of [pubk]. *)
Definition sign_attempt (data_hash : list Z) (privkey curve_n : Scalar)
    : KM W (option (Scalar * Scalar)) :=
  k ← generate_private_key;
  pubk ← make_public_key k;
  with_drop (drop_point pubk) (sign_body data_hash privkey curve_n k pubk).

Fixpoint sign_loop (iterations : nat) (data_hash : list Z) (privkey curve_n : Scalar)
    : KM W (Scalar * Scalar) :=
  match iterations with
  | O => throw EINVAL
  | S iterations =>
      o ← sign_attempt data_hash privkey curve_n;
      match o with
      | Some rs => mret rs
      | None => sign_loop iterations data_hash privkey curve_n
      end
  end.

Definition ecdsa_sign (data : list Z) (privkey curve_n : Scalar) : KM W (Scalar * Scalar) :=
  sign_loop 100 (sha256_hash data) privkey curve_n.

(** [KeyPair::sign]. *)
Definition sign (self : KeyPair.KeyPair) (data : list Z) : KM W (Scalar * Scalar) :=
  ecdsa_sign data (KeyPair.private self) (KeyPair.curve_n self).

(** ** Key generation *)

(** SEC1 compressed form: 0x02/0x03 according to the parity of Y, then X. *)
Definition compressed_pubkey (public_x public_y : list Z) : KM W (list Z) :=
  let pubkey := replicate P256_PUBKEY_BYTES 0 in
  y_last ← index public_y (P256_BYTES - 1);
  pubkey ← set_index pubkey 0 (Z.lor 0x02 (Z.land y_last 1));
  copy_from_slice pubkey 1 (length pubkey) public_x.

Definition generate_key_pair : KM W KeyPair.KeyPair :=
  private ← generate_private_key;
  public ← make_public_key private;
  with_drop (drop_point public) (
    public_x ← x_as_bytes public;
    public_y ← y_as_bytes public;
    pubkey ← compressed_pubkey public_x public_y;
    o ← get_curve_n;
    curve_n ← ok_or o EINVAL;
    measured ← as_result (ima_measure_pubkey pubkey);
    let ima_measured := match measured with Ok _ => true | Err _ => false end in
    mret (KeyPair.mk private pubkey curve_n ima_measured)).

(** The drop glue of [KeyPair]: each [Scalar] field zeroizes its limbs. *)
Definition drop_key_pair (kp : KeyPair.KeyPair) : KeyPair.KeyPair :=
  KeyPair.mk (vli.drop (KeyPair.private kp)) (KeyPair.pubkey kp)
             (vli.drop (KeyPair.curve_n kp)) (KeyPair.ima_measured kp).

(** ** The caller's fs-verity digest *)

Definition FS_VERITY_MAX_DIGEST_SIZE : nat := 64.

Record FsverityDigest := mkFsverityDigest { size : nat; buffer : list Z }.

Definition digest (self : FsverityDigest) : KM W (list Z) := slice 0 (size self) (buffer self).

Definition current_exe_fsverity_digest (current : Task) : KM W FsverityDigest :=
  mm ← ok_or (task_mm current) EPERM;
  match mm with
  | None => throw EPERM
  | Some mm =>
      match exe_file mm with
      | None => throw EPERM
      | Some exe_file =>
          match f_inode exe_file with
          | None => throw EPERM
          | Some inode =>
              '(ret, buffer) ← call (fsverity_get_digest inode (replicate FS_VERITY_MAX_DIGEST_SIZE 0));
              if ret <? 0 then throw (from_errno ret) else
              let size := Z.to_nat ret in
              if bool_decide (size = 0)%nat then throw ENOENT else
              if bool_decide (length buffer < size)%nat then throw EOVERFLOW else
              mret (mkFsverityDigest size buffer)
          end
      end
  end.

(** ** The request in user memory *)

(** The object representation of a request, and the request whose
    representation has been overwritten with [bs]. *)
Definition sign_data_req_bytes (req : SignDataReq.SignDataReq) : list Z :=
  SignDataReq.user_data req ++ SignDataReq.hash req ++ SignDataReq.sig_r req ++
  SignDataReq.sig_s req ++ SignDataReq.pubkey req.

Definition sign_data_req_bytes_mut (bs : list Z) : SignDataReq.SignDataReq :=
  let at_ := fun off n => take n (drop off bs) in
  SignDataReq.mk
    (at_ 0 USER_DATA_BYTES)%nat
    (at_ USER_DATA_BYTES P256_BYTES)%nat
    (at_ (USER_DATA_BYTES + P256_BYTES) P256_BYTES)%nat
    (at_ (USER_DATA_BYTES + 2 * P256_BYTES) P256_BYTES)%nat
    (at_ (USER_DATA_BYTES + 3 * P256_BYTES) P256_PUBKEY_BYTES)%nat.

Definition read_sign_data_req (arg buf_size : Z) : KM W SignDataReq.SignDataReq :=
  bs ← call_result (read_slice arg buf_size size_of_SignDataReq);
  mret (sign_data_req_bytes_mut bs).

Definition write_sign_data_req (arg buf_size : Z) (req : SignDataReq.SignDataReq) : KM W unit :=
  call_result (write_slice arg buf_size (sign_data_req_bytes req)).

(** ** Handlers *)

Definition handle_get_pubkey (key_pair : option KeyPair.KeyPair) (arg cmd : Z) : KM W Z :=
  kp ← ok_or key_pair ENXIO;
  let buf_size := IOC_SIZE cmd in
  if buf_size <? Z.of_nat P256_PUBKEY_BYTES then throw E2BIG else
  call_result (write_slice arg buf_size (KeyPair.pubkey kp)) ≫= fun _ =>
  mret (Z.of_nat P256_PUBKEY_BYTES).

(** [usize::checked_add]. *)
Definition checked_add (a b : nat) : option nat :=
  if Z.of_nat a + Z.of_nat b <? 2 ^ 64 then Some (a + b)%nat else None.

(** [for (i, limb) in limbs.iter().rev().enumerate()], from index [i]. *)
Fixpoint copy_limbs (dst : list Z) (i : nat) (limbs_rev : list Z) : KM W (list Z) :=
  match limbs_rev with
  | [] => mret dst
  | limb :: limbs_rev =>
      dst ← copy_from_slice dst (i * 8) ((i + 1) * 8) (to_be_bytes limb);
      copy_limbs dst (S i) limbs_rev
  end.

(** The message the signature covers: digest, then user data. *)
Definition to_sign_bytes (digest : list Z) (user_data : list Z) : KM W (list Z) :=
  to_sign_len ← ok_or (checked_add (length digest) USER_DATA_BYTES) EINVAL;
  let to_sign := replicate (FS_VERITY_MAX_DIGEST_SIZE + USER_DATA_BYTES) 0 in
  to_sign ← copy_from_slice to_sign 0 (length digest) digest;
  to_sign ← copy_from_slice to_sign (length digest) to_sign_len user_data;
  slice 0 to_sign_len to_sign.

Definition handle_sign_data (current : Task) (key_pair : option KeyPair.KeyPair) (arg cmd : Z) : KM W Z :=
  let buf_size := IOC_SIZE cmd in
  kp ← ok_or key_pair ENXIO;
  if negb (KeyPair.ima_measured kp) then throw EPERM else
  fd ← current_exe_fsverity_digest current;
  digest ← digest fd;
  req ← read_sign_data_req arg buf_size;
  to_sign ← to_sign_bytes digest (SignDataReq.user_data req);
  let hash := sha256_hash to_sign in
  '(sig_r_limbs, sig_s_limbs) ← sign kp to_sign;
  sig_r ← copy_limbs (SignDataReq.sig_r req) 0 (reverse sig_r_limbs);
  sig_s ← copy_limbs (SignDataReq.sig_s req) 0 (reverse sig_s_limbs);
  pubkey ← copy_from_slice (SignDataReq.pubkey req) 0 (length (SignDataReq.pubkey req))
             (KeyPair.pubkey kp);
  write_sign_data_req arg buf_size
    (SignDataReq.mk (SignDataReq.user_data req) hash sig_r sig_s pubkey) ≫= fun _ =>
  mret 0.

(** ** Lemmas on signing *)

Section SignLaws.
Context `{!VliLaws W} (curve_n : Scalar).
Context (Hn : scalar_ok curve_n) (Htop : 2 ^ 255 < val curve_n).

Lemma reduce_once_ok v :
  scalar_ok v -> reduce_once v curve_n = digits 64 P256_DIGITS (val v mod val curve_n).
Proof using All.
  intros Hv. unfold reduce_once. rewrite vli.ge_ok, vli.sub_ok by done.
  pose proof (vli_ok_bound _ _ Hv) as Hb. change (64 * Z.of_nat P256_DIGITS) with 256 in Hb.
  destruct (Z.leb_spec (val curve_n) (val v)).
  - f_equal. apply (Z.mod_unique_pos _ _ 1); lia.
  - rewrite Z.mod_small by lia. symmetry. by apply digits_val.
Qed.

Lemma add_reduce_ok z s :
  scalar_ok z -> scalar_ok s -> val z < val curve_n -> val s < val curve_n ->
  add_reduce z s curve_n = digits 64 P256_DIGITS ((val z + val s) mod val curve_n).
Proof using All.
  intros Hz Hs Hzn Hsn. unfold add_reduce, vli.carrying_add.
  pose proof (vli.carrying_add_loop_ok z s 0 (proj2 Hz) (proj2 Hs)) as H.
  rewrite (proj1 Hz), (proj1 Hs) in H. specialize (H eq_refl ltac:(split; done)).
  destruct (vli.carrying_add_loop z s 0) as [t c]. destruct H as (Ht & Hc & E).
  pose proof (vli_ok_bound _ _ Ht) as Hb. pose proof (vli_ok_bound _ _ Hn) as Hnb.
  pose proof (vli_ok_bound _ _ Hz). pose proof (vli_ok_bound _ _ Hs).
  change (64 * Z.of_nat P256_DIGITS) with 256 in *. unfold digit_ok in Hc.
  rewrite vli.ge_ok, vli.sub_ok by done. rewrite Z.add_0_r in E.
  assert (Hc01 : c = 0 \/ c = 1) by nia.
  destruct Hc01 as [-> | ->]; simpl; [destruct (Z.leb_spec (val curve_n) (val t))|].
  - f_equal. apply (Z.mod_unique_pos _ _ 1); lia.
  - rewrite Z.mod_small by lia. rewrite <- E, Z.mul_0_r, Z.add_0_r. symmetry. by apply digits_val.
  - apply (value_inj 64); [lia | by apply digits_wf | by apply digits_wf | by rewrite !digits_length|].
    rewrite !value_digits by lia. change (64 * Z.of_nat P256_DIGITS) with 256.
    rewrite <- (Z.mod_unique_pos (val z + val s) (val curve_n) 1 (val z + val s - val curve_n)) by lia.
    rewrite (Z.mod_small (val z + val s - val curve_n)) by lia.
    symmetry. apply (Z.mod_unique_pos _ _ (-1)); lia.
Qed.
End SignLaws.

(** The limbs of a signature over the integers. *)
Definition encode_sig (rs : Z * Z) : Scalar * Scalar :=
  (digits 64 P256_DIGITS (fst rs), digits 64 P256_DIGITS (snd rs)).

Definition x_of (k : Z) : Z := fst (curve_coords k).

Section SignSpec.
Context `{!VliLaws W} `{!EccLaws W} `{!CurveLaws W}.
Context (privkey curve_n : Scalar).
Context (Hd : scalar_ok privkey) (Hn : scalar_ok curve_n) (Hord : val curve_n = curve_order).

Lemma order_top : 2 ^ 255 < val curve_n.
Proof using Hord CurveLaws0. rewrite Hord. apply order_bits. Qed.

Lemma order_prime' : Z.prime (val curve_n).
Proof using Hord CurveLaws0. rewrite Hord. apply order_prime. Qed.

Lemma residue_digits z :
  val (digits 64 P256_DIGITS (z mod val curve_n)) = z mod val curve_n.
Proof using Hord CurveLaws0.
  pose proof order_bits as Ho. rewrite <- Hord in Ho.
  pose proof (Z.mod_pos_bound z (val curve_n) ltac:(lia)).
  apply (val_digits P256_DIGITS). change (64 * Z.of_nat P256_DIGITS) with 256. lia.
Qed.

Lemma is_zero_residue z :
  vli.is_zero P256_DIGITS (digits 64 P256_DIGITS (z mod val curve_n)) = (z mod val curve_n =? 0).
Proof using Hord CurveLaws0 VliLaws0.
  rewrite vli.is_zero_ok by (done || apply vli_ok_digits). rewrite residue_digits.
  case_bool_decide; symmetry; [by apply Z.eqb_eq | by apply Z.eqb_neq].
Qed.

Lemma mod_inv_ok k : scalar_ok k -> 0 < val k < val curve_n ->
  vli.mod_inv P256_DIGITS k curve_n = digits 64 P256_DIGITS (Z.invmod (val k) (val curve_n)).
Proof using Hord Hn CurveLaws0 VliLaws0.
  intros Hk Hr. pose proof order_top. pose proof order_prime' as Hp.
  assert (Hodd : Z.odd (val curve_n) = true).
  { rewrite <- Z.negb_even. destruct (Z.even (val curve_n)) eqn:E; [exfalso|done].
    apply Z.even_spec in E as [m Em]. apply (proj2 Hp 2); [lia|]. exists m. lia. }
  destruct (vli_mod_inv_ok P256_DIGITS k curve_n ltac:(done) Hk Hn ltac:(done) Hodd Hr)
    as (i & E & Hi & Ei).
  { apply Z.Symmetric_coprime, Z.coprime_prime_small; [done|lia]. }
  unfold vli.mod_inv. change (c_uint P256_DIGITS) with (Z.of_nat P256_DIGITS). rewrite E.
  f_equal. by apply ecdsa.invmod_unique.
Qed.

(** The second half of the signature. *)
Lemma sign_s_ok z r k : scalar_ok k -> 0 < val k < val curve_n ->
  vli.mod_mult P256_DIGITS
    (add_reduce (digits 64 P256_DIGITS (z mod val curve_n))
       (vli.mod_mult P256_DIGITS (digits 64 P256_DIGITS (r mod val curve_n)) privkey curve_n) curve_n)
    (vli.mod_inv P256_DIGITS k curve_n) curve_n =
  digits 64 P256_DIGITS
    (((z + r mod val curve_n * val privkey) * Z.invmod (val k) (val curve_n)) mod val curve_n).
Proof using All.
  intros Hk Hkr. pose proof order_top as Htop. pose proof order_prime' as Hpr.
  pose proof (ecdsa.invmod_bound _ Hpr (val k)) as Hi. pose proof order_bits as Ho.
  rewrite <- Hord in Ho. rewrite mod_inv_ok by done.
  assert (Hlt : forall a, a mod val curve_n < val curve_n)
    by (intros; apply Z.mod_pos_bound; lia).
  rewrite (vli.mod_mult_ok P256_DIGITS ltac:(done) (digits 64 P256_DIGITS (r mod val curve_n)))
    by (done || apply vli_ok_digits).
  rewrite add_reduce_ok by (rewrite ?residue_digits; done || apply vli_ok_digits || apply Hlt).
  rewrite vli.mod_mult_ok by (done || apply vli_ok_digits).
  rewrite !residue_digits, (val_digits P256_DIGITS (Z.invmod _ _))
    by (change (64 * Z.of_nat P256_DIGITS) with 256; lia).
  by rewrite <- Z.add_mod, Z.mul_mod_idemp_l by lia.
Qed.

(** The body computes [ecdsa.sign_with] on the numbers behind the limbs. *)
Lemma sign_body_ok data_hash k x st0 p by_ st :
  bytes_ok data_hash -> length data_hash = P256_BYTES ->
  scalar_ok k -> 0 < val k < val curve_n -> 0 <= x < 2 ^ 256 ->
  holds_point st0 p (swap_digits (digits 64 P256_DIGITS x)) by_ st ->
  wp (sign_body data_hash privkey curve_n k (mkPoint p))
     (fun o st' => st' = st /\
        o = encode_sig <$> ecdsa.sign_with (val curve_n) (be_value data_hash) (val privkey) (val k) x)
     (fun _ _ => False) st.
Proof using All.
  intros Hh Lh Hk Hkr Hx Hp. pose proof order_top as Htop. pose proof order_prime' as Hpr.
  set (n := val curve_n) in *. assert (Hn0 : 0 < n) by lia.
  unfold sign_body. apply wp_bind, (wp_x_scalar st0 p _ _ _ _ _ Hp).
  rewrite vli.unswap_swap by apply vli_ok_digits.
  rewrite reduce_once_ok by (done || apply vli_ok_digits).
  rewrite (val_digits P256_DIGITS x) by done. fold n.
  rewrite is_zero_residue. fold n. unfold ecdsa.sign_with.
  destruct (Z.eqb_spec (x mod n) 0) as [E0|E0]; [by apply wp_ret|].
  apply wp_bind. rewrite vli.from_be_bytes_ok by done.
  assert (Hzb : 0 <= be_value data_hash < 2 ^ 256).
  { pose proof (value_bound 8 ltac:(lia) (reverse data_hash)) as B.
    rewrite length_reverse, Lh in B. apply B. by apply Forall_reverse. }
  apply wp_question; [|done]. intros z [= <-].
  rewrite reduce_once_ok by (done || apply vli_ok_digits).
  rewrite (val_digits P256_DIGITS (be_value data_hash)) by done. fold n.
  rewrite sign_s_ok by done. fold n. rewrite is_zero_residue. fold n.
  destruct (_ =? 0); by apply wp_ret.
Qed.

Lemma sign_attempt_ok data_hash st :
  bytes_ok data_hash -> length data_hash = P256_BYTES ->
  wp (sign_attempt data_hash privkey curve_n)
     (fun o st' => same_heap st st' /\ exists k, 0 < k < val curve_n /\
        o = encode_sig <$> ecdsa.sign_with (val curve_n) (be_value data_hash) (val privkey) k (x_of k))
     (fun e st' => same_heap st st' /\ kernel_failure e) st.
Proof using All.
  intros Hh Lh. unfold sign_attempt.
  apply wp_bind, wp_generate_private_key; [|by split]. intros k st1 H1 Hg.
  destruct (generated_range _ _ Hg) as [Hk Hkr].
  apply wp_bind, wp_make_public_key; [|intros e st2 H2 He; split; [by etrans|done]].
  intros p bx by_ st2 H2 Hder.
  assert (Lx : length bx = P256_DIGITS) by (destruct H2 as (? & ? & ? & ?); tauto).
  destruct (derived_coords k bx by_ Hk Hkr Hder Lx) as [-> _]. rewrite <- Hord in Hkr.
  apply wp_with_drop. eapply wp_mono;
    [by apply (sign_body_ok data_hash k (x_of (val k)) st1 p by_ st2); try apply coords_bound | |done].
  intros o st3 [-> ->]. apply (wp_drop_point st1 p _ _ _ _ _ H2).
  intros st4 H4 _. split; [by etrans|]. by exists (val k).
Qed.

(** What the first [m] iterations can do: a signature from the first nonce that
    gives one, a kernel failure, or [m] degenerate nonces. *)
Lemma sign_loop_ok data_hash m : bytes_ok data_hash -> length data_hash = P256_BYTES ->
  forall st,
  let spec := ecdsa.first_signature (val curve_n) (be_value data_hash) (val privkey) x_of in
  wp (sign_loop m data_hash privkey curve_n)
     (fun rs st' => same_heap st st' /\ exists ks rs', (length ks <= m)%nat /\
        Forall (fun k => 0 < k < val curve_n) ks /\ spec ks = Some rs' /\ rs = encode_sig rs')
     (fun e st' => same_heap st st' /\ (kernel_failure e \/ e = EINVAL /\ exists ks, length ks = m /\
        Forall (fun k => 0 < k < val curve_n) ks /\ spec ks = None)) st.
Proof using All.
  intros Hh Lh. induction m as [|m IH]; intros st spec; cbn [sign_loop].
  - apply wp_throw. split; [done|]. right. split; [done|]. by exists [].
  - apply wp_bind. eapply wp_mono; [by apply sign_attempt_ok | |].
    + intros o st1 (H1 & k & Hk & ->). destruct (ecdsa.sign_with _ _ _ _ _) as [rs|] eqn:E.
      * apply wp_ret. split; [done|]. exists [k], rs. unfold spec. simpl. rewrite E.
        split_and!; [lia | by constructor | done | done].
      * simpl. eapply wp_mono; [apply IH | |].
        -- intros rs st2 (H2 & ks & rs' & Hl & Hks & Hs & ->). split; [by etrans|].
           exists (k :: ks), rs'. unfold spec. simpl. rewrite E.
           split_and!; [lia | by constructor | done | done].
        -- intros e st2 (H2 & [He|(-> & ks & Hl & Hks & Hs)]); (split; [by etrans|]); [by left|].
           right. split; [done|]. exists (k :: ks). unfold spec. simpl. rewrite E.
           split_and!; [lia | by constructor | done].
    + intros e st1 [H1 He]. split; [done|by left].
Qed.
End SignSpec.

Lemma first_signature_range `{!CurveLaws W} z d ks r s :
  ecdsa.first_signature curve_order z d x_of ks = Some (r, s) ->
  0 < r < curve_order /\ 0 < s < curve_order.
Proof.
  induction ks as [|k ks IH]; simpl; [done|].
  destruct (ecdsa.sign_with _ _ _ _ _) as [[r' s']|] eqn:E; [|done].
  intros [= <- <-]. by apply (ecdsa.sign_with_range _ order_prime) in E.
Qed.

(** ** Key pairs *)

(** SEC 1 compressed encoding of an affine point. *)
Definition sec1_compress (xy : Z * Z) : list Z :=
  (if Z.odd (snd xy) then 0x03 else 0x02) :: reverse (digits 8 P256_BYTES (fst xy)).

(** The measurement the module asks IMA to record. *)
Definition pubkey_event (pubkey : list Z) : ImaEvent :=
  mkImaEvent "tarako_pubkey" "public-key-generate" pubkey.

(** The invariant of a key pair. *)
Definition key_pair_ok (kp : KeyPair.KeyPair) : Prop :=
  scalar_ok (KeyPair.private kp) /\ 0 < val (KeyPair.private kp) < curve_order /\
  scalar_ok (KeyPair.curve_n kp) /\ val (KeyPair.curve_n kp) = curve_order /\
  KeyPair.pubkey kp = sec1_compress (curve_coords (val (KeyPair.private kp))).

Lemma be_bytes_unique n bs z :
  bytes_ok bs -> length bs = n -> be_value bs = z -> bs = reverse (digits 8 n z).
Proof.
  intros Hb Hl <-. pose proof (digits_value 8 ltac:(lia) (reverse bs)) as H.
  rewrite length_reverse, Hl in H. unfold be_value.
  rewrite H by (by apply Forall_reverse). by rewrite reverse_involutive.
Qed.

Lemma sec1_compress_length xy : length (sec1_compress xy) = P256_PUBKEY_BYTES.
Proof. unfold sec1_compress. cbn [length]. by rewrite length_reverse, digits_length. Qed.

Lemma sec1_compress_wf xy : bytes_ok (sec1_compress xy).
Proof.
  unfold sec1_compress. constructor; [destruct (Z.odd _); split; done|].
  apply Forall_reverse, digits_wf. lia.
Qed.

(** The parity bit the module takes from the last byte of Y. *)
Lemma be_last_parity bs b :
  bytes_ok bs -> bs !! (length bs - 1)%nat = Some b ->
  Z.lor 2 (Z.land b 1) = if Z.odd (be_value bs) then 3 else 2.
Proof.
  intros Hb Hl. assert (Hlt : (length bs - 1 < length bs)%nat) by (by eapply lookup_lt_Some).
  unfold be_value. destruct (reverse bs) as [|b' l] eqn:E.
  { apply (f_equal length) in E. rewrite length_reverse in E. simpl in E. lia. }
  assert (b' = b) as ->.
  { pose proof (reverse_lookup bs 0 ltac:(lia)) as H. rewrite E in H. simpl in H.
    rewrite <- H in Hl. by injection Hl. }
  rewrite value_cons, Z.odd_add, Z.odd_mul. simpl (Z.odd (2 ^ 8)). rewrite andb_false_l, xorb_false_r.
  change 1 with (Z.ones 1) at 1. rewrite Z.land_ones, Zmod_odd by lia. by destruct (Z.odd b).
Qed.

Lemma wp_ima_measure_pubkey `{!ImaLaws W} bytes (Qok : unit -> kstate W -> Prop)
    (Qerr : Error -> kstate W -> Prop) st :
  (forall st', same_heap st st' -> pubkey_event bytes ∈ ima_log (world st') -> Qok tt st') ->
  (forall e st', same_heap st st' -> Qerr e st') ->
  wp (ima_measure_pubkey bytes) Qok Qerr st.
Proof.
  intros H1 H2. unfold ima_measure_pubkey. apply wp_bind, wp_call. intros r w' E.
  pose proof (ima_measure_frame _ _ _ _ _ _ _ _ E) as Hk.
  destruct (Z.ltb_spec r 0); [by apply wp_throw, H2|].
  apply wp_ret, H1; [by split_and!|]. simpl.
  destruct (ima_measure_ok _ _ _ _ _ _ E ltac:(done)) as (l & -> & Hl).
  apply elem_of_app. by right.
Qed.

Lemma compressed_pubkey_ok x y (Qok : list Z -> kstate W -> Prop) Qerr st :
  0 <= x < 2 ^ 256 -> 0 <= y < 2 ^ 256 -> Qok (sec1_compress (x, y)) st ->
  wp (compressed_pubkey (limbs_bytes (swap_digits (digits 64 4 x)))
                        (limbs_bytes (swap_digits (digits 64 4 y)))) Qok Qerr st.
Proof.
  intros Hx Hy HQ. destruct (coord_bytes x Hx) as [Ex Lx], (coord_bytes y Hy) as [Ey Ly].
  unfold compressed_pubkey. set (xb := limbs_bytes (swap_digits (digits 64 4 x))) in *.
  set (yb := limbs_bytes (swap_digits (digits 64 4 y))) in *.
  destruct (lookup_lt_is_Some_2 yb (P256_BYTES - 1)) as [b Hb]; [rewrite Ly; compute; lia|].
  apply wp_bind. eapply wp_index; [done|].
  apply wp_bind, wp_set_index; [compute; lia|]. apply wp_copy_from_slice.
  - compute. lia.
  - done.
  - by rewrite Lx, length_insert, length_replicate.
  - rewrite drop_all, app_nil_r. simpl. unfold sec1_compress in HQ. simpl in HQ.
    rewrite <- Ey, <- (be_last_parity yb b) in HQ; [|apply limbs_bytes_wf|by rewrite Ly].
    by rewrite <- (be_bytes_unique P256_BYTES xb x) in HQ by (done || apply limbs_bytes_wf).
Qed.

Lemma generate_key_pair_ok `{!EccLaws W} `{!CurveLaws W} `{!ImaLaws W} st :
  wp generate_key_pair
     (fun kp st' => same_heap st st' /\ key_pair_ok kp /\
        (KeyPair.ima_measured kp = true -> pubkey_event (KeyPair.pubkey kp) ∈ ima_log (world st')))
     (fun e st' => same_heap st st' /\ (kernel_failure e \/ e = EINVAL)) st.
Proof.
  unfold generate_key_pair.
  apply wp_bind, wp_generate_private_key; [|intros; split; [done|by left]]. intros k st1 H1 Hg.
  destruct (generated_range _ _ Hg) as [Hk Hkr].
  apply wp_bind, wp_make_public_key; [|intros; split; [by etrans|by left]].
  intros p bx by_ st2 H2 Hder.
  assert (Lx : length bx = P256_DIGITS) by (destruct H2 as (? & ? & ? & ?); tauto).
  destruct (derived_coords k bx by_ Hk Hkr Hder Lx) as [-> ->].
  pose proof (coords_bound (val k)) as [Hx Hy].
  apply wp_with_drop. apply wp_bind, (wp_x_as_bytes st1 p _ _ _ _ _ H2).
  apply wp_bind, (wp_y_as_bytes st1 p _ _ _ _ _ H2).
  apply wp_bind, compressed_pubkey_ok; [done|done|]. rewrite <- surjective_pairing.
  apply wp_bind, wp_get_curve_n.
  { apply wp_bind, wp_ok_or; [done|]. intros _. apply (wp_drop_point st1 p _ _ _ _ _ H2).
    intros st4 H4 _. split; [by etrans | by right]. }
  intros n Hn Hnv. apply wp_bind, wp_ret, wp_bind, wp_as_result.
  assert (Hkp : forall b, key_pair_ok (KeyPair.mk k (sec1_compress (curve_coords (val k))) n b))
    by (intros b; unfold key_pair_ok; simpl; tauto).
  apply wp_ima_measure_pubkey.
  - intros st3 H3 Hev. apply wp_ret, (wp_drop_point st1 p _ _ _ _ _ (holds_point_heap _ _ _ _ _ _ H2 H3)).
    intros st4 H4 Hk4. split; [by etrans|]. split; [apply Hkp|]. intros _. simpl.
    destruct Hk4 as [[l ->] _]. apply elem_of_app. by left.
  - intros e st3 H3. apply wp_ret, (wp_drop_point st1 p _ _ _ _ _ (holds_point_heap _ _ _ _ _ _ H2 H3)).
    intros st4 H4 _. split; [by etrans|]. split; [apply Hkp|done].
Qed.

(** ** The digest of the caller *)

(** The inode of the task's executable, when every link is there. *)
Definition exe_inode (current : Task) : option inode :=
  mm ← task_mm current; mm ← mm; f ← exe_file mm; f_inode f.

(** What the lookup can answer: the caller's fs-verity digest, or an error that
    says why there is none. *)
Lemma caller_digest_ok `{!VerityLaws W} current (Qok : list Z -> kstate W -> Prop) Qerr st :
  (forall i d st', same_heap st st' -> exe_inode current = Some i -> verity_digest i = Some d ->
     (0 < length d <= FS_VERITY_MAX_DIGEST_SIZE)%nat -> bytes_ok d -> Qok d st') ->
  (forall e st', same_heap st st' ->
     match exe_inode current with
     | None => e = EPERM
     | Some _ => e = ENOENT \/ e = EOVERFLOW \/ exists r, r < 0 /\ e = from_errno r
     end -> Qerr e st') ->
  wp (current_exe_fsverity_digest current)
     (fun fd => wp (digest fd) Qok Qerr) Qerr st.
Proof.
  intros H1 H2. unfold current_exe_fsverity_digest, exe_inode in *.
  pose proof (length_replicate FS_VERITY_MAX_DIGEST_SIZE 0) as L0.
  remember (replicate FS_VERITY_MAX_DIGEST_SIZE 0) as buf0 eqn:E0. clear E0.
  destruct current as [[[[[[[i|]]|]]|]|]]; simpl in *;
    try (by apply H2).
  apply wp_bind, wp_ret, wp_bind, wp_call. intros [r buf] w' E.
  destruct (fsverity_frame _ _ _ _ _ _ E) as (Hk & Hl & Hb). rewrite L0 in Hl.
  destruct (Z.ltb_spec r 0).
  { apply wp_throw, H2; [by split_and!|]. right; right. by exists r. }
  case_bool_decide; [apply wp_throw, H2; [by split_and!|tauto]|].
  case_bool_decide; [apply wp_throw, H2; [by split_and!|tauto]|].
  assert (Hr : (Z.to_nat r <= length buf)%nat) by lia.
  pose proof (fsverity_ok _ _ _ _ _ _ E ltac:(lia)) as Hv. rewrite L0 in Hv.
  apply wp_ret. unfold digest. simpl size; simpl buffer. apply wp_slice; [lia|done|].
  rewrite drop_0, Nat.sub_0_r. apply (H1 i); [by split_and!|done| | |].
  - apply Hv. unfold FS_VERITY_MAX_DIGEST_SIZE in *. lia.
  - rewrite length_take. unfold FS_VERITY_MAX_DIGEST_SIZE in *. lia.
  - by apply Forall_take.
Qed.

(** ** The message and the encodings *)

Lemma to_sign_bytes_ok d ud (Qok : list Z -> kstate W -> Prop) Qerr st :
  (length d <= FS_VERITY_MAX_DIGEST_SIZE)%nat -> length ud = USER_DATA_BYTES ->
  Qok (d ++ ud) st -> wp (to_sign_bytes d ud) Qok Qerr st.
Proof.
  unfold FS_VERITY_MAX_DIGEST_SIZE. change USER_DATA_BYTES with 128%nat. intros Hd Hu HQ.
  unfold to_sign_bytes, checked_add. change USER_DATA_BYTES with 128%nat.
  change (FS_VERITY_MAX_DIGEST_SIZE + 128)%nat with 192%nat.
  rewrite (proj2 (Z.ltb_lt _ _)) by lia. apply wp_bind, wp_ret.
  apply wp_bind, wp_copy_from_slice; [lia | rewrite length_replicate; lia | lia |].
  apply wp_bind, wp_copy_from_slice; [lia | len | lia |].
  apply wp_slice; [lia | len |]. rewrite take_0, app_nil_l, drop_0, Nat.sub_0_r.
  rewrite take_app_length, app_assoc.
  by rewrite <- Hu, <- length_app, take_app_length.
Qed.

Lemma copy_limbs_ok l : forall dst i (Qok : list Z -> kstate W -> Prop) Qerr st,
  length dst = (8 * (i + length l))%nat ->
  Qok (take (8 * i) dst ++ mjoin (to_be_bytes <$> l)) st ->
  wp (copy_limbs dst i l) Qok Qerr st.
Proof.
  induction l as [|u l IH]; intros dst i Qok Qerr st Hl HQ; cbn [copy_limbs].
  - apply wp_ret. simpl in Hl, HQ. by rewrite app_nil_r, take_ge in HQ by lia.
  - simpl in Hl. apply wp_bind, wp_copy_from_slice; [lia | lia | rewrite to_be_bytes_length; lia |].
    apply IH; [len|]. rewrite app_assoc, take_app_le by len.
    rewrite take_ge by len. rewrite <- app_assoc.
    by replace (i * 8)%nat with (8 * i)%nat by lia.
Qed.

(** Field lengths of a request. *)
Definition req_ok (req : SignDataReq.SignDataReq) : Prop :=
  length (SignDataReq.user_data req) = USER_DATA_BYTES /\
  length (SignDataReq.hash req) = P256_BYTES /\
  length (SignDataReq.sig_r req) = P256_BYTES /\
  length (SignDataReq.sig_s req) = P256_BYTES /\
  length (SignDataReq.pubkey req) = P256_PUBKEY_BYTES.

Lemma req_bytes_length req : req_ok req -> length (sign_data_req_bytes req) = size_of_SignDataReq.
Proof.
  intros (H1 & H2 & H3 & H4 & H5). unfold sign_data_req_bytes.
  by rewrite !length_app, H1, H2, H3, H4, H5.
Qed.

Lemma req_of_bytes_ok bs : length bs = size_of_SignDataReq -> req_ok (sign_data_req_bytes_mut bs).
Proof.
  change size_of_SignDataReq with 257%nat. intros H. unfold sign_data_req_bytes_mut, req_ok. simpl.
  rewrite !length_take, !length_drop, H. done.
Qed.

(** Consecutive slices of a byte string concatenate to a longer one. *)
Lemma take_drop_app {A} (l : list A) i n m :
  take n (drop i l) ++ take m (drop (i + n) l) = take (n + m) (drop i l).
Proof. rewrite <- drop_drop. apply take_take_drop. Qed.

Lemma slice_mid {A} (a b c : list A) i n :
  length a = i -> length b = n -> take n (drop i (a ++ b ++ c)) = b.
Proof. intros <- <-. by rewrite drop_app_length, take_app_length. Qed.

Lemma req_of_bytes_of_req req : req_ok req -> sign_data_req_bytes_mut (sign_data_req_bytes req) = req.
Proof.
  destruct req as [u h r s p]. intros (Hu & Hh & Hr & Hs & Hp). simpl in *.
  unfold sign_data_req_bytes_mut, sign_data_req_bytes. cbn [SignDataReq.user_data SignDataReq.hash
    SignDataReq.sig_r SignDataReq.sig_s SignDataReq.pubkey]. f_equal.
  - by apply (slice_mid []).
  - by apply slice_mid.
  - rewrite app_assoc. apply slice_mid; [|done]. by rewrite length_app, Hu, Hh.
  - rewrite (app_assoc u), (app_assoc (u ++ h)). apply slice_mid; [|done].
    by rewrite !length_app, Hu, Hh, Hr.
  - rewrite (app_assoc u), (app_assoc (u ++ h)), (app_assoc ((u ++ h) ++ r)).
    rewrite <- (app_nil_r p) at 1. apply slice_mid; [|done].
    by rewrite !length_app, Hu, Hh, Hr, Hs.
Qed.

Lemma bytes_of_req_of_bytes bs :
  length bs = size_of_SignDataReq -> sign_data_req_bytes (sign_data_req_bytes_mut bs) = bs.
Proof.
  change size_of_SignDataReq with 257%nat. intros Hl.
  change (take 128 (drop 0 bs) ++ take 32 (drop (0 + 128) bs) ++ take 32 (drop (0 + 128 + 32) bs) ++
          take 32 (drop (0 + 128 + 32 + 32) bs) ++ take 33 (drop (0 + 128 + 32 + 32 + 32) bs) = bs).
  rewrite !take_drop_app. rewrite drop_0. apply take_ge. lia.
Qed.

(** ** Handlers *)

(** User memory holds [bs] at [ptr]. *)
Definition user_holds (w : W) (ptr : Z) (bs : list Z) : Prop :=
  forall i b, bs !! i = Some b -> user_byte w (ptr + Z.of_nat i) = Some b.

(** An access lies in the [n] bytes at [ptr]; a write that went through. *)
Definition inside (ptr : Z) (n : nat) (e : uaccess) : Prop :=
  match e with
  | URead p bs | UWrite p bs _ => ptr <= p /\ p + Z.of_nat (length bs) <= ptr + Z.of_nat n
  end.
Definition completed (e : uaccess) : Prop :=
  match e with UWrite _ _ true => True | _ => False end.

(** Between [st] and [st'] the heap is unchanged, no measurement is lost, and
    exactly the accesses [l] are made to user memory, all in the [n] bytes at
    [ptr]. *)
Definition transfers (l : list uaccess) (ptr : Z) (n : nat) (st st' : kstate W) : Prop :=
  points st' = points st /\ mem st' = mem st /\
  ima_log (world st) `prefix_of` ima_log (world st') /\
  user_log (world st') = user_log (world st) ++ l /\ Forall (inside ptr n) l /\
  (quiet -> forall z, z < ptr \/ ptr + Z.of_nat n <= z ->
     user_byte (world st') z = user_byte (world st) z).

Definition writes_within (ptr : Z) (n : nat) (st st' : kstate W) : Prop :=
  exists l, transfers l ptr n st st'.

Lemma same_heap_transfers ptr n st st' : same_heap st st' -> transfers [] ptr n st st'.
Proof.
  intros (E1 & E2 & Hp & El & Eu). split_and!; try done; [by rewrite app_nil_r|].
  intros Hq z _. by rewrite Eu.
Qed.

Lemma transfers_trans l1 l2 ptr n st1 st2 st3 :
  transfers l1 ptr n st1 st2 -> transfers l2 ptr n st2 st3 -> transfers (l1 ++ l2) ptr n st1 st3.
Proof.
  intros (E1 & E2 & Hp & El & Hi & Eu) (F1 & F2 & Hq & Fl & Fi & Fu).
  split_and!; [congruence.. | by etrans | by rewrite Fl, El, app_assoc | by apply Forall_app |].
  intros Q z Hz. by rewrite (Fu Q), (Eu Q).
Qed.

Lemma transfers_after_heap l ptr n st1 st2 st3 :
  same_heap st1 st2 -> transfers l ptr n st2 st3 -> transfers l ptr n st1 st3.
Proof. intros H1 H2. exact (transfers_trans [] l _ _ _ _ _ (same_heap_transfers _ _ _ _ H1) H2). Qed.

Lemma transfers_weaken l ptr n n' st st' :
  (n <= n')%nat -> transfers l ptr n st st' -> transfers l ptr n' st st'.
Proof.
  intros Hn (E1 & E2 & Hp & El & Hi & Hu). split_and!; try done.
  - eapply Forall_impl; [done|]. intros [] H; simpl in *; lia.
  - intros Q z Hz. apply Hu; [done|lia].
Qed.

Lemma keeps_same_heap (st : kstate W) w' : keeps (world st) w' -> same_heap st (KState (points st) (mem st) w').
Proof. intros Hk. by split_and!. Qed.

Lemma wp_read_user `{!UserLaws W} ptr len n (Qok : list Z -> kstate W -> Prop)
    (Qerr : Error -> kstate W -> Prop) st :
  (forall bs st', transfers [URead ptr bs] ptr n st st' -> length bs = n -> bytes_ok bs ->
     (quiet -> user_holds (world st) ptr bs) -> Qok bs st') ->
  (forall st', same_heap st st' -> Qerr EFAULT st') ->
  wp (call_result (read_slice ptr len n)) Qok Qerr st.
Proof.
  intros H1 H2. apply wp_call_result.
  - intros bs w' E. destruct (read_slice_ok _ _ _ _ _ _ E) as (Hp & El & _ & Hl & Hb & Hq).
    apply H1; [|done|done|intros Q; exact (proj2 (Hq Q))]. split_and!; try done.
    + repeat constructor; simpl; lia.
    + intros Q z _. simpl. by rewrite (proj1 (Hq Q)).
  - intros e w' E. destruct (read_slice_err _ _ _ _ _ _ E) as [Hk ->].
    by apply H2, keeps_same_heap.
Qed.

Lemma wp_write_user `{!UserLaws W} ptr len bs (Qok : unit -> kstate W -> Prop)
    (Qerr : Error -> kstate W -> Prop) st :
  bytes_ok bs ->
  (forall st', transfers [UWrite ptr bs true] ptr (length bs) st st' ->
     (quiet -> user_holds (world st') ptr bs) -> Qok tt st') ->
  (forall st', transfers [UWrite ptr bs false] ptr (length bs) st st' -> Qerr EFAULT st') ->
  wp (call_result (write_slice ptr len bs)) Qok Qerr st.
Proof.
  intros Hb H1 H2.
  assert (forall c, Forall (inside ptr (length bs)) [UWrite ptr bs c]) as Hi
    by (intros c; repeat constructor; simpl; lia). apply wp_call_result.
  - intros [] w' E. destruct (write_slice_ok _ _ _ _ _ E) as (Hp & El & Hl & Hh & Hf).
    apply H1; [|intros Q; exact (Hh Q Hb)]. by split_and!.
  - intros e w' E. destruct (write_slice_err _ _ _ _ _ _ E) as (Hp & El & -> & Hf).
    apply H2. by split_and!.
Qed.

(** A public-key call writes the key once, or fails without completing. *)
Lemma handle_get_pubkey_ok `{!UserLaws W} kp arg cmd st :
  bytes_ok (KeyPair.pubkey kp) -> length (KeyPair.pubkey kp) = P256_PUBKEY_BYTES ->
  let pk := KeyPair.pubkey kp in
  wp (handle_get_pubkey (Some kp) arg cmd)
     (fun ret st' => ret = 33 /\ Z.of_nat P256_PUBKEY_BYTES <= IOC_SIZE cmd /\
        transfers [UWrite arg pk true] arg P256_PUBKEY_BYTES st st' /\
        (quiet -> user_holds (world st') arg pk))
     (fun e st' => e = E2BIG /\ st' = st /\ IOC_SIZE cmd < Z.of_nat P256_PUBKEY_BYTES \/
                   e = EFAULT /\ transfers [UWrite arg pk false] arg P256_PUBKEY_BYTES st st') st.
Proof.
  intros Hb Hl pk. unfold handle_get_pubkey. apply wp_bind, wp_ret.
  destruct (Z.ltb_spec (IOC_SIZE cmd) (Z.of_nat P256_PUBKEY_BYTES)); [apply wp_throw; by left|].
  apply wp_bind, wp_write_user; rewrite ?Hl; [done | | by right].
  intros st' Hw Hu. by apply wp_ret.
Qed.

(** The 32 bytes of a scalar on the wire. *)
Definition be32 (z : Z) : list Z := reverse (digits 8 P256_BYTES z).

Lemma be32_length z : length (be32 z) = P256_BYTES.
Proof. unfold be32. by rewrite length_reverse, digits_length. Qed.

Lemma be32_wf z : bytes_ok (be32 z).
Proof. apply Forall_reverse, digits_wf. lia. Qed.

Lemma be32_value z : 0 <= z < 2 ^ 256 -> be_value (be32 z) = z.
Proof.
  intros Hz. unfold be_value, be32. rewrite reverse_involutive, value_digits by lia.
  by apply Z.mod_small.
Qed.

Lemma be_limbs_be32 z : 0 <= z < 2 ^ 256 ->
  mjoin (to_be_bytes <$> reverse (digits 64 P256_DIGITS z)) = be32 z.
Proof.
  intros Hz. apply be_bytes_unique.
  - rewrite be_limbs_reverse. apply Forall_reverse, limbs_bytes_wf.
  - by rewrite be_limbs_reverse, length_reverse, limbs_bytes_length, digits_length.
  - rewrite be_value_limbs by (apply digits_wf; lia). by apply (val_digits P256_DIGITS).
Qed.

(** The response the module writes back. *)
Definition response (ud h : list Z) (rs : Z * Z) (pubkey : list Z) : SignDataReq.SignDataReq :=
  SignDataReq.mk ud h (be32 (fst rs)) (be32 (snd rs)) pubkey.

(** A request over the fs-verity digest of the caller, under the key of [kp]. *)
Definition covers (current : Task) (kp : KeyPair.KeyPair) (req : SignDataReq.SignDataReq) : Prop :=
  req_ok req /\ exists i d, exe_inode current = Some i /\ verity_digest i = Some d /\
    SignDataReq.hash req = sha256 (d ++ SignDataReq.user_data req) /\
    SignDataReq.pubkey req = KeyPair.pubkey kp.

(** The signature is the first one that at most 100 nonces give. *)
Definition signature_of (kp : KeyPair.KeyPair) (req : SignDataReq.SignDataReq) : Prop :=
  exists ks rs, (length ks <= 100)%nat /\ Forall (fun k => 0 < k < curve_order) ks /\
    ecdsa.first_signature curve_order (be_value (SignDataReq.hash req))
      (val (KeyPair.private kp)) x_of ks = Some rs /\
    SignDataReq.sig_r req = be32 (fst rs) /\ SignDataReq.sig_s req = be32 (snd rs).

(** What the driver may write for a caller, completely or not: the public key,
    or a response over the caller's own digest, signed with a measured key. *)
Definition released (current : Task) (kp : KeyPair.KeyPair) (e : uaccess) : Prop :=
  match e with
  | URead _ _ => True
  | UWrite _ bs _ => bs = KeyPair.pubkey kp \/
      KeyPair.ima_measured kp = true /\
      exists req, bs = sign_data_req_bytes req /\ covers current kp req /\ signature_of kp req
  end.

(** What a successful signing call has done: it read the buffer once and wrote
    once a response over the data it had read, whose signature is [good]. *)
Definition answers (good : SignDataReq.SignDataReq -> Prop)
    (current : Task) (kp : KeyPair.KeyPair) (arg : Z) (st st' : kstate W) : Prop :=
  exists bs req, length bs = size_of_SignDataReq /\
    transfers [URead arg bs; UWrite arg (sign_data_req_bytes req) true] arg size_of_SignDataReq st st' /\
    SignDataReq.user_data req = take USER_DATA_BYTES bs /\ covers current kp req /\ good req /\
    (quiet -> user_holds (world st) arg bs /\ user_holds (world st') arg (sign_data_req_bytes req)).

(** What a failed one has done. *)
Definition refuses (current : Task) (kp : KeyPair.KeyPair) (arg : Z) (st st' : kstate W) : Prop :=
  exists l, transfers l arg size_of_SignDataReq st st' /\
    Forall (fun e => released current kp e /\ ~ completed e) l.

Lemma response_ok ud h rs pubkey :
  length ud = USER_DATA_BYTES -> bytes_ok ud -> length h = P256_BYTES -> bytes_ok h ->
  length pubkey = P256_PUBKEY_BYTES -> bytes_ok pubkey ->
  let resp := response ud h rs pubkey in
  req_ok resp /\ length (sign_data_req_bytes resp) = size_of_SignDataReq /\
  bytes_ok (sign_data_req_bytes resp).
Proof.
  intros Lu Hu Lh Hh Lp Hp resp.
  assert (req_ok resp) as Hr by (by split_and!; try apply be32_length).
  split_and!; [done | by apply req_bytes_length|].
  unfold sign_data_req_bytes, digits_ok. rewrite !Forall_app.
  split_and!; [done | done | apply be32_wf | apply be32_wf | done].
Qed.

Section SignHandler.
Context `{!VliLaws W} `{!EccLaws W} `{!CurveLaws W} `{!VerityLaws W} `{!UserLaws W}.

Lemma same_heap_refuses current kp arg st st' : same_heap st st' -> refuses current kp arg st st'.
Proof using Type. exists []. split; [by apply same_heap_transfers | done]. Qed.

(** Everything after the digest and the request have been obtained. *)
Lemma sign_and_respond_ok current kp arg buf_size i d req st :
  key_pair_ok kp -> KeyPair.ima_measured kp = true ->
  exe_inode current = Some i -> verity_digest i = Some d ->
  (length d <= FS_VERITY_MAX_DIGEST_SIZE)%nat -> bytes_ok d ->
  req_ok req -> bytes_ok (SignDataReq.user_data req) ->
  let ud := SignDataReq.user_data req in
  wp (to_sign ← to_sign_bytes d ud;
      '(sig_r_limbs, sig_s_limbs) ← sign kp to_sign;
      sig_r ← copy_limbs (SignDataReq.sig_r req) 0 (reverse sig_r_limbs);
      sig_s ← copy_limbs (SignDataReq.sig_s req) 0 (reverse sig_s_limbs);
      pubkey ← copy_from_slice (SignDataReq.pubkey req) 0 (length (SignDataReq.pubkey req))
                 (KeyPair.pubkey kp);
      write_sign_data_req arg buf_size
        (SignDataReq.mk ud (sha256_hash to_sign) sig_r sig_s pubkey) ≫= fun _ => mret 0)
     (fun ret st' => ret = 0 /\ exists resp, SignDataReq.user_data resp = ud /\
        transfers [UWrite arg (sign_data_req_bytes resp) true] arg size_of_SignDataReq st st' /\
        covers current kp resp /\ signature_of kp resp /\
        (quiet -> user_holds (world st') arg (sign_data_req_bytes resp)))
     (fun e st' => refuses current kp arg st st') st.
Proof using All.
  intros (Hpr & Hprr & Hn & Hnv & Epk) Him Hi Hv Ld Hd (Lu & Lh & Lr & Ls & Lp) Hu ud.
  apply wp_bind, to_sign_bytes_ok; [done|done|].
  destruct (sha256_ok (d ++ ud)) as [Lsh Hsh].
  apply wp_bind. eapply wp_mono;
    [by apply (sign_loop_ok (KeyPair.private kp) (KeyPair.curve_n kp) Hpr Hn Hnv (sha256 (d ++ ud)) 100)
    | | intros e st1 [H1 _]; by apply same_heap_refuses].
  intros rs st1 (H1 & ks & [r s] & Hl & Hks & Hsig & ->). rewrite Hnv in *.
  destruct (first_signature_range _ _ _ _ _ Hsig) as [Hr Hs].
  pose proof order_bits as Hob. unfold encode_sig. simpl fst; simpl snd.
  apply wp_bind, copy_limbs_ok; [by rewrite length_reverse, digits_length, Lr|].
  apply wp_bind, copy_limbs_ok; [by rewrite length_reverse, digits_length, Ls|].
  rewrite !be_limbs_be32 by lia. rewrite !take_0, !app_nil_l.
  assert (Lpk : length (KeyPair.pubkey kp) = P256_PUBKEY_BYTES)
    by (rewrite Epk; apply sec1_compress_length).
  apply wp_bind, wp_copy_from_slice; [lia | lia | by rewrite Lp, Lpk, Nat.sub_0_r |].
  rewrite take_0, drop_all, app_nil_r, app_nil_l.
  change (SignDataReq.mk ud (sha256_hash (d ++ ud)) (be32 r) (be32 s) (KeyPair.pubkey kp))
    with (response ud (sha256 (d ++ ud)) (r, s) (KeyPair.pubkey kp)).
  destruct (response_ok ud (sha256 (d ++ ud)) (r, s) (KeyPair.pubkey kp)) as (Rok & Lresp & Hresp);
    try done; [rewrite Epk; apply sec1_compress_wf|].
  set (resp := response ud (sha256 (d ++ ud)) (r, s) (KeyPair.pubkey kp)) in *.
  assert (covers current kp resp) as Hc by (split; [done|]; by exists i, d).
  assert (signature_of kp resp) as Hsg by (by exists ks, (r, s)).
  apply wp_bind, wp_write_user; rewrite ?Lresp; [done| |].
  - intros st2 H2 Hh. apply wp_ret. split; [done|]. exists resp.
    by split_and!; [| eapply transfers_after_heap | | |].
  - intros st2 H2. eexists. split; [by eapply transfers_after_heap|].
    constructor; [|done]. split; [right; by eauto | by intros []].
Qed.

Lemma handle_sign_data_ok current kp arg cmd st :
  key_pair_ok kp -> KeyPair.ima_measured kp = true ->
  wp (handle_sign_data current (Some kp) arg cmd)
     (fun ret st' => ret = 0 /\ answers (signature_of kp) current kp arg st st')
     (fun e st' => refuses current kp arg st st') st.
Proof using All.
  intros Hkp Him. unfold handle_sign_data. apply wp_bind, wp_ret. rewrite Him. simpl negb. cbv iota.
  apply wp_bind. eapply wp_mono; cycle 1.
  { intros fd st1 H. apply wp_bind. exact H. }
  { intros e st1 H. exact H. }
  apply caller_digest_ok; [|intros; by apply same_heap_refuses].
  intros i d st1 H1 Hi Hv Hdl Hd. unfold read_sign_data_req. apply wp_bind, wp_bind, wp_read_user.
  2: { intros st2 H2. apply same_heap_refuses. by etrans. }
  intros bs st2 H2 Hl Hb Hq. pose proof (transfers_after_heap _ _ _ _ _ _ H1 H2) as H12.
  apply wp_ret. eapply wp_mono.
  - apply (sign_and_respond_ok current kp arg (IOC_SIZE cmd) i d (sign_data_req_bytes_mut bs) st2);
      try done; [lia | by apply req_of_bytes_ok | by apply Forall_take, Forall_drop].
  - intros ret st3 (-> & resp & Eu & Ht & Hc & Hs & Hh). split; [done|]. exists bs, resp.
    split_and!; try done; [exact (transfers_trans _ _ _ _ _ _ _ H12 Ht)|].
    intros Q. split; [|by apply Hh]. intros j b Hj.
    destruct H1 as (_ & _ & _ & _ & Eq). rewrite <- (Eq Q). by apply (Hq Q).
  - intros e st3 (l & Ht & Hl3). exists ([URead arg bs] ++ l).
    split; [by eapply transfers_trans|]. constructor; [|done]. split; [done | by intros []].
Qed.
End SignHandler.
End Ioctl.

(** A concrete key pair and caller for the evaluations below. *)
Definition toy_kp : KeyPair.KeyPair :=
  KeyPair.mk (digits 64 4 5) (sec1_compress (toy_kG 5)) (digits 64 4 PrimeCert.p256_order) true.
Definition toy_task (i : inode) : Task := mkTask (Some (Some (mkMm (Some (mkFile (Some i)))))).

Lemma toy_kp_ok : @key_pair_ok RW ToyKernel toy_kp.
Proof.
  split_and!; [apply vli_ok_digits | reflexivity | reflexivity | apply vli_ok_digits | | reflexivity].
  simpl. apply (val_digits 4). split; [discriminate | reflexivity].
Qed.

(** ** What a returned request attests *)

Section Attests.
Context {W : Type} `{!Kernel W} `{!VliLaws W} `{!EccLaws W} `{!CurveLaws W} `{!VerityLaws W}
  `{!UserLaws W} `{G : ecdsa.EcGroup} `{!ecdsa.EcGroupLaws curve_order x_of}.

(** The signature in a response verifies under the public key of [kp]. *)
Definition signature_verifies (kp : KeyPair.KeyPair) (req : SignDataReq.SignDataReq) : Prop :=
  ecdsa.verify curve_order (ecdsa.smul (val (KeyPair.private kp)) ecdsa.base)
    (be_value (SignDataReq.hash req))
    (be_value (SignDataReq.sig_r req), be_value (SignDataReq.sig_s req)) = true.

Lemma signature_of_verifies kp req : signature_of kp req -> signature_verifies kp req.
Proof.
  intros (ks & [r s] & _ & Hks & Hs & Er & Es). unfold signature_verifies. rewrite Er, Es.
  destruct (first_signature_range _ _ _ _ _ Hs) as [Hr Hs']. pose proof order_bits.
  simpl fst; simpl snd. rewrite !be32_value by lia.
  by apply (ecdsa.first_signature_verifies _ order_prime x_of _ _ ks).
Qed.

(** The caller was answered with a response over its own fs-verity digest and
    the data it had supplied, validly signed under the key pair [kp]. *)
Definition attests (current : Task) (kp : KeyPair.KeyPair) (arg : Z) (st st' : kstate W) : Prop :=
  answers (signature_verifies kp) current kp arg st st'.

Lemma handle_sign_data_attests current kp arg cmd st :
  key_pair_ok kp -> KeyPair.ima_measured kp = true ->
  wp (handle_sign_data current (Some kp) arg cmd)
     (fun ret st' => ret = 0 /\ attests current kp arg st st')
     (fun e st' => refuses current kp arg st st') st.
Proof.
  intros Hkp Hm. eapply wp_mono; [by apply handle_sign_data_ok | | done].
  intros ret st' (-> & bs & req & Hl & Ht & Eu & Hc & Hs%signature_of_verifies & Hq).
  split; [done|]. by exists bs, req.
Qed.
End Attests.

(** ** Properties *)

(** C7: [ecdsa_sign] on limbs implements ECDSA on integers.  It never faults and
    always gives every point it allocated back.  A returned pair is the limb
    encoding of the first signature among at most 100 nonces, each from the
    kernel and in range; an error is either a kernel failure or [EINVAL] after
    exactly 100 degenerate nonces. *)
Theorem ecdsa_sign_refines {W : Type} `{!Kernel W} `{!VliLaws W} `{!EccLaws W} `{!CurveLaws W}
    (data : list Z) (privkey curve_n : Scalar) (st : kstate W) :
  scalar_ok privkey -> scalar_ok curve_n -> val curve_n = curve_order ->
  let spec := ecdsa.first_signature curve_order (be_value (sha256 data)) (val privkey) x_of in
  wp (ecdsa_sign data privkey curve_n)
     (fun rs st' => same_heap st st' /\ exists ks rs', (length ks <= 100)%nat /\
        Forall (fun k => 0 < k < curve_order) ks /\ spec ks = Some rs' /\ rs = encode_sig rs')
     (fun e st' => same_heap st st' /\ (kernel_failure e \/ e = EINVAL /\ exists ks,
        length ks = 100%nat /\ Forall (fun k => 0 < k < curve_order) ks /\ spec ks = None)) st.
Proof.
  intros Hd Hn Ho. rewrite <- Ho. destruct (sha256_ok data) as [Hl Hb].
  by apply (sign_loop_ok privkey curve_n Hd Hn Ho (sha256 data) 100).
Qed.

Lemma ecdsa_sign_refines_witness :
  let privkey := digits 64 4 5 in let n := digits 64 4 PrimeCert.p256_order in
  scalar_ok privkey /\ scalar_ok n /\ val n = @curve_order RW ToyKernel /\
  exists rs st', @ecdsa_sign RW ToyKernel [1; 2; 3] privkey n (toy_state [11] true 0 0) = (Ret rs, st') /\
    @same_heap RW ToyKernel (toy_state [11] true 0 0) st'.
Proof.
  assert (Hd : vli_ok 4 (digits 64 4 5)) by apply vli_ok_digits.
  assert (Hn : vli_ok 4 (digits 64 4 PrimeCert.p256_order)) by apply vli_ok_digits.
  assert (Ho : val (digits 64 4 PrimeCert.p256_order) = @curve_order RW ToyKernel) by reflexivity.
  split_and!; [exact Hd | exact Hn | exact Ho |].
  destruct (run_ret (@ecdsa_sign RW ToyKernel [1; 2; 3] (digits 64 4 5) (digits 64 4 PrimeCert.p256_order))
    (toy_state [11] true 0 0)) as (rs & st' & E); [vm_compute; reflexivity|].
  exists rs, st'. split; [exact E|].
  exact (proj1 (wp_run _ _ _ _ _ _
    (@ecdsa_sign_refines RW ToyKernel toy_Vli toy_Ecc toy_Curve [1; 2; 3] _ _ _ Hd Hn Ho) E)).
Defined.

(** C8: every signature [ecdsa_sign] returns is accepted by ECDSA verification
    under the public key of the signing key: the numbers in the returned limbs
    satisfy the verification equation for the SHA-256 of the data. *)
Theorem ecdsa_sign_verifies {W : Type} `{!Kernel W} `{!VliLaws W} `{!EccLaws W} `{!CurveLaws W}
    `{G : ecdsa.EcGroup} `{!ecdsa.EcGroupLaws curve_order x_of}
    (data : list Z) (privkey curve_n r s : Scalar) (st st' : kstate W) :
  scalar_ok privkey -> scalar_ok curve_n -> val curve_n = curve_order ->
  ecdsa_sign data privkey curve_n st = (Ret (r, s), st') ->
  ecdsa.verify curve_order (ecdsa.smul (val privkey) ecdsa.base)
    (be_value (sha256 data)) (val r, val s) = true.
Proof.
  intros Hd Hn Ho E. destruct (sha256_ok data) as [Hl Hb].
  pose proof (sign_loop_ok privkey curve_n Hd Hn Ho (sha256 data) 100 Hb Hl st) as Hw.
  destruct (wp_run _ _ _ _ _ _ Hw E) as (_ & ks & [r' s'] & _ & Hks & Hs & [= -> ->]).
  rewrite Ho in *. destruct (first_signature_range _ _ _ _ _ Hs) as [Hr' Hs']. pose proof order_bits.
  rewrite !(val_digits P256_DIGITS) by (change (64 * Z.of_nat P256_DIGITS) with 256; lia).
  by apply (ecdsa.first_signature_verifies _ order_prime x_of _ _ ks).
Qed.

Lemma ecdsa_sign_verifies_witness :
  exists r s st',
    @ecdsa_sign RW ToyKernel [1; 2; 3] (digits 64 4 5) (digits 64 4 PrimeCert.p256_order)
      (toy_state [11] true 0 0) = (Ret (r, s), st') /\
    @ecdsa.verify ecdsa.toy_group (@curve_order RW ToyKernel)
      (@ecdsa.smul ecdsa.toy_group (val (digits 64 4 5)) (@ecdsa.base ecdsa.toy_group))
      (be_value (@sha256 RW ToyKernel [1; 2; 3])) (val r, val s) = true.
Proof.
  destruct (run_ret (@ecdsa_sign RW ToyKernel [1; 2; 3] (digits 64 4 5) (digits 64 4 PrimeCert.p256_order))
    (toy_state [11] true 0 0)) as ([r s] & st' & E); [vm_compute; reflexivity|].
  exists r, s, st'. split; [exact E|].
  exact (@ecdsa_sign_verifies RW ToyKernel toy_Vli toy_Ecc toy_Curve ecdsa.toy_group
    ecdsa.toy_group_laws [1; 2; 3] _ _ r s _ st'
    (vli_ok_digits 4 5) (vli_ok_digits 4 PrimeCert.p256_order) eq_refl E).
Defined.

(** C28: the addition [z + s] of the signing equation is exact modulo the order
    even when the sum does not fit in 256 bits: the carry out of the top limb
    and the comparison select the subtraction exactly when the sum reaches the
    order, and the result is reduced. *)
Theorem add_reduce_correct {W : Type} `{!Kernel W} `{!VliLaws W} (z s curve_n : Scalar) :
  scalar_ok curve_n -> 2 ^ 255 < val curve_n -> scalar_ok z -> scalar_ok s ->
  val z < val curve_n -> val s < val curve_n ->
  scalar_ok (add_reduce z s curve_n) /\
  val (add_reduce z s curve_n) = (val z + val s) mod val curve_n.
Proof.
  intros Hn Htop Hz Hs Hzn Hsn. rewrite (add_reduce_ok curve_n Hn Htop) by done.
  split; [apply vli_ok_digits|]. apply (val_digits P256_DIGITS).
  pose proof (vli_ok_bound _ _ Hn). pose proof (Z.mod_pos_bound (val z + val s) (val curve_n)). lia.
Qed.

Lemma add_reduce_correct_witness :
  let n := digits 64 4 PrimeCert.p256_order in
  let z := digits 64 4 (PrimeCert.p256_order - 1) in
  2 ^ 256 < val z + val z /\
  val (@add_reduce RW ToyKernel z z n) = (val z + val z) mod val n.
Proof.
  split; [reflexivity|].
  set (z := digits 64 4 (PrimeCert.p256_order - 1)).
  exact (proj2 (@add_reduce_correct RW ToyKernel toy_Vli z z (digits 64 4 PrimeCert.p256_order)
    (vli_ok_digits 4 _) eq_refl (vli_ok_digits 4 _) (vli_ok_digits 4 _) eq_refl eq_refl)).
Defined.

(** C17: [generate_key_pair] returns a well-formed key pair or an error, and on
    both ways out the kernel heap is the one before the call.  The private key
    is in range, the stored order is the curve's, the public key is the SEC1
    compressed form of the private key's point, and the key is marked as
    measured only if IMA has recorded exactly these 33 bytes. *)
Theorem generate_key_pair_correct {W : Type} `{!Kernel W} `{!EccLaws W} `{!CurveLaws W} `{!ImaLaws W}
    (st : kstate W) :
  wp generate_key_pair
     (fun kp st' => same_heap st st' /\ key_pair_ok kp /\
        (KeyPair.ima_measured kp = true -> pubkey_event (KeyPair.pubkey kp) ∈ ima_log (world st')))
     (fun e st' => same_heap st st' /\ (kernel_failure e \/ e = EINVAL)) st.
Proof. apply generate_key_pair_ok. Qed.

Lemma generate_key_pair_correct_witness :
  exists kp st', @generate_key_pair RW ToyKernel (toy_state [5] true 0 0) = (Ret kp, st') /\
    KeyPair.ima_measured kp = true /\
    pubkey_event (KeyPair.pubkey kp) ∈ @ima_log RW ToyKernel (world st').
Proof.
  destruct (@generate_key_pair RW ToyKernel (toy_state [5] true 0 0)) as [[kp|e|f] st'] eqn:E;
    [|vm_compute in E; discriminate..].
  assert (Hm : KeyPair.ima_measured kp = true) by (vm_compute in E; injection E as <- _; reflexivity).
  exists kp, st'. split_and!; [reflexivity | exact Hm |].
  exact (proj2 (proj2 (wp_run _ _ _ _ _ _
    (@generate_key_pair_correct RW ToyKernel toy_Ecc toy_Curve toy_Ima (toy_state [5] true 0 0)) E)) Hm).
Defined.

(** The digest the module signs is the fs-verity digest of the caller's own
    executable, non-empty and at most 64 bytes; a caller without a mapped
    executable is refused with [EPERM], and a caller whose executable has no
    fs-verity digest never gets one. *)
Lemma caller_digest_correct {W : Type} `{!Kernel W} `{!VerityLaws W}
    (current : Task) (st : kstate W) :
  wp (fd ← current_exe_fsverity_digest current; digest fd)
     (fun d st' => same_heap st st' /\ exists i,
        exe_inode current = Some i /\ verity_digest i = Some d /\ (0 < length d <= 64)%nat)
     (fun e st' => same_heap st st' /\ (exe_inode current = None -> e = EPERM)) st.
Proof.
  apply wp_bind, caller_digest_ok.
  - intros i d st' H Hi Hv Hd _. split; [done|]. by exists i.
  - intros e st' H He. split; [done|]. intros Hi. by rewrite Hi in He.
Qed.

(** The request buffer and its bytes determine each other: every 257-byte
    buffer is the representation of the request read from it, and every request
    with fields of the declared sizes is read back from its representation. *)
Lemma sign_data_req_roundtrip (req : SignDataReq.SignDataReq) (bs : list Z) :
  (req_ok req -> length (sign_data_req_bytes req) = 257%nat /\
                 sign_data_req_bytes_mut (sign_data_req_bytes req) = req) /\
  (length bs = 257%nat -> req_ok (sign_data_req_bytes_mut bs) /\
                          sign_data_req_bytes (sign_data_req_bytes_mut bs) = bs).
Proof.
  split; intros H; split.
  - by apply req_bytes_length.
  - by apply req_of_bytes_of_req.
  - by apply req_of_bytes_ok.
  - by apply bytes_of_req_of_bytes.
Qed.

(** C34: [handle_get_pubkey] makes exactly one access to user memory: it writes
    the stored 33-byte public key at the caller's address and returns 33, and the
    buffer then holds it unless another thread writes there too; a command whose
    size field is below 33 is [E2BIG] without any effect, an unwritable buffer is
    [EFAULT], and without a key the answer is [ENXIO]. *)
Theorem handle_get_pubkey_correct {W : Type} `{!Kernel W} `{!UserLaws W}
    (kp : KeyPair.KeyPair) (arg cmd : Z) (st : kstate W) :
  bytes_ok (KeyPair.pubkey kp) -> length (KeyPair.pubkey kp) = P256_PUBKEY_BYTES ->
  let pk := KeyPair.pubkey kp in
  handle_get_pubkey None arg cmd st = (Throw ENXIO, st) /\
  wp (handle_get_pubkey (Some kp) arg cmd)
     (fun ret st' => ret = 33 /\ Z.of_nat P256_PUBKEY_BYTES <= IOC_SIZE cmd /\
        transfers [UWrite arg pk true] arg P256_PUBKEY_BYTES st st' /\
        (quiet -> user_holds (world st') arg pk))
     (fun e st' => e = E2BIG /\ st' = st /\ IOC_SIZE cmd < Z.of_nat P256_PUBKEY_BYTES \/
                   e = EFAULT /\ transfers [UWrite arg pk false] arg P256_PUBKEY_BYTES st st') st.
Proof. intros Hb Hl. split; [done|]. by apply handle_get_pubkey_ok. Qed.

Lemma handle_get_pubkey_correct_witness :
  let cmd := @TARAKO_GET_PUBKEY RW ToyKernel in
  exists st', @handle_get_pubkey RW ToyKernel (Some toy_kp) 4096 cmd (toy_state [] true 4096 33) =
                (Ret 33, st') /\
    @user_holds RW ToyKernel (world st') 4096 (KeyPair.pubkey toy_kp).
Proof.
  destruct (run_ret (@handle_get_pubkey RW ToyKernel (Some toy_kp) 4096 (@TARAKO_GET_PUBKEY RW ToyKernel))
    (toy_state [] true 4096 33)) as (r & st' & E); [vm_compute; reflexivity|].
  pose proof (wp_run _ _ _ _ _ _ (proj2 (@handle_get_pubkey_correct RW ToyKernel toy_User toy_kp 4096
    (@TARAKO_GET_PUBKEY RW ToyKernel) (toy_state [] true 4096 33)
    (sec1_compress_wf _) (sec1_compress_length _))) E) as (-> & _ & _ & Hu).
  exists st'. split; [exact E | exact (Hu I)].
Defined.

(** Signing is gated before anything is touched: without a published key
    the call is [ENXIO], with a key IMA did not measure it is [EPERM], and in
    both cases the state is unchanged, whatever the caller and the request. *)
Lemma handle_sign_data_gate {W : Type} `{!Kernel W}
    (current : Task) (kp : KeyPair.KeyPair) (arg cmd : Z) (st : kstate W) :
  handle_sign_data current None arg cmd st = (Throw ENXIO, st) /\
  (KeyPair.ima_measured kp = false ->
   handle_sign_data current (Some kp) arg cmd st = (Throw EPERM, st)).
Proof.
  split; [done|]. intros H. unfold handle_sign_data, mbind, M_bind, ok_or, mret, M_ret. by rewrite H.
Qed.

(** C11: a caller whose executable is not protected by fs-verity never obtains a
    signature: whatever the key, the address and the command, the call ends in
    an error, no byte of user memory was read or written by the driver, and the
    kernel heap has not changed. *)
Theorem handle_sign_data_unprotected {W : Type} `{!Kernel W} `{!VerityLaws W}
    (current : Task) (key_pair : option KeyPair.KeyPair) (arg cmd : Z) (st : kstate W) :
  (forall i, exe_inode current = Some i -> verity_digest i = None) ->
  wp (handle_sign_data current key_pair arg cmd)
     (fun _ _ => False) (fun e st' => same_heap st st') st.
Proof.
  intros Hno. unfold handle_sign_data. apply wp_bind, wp_ok_or; [|done].
  intros kp _. destruct (KeyPair.ima_measured kp); [|by apply wp_throw].
  apply wp_bind. eapply wp_mono; cycle 1.
  { intros fd st1 H. apply wp_bind. exact H. }
  { intros e st1 H. exact H. }
  apply caller_digest_ok; [|done]. intros i d st1 _ Hi Hv. by rewrite (Hno i Hi) in Hv.
Qed.

Lemma handle_sign_data_unprotected_witness :
  (forall i, exe_inode (toy_task 2) = Some i -> @verity_digest RW ToyKernel i = None) /\
  wp (@handle_sign_data RW ToyKernel (toy_task 2) (Some toy_kp) 4096 0)
     (fun _ _ => False) (fun e st' => @same_heap RW ToyKernel (toy_state [11] true 4096 257) st')
     (toy_state [11] true 4096 257).
Proof.
  assert (H : forall i, exe_inode (toy_task 2) = Some i -> @verity_digest RW ToyKernel i = None)
    by (intros i [= <-]; reflexivity).
  split; [exact H|].
  exact (@handle_sign_data_unprotected RW ToyKernel toy_Verity (toy_task 2) (Some toy_kp) 4096 0
    (toy_state [11] true 4096 257) H).
Defined.

(** C6: the signing ioctl end to end.  With a well-formed measured key it never
    panics or touches invalid memory, accesses at most the 257 bytes at the
    caller's address and restores the kernel heap, on success and on error.
    When it returns, it returns 0, has read the buffer exactly once and written
    it exactly once: a response whose user data is what that read gave, whose
    hash is the SHA-256 of the caller's fs-verity digest followed by that user
    data, whose public key is the stored one, and whose signature bytes verify
    under that key.  This holds whatever other threads of the caller do to the
    buffer meanwhile; if they do nothing, the data is what the buffer held and
    the response is what it holds.  A call that fails has completed no write,
    and a partial write is of such a response too. *)
Theorem handle_sign_data_correct {W : Type} `{!Kernel W}
    `{!VliLaws W} `{!EccLaws W} `{!CurveLaws W} `{!VerityLaws W} `{!UserLaws W}
    `{G : ecdsa.EcGroup} `{!ecdsa.EcGroupLaws curve_order x_of}
    (current : Task) (kp : KeyPair.KeyPair) (arg cmd : Z) (st : kstate W) :
  key_pair_ok kp -> KeyPair.ima_measured kp = true ->
  wp (handle_sign_data current (Some kp) arg cmd)
     (fun ret st' => ret = 0 /\ exists bs req, length bs = 257%nat /\
        transfers [URead arg bs; UWrite arg (sign_data_req_bytes req) true] arg 257 st st' /\
        SignDataReq.user_data req = take 128 bs /\
        (req_ok req /\ exists i d, exe_inode current = Some i /\ verity_digest i = Some d /\
           SignDataReq.hash req = sha256 (d ++ SignDataReq.user_data req) /\
           SignDataReq.pubkey req = KeyPair.pubkey kp) /\
        ecdsa.verify curve_order (ecdsa.smul (val (KeyPair.private kp)) ecdsa.base)
          (be_value (SignDataReq.hash req))
          (be_value (SignDataReq.sig_r req), be_value (SignDataReq.sig_s req)) = true /\
        (quiet -> user_holds (world st) arg bs /\
                  user_holds (world st') arg (sign_data_req_bytes req)))
     (fun e st' => exists l, transfers l arg 257 st st' /\
        Forall (fun e => released current kp e /\ ~ completed e) l) st.
Proof. intros Hkp Hm. by apply handle_sign_data_attests. Qed.

Lemma handle_sign_data_correct_witness :
  let cmd := @TARAKO_SIGN_DATA RW ToyKernel in let st := toy_state [11] true 4096 257 in
  exists st', @handle_sign_data RW ToyKernel (toy_task 1) (Some toy_kp) 4096 cmd st = (Ret 0, st') /\
    exists bs req, @transfers RW ToyKernel
      [URead 4096 bs; UWrite 4096 (sign_data_req_bytes req) true] 4096 257 st st'.
Proof.
  destruct (run_ret (@handle_sign_data RW ToyKernel (toy_task 1) (Some toy_kp) 4096
    (@TARAKO_SIGN_DATA RW ToyKernel)) (toy_state [11] true 4096 257)) as (r & st' & E);
    [vm_compute; reflexivity|].
  pose proof (wp_run _ _ _ _ _ _ (@handle_sign_data_correct RW ToyKernel toy_Vli toy_Ecc toy_Curve
    toy_Verity toy_User ecdsa.toy_group ecdsa.toy_group_laws (toy_task 1) toy_kp 4096
    (@TARAKO_SIGN_DATA RW ToyKernel) (toy_state [11] true 4096 257) toy_kp_ok eq_refl) E)
    as (-> & bs & req & _ & Ht & _).
  exists st'. split; [exact E|]. exists bs, req. exact Ht.
Defined.

(** The ioctl numbers are the documented ones, which the userspace attester
    hard-codes, and their size fields are exactly the sizes of the buffers the
    handlers transfer, so the bounds checks on the size never reject them. *)
Lemma ioctl_numbers {W : Type} `{!Kernel W} `{!IoctlLaws W} :
  TARAKO_HELLO = 0x00005300 /\ TARAKO_GET_PUBKEY = 0x80215301 /\ TARAKO_SIGN_DATA = 0xC1015302 /\
  IOC_SIZE TARAKO_GET_PUBKEY = Z.of_nat P256_PUBKEY_BYTES /\
  IOC_SIZE TARAKO_SIGN_DATA = Z.of_nat size_of_SignDataReq /\ size_of_SignDataReq = 257%nat.
Proof.
  unfold TARAKO_HELLO, TARAKO_GET_PUBKEY, TARAKO_SIGN_DATA.
  rewrite !IOC_SIZE_ok, IO_ok, IOR_ok, IOWR_ok. repeat split.
Qed.
End ioctl.
