(* ===== verification/Externs.v ===== *)
(** The raw-pointer side of [driver/src/ffi.rs] and of its callers.

    The other files treat an [unsafe] call of a kernel function as a function of
    the buffers' contents.  Here the calls take pointers, as the [extern "C"]
    block declares them: [Externs] has one operation per declaration, with its
    arguments in order, and [ExternLaws] says what each does to memory, but only
    for live buffers of the declared sizes and outputs apart from the inputs,
    which is what the comments above the [unsafe] blocks promise.  The wrappers
    of [vli.rs], [ecc.rs] and [ioctl.rs] are written with these calls, their
    local buffers allocated and released; the theorems discharge the promises
    and show that each wrapper computes the function the other files use,
    leaving memory as it was. *)
From S2P Require Import Prelude Exec Ffi RefKernel Vli Ecc Ioctl.
From stdpp Require Import base gmap list numbers strings infinite fin_maps.
From Stdlib Require Import ZArith Lia.
#[local] Open Scope Z_scope.

Module externs.

(** ** Memory *)

(** Live buffers of limbs and of bytes, and the rest of the kernel. *)
Record mstate (W : Type) := MState {
  limbs : gmap loc (list Z);
  bytes : gmap loc (list Z);
  ms_world : W }.
Arguments MState {W} _ _ _.
Arguments limbs {W} _.
Arguments bytes {W} _.
Arguments ms_world {W} _.

Section Memory.
Context {W : Type}.

Definition set_limbs (p : loc) (l : list Z) (s : mstate W) : mstate W :=
  MState (<[p := l]> (limbs s)) (bytes s) (ms_world s).
Definition set_bytes (p : loc) (l : list Z) (s : mstate W) : mstate W :=
  MState (limbs s) (<[p := l]> (bytes s)) (ms_world s).
Definition set_world (w : W) (s : mstate W) : mstate W := MState (limbs s) (bytes s) w.

Abbreviation MM := (M (mstate W)).

(** An [unsafe] call. *)
Definition unsafe {A} (f : mstate W -> A * mstate W) : MM A := fun s =>
  let '(a, s) := f s in (Ret a, s).

(** A local [let mut buf = init]: the block gets its address; the variable's
    value at the end is returned with the block's. *)
Definition with_limbs {A} (init : list Z) (block : loc -> MM A) : MM (A * list Z) := fun s =>
  let p := fresh (dom (limbs s)) in
  match block p (set_limbs p init s) with
  | (Ret a, s) =>
      match limbs s !! p with
      | Some l => (Ret (a, l), MState (delete p (limbs s)) (bytes s) (ms_world s))
      | None => (Fault BadPointer, s)
      end
  | (Throw e, s) => (Throw e, MState (delete p (limbs s)) (bytes s) (ms_world s))
  | (Fault f, s) => (Fault f, s)
  end.

Definition with_bytes {A} (init : list Z) (block : loc -> MM A) : MM (A * list Z) := fun s =>
  let p := fresh (dom (bytes s)) in
  match block p (set_bytes p init s) with
  | (Ret a, s) =>
      match bytes s !! p with
      | Some l => (Ret (a, l), MState (limbs s) (delete p (bytes s)) (ms_world s))
      | None => (Fault BadPointer, s)
      end
  | (Throw e, s) => (Throw e, MState (limbs s) (delete p (bytes s)) (ms_world s))
  | (Fault f, s) => (Fault f, s)
  end.

(** [core::ptr::write_volatile(limb, v)] to the limb [i] of a buffer. *)
Definition write_volatile (p : loc) (i : nat) (v : Z) : MM unit := fun s =>
  match limbs s !! p with
  | Some l => if bool_decide (i < length l)%nat then (Ret tt, set_limbs p (<[i := v]> l) s)
              else (Fault BadPointer, s)
  | None => (Fault BadPointer, s)
  end.
End Memory.

(** ** The declarations *)

(** [ecc_alloc_point], [ecc_free_point] and [ecc_get_curve] have their pointers
    in [Kernel] already. *)
Class Externs (W : Type) := {
  ecc_gen_privkey_ptr : Z -> Z -> loc -> mstate W -> Z * mstate W;
  ecc_make_pub_key_ptr : Z -> Z -> loc -> loc -> mstate W -> Z * mstate W;
  ecc_digits_from_bytes_ptr : loc -> Z -> loc -> Z -> mstate W -> unit * mstate W;
  vli_mod_inv_ptr : loc -> loc -> loc -> Z -> mstate W -> unit * mstate W;
  vli_mod_mult_slow_ptr : loc -> loc -> loc -> loc -> Z -> mstate W -> unit * mstate W;
  vli_cmp_ptr : loc -> loc -> Z -> mstate W -> Z * mstate W;
  vli_sub_ptr : loc -> loc -> loc -> Z -> mstate W -> Z * mstate W;
  vli_is_zero_ptr : loc -> Z -> mstate W -> bool * mstate W;
  sha256_ptr : loc -> Z -> loc -> mstate W -> unit * mstate W;
  ima_measure_critical_data_ptr :
    string -> string -> loc -> Z -> bool -> option loc -> Z -> mstate W -> Z * mstate W;
  fsverity_get_digest_ptr :
    inode -> loc -> option loc -> option loc -> mstate W -> Z * mstate W
}.

(** A buffer of [n] limbs, or of [n] bytes, with its contents. *)
Definition limbs_at {W} (s : mstate W) (p : loc) (n : nat) (l : list Z) : Prop :=
  limbs s !! p = Some l /\ length l = n.
Definition bytes_at {W} (s : mstate W) (p : loc) (n : nat) (l : list Z) : Prop :=
  bytes s !! p = Some l /\ length l = n.

Class ExternLaws (W : Type) `{!Kernel W} `{!Externs W} : Prop := {
  gen_privkey_mem cid nd p key s : limbs_at s p nd key ->
    ecc_gen_privkey_ptr cid (Z.of_nat nd) p s =
      (let '((r, key'), w) := ecc_gen_privkey cid (Z.of_nat nd) key (ms_world s) in
       (r, set_limbs p key' (set_world w s)));
  make_pub_key_mem cid nd pp pr priv raw s :
    limbs_at s pp nd priv -> limbs_at s pr (2 * nd) raw -> pr <> pp ->
    ecc_make_pub_key_ptr cid (Z.of_nat nd) pp pr s =
      (let '((r, raw'), w) := ecc_make_pub_key cid (Z.of_nat nd) priv raw (ms_world s) in
       (r, set_limbs pr raw' (set_world w s)));
  digits_from_bytes_mem pi n po nd bs out s :
    bytes_at s pi n bs -> limbs_at s po nd out ->
    ecc_digits_from_bytes_ptr pi (Z.of_nat n) po (Z.of_nat nd) s =
      (tt, set_limbs po (ecc_digits_from_bytes bs (Z.of_nat n) (Z.of_nat nd)) s);
  mod_inv_mem pr pa pm n r a m s :
    limbs_at s pr n r -> limbs_at s pa n a -> limbs_at s pm n m -> pr <> pa -> pr <> pm ->
    vli_mod_inv_ptr pr pa pm (Z.of_nat n) s = (tt, set_limbs pr (vli_mod_inv a m (Z.of_nat n)) s);
  mod_mult_mem pr pa pb pm n r a b m s :
    limbs_at s pr n r -> limbs_at s pa n a -> limbs_at s pb n b -> limbs_at s pm n m ->
    pr <> pa -> pr <> pb -> pr <> pm ->
    vli_mod_mult_slow_ptr pr pa pb pm (Z.of_nat n) s =
      (tt, set_limbs pr (vli_mod_mult_slow a b m (Z.of_nat n)) s);
  cmp_mem pa pb n a b s : limbs_at s pa n a -> limbs_at s pb n b ->
    vli_cmp_ptr pa pb (Z.of_nat n) s = (vli_cmp a b (Z.of_nat n), s);
  sub_mem pr pa pb n r a b s :
    limbs_at s pr n r -> limbs_at s pa n a -> limbs_at s pb n b -> pr <> pa -> pr <> pb ->
    vli_sub_ptr pr pa pb (Z.of_nat n) s =
      (snd (vli_sub a b (Z.of_nat n)), set_limbs pr (fst (vli_sub a b (Z.of_nat n))) s);
  is_zero_mem pa n a s : limbs_at s pa n a ->
    vli_is_zero_ptr pa (Z.of_nat n) s = (vli_is_zero a (Z.of_nat n), s);
  sha256_mem pd n po data out s : bytes_at s pd n data -> bytes_at s po 32 out -> po <> pd ->
    sha256_ptr pd (Z.of_nat n) po s = (tt, set_bytes po (sha256 data) s);
  ima_mem label name pb n bs h s : bytes_at s pb n bs ->
    ima_measure_critical_data_ptr label name pb (Z.of_nat n) h None 0 s =
      (let '(r, w) := ima_measure_critical_data label name bs h None (ms_world s) in
       (r, set_world w s));
  fsverity_mem i pb buf s : bytes_at s pb 64 buf ->
    fsverity_get_digest_ptr i pb None None s =
      (let '((r, buf'), w) := fsverity_get_digest i buf (ms_world s) in
       (r, set_bytes pb buf' (set_world w s)))
}.

(** ** The wrappers *)

Section Wrappers.
Context {W : Type} `{!Kernel W} `{!Externs W}.
Abbreviation MM := (M (mstate W)).

(** A [&Vli<N>] is the address of its limbs. *)
Definition as_ptr (self : loc) : loc := self.
Definition as_mut_ptr (self : loc) : loc := self.

(** [Deref] and [DerefMut]: the array itself. *)
Definition deref (self : loc) : MM (list Z) := fun s =>
  match limbs s !! self with Some l => (Ret l, s) | None => (Fault BadPointer, s) end.
Definition deref_mut (self : loc) (f : list Z -> list Z) : MM unit := fun s =>
  match limbs s !! self with
  | Some l => (Ret tt, set_limbs self (f l) s)
  | None => (Fault BadPointer, s)
  end.

Definition is_zero (N : nat) (self : loc) : MM bool :=
  unsafe (vli_is_zero_ptr (as_ptr self) (c_uint N)).

Definition sub_with_borrow (N : nat) (self right : loc) : MM (list Z * Z) :=
  '(borrow, result) ← with_limbs (vli.zero N) (fun result =>
     unsafe (vli_sub_ptr (as_mut_ptr result) (as_ptr self) (as_ptr right) (c_uint N)));
  mret (result, borrow).

Definition from_be_bytes (N : nat) (bytes : loc) (len : nat) : MM (list Z) :=
  expected_len ← ok_or (vli.checked_mul (Z.of_nat N) 8) EINVAL;
  if negb (Z.of_nat len =? expected_len) then throw EINVAL else
  '(_, out) ← with_limbs (vli.zero N) (fun out =>
     unsafe (ecc_digits_from_bytes_ptr bytes (expected_len mod 2 ^ 32) (as_mut_ptr out) (c_uint N)));
  mret out.

Definition mod_inv (N : nat) (self modulus : loc) : MM (list Z) :=
  '(_, result) ← with_limbs (vli.zero N) (fun result =>
     unsafe (vli_mod_inv_ptr (as_mut_ptr result) (as_ptr self) (as_ptr modulus) (c_uint N)));
  mret result.

Definition mod_mult (N : nat) (self right modulus : loc) : MM (list Z) :=
  '(_, result) ← with_limbs (vli.zero N) (fun result =>
     unsafe (vli_mod_mult_slow_ptr (as_mut_ptr result) (as_ptr self) (as_ptr right)
               (as_ptr modulus) (c_uint N)));
  mret result.

Definition cmp_ffi (N : nat) (self other : loc) : MM comparison :=
  r ← unsafe (vli_cmp_ptr (as_ptr self) (as_ptr other) (c_uint N));
  mret (vli.vli_cmp_to_ordering r).

(** [for limb in &mut self.0], from limb [i] on. *)
Fixpoint drop_limbs (self : loc) (i n : nat) : MM unit :=
  match n with
  | O => mret tt
  | S n => write_volatile self i 0 ≫= fun _ => drop_limbs self (S i) n
  end.
Definition drop_vli (N : nat) (self : loc) : MM unit := drop_limbs self 0 N.

(** [ecc.rs]. *)
Definition generate_private_key : MM (list Z) :=
  '(ret, key) ← with_limbs (vli.zero ecc.P256_DIGITS) (fun key =>
     unsafe (ecc_gen_privkey_ptr ecc.P256 (c_uint ecc.P256_DIGITS) (as_mut_ptr key)));
  if ret <? 0 then throw (from_errno ret) else mret key.

(** The call in [make_public_key]. *)
Definition derive_raw (privkey : loc) : MM (Z * list Z) :=
  with_limbs (replicate (2 * ecc.P256_DIGITS) 0) (fun raw =>
    unsafe (ecc_make_pub_key_ptr ecc.P256 (c_uint ecc.P256_DIGITS) (as_ptr privkey) raw)).

Definition sha256_hash (data : loc) (len : nat) : MM (list Z) :=
  '(_, out) ← with_bytes (replicate ecc.P256_BYTES 0) (fun out =>
     unsafe (sha256_ptr data (Z.of_nat len mod 2 ^ 64) out));
  mret out.

Definition ima_measure_pubkey (bytes : loc) (len : nat) : MM unit :=
  result ← unsafe (ima_measure_critical_data_ptr "tarako_pubkey" "public-key-generate"
                     bytes (Z.of_nat len mod 2 ^ 64) false None 0);
  if result <? 0 then throw (from_errno result) else mret tt.

(** The call in [current_exe_fsverity_digest]. *)
Definition read_digest (i : inode) : MM (Z * list Z) :=
  with_bytes (replicate ioctl.FS_VERITY_MAX_DIGEST_SIZE 0) (fun buffer =>
    unsafe (fsverity_get_digest_ptr i buffer None None)).

(** ** Lemmas *)

Lemma set_world_same (s : mstate W) : set_world (ms_world s) s = s.
Proof. by destruct s. Qed.

Lemma with_limbs_ok {A} init (block : loc -> MM A) s a l w :
  (forall p, limbs s !! p = None ->
     block p (set_limbs p init s) = (Ret a, set_limbs p l (set_world w (set_limbs p init s)))) ->
  with_limbs init block s = (Ret (a, l), set_world w s).
Proof.
  intros H. pose proof (is_fresh (dom (limbs s))) as Hf. apply not_elem_of_dom in Hf.
  unfold with_limbs. rewrite (H _ Hf). cbn [set_limbs set_world limbs bytes ms_world].
  rewrite lookup_insert_eq, insert_insert_eq, delete_insert_id by done. done.
Qed.

Lemma with_bytes_ok {A} init (block : loc -> MM A) s a l w :
  (forall p, bytes s !! p = None ->
     block p (set_bytes p init s) = (Ret a, set_bytes p l (set_world w (set_bytes p init s)))) ->
  with_bytes init block s = (Ret (a, l), set_world w s).
Proof.
  intros H. pose proof (is_fresh (dom (bytes s))) as Hf. apply not_elem_of_dom in Hf.
  unfold with_bytes. rewrite (H _ Hf). cbn [set_bytes set_world limbs bytes ms_world].
  rewrite lookup_insert_eq, insert_insert_eq, delete_insert_id by done. done.
Qed.

(** A call that only writes its output. *)
Lemma with_limbs_pure {A} init (block : loc -> MM A) s a l :
  (forall p, limbs s !! p = None ->
     block p (set_limbs p init s) = (Ret a, set_limbs p l (set_limbs p init s))) ->
  with_limbs init block s = (Ret (a, l), s).
Proof.
  intros H. rewrite (with_limbs_ok init block s a l (ms_world s)), set_world_same; [done|].
  intros p Hp. by rewrite (H p Hp).
Qed.

(** The local buffer, and the buffers that were there. *)
Lemma limbs_at_old (s : mstate W) p q n l l' : limbs s !! p = None -> limbs_at s q n l ->
  limbs_at (set_limbs p l' s) q n l /\ p <> q.
Proof.
  intros Hp [Hq Hl]. assert (p <> q) as Hne by (intros ->; congruence).
  split; [|done]. split; [|done]. simpl. by rewrite lookup_insert_ne.
Qed.

Lemma bytes_at_old (s : mstate W) p q n l l' : bytes s !! p = None -> bytes_at s q n l ->
  bytes_at (set_bytes p l' s) q n l /\ p <> q.
Proof.
  intros Hp [Hq Hl]. assert (p <> q) as Hne by (intros ->; congruence).
  split; [|done]. split; [|done]. simpl. by rewrite lookup_insert_ne.
Qed.

Lemma zero_at (s : mstate W) p N : limbs_at (set_limbs p (vli.zero N) s) p N (vli.zero N).
Proof. split; [apply lookup_insert_eq | apply length_replicate]. Qed.

Context `{!ExternLaws W}.

Lemma bind_ret {A B} (m : MM A) (f : A -> MM B) s a s' :
  m s = (Ret a, s') -> (m ≫= f) s = f a s'.
Proof using Type. unfold mbind, M_bind. by intros ->. Qed.

(** Zeroizing writes every limb of the value and nothing else. *)
Lemma drop_limbs_ok self n : forall i l st, limbs st !! self = Some l -> (i + n = length l)%nat ->
  drop_limbs self i n st = (Ret tt, set_limbs self (take i l ++ replicate n 0) st).
Proof using Type.
  induction n as [|n IH]; intros i l st Hl Hn; cbn [drop_limbs].
  - rewrite app_nil_r, take_ge by lia. unfold set_limbs. rewrite insert_id by done. by destruct st.
  - erewrite bind_ret.
    2: { unfold write_volatile. rewrite Hl, bool_decide_true by lia. reflexivity. }
    rewrite (IH (S i) (<[i := 0]> l)); [|by apply lookup_insert_eq|by rewrite length_insert; lia].
    unfold set_limbs. cbn [limbs bytes ms_world]. rewrite insert_insert_eq. do 3 f_equal.
    rewrite (take_S_r _ _ 0) by (apply list_lookup_insert_eq; lia).
    rewrite take_insert_ge by lia. by rewrite <- app_assoc.
Qed.

Section Vli.
Context (N : nat) (HN : Z.of_nat N < 2 ^ 32).
Context (s : mstate W) (self right modulus : loc) (a b m : list Z).
Context (Ha : limbs_at s self N a) (Hb : limbs_at s right N b) (Hm : limbs_at s modulus N m).

Lemma is_zero_mem_ok : is_zero N self s = (Ret (vli.is_zero N a), s).
Proof using HN Ha ExternLaws0.
  unfold is_zero, unsafe, as_ptr, vli.is_zero. rewrite c_uint_small by done.
  by rewrite (is_zero_mem _ _ _ _ Ha).
Qed.

Lemma cmp_ffi_mem_ok : cmp_ffi N self right s = (Ret (vli.cmp_ffi N a b), s).
Proof using HN Ha Hb ExternLaws0.
  unfold cmp_ffi, vli.cmp_ffi. rewrite c_uint_small by done.
  erewrite bind_ret; [reflexivity|]. unfold unsafe, as_ptr. by rewrite (cmp_mem _ _ _ _ _ _ Ha Hb).
Qed.

Lemma sub_with_borrow_mem_ok :
  sub_with_borrow N self right s = (Ret (vli.sub_with_borrow N a b), s).
Proof using HN Ha Hb ExternLaws0.
  unfold sub_with_borrow, vli.sub_with_borrow. rewrite c_uint_small by done.
  rewrite (surjective_pairing (vli_sub a b _)). rewrite (bind_ret _ _ s (snd (vli_sub a b (Z.of_nat N)), fst (vli_sub a b (Z.of_nat N))) s); [reflexivity|].
  apply with_limbs_pure. intros p Hp. unfold unsafe, as_ptr, as_mut_ptr.
  destruct (limbs_at_old s p self N a (vli.zero N) Hp Ha) as [Ha' ?].
  destruct (limbs_at_old s p right N b (vli.zero N) Hp Hb) as [Hb' ?].
  by rewrite (sub_mem _ _ _ _ _ _ _ _ (zero_at s p N) Ha' Hb').
Qed.

Lemma mod_inv_mem_ok : mod_inv N self modulus s = (Ret (vli.mod_inv N a m), s).
Proof using HN Ha Hm ExternLaws0.
  unfold mod_inv, vli.mod_inv. rewrite c_uint_small by done. rewrite (bind_ret _ _ s (tt, vli_mod_inv a m (Z.of_nat N)) s); [reflexivity|].
  apply with_limbs_pure. intros p Hp. unfold unsafe, as_ptr, as_mut_ptr.
  destruct (limbs_at_old s p self N a (vli.zero N) Hp Ha) as [Ha' ?].
  destruct (limbs_at_old s p modulus N m (vli.zero N) Hp Hm) as [Hm' ?].
  by rewrite (mod_inv_mem _ _ _ _ _ _ _ _ (zero_at s p N) Ha' Hm').
Qed.

Lemma mod_mult_mem_ok : mod_mult N self right modulus s = (Ret (vli.mod_mult N a b m), s).
Proof using All.
  unfold mod_mult, vli.mod_mult. rewrite c_uint_small by done. rewrite (bind_ret _ _ s (tt, vli_mod_mult_slow a b m (Z.of_nat N)) s); [reflexivity|].
  apply with_limbs_pure. intros p Hp. unfold unsafe, as_ptr, as_mut_ptr.
  destruct (limbs_at_old s p self N a (vli.zero N) Hp Ha) as [Ha' ?].
  destruct (limbs_at_old s p right N b (vli.zero N) Hp Hb) as [Hb' ?].
  destruct (limbs_at_old s p modulus N m (vli.zero N) Hp Hm) as [Hm' ?].
  by rewrite (mod_mult_mem _ _ _ _ _ _ _ _ _ _ (zero_at s p N) Ha' Hb' Hm').
Qed.

Lemma drop_vli_mem_ok : drop_vli N self s = (Ret tt, set_limbs self (vli.drop a) s).
Proof using Ha.
  destruct Ha as [Hl HL]. unfold drop_vli. rewrite (drop_limbs_ok self N 0 a) by done.
  rewrite take_0, app_nil_l, vli.drop_ok. by rewrite HL.
Qed.
End Vli.

Lemma from_be_bytes_mem_ok N p len bs s :
  8 * Z.of_nat N < 2 ^ 32 -> bytes_at s p len bs ->
  from_be_bytes N p len s = (match vli.from_be_bytes N bs with Ok v => Ret v | Err e => Throw e end, s).
Proof using All.
  intros HN Hb. unfold from_be_bytes, vli.from_be_bytes, vli.checked_mul.
  rewrite (proj2 (Z.ltb_lt _ _)) by lia. rewrite (bind_ret _ _ _ (Z.of_nat N * 8) s) by done.
  rewrite (proj2 Hb). destruct (Z.eqb_spec (Z.of_nat len) (Z.of_nat N * 8)) as [El|]; [|done].
  cbn [negb]. rewrite Z.mod_small, c_uint_small by lia. rewrite <- El.
  rewrite (bind_ret _ _ s (tt, ecc_digits_from_bytes bs (Z.of_nat len) (Z.of_nat N)) s); [reflexivity|]. apply with_limbs_pure. intros q Hq. unfold unsafe, as_mut_ptr.
  rewrite (digits_from_bytes_mem p len q N bs (vli.zero N)); [done | exact Hb | apply zero_at].
Qed.

(** A computation on the rest of the kernel only, on this memory. *)
Definition on_world {A} (f : KM W A) (s : mstate W) : exec A * mstate W :=
  let '(r, st) := f (KState ∅ ∅ (ms_world s)) in (r, set_world (world st) s).

Lemma generate_private_key_mem_ok s :
  generate_private_key s = on_world ecc.generate_private_key s.
Proof using All.
  unfold generate_private_key, on_world, ecc.generate_private_key, call, mbind, M_bind.
  cbn [world]. change (c_uint ecc.P256_DIGITS) with (Z.of_nat ecc.P256_DIGITS).
  destruct (ecc_gen_privkey _ _ _ _) as [[r key] w] eqn:E.
  rewrite (with_limbs_ok _ _ s r key w).
  - by destruct (r <? 0).
  - intros p Hp. unfold unsafe, as_mut_ptr. rewrite (gen_privkey_mem _ _ _ _ _ (zero_at s p _)).
    cbn [ms_world set_limbs]. by rewrite E.
Qed.

Lemma derive_raw_mem_ok p key s : limbs_at s p ecc.P256_DIGITS key ->
  derive_raw p s = on_world (call (ecc_make_pub_key ecc.P256 (c_uint ecc.P256_DIGITS) key
                                     (replicate (2 * ecc.P256_DIGITS) 0))) s.
Proof using All.
  intros Hk. unfold derive_raw, on_world, call. cbn [world].
  change (c_uint ecc.P256_DIGITS) with (Z.of_nat ecc.P256_DIGITS).
  destruct (ecc_make_pub_key _ _ _ _ _) as [[r raw] w] eqn:E. apply with_limbs_ok. intros q Hq.
  destruct (limbs_at_old s q p _ key (replicate (2 * ecc.P256_DIGITS) 0) Hq Hk) as [Hk' ?].
  unfold unsafe, as_ptr. erewrite (make_pub_key_mem _ _ _ _ _ _ _ Hk');
    [|split; [apply lookup_insert_eq | apply length_replicate]|done].
  cbn [ms_world set_limbs]. by rewrite E.
Qed.

Lemma sha256_hash_mem_ok p len data s : Z.of_nat len < 2 ^ 64 -> bytes_at s p len data ->
  sha256_hash p len s = (Ret (ecc.sha256_hash data), s).
Proof using All.
  intros Hl Hd. unfold sha256_hash. rewrite Z.mod_small by lia. rewrite (bind_ret _ _ s (tt, sha256 data) s); [reflexivity|].
  rewrite (with_bytes_ok _ _ s tt (sha256 data) (ms_world s)), set_world_same; [done|].
  intros q Hq. unfold unsafe.
  destruct (bytes_at_old s q p len data (replicate ecc.P256_BYTES 0) Hq Hd) as [Hd' ?].
  rewrite (sha256_mem p len q data (replicate ecc.P256_BYTES 0)); [done | done | | done].
  split; [apply lookup_insert_eq | apply length_replicate].
Qed.

Lemma ima_measure_mem_ok p len bs s : Z.of_nat len < 2 ^ 64 -> bytes_at s p len bs ->
  ima_measure_pubkey p len s = on_world (ecc.ima_measure_pubkey bs) s.
Proof using All.
  intros Hl Hb. unfold ima_measure_pubkey, on_world, ecc.ima_measure_pubkey, call, mbind, M_bind, unsafe.
  rewrite Z.mod_small by lia. rewrite (ima_mem _ _ _ _ _ _ _ Hb). cbn [world].
  destruct (ima_measure_critical_data _ _ _ _ _ _) as [r w]. by destruct (r <? 0).
Qed.

Lemma read_digest_mem_ok i s :
  read_digest i s =
    on_world (call (fsverity_get_digest i (replicate ioctl.FS_VERITY_MAX_DIGEST_SIZE 0))) s.
Proof using All.
  unfold read_digest, on_world, call. cbn [world].
  destruct (fsverity_get_digest _ _ _) as [[r buf] w] eqn:E. apply with_bytes_ok. intros q Hq.
  unfold unsafe. erewrite (fsverity_mem i q);
    [|split; [apply lookup_insert_eq | apply length_replicate]].
  cbn [ms_world set_bytes]. by rewrite E.
Qed.
End Wrappers.

(** ** Properties *)

(** Dropping a [Vli] overwrites its storage: the loop of volatile writes stays
    inside the value, sets each of its [N] limbs to zero, and changes no other
    memory. *)
Lemma drop_zeroizes {W : Type} (N : nat) (s : mstate W) (self : loc) (a : list Z) :
  limbs_at s self N a ->
  drop_vli N self s = (Ret tt, set_limbs self (replicate N 0) s).
Proof. intros Ha. rewrite (drop_vli_mem_ok N s self a Ha), vli.drop_ok. by rewrite (proj2 Ha). Qed.

(** C14: the [unsafe] blocks of [vli.rs] keep their promises.  For references to
    [N]-limb values, which may be the same value, every call of the kernel gets
    live buffers of exactly the size it is told and an output apart from its
    inputs; each method therefore computes the function of the values that the
    rest of the development uses, never faults, and leaves all memory as it
    was.  [from_be_bytes] calls the kernel only with a buffer of [8 N] bytes.
    Dropping a value sets each of its limbs to zero by volatile writes inside
    it, and changes no other memory. *)
Theorem vli_unsafe_sound {W : Type} `{!Kernel W} `{!Externs W} `{!ExternLaws W} (N : nat)
    (s : mstate W) (self right modulus src : loc) (len : nat) (a b m bs : list Z) :
  8 * Z.of_nat N < 2 ^ 32 -> limbs_at s self N a -> limbs_at s right N b ->
  limbs_at s modulus N m -> bytes_at s src len bs ->
  is_zero N self s = (Ret (vli.is_zero N a), s) /\
  cmp_ffi N self right s = (Ret (vli.cmp_ffi N a b), s) /\
  sub_with_borrow N self right s = (Ret (vli.sub_with_borrow N a b), s) /\
  mod_inv N self modulus s = (Ret (vli.mod_inv N a m), s) /\
  mod_mult N self right modulus s = (Ret (vli.mod_mult N a b m), s) /\
  from_be_bytes N src len s =
    (match vli.from_be_bytes N bs with Ok v => Ret v | Err e => Throw e end, s) /\
  drop_vli N self s = (Ret tt, set_limbs self (replicate N 0) s).
Proof.
  intros HN Ha Hb Hm Hs. assert (Z.of_nat N < 2 ^ 32) as HN' by lia. split_and!.
  - by apply is_zero_mem_ok.
  - by apply cmp_ffi_mem_ok.
  - by apply sub_with_borrow_mem_ok.
  - by apply mod_inv_mem_ok.
  - by apply mod_mult_mem_ok.
  - by apply from_be_bytes_mem_ok.
  - by eapply drop_zeroizes.
Qed.

(** C15: so do those of [ecc.rs] and [ioctl.rs]: generating a private key, deriving
    the raw public key, hashing, measuring and reading the fs-verity digest
    through pointers do to the kernel exactly what the functions on values do,
    with the same result or error, and their local buffers are gone after. *)
Theorem ecc_unsafe_sound {W : Type} `{!Kernel W} `{!Externs W} `{!ExternLaws W}
    (s : mstate W) (privkey data : loc) (len : nat) (key bs : list Z) (i : inode) :
  limbs_at s privkey ecc.P256_DIGITS key -> bytes_at s data len bs -> Z.of_nat len < 2 ^ 64 ->
  generate_private_key s = on_world ecc.generate_private_key s /\
  derive_raw privkey s =
    on_world (call (ecc_make_pub_key ecc.P256 (c_uint ecc.P256_DIGITS) key
                      (replicate (2 * ecc.P256_DIGITS) 0))) s /\
  sha256_hash data len s = (Ret (ecc.sha256_hash bs), s) /\
  ima_measure_pubkey data len s = on_world (ecc.ima_measure_pubkey bs) s /\
  read_digest i s =
    on_world (call (fsverity_get_digest i (replicate ioctl.FS_VERITY_MAX_DIGEST_SIZE 0))) s.
Proof.
  intros Hk Hb Hl. split_and!.
  - apply generate_private_key_mem_ok.
  - by apply derive_raw_mem_ok.
  - by apply sha256_hash_mem_ok.
  - by apply ima_measure_mem_ok.
  - apply read_digest_mem_ok.
Qed.

(** ** Reference declarations

    Each function reads its inputs from memory, wherever they are. *)
Definition limbs_of {W} (s : mstate W) (p : loc) : list Z := default [] (limbs s !! p).
Definition bytes_of {W} (s : mstate W) (p : loc) : list Z := default [] (bytes s !! p).

#[local] Existing Instance ToyKernel.

#[export] Instance toy_externs : Externs RW := {|
  ecc_gen_privkey_ptr cid nd p s :=
    let '((r, k), w) := ecc_gen_privkey cid nd (limbs_of s p) (ms_world s) in
    (r, set_limbs p k (set_world w s));
  ecc_make_pub_key_ptr cid nd pp pr s :=
    let '((r, raw), w) := ecc_make_pub_key cid nd (limbs_of s pp) (limbs_of s pr) (ms_world s) in
    (r, set_limbs pr raw (set_world w s));
  ecc_digits_from_bytes_ptr pi n po nd s :=
    (tt, set_limbs po (ecc_digits_from_bytes (bytes_of s pi) n nd) s);
  vli_mod_inv_ptr pr pa pm n s := (tt, set_limbs pr (vli_mod_inv (limbs_of s pa) (limbs_of s pm) n) s);
  vli_mod_mult_slow_ptr pr pa pb pm n s :=
    (tt, set_limbs pr (vli_mod_mult_slow (limbs_of s pa) (limbs_of s pb) (limbs_of s pm) n) s);
  vli_cmp_ptr pa pb n s := (vli_cmp (limbs_of s pa) (limbs_of s pb) n, s);
  vli_sub_ptr pr pa pb n s :=
    let '(d, c) := vli_sub (limbs_of s pa) (limbs_of s pb) n in (c, set_limbs pr d s);
  vli_is_zero_ptr pa n s := (vli_is_zero (limbs_of s pa) n, s);
  sha256_ptr pd n po s := (tt, set_bytes po (sha256 (bytes_of s pd)) s);
  ima_measure_critical_data_ptr label name pb n h _ _ s :=
    let '(r, w) := ima_measure_critical_data label name (bytes_of s pb) h None (ms_world s) in
    (r, set_world w s);
  fsverity_get_digest_ptr i pb _ _ s :=
    let '((r, buf), w) := fsverity_get_digest i (bytes_of s pb) (ms_world s) in
    (r, set_bytes pb buf (set_world w s)) |}.

#[export] Instance toy_extern_laws : ExternLaws RW.
Proof.
  split; intros;
    repeat match goal with
    | H : limbs_at _ _ _ _ |- _ => destruct H as [? _]
    | H : bytes_at _ _ _ _ |- _ => destruct H as [? _]
    end;
    cbn [ecc_gen_privkey_ptr ecc_make_pub_key_ptr ecc_digits_from_bytes_ptr vli_mod_inv_ptr
      vli_mod_mult_slow_ptr vli_cmp_ptr vli_sub_ptr vli_is_zero_ptr sha256_ptr
      ima_measure_critical_data_ptr fsverity_get_digest_ptr toy_externs];
    unfold limbs_of, bytes_of;
    repeat match goal with H : _ !! _ = Some _ |- _ => rewrite H; clear H end; try done.
Qed.

(** Two values, one of them used twice, and a byte string. *)
Definition toy_store : mstate RW :=
  MState {[1%positive := digits 64 4 5; 2%positive := digits 64 4 PrimeCert.p256_order]}
         {[1%positive := replicate 32 7]} (world (toy_state [5] true 0 0)).

Lemma vli_unsafe_sound_witness :
  limbs_at toy_store 1 4 (digits 64 4 5) /\
  mod_mult 4 1 1 2 toy_store =
    (Ret (vli.mod_mult 4 (digits 64 4 5) (digits 64 4 5) (digits 64 4 PrimeCert.p256_order)), toy_store).
Proof.
  assert (H1 : limbs_at toy_store 1 4 (digits 64 4 5)) by (split; reflexivity).
  assert (H2 : limbs_at toy_store 2 4 (digits 64 4 PrimeCert.p256_order)) by (split; reflexivity).
  assert (H3 : bytes_at toy_store 1 32 (replicate 32 7)) by (split; reflexivity).
  split; [exact H1|].
  exact (proj1 (proj2 (proj2 (proj2 (proj2 (vli_unsafe_sound 4 toy_store 1 1 2 1 32 _ _ _ _
    ltac:(done) H1 H1 H2 H3)))))).
Defined.

Lemma ecc_unsafe_sound_witness :
  generate_private_key toy_store = on_world ecc.generate_private_key toy_store /\
  fst (generate_private_key toy_store) = Ret (digits 64 4 5).
Proof.
  assert (H1 : limbs_at toy_store 1 ecc.P256_DIGITS (digits 64 4 5)) by (split; reflexivity).
  assert (H3 : bytes_at toy_store 1 32 (replicate 32 7)) by (split; reflexivity).
  split; [|vm_compute; reflexivity].
  exact (proj1 (ecc_unsafe_sound toy_store 1 1 32 _ _ 1 H1 H3 ltac:(done))).
Defined.

End externs.
