(* ===== verification/Layout.v ===== *)
(** Memory layout of the [repr(C)] structures: [ffi::Point] and [ffi::Curve],
    which the kernel reads and writes, and [SignDataReq], which is copied to and
    from user memory as bytes.

    [layout] is the C algorithm on x86-64: fields in declaration order, each at
    the next multiple of its alignment, the size rounded up to the largest
    alignment.  The theorems say that the algorithm gives aligned, disjoint
    fields for every structure, and what it gives for these three. *)
From S2P Require Import Prelude Exec Ffi RefKernel Vli Ecc Ioctl.
From stdpp Require Import base list numbers strings.
From Stdlib Require Import ZArith Lia.
#[local] Open Scope Z_scope.

Module layout.

(** ** Types and their layout *)

Inductive ctype :=
  | Int (bytes : Z)                      (* an integer of that many bytes *)
  | Ptr                                  (* a raw pointer *)
  | Array (t : ctype) (n : nat)
  | Struct (fields : list (string * ctype)).

Definition round_up (off align : Z) : Z := (off + align - 1) / align * align.

(** Size and alignment. *)
Fixpoint layout (t : ctype) : Z * Z :=
  match t with
  | Int b => (b, b)
  | Ptr => (8, 8)
  | Array t n => let '(size, align) := layout t in (size * Z.of_nat n, align)
  | Struct fields =>
      (fix go fields off align :=
         match fields with
         | [] => (round_up off align, align)
         | (_, t) :: fields =>
             let '(s, a) := layout t in go fields (round_up off a + s) (Z.max align a)
         end) fields 0 1
  end.
Definition size_of (t : ctype) : Z := fst (layout t).
Definition align_of (t : ctype) : Z := snd (layout t).

(** The fields with their offsets, from [off] on; the end of the last one. *)
Fixpoint place (off : Z) (fields : list (string * ctype)) : list (string * Z * ctype) :=
  match fields with
  | [] => []
  | (name, t) :: fields =>
      let o := round_up off (align_of t) in (name, o, t) :: place (o + size_of t) fields
  end.
Definition offsets (fields : list (string * ctype)) : list (string * Z * ctype) := place 0 fields.

Fixpoint end_of (off : Z) (fields : list (string * ctype)) : Z :=
  match fields with
  | [] => off
  | (_, t) :: fields => end_of (round_up off (align_of t) + size_of t) fields
  end.
Definition max_align (fields : list (string * ctype)) : Z :=
  foldl (fun a f => Z.max a (align_of (snd f))) 1 fields.

(** ** The structures *)

Definition Point : ctype := Struct [("x", Ptr); ("y", Ptr); ("ndigits", Int 1)]%string.

Definition Curve : ctype := Struct
  [("name", Ptr); ("nbits", Int 4); ("g", Point); ("p", Ptr); ("n", Ptr); ("a", Ptr); ("b", Ptr)]%string.

Definition SignDataReq : ctype := Struct
  [("user_data", Array (Int 1) ioctl.USER_DATA_BYTES); ("hash", Array (Int 1) ecc.P256_BYTES);
   ("sig_r", Array (Int 1) ecc.P256_BYTES); ("sig_s", Array (Int 1) ecc.P256_BYTES);
   ("pubkey", Array (Int 1) ecc.P256_PUBKEY_BYTES)]%string.

(** [Vli<N>] is transparent over its array. *)
Definition Vli (N : nat) : ctype := Array (Int 8) N.

(** The name and offset of each field. *)
Definition field_offsets (t : ctype) : list (string * Z) :=
  match t with Struct fields => (fun f => (fst (fst f), snd (fst f))) <$> offsets fields | _ => [] end.

(** Bytes that belong to no field. *)
Definition padding (t : ctype) : Z :=
  match t with
  | Struct fields => size_of t - foldr (fun f n => size_of (snd f) + n) 0 fields
  | _ => 0
  end.

(** ** Well-formed types *)

(** Integers have one, two, four or eight bytes. *)
Inductive ok : ctype -> Prop :=
  | ok_Int b : b ∈ [1; 2; 4; 8] -> ok (Int b)
  | ok_Ptr : ok Ptr
  | ok_Array t n : ok t -> ok (Array t n)
  | ok_Struct fields : fields_ok fields -> ok (Struct fields)
with fields_ok : list (string * ctype) -> Prop :=
  | fields_nil : fields_ok []
  | fields_cons name t fields : ok t -> fields_ok fields -> fields_ok ((name, t) :: fields).

Scheme ok_mut := Minimality for ok Sort Prop
  with fields_ok_mut := Minimality for fields_ok Sort Prop.

Lemma layout_struct fields :
  layout (Struct fields) = (round_up (end_of 0 fields) (max_align fields), max_align fields).
Proof.
  unfold max_align. cbn [layout]. generalize 0, 1.
  induction fields as [|[name t] fields IH]; intros off al; [done|]. cbn [end_of foldl].
  unfold size_of, align_of. simpl snd. destruct (layout t) as [s a]; simpl. apply IH.
Qed.

(** [a] is a power of two, and so divides every larger one. *)
Definition pow2 (a : Z) : Prop := exists k, 0 <= k /\ a = 2 ^ k.

Lemma pow2_pos a : pow2 a -> 0 < a.
Proof. intros (k & ? & ->). by apply Z.pow_pos_nonneg. Qed.

Lemma pow2_divide a b : pow2 a -> pow2 b -> a <= b -> (a | b).
Proof.
  intros (j & Hj & ->) (k & Hk & ->) Hle. assert (j <= k).
  { apply (Z.pow_le_mono_r_iff 2); lia. }
  exists (2 ^ (k - j)). rewrite <- Z.pow_add_r by lia. f_equal. lia.
Qed.

Lemma pow2_max a b : pow2 a -> pow2 b -> pow2 (Z.max a b).
Proof. intros Ha Hb. by destruct (Z.max_spec a b) as [[_ ->]|[_ ->]]. Qed.

Lemma round_up_spec off a : 0 < a ->
  off <= round_up off a < off + a /\ (a | round_up off a).
Proof.
  intros Ha. unfold round_up. pose proof (Z.mod_pos_bound (off + a - 1) a Ha).
  pose proof (Z.div_mod (off + a - 1) a ltac:(lia)). split; [lia|]. by exists ((off + a - 1) / a).
Qed.

Lemma max_align_ok (fields : list (string * ctype)) : forall al, pow2 al -> Forall (fun f => pow2 (align_of (snd f))) fields ->
  let m := foldl (fun a f => Z.max a (align_of (snd f))) al fields in
  pow2 m /\ al <= m /\ Forall (fun f => (align_of (snd f) | m)) fields.
Proof.
  induction fields as [|f fields IH]; intros al Hal Hf; cbn [foldl]; [by split_and!|].
  apply Forall_cons in Hf as [Hp Hf].
  destruct (IH (Z.max al (align_of (snd f))) (pow2_max _ _ Hal Hp) Hf) as (Hm & Hle & Hd).
  split_and!; [done | lia |]. constructor; [|done]. apply pow2_divide; [done..|lia].
Qed.

Lemma end_of_ge (fields : list (string * ctype)) : forall off,
  Forall (fun f => 0 < align_of (snd f) /\ 0 <= size_of (snd f)) fields -> off <= end_of off fields.
Proof.
  induction fields as [|[name t] fields IH]; intros off Hf; cbn [end_of]; [lia|].
  apply Forall_cons in Hf as [[Ha Hs] Hf]. simpl in Ha, Hs.
  pose proof (round_up_spec off (align_of t) Ha). etrans; [|by apply IH]. lia.
Qed.

(** Size and alignment of a well-formed type: the alignment is a power of two
    and divides the size. *)
Definition good (t : ctype) : Prop := pow2 (align_of t) /\ 0 <= size_of t /\ (align_of t | size_of t).

Lemma ok_good t : ok t -> good t.
Proof.
  apply (ok_mut good (Forall (fun f => good (snd f)))).
  - intros b Hb. assert (pow2 b) as Hp.
    { rewrite !elem_of_cons in Hb. destruct Hb as [->|[->|[->|[->|[]%elem_of_nil]]]];
        [by exists 0|by exists 1|by exists 2|by exists 3]. }
    split_and!; [done | by apply Z.lt_le_incl, pow2_pos | apply Z.divide_refl].
  - split_and!; [by exists 3 | done | apply Z.divide_refl].
  - intros t' n _ (Hp & Hs & Hd). unfold good, size_of, align_of in *. cbn [layout].
    destruct (layout t') as [s a]; simpl in *. split_and!; [done | lia | by apply Z.divide_mul_l].
  - intros fields _ Hf. unfold good, size_of, align_of. rewrite layout_struct. simpl.
    assert (Forall (fun f => pow2 (align_of (snd f))) fields) as Hp
      by (eapply Forall_impl; [exact Hf|]; by intros f (? & _)).
    destruct (max_align_ok fields 1 ltac:(by exists 0) Hp) as (Hm & _ & _).
    pose proof (round_up_spec (end_of 0 fields) (max_align fields) (pow2_pos _ Hm)) as [Hr Hd].
    pose proof (end_of_ge fields 0) as He. split_and!; [done | | done].
    etrans; [apply He|lia]. eapply Forall_impl; [exact Hf|]. intros f (H1 & H2 & _).
    split; [by apply pow2_pos | done].
  - constructor.
  - intros name t' fields _ Ht _ Hf. by constructor.
Qed.

Lemma fields_ok_good fields : fields_ok fields -> Forall (fun f => good (snd f)) fields.
Proof. induction 1; constructor; [by apply ok_good | done]. Qed.

(** The placed fields follow each other from [off] to [end_]. *)
Fixpoint follow (off end_ : Z) (l : list (string * Z * ctype)) : Prop :=
  match l with
  | [] => off <= end_
  | (_, o, t) :: l => off <= o /\ (align_of t | o) /\ follow (o + size_of t) end_ l
  end.

Lemma place_follow fields : forall off, Forall (fun f => good (snd f)) fields ->
  follow off (end_of off fields) (place off fields).
Proof.
  induction fields as [|[name t] fields IH]; intros off Hf; cbn [place follow end_of]; [lia|].
  apply Forall_cons in Hf as [(Hp & Hs & _) Hf]. simpl in Hp, Hs.
  pose proof (round_up_spec off (align_of t) (pow2_pos _ Hp)) as [? ?].
  split_and!; [lia | done | by apply IH].
Qed.

Lemma follow_weaken off e e' l : e <= e' -> follow off e l -> follow off e' l.
Proof.
  revert off. induction l as [|[[name o] t] l IH]; simpl; intros off He; [lia|]. naive_solver.
Qed.

(** ** Object representation of a request *)

(** Storing a field at its offset. *)
Definition store (off : nat) (bs buf : list Z) : list Z :=
  take off buf ++ bs ++ drop (off + length bs) buf.

(** The storage of a request after its fields have been assigned, from
    whatever it held before. *)
Definition represent (req : ioctl.SignDataReq.SignDataReq) (buf : list Z) : list Z :=
  foldl (fun buf '(f, bs) => store (Z.to_nat (snd f)) bs buf) buf
    (zip (field_offsets SignDataReq)
       [ioctl.SignDataReq.user_data req; ioctl.SignDataReq.hash req; ioctl.SignDataReq.sig_r req;
        ioctl.SignDataReq.sig_s req; ioctl.SignDataReq.pubkey req]).

Lemma store_next (pre rest bs : list Z) off :
  length pre = off -> store off bs (pre ++ rest) = (pre ++ bs) ++ drop (length bs) rest.
Proof.
  intros <-. unfold store. rewrite take_app_length, <- drop_drop, drop_app_length.
  by rewrite app_assoc.
Qed.

Lemma SignDataReq_offsets : field_offsets SignDataReq =
  [("user_data", 0); ("hash", 128); ("sig_r", 160); ("sig_s", 192); ("pubkey", 224)]%string.
Proof. reflexivity. Qed.

Lemma represent_bytes req buf : ioctl.req_ok req -> length buf = 257%nat ->
  represent req buf = ioctl.sign_data_req_bytes req.
Proof.
  destruct req as [u h r s k]. intros (Hu & Hh & Hr & Hs & Hk) Hb. simpl in *.
  unfold represent. rewrite SignDataReq_offsets.
  change (store 224 k (store 192 s (store 160 r (store 128 h (store 0 u buf)))) =
          u ++ h ++ r ++ s ++ k).
  change ioctl.USER_DATA_BYTES with 128%nat in Hu. change ecc.P256_BYTES with 32%nat in *.
  change ecc.P256_PUBKEY_BYTES with 33%nat in Hk.
  rewrite <- (app_nil_l buf). rewrite (store_next [] buf u 0) by done. rewrite app_nil_l.
  rewrite !store_next by (rewrite ?length_app; lia). rewrite !drop_drop.
  rewrite drop_ge by lia. by rewrite app_nil_r, <- !app_assoc.
Qed.

(** ** Properties *)

(** The layout algorithm is sound for every structure of integers, pointers,
    arrays and structures: the fields lie one after the other inside the
    structure without overlap, each at a multiple of its alignment, the
    structure's alignment is a power of two that every field's divides, and it
    divides the size, so that arrays keep their elements aligned. *)
Lemma struct_layout_sound (fields : list (string * ctype)) :
  fields_ok fields ->
  let t := Struct fields in
  follow 0 (size_of t) (offsets fields) /\ pow2 (align_of t) /\ (align_of t | size_of t) /\
  Forall (fun f => (align_of (snd f) | align_of t)) fields.
Proof.
  intros Hf t. destruct (ok_good t (ok_Struct _ Hf)) as (Hp & Hs & Hd).
  apply fields_ok_good in Hf.
  assert (Forall (fun f => pow2 (align_of (snd f))) fields) as Hpf
    by (eapply Forall_impl; [exact Hf|]; by intros f (? & _)).
  destruct (max_align_ok fields 1 ltac:(by exists 0) Hpf) as (Hm & _ & Hda).
  assert (align_of t = max_align fields) as Ea by (unfold align_of, t; by rewrite layout_struct).
  assert (size_of t = round_up (end_of 0 fields) (max_align fields)) as Es
    by (unfold size_of, t; by rewrite layout_struct).
  split_and!; try done; [|by rewrite Ea].
  eapply follow_weaken; [|by apply place_follow].
  rewrite Es. apply round_up_spec. by apply pow2_pos.
Qed.

(** C29: the layouts the driver depends on.  [ffi::Point] and [ffi::Curve] have the
    sizes and offsets of the kernel's [struct ecc_point] and [struct ecc_curve]
    on x86-64; a [Scalar] occupies the 32 bytes that the casts of coordinate
    pointers read; and [SignDataReq] has no padding, so whatever its storage
    held before, assigning the fields determines all of the 257 bytes that are
    copied to user memory: no byte of kernel memory leaks. *)
Theorem driver_layouts (req : ioctl.SignDataReq.SignDataReq) (buf : list Z) :
  layout Point = (24, 8) /\
  field_offsets Point = [("x", 0); ("y", 8); ("ndigits", 16)]%string /\
  layout Curve = (72, 8) /\
  field_offsets Curve =
    [("name", 0); ("nbits", 8); ("g", 16); ("p", 40); ("n", 48); ("a", 56); ("b", 64)]%string /\
  layout (Vli ecc.P256_DIGITS) = (Z.of_nat ecc.P256_BYTES, 8) /\
  layout SignDataReq = (Z.of_nat ioctl.size_of_SignDataReq, 1) /\ padding SignDataReq = 0 /\
  (ioctl.req_ok req -> length buf = ioctl.size_of_SignDataReq ->
   represent req buf = ioctl.sign_data_req_bytes req).
Proof. split_and!; try reflexivity. apply represent_bytes. Qed.

Lemma driver_layouts_witness :
  let req := ioctl.sign_data_req_bytes_mut (replicate 257 7) in
  ioctl.req_ok req /\ represent req (replicate 257 9) = ioctl.sign_data_req_bytes req.
Proof.
  assert (H : ioctl.req_ok (ioctl.sign_data_req_bytes_mut (replicate 257 7)))
    by (split_and!; reflexivity).
  split; [exact H|].
  exact (proj2 (proj2 (proj2 (proj2 (proj2 (proj2 (proj2 (driver_layouts
    (ioctl.sign_data_req_bytes_mut (replicate 257 7)) (replicate 257 9)))))))) H eq_refl).
Defined.
End layout.
