(* ===== verification/SetOnce.v ===== *)
(** [driver/src/set_once.rs]: a cell that is written once and then shared.

    Two models.  [SetOnce] with [populate], [as_ref], [clear] and [drop] runs
    each method to its end, as code that owns the cell sees it; an access of
    uninitialized storage is a fault.  [atomic_step] interleaves the atomic actions of
    any number of threads under release/acquire memory: [init] is the list of
    the values written to it, a load may return a stale one, a read-modify-write
    reads the latest, and a thread knows a write of the plain storage only if
    it acquired a message that was released after it.  The invariant [inv]
    gives race freedom and agreement on the value. *)
From S2P Require Import Prelude Exec.
From stdpp Require Import base gmap list numbers functions.
From Stdlib Require Import ZArith Lia.
#[local] Open Scope Z_scope.

Module set_once.

(** [MaybeUninit<T>]: storage that was dropped still holds what the destructor
    left behind. *)
Inductive slot (T : Type) :=
  | Uninit (left : option T)
  | Init (v : T).
Arguments Uninit {T} _.
Arguments Init {T} _.

(** ** Methods run without interference *)

Record SetOnce (T : Type) := mkSetOnce { init : Z; value : slot T }.
Arguments mkSetOnce {T} _ _.
Arguments init {T} _.
Arguments value {T} _.

Section Sequential.
Context {T : Type} (drop_value : T -> T).

Definition new : SetOnce T := mkSetOnce 0 (Uninit None).

Definition as_ref : M (SetOnce T) (option T) := fun self =>
  if init self =? 2 then
    match value self with
    | Init v => (Ret (Some v), self)
    | Uninit _ => (Fault BadPointer, self)
    end
  else (Ret None, self).

(** [self.init.cmpxchg(old, new)]: whether it succeeded. *)
Definition cmpxchg (old new : Z) : M (SetOnce T) bool := fun self =>
  if init self =? old then (Ret true, mkSetOnce new (value self)) else (Ret false, self).

Definition store (z : Z) : M (SetOnce T) unit := fun self => (Ret tt, mkSetOnce z (value self)).

(** [core::ptr::write]: the old contents are not dropped. *)
Definition ptr_write (v : T) : M (SetOnce T) unit := fun self =>
  (Ret tt, mkSetOnce (init self) (Init v)).

(** [core::ptr::drop_in_place]. *)
Definition drop_in_place : M (SetOnce T) unit := fun self =>
  match value self with
  | Init v => (Ret tt, mkSetOnce (init self) (Uninit (Some (drop_value v))))
  | Uninit _ => (Fault BadPointer, self)
  end.

Definition populate (v : T) : M (SetOnce T) bool :=
  won ← cmpxchg 0 1;
  if won : bool then ptr_write v ≫= fun _ => store 2 ≫= fun _ => mret true
  else mret false.

Definition clear : M (SetOnce T) unit :=
  won ← cmpxchg 2 1;
  if won : bool then drop_in_place ≫= fun _ => store 0 else mret tt.

Definition drop : M (SetOnce T) unit := fun self =>
  if init self =? 2 then drop_in_place self else (Ret tt, self).

(** *** The specification: an optional value, filled once until it is cleared *)

Inductive op := Populate (v : T) | AsRef | Clear.
Inductive res := Populated (won : bool) | Got (v : option T) | Cleared.

Definition run_op (o : op) : M (SetOnce T) res :=
  match o with
  | Populate v => b ← populate v; mret (Populated b)
  | AsRef => v ← as_ref; mret (Got v)
  | Clear => _ ← clear; mret Cleared
  end.

Fixpoint run_ops (os : list op) : M (SetOnce T) (list res) :=
  match os with
  | [] => mret []
  | o :: os => r ← run_op o; rs ← run_ops os; mret (r :: rs)
  end.

Definition spec_op (o : op) (c : option T) : res * option T :=
  match o, c with
  | Populate v, None => (Populated true, Some v)
  | Populate _, Some _ => (Populated false, c)
  | AsRef, _ => (Got c, c)
  | Clear, _ => (Cleared, None)
  end.

Fixpoint spec_ops (os : list op) (c : option T) : list res * option T :=
  match os with
  | [] => ([], c)
  | o :: os => let '(r, c) := spec_op o c in
               let '(rs, c) := spec_ops os c in (r :: rs, c)
  end.

(** The cell between method calls, and the value it publishes. *)
Definition idle (self : SetOnce T) : Prop :=
  init self = 2 /\ (exists v, value self = Init v) \/
  init self = 0 /\ (exists l, value self = Uninit l).

Definition contents (self : SetOnce T) : option T :=
  match value self with Init v => Some v | Uninit _ => None end.

Lemma run_op_refines o self : idle self ->
  exists self', run_op o self = (Ret (fst (spec_op o (contents self))), self') /\
    idle self' /\ contents self' = snd (spec_op o (contents self)).
Proof.
  unfold idle, contents. destruct self as [i s]; simpl.
  intros [[-> [u ->]]|[-> [l ->]]]; destruct o; eexists;
    (split; [reflexivity|]); simpl; eauto 6.
Qed.

Lemma run_ops_refines os : forall self, idle self ->
  exists self', run_ops os self = (Ret (fst (spec_ops os (contents self))), self') /\
    idle self' /\ contents self' = snd (spec_ops os (contents self)).
Proof.
  induction os as [|o os IH]; intros self Hi; [by exists self|]. cbn [run_ops spec_ops].
  destruct (run_op_refines o self Hi) as (s1 & E1 & Hi1 & Hc1).
  destruct (IH s1 Hi1) as (s2 & E2 & Hi2 & Hc2). exists s2.
  unfold mbind, M_bind. rewrite E1, E2, Hc1 in *.
  destruct (spec_op o _) as [r c]; simpl in *. by destruct (spec_ops os c).
Qed.

(** C33: any sequence of [populate], [as_ref] and [clear] on a new cell returns
    what the specification returns and never touches uninitialized storage;
    dropping the cell afterwards does not fault either. *)
Theorem set_once_refines os :
  exists self', run_ops os new = (Ret (fst (spec_ops os None)), self') /\
    contents self' = snd (spec_ops os None) /\
    fst (drop self') = Ret tt /\ contents (snd (drop self')) = None.
Proof.
  destruct (run_ops_refines os new) as (s & E & Hi & Hc); [right; simpl; eauto|].
  exists s. repeat split; try done; unfold drop, drop_in_place, contents;
    destruct Hi as [[-> [u Eu]]|[-> [l El]]]; simpl; by rewrite ?Eu, ?El.
Qed.

End Sequential.
Arguments new {T}.

(** ** Threads *)

Inductive pc (T : Type) :=
  | Idle
  | Writing (v : T)       (* populate won the exchange, before [ptr::write] *)
  | Storing (v : T)       (* after [ptr::write], before the store of 2 *)
  | Holding               (* owns a reference returned by [as_ref] *)
  | Dropping              (* clear won the exchange, before [drop_in_place] *)
  | Resetting.            (* after [drop_in_place], before the store of 0 *)
Arguments Idle {T}.
Arguments Writing {T} _.
Arguments Storing {T} _.
Arguments Holding {T}.
Arguments Dropping {T}.
Arguments Resetting {T}.

(** [coh] is the position in the history of [init] the thread has reached;
    [seen] counts the writes of the storage that happen before its next action. *)
Record thread (T : Type) := mkThread { at_ : pc T; coh : nat; seen : nat }.
Arguments mkThread {T} _ _ _.
Arguments at_ {T} _.
Arguments coh {T} _.
Arguments seen {T} _.

(** [hist]: the messages of [init], each with the storage writes it releases.
    [won] records the values whose [populate] returned true since the last
    [clear]; no step reads it. *)
Record state (T : Type) := mkState {
  hist : list (Z * nat);
  cell : slot T;
  writes : nat;
  threads : nat -> thread T;
  won : list T }.
Arguments mkState {T} _ _ _ _ _.
Arguments hist {T} _.
Arguments cell {T} _.
Arguments writes {T} _.
Arguments threads {T} _ _.
Arguments won {T} _.

Section Concurrent.
Context {T : Type} (drop_value : T -> T).

Definition start : state T :=
  mkState [(0, 0%nat)] (Uninit None) 0 (fun _ => mkThread Idle 0 0) [].

(** The message a read-modify-write reads. *)
Definition latest (h : list (Z * nat)) : option (Z * nat) := h !! pred (length h).

Definition pc_of (s : state T) (t : nat) : pc T := at_ (threads s t).

Definition set_thread (s : state T) (t : nat) (th : thread T) : nat -> thread T :=
  <[t := th]> (threads s).

(** The contract of the unsafe [clear]: no reference is alive and no other
    thread uses the cell while it runs. *)
Definition exclusive (s : state T) (t : nat) : Prop :=
  forall t', t' <> t -> pc_of s t' = Idle.

Definition clearing (s : state T) : Prop :=
  exists t, pc_of s t = Dropping \/ pc_of s t = Resetting.

(** The atomic actions.  Only the thread that clears moves while it clears;
    the contract, that no other thread can access the cell until [clear] returns,
    makes its return a synchronization point for the threads that use the cell
    afterwards, so older messages of [init] are out of reach from then on, and
    the order of its last store does not matter. *)
Inductive atomic_step : state T -> state T -> Prop :=
  (* as_ref: init.load(Acquire) *)
  | step_load s t i v rel :
      ~ clearing s -> pc_of s t = Idle ->
      (coh (threads s t) <= i)%nat -> hist s !! i = Some (v, rel) ->
      atomic_step s (mkState (hist s) (cell s) (writes s)
        (set_thread s t (mkThread (if v =? 2 then Holding else Idle) i
                                  (Nat.max (seen (threads s t)) rel))) (won s))
  (* the reference goes out of scope *)
  | step_release s t :
      pc_of s t = Holding ->
      atomic_step s (mkState (hist s) (cell s) (writes s)
        (set_thread s t (mkThread Idle (coh (threads s t)) (seen (threads s t)))) (won s))
  (* populate: init.cmpxchg(0, 1, Relaxed) succeeds *)
  | step_populate s t v rel :
      ~ clearing s -> pc_of s t = Idle -> latest (hist s) = Some (0, rel) ->
      atomic_step s (mkState (hist s ++ [(1, rel)]) (cell s) (writes s)
        (set_thread s t (mkThread (Writing v) (length (hist s)) (seen (threads s t)))) (won s))
  (* populate: the exchange fails on a value other than 0; it returns false *)
  | step_populate_fail s t i v rel :
      ~ clearing s -> pc_of s t = Idle ->
      (coh (threads s t) <= i)%nat -> hist s !! i = Some (v, rel) -> v <> 0 ->
      atomic_step s (mkState (hist s) (cell s) (writes s)
        (set_thread s t (mkThread Idle i (seen (threads s t)))) (won s))
  (* populate: ptr::write *)
  | step_write s t v :
      pc_of s t = Writing v ->
      atomic_step s (mkState (hist s) (Init v) (S (writes s))
        (set_thread s t (mkThread (Storing v) (coh (threads s t)) (S (writes s)))) (won s))
  (* populate: init.store(2, Release); it returns true *)
  | step_store s t v :
      pc_of s t = Storing v ->
      atomic_step s (mkState (hist s ++ [(2, seen (threads s t))]) (cell s) (writes s)
        (set_thread s t (mkThread Idle (length (hist s)) (seen (threads s t)))) (won s ++ [v]))
  (* clear: init.cmpxchg(2, 1, Acquire) succeeds *)
  | step_clear s t rel :
      exclusive s t -> pc_of s t = Idle -> latest (hist s) = Some (2, rel) ->
      atomic_step s (mkState (hist s ++ [(1, rel)]) (cell s) (writes s)
        (set_thread s t (mkThread Dropping (length (hist s))
                                  (Nat.max (seen (threads s t)) rel))) (won s))
  (* clear: drop_in_place *)
  | step_drop s t v :
      pc_of s t = Dropping -> cell s = Init v ->
      atomic_step s (mkState (hist s) (Uninit (Some (drop_value v))) (S (writes s))
        (set_thread s t (mkThread Resetting (coh (threads s t)) (S (writes s)))) (won s))
  (* clear: init.store(0, Release), and clear returns *)
  | step_reset s t :
      pc_of s t = Resetting ->
      atomic_step s (mkState [(0, seen (threads s t))] (cell s) (writes s)
        (fun t' => mkThread (if decide (t' = t) then Idle else pc_of s t')
                            0 (seen (threads s t))) []).

Inductive reachable : state T -> Prop :=
  | reachable_start : reachable start
  | reachable_step s s' : reachable s -> atomic_step s s' -> reachable s'.

(** ** The invariant *)

(** The phases of the cell.  A thread that owns the storage knows all writes
    of it. *)
Inductive phase : Type :=
  | Empty
  | Filling (t : nat) (v : T)
  | Filled (t : nat) (v : T)
  | Full (v : T)
  | Emptying (t : nat) (v : T)
  | Emptied (t : nat).

Definition in_phase (s : state T) (p : phase) : Prop :=
  match p with
  | Empty =>
      (exists r, hist s = [(0, r)] /\ r = writes s) /\ (exists l, cell s = Uninit l) /\
      won s = [] /\ forall t, pc_of s t = Idle /\ seen (threads s t) = writes s
  | Filling t v =>
      (exists r, hist s = [(0, r); (1, r)] /\ (r <= writes s)%nat) /\
      (exists l, cell s = Uninit l) /\
      won s = [] /\ pc_of s t = Writing v /\ seen (threads s t) = writes s /\ exclusive s t
  | Filled t v =>
      (exists r, hist s = [(0, r); (1, r)] /\ (r <= writes s)%nat) /\ cell s = Init v /\
      won s = [] /\ pc_of s t = Storing v /\ seen (threads s t) = writes s /\ exclusive s t
  | Full v =>
      (exists r, hist s = [(0, r); (1, r); (2, writes s)] /\ (r <= writes s)%nat) /\
      cell s = Init v /\ won s = [v] /\
      forall t, pc_of s t = Idle \/ pc_of s t = Holding /\ seen (threads s t) = writes s
  | Emptying t v =>
      cell s = Init v /\ pc_of s t = Dropping /\
      seen (threads s t) = writes s /\ exclusive s t /\ won s = [v]
  | Emptied t =>
      (exists l, cell s = Uninit l) /\ pc_of s t = Resetting /\
      seen (threads s t) = writes s /\ exclusive s t /\ (length (won s) <= 1)%nat
  end.

Definition inv (s : state T) : Prop :=
  (forall t, (seen (threads s t) <= writes s)%nat) /\ exists p, in_phase s p.

Lemma threads_set s t th t' :
  set_thread s t th t' = if decide (t' = t) then th else threads s t'.
Proof.
  unfold set_thread. case_decide as E; [subst; apply fn_lookup_insert|].
  by apply fn_lookup_insert_ne.
Qed.

Lemma not_clearing s t : ~ clearing s -> pc_of s t <> Dropping /\ pc_of s t <> Resetting.
Proof. unfold clearing. naive_solver. Qed.

Lemma inv_start : inv start.
Proof. split; [done|]. exists Empty. simpl. eauto 10. Qed.

(** A message that can be read while the cell is in use releases no more
    writes than there are, and a 2 releases all of them. *)
Lemma read_message s p i v r :
  in_phase s p -> ~ clearing s -> hist s !! i = Some (v, r) ->
  (r <= writes s)%nat /\ (v = 2 -> r = writes s /\ exists u, p = Full u).
Proof.
  intros Hp Hn Hi. unfold clearing in Hn.
  destruct p; simpl in Hp; [| | | |destruct Hn; naive_solver..]; destruct Hp as [(r' & E & ?) _];
    rewrite E in Hi; destruct i as [|[|[|i]]]; simpl in Hi; simplify_eq; split; try done; eauto; lia.
Qed.


(** The state after thread [t] moved to [th]. *)
Abbreviation moved s t th := (mkState (hist s) (cell s) (writes s) (set_thread s t th) (won s)).

Lemma pc_set h c n w s t th t' :
  pc_of (mkState h c n (set_thread s t th) w) t' = if decide (t' = t) then at_ th else pc_of s t'.
Proof. unfold pc_of; simpl. rewrite threads_set. by case_decide. Qed.

Lemma exclusive_set h c n w s t th t0 :
  exclusive s t0 -> t <> t0 -> at_ th = Idle ->
  exclusive (mkState h c n (set_thread s t th) w) t0.
Proof. intros He Hne Hi t' Ht'. rewrite pc_set. case_decide; [done|]. by apply He. Qed.

Lemma exclusive_self h c n w s t th :
  exclusive s t -> exclusive (mkState h c n (set_thread s t th) w) t.
Proof. intros He t' Ht'. rewrite pc_set, decide_False by done. by apply He. Qed.

(** A step of a thread that does not own the storage keeps the phase. *)
Lemma in_phase_user s p t th :
  in_phase s p -> (pc_of s t = Idle \/ pc_of s t = Holding) ->
  (seen (threads s t) <= seen th <= writes s)%nat ->
  (at_ th = Idle \/ at_ th = Holding /\ seen th = writes s /\ exists v, p = Full v) ->
  in_phase (moved s t th) p.
Proof.
  intros Hp Ht Hs Hth.
  assert (Hne : forall t0, pc_of s t0 <> Idle -> pc_of s t0 <> Holding -> t <> t0)
    by (intros t0 ? ? ->; tauto).
  assert (Hi : (forall v, p <> Full v) -> at_ th = Idle).
  { intros Hp'. destruct Hth as [|(_ & _ & v & ->)]; [done|by destruct (Hp' v)]. }
  destruct p as [|t0 v|t0 v|v|t0 v|t0]; simpl in Hp |- *.
  1: { destruct Hp as (? & ? & ? & H). split_and!; eauto. intros t'. rewrite pc_set, threads_set. simpl. case_decide; [|eauto].
       destruct (H t) as [_ E]. split; [apply Hi; naive_solver|lia]. }
  3: { destruct Hp as (? & ? & ? & H). split_and!; eauto. intros t'. rewrite pc_set, threads_set.
       case_decide; [subst; naive_solver|]. simpl. eauto. }
  all: split_hyps; assert (t <> t0) by (apply Hne; congruence);
    rewrite pc_set, threads_set, !decide_False by done; simpl;
    split_and!; eauto; apply exclusive_set; auto; apply Hi; naive_solver.
Qed.

(** What a thread's position says about the phase. *)
Lemma phase_of_pc s p t : in_phase s p ->
  match pc_of s t with
  | Idle => True
  | Writing v => p = Filling t v
  | Storing v => p = Filled t v
  | Holding => seen (threads s t) = writes s /\ exists v, p = Full v
  | Dropping => exists v, p = Emptying t v
  | Resetting => p = Emptied t
  end.
Proof.
  intros Hp. destruct p as [|t0 v|t0 v|v|t0 v|t0]; simpl in Hp.
  1: { destruct Hp as (_ & _ & _ & H). by rewrite (proj1 (H t)). }
  3: { destruct Hp as (_ & _ & _ & H). destruct (H t) as [->|[-> ->]]; eauto. }
  all: destruct (decide (t = t0)) as [->|Hne];
    [|assert (exclusive s t0) as He by tauto; by rewrite (He t Hne)].
  all: split_hyps; match goal with E : pc_of _ _ = _ |- _ => rewrite E end; eauto.
Qed.

(** What the latest message says about it, when the cell is not being
    cleared. *)
Lemma phase_of_latest s p v r :
  in_phase s p -> ~ clearing s -> latest (hist s) = Some (v, r) ->
  (v = 0 -> p = Empty /\ r = writes s) /\ (v = 2 -> r = writes s /\ exists u, p = Full u).
Proof.
  intros Hp Hn Hl. unfold clearing, latest in *.
  destruct p; simpl in Hp; [| | | |destruct Hn; naive_solver..]; destruct Hp as [(r' & E & ?) _];
    rewrite E in Hl; simpl in Hl; simplify_eq; split; try done; eauto.
Qed.

Lemma exclusive_not_clearing s t : exclusive s t -> pc_of s t = Idle -> ~ clearing s.
Proof.
  intros He Ht [t' Ht']. destruct (decide (t' = t)) as [->|Hne]; [|rewrite (He t' Hne) in Ht'];
    intuition congruence.
Qed.

Lemma exclusive_of_idle s t : (forall t', pc_of s t' = Idle) -> exclusive s t.
Proof. intros H t' _. apply H. Qed.

Lemma seen_set s t th n :
  (forall t', seen (threads s t') <= n)%nat -> (seen th <= n)%nat ->
  forall t', (seen (set_thread s t th t') <= n)%nat.
Proof. intros H Ht t'. rewrite threads_set. case_decide; auto. Qed.

Lemma inv_user s t th :
  inv s -> (pc_of s t = Idle \/ pc_of s t = Holding) ->
  (seen (threads s t) <= seen th <= writes s)%nat ->
  (at_ th = Idle \/
   at_ th = Holding /\ seen th = writes s /\ forall p, in_phase s p -> exists v, p = Full v) ->
  inv (moved s t th).
Proof.
  intros [Hs [p Hp]] Ht Hle Hth. split; [apply seen_set; [done|simpl; lia]|].
  exists p. apply in_phase_user; auto. destruct Hth as [|(? & ? & ?)]; eauto.
Qed.

Lemma inv_load s t i v r :
  inv s -> ~ clearing s -> pc_of s t = Idle -> hist s !! i = Some (v, r) ->
  inv (moved s t (mkThread (if v =? 2 then Holding else Idle) i
                           (Nat.max (seen (threads s t)) r))).
Proof.
  intros Hv Hn Ht Hi. pose proof Hv as [Hs [p Hp]]. pose proof (Hs t).
  destruct (read_message s p i v r Hp Hn Hi) as [Hr1 Hr2].
  apply inv_user; auto; simpl; [lia|]. destruct (Z.eqb_spec v 2) as [E|]; [right|by left].
  split_and!; [done|destruct (Hr2 E); lia|]. intros q Hq.
  by apply (read_message s q i v r Hq Hn Hi).
Qed.

Lemma inv_populate s t v r :
  inv s -> ~ clearing s -> pc_of s t = Idle -> latest (hist s) = Some (0, r) ->
  inv (mkState (hist s ++ [(1, r)]) (cell s) (writes s)
        (set_thread s t (mkThread (Writing v) (length (hist s)) (seen (threads s t)))) (won s)).
Proof.
  intros [Hs [p Hp]] Hn Ht Hl.
  destruct (phase_of_latest s p _ _ Hp Hn Hl) as [[-> _] _]; [done|].
  destruct Hp as ((r' & E & ->) & Hc & Hw & H). unfold latest in Hl. rewrite E in *.
  simpl in Hl. simplify_eq. split; [apply seen_set; [done|apply Hs]|]. exists (Filling t v). simpl.
  rewrite pc_set, threads_set, !decide_True by done. simpl.
  split_and!; eauto; [apply H|]. apply exclusive_self, exclusive_of_idle. intros; apply H.
Qed.

Lemma inv_write s t v :
  inv s -> pc_of s t = Writing v ->
  inv (mkState (hist s) (Init v) (S (writes s))
        (set_thread s t (mkThread (Storing v) (coh (threads s t)) (S (writes s)))) (won s)).
Proof.
  intros [Hs [p Hp]] Ht. pose proof (phase_of_pc s p t Hp) as E. rewrite Ht in E. subst p.
  destruct Hp as ((r & E & ?) & Hc & Hw & _ & Hse & He).
  split; [apply seen_set; [intros t'; specialize (Hs t')|]; simpl; lia|].
  exists (Filled t v). simpl. rewrite pc_set, threads_set, !decide_True by done. simpl.
  split_and!; eauto using exclusive_self.
Qed.

Lemma inv_store s t v :
  inv s -> pc_of s t = Storing v ->
  inv (mkState (hist s ++ [(2, seen (threads s t))]) (cell s) (writes s)
        (set_thread s t (mkThread Idle (length (hist s)) (seen (threads s t)))) (won s ++ [v])).
Proof.
  intros [Hs [p Hp]] Ht. pose proof (phase_of_pc s p t Hp) as E. rewrite Ht in E. subst p.
  destruct Hp as ((r & E & ?) & Hc & Hw & _ & Hse & He). split; [apply seen_set; [done|apply Hs]|].
  exists (Full v). simpl. rewrite E, Hw, Hse. split_and!; eauto.
  intros t'. rewrite pc_set, threads_set. case_decide; [by left|]. left. by apply He.
Qed.

Lemma inv_clear s t r :
  inv s -> exclusive s t -> pc_of s t = Idle -> latest (hist s) = Some (2, r) ->
  inv (mkState (hist s ++ [(1, r)]) (cell s) (writes s)
        (set_thread s t (mkThread Dropping (length (hist s))
                                  (Nat.max (seen (threads s t)) r))) (won s)).
Proof.
  intros [Hs [p Hp]] He Ht Hl. pose proof (Hs t).
  destruct (phase_of_latest s p _ _ Hp (exclusive_not_clearing s t He Ht) Hl) as [_ H2].
  destruct H2 as [-> [v ->]]; [done|]. destruct Hp as (_ & Hc & Hw & _).
  split; [apply seen_set; [done|simpl; lia]|]. exists (Emptying t v). simpl.
  rewrite pc_set, threads_set, !decide_True by done. simpl.
  split_and!; eauto using exclusive_self; lia.
Qed.

Lemma inv_drop s t v :
  inv s -> pc_of s t = Dropping ->
  inv (mkState (hist s) (Uninit (Some (drop_value v))) (S (writes s))
        (set_thread s t (mkThread Resetting (coh (threads s t)) (S (writes s)))) (won s)).
Proof.
  intros [Hs [p Hp]] Ht. pose proof (phase_of_pc s p t Hp) as E. rewrite Ht in E.
  destruct E as [u ->]. destruct Hp as (Hc & _ & Hse & He & Hw).
  split; [apply seen_set; [intros t'; specialize (Hs t')|]; simpl; lia|].
  exists (Emptied t). simpl. rewrite pc_set, threads_set, !decide_True by done. simpl.
  split_and!; eauto using exclusive_self. rewrite Hw. simpl. lia.
Qed.

Lemma inv_reset s t :
  inv s -> pc_of s t = Resetting ->
  inv (mkState [(0, seen (threads s t))] (cell s) (writes s)
        (fun t' => mkThread (if decide (t' = t) then Idle else pc_of s t')
                            0 (seen (threads s t))) []).
Proof.
  intros [Hs [p Hp]] Ht. pose proof (phase_of_pc s p t Hp) as E. rewrite Ht in E. subst p.
  destruct Hp as (Hc & _ & Hse & He & _). split; [intros; apply Hs|].
  exists Empty. simpl. rewrite Hse. split_and!; eauto. intros t'. unfold pc_of at 1; simpl.
  split; [|done]. case_decide; [done|]. by apply He.
Qed.

Lemma inv_step s s' : inv s -> atomic_step s s' -> inv s'.
Proof.
  intros Hv Hst. destruct Hst;
    eauto using inv_load, inv_populate, inv_write, inv_store, inv_clear, inv_drop, inv_reset.
  all: apply inv_user; simpl; eauto; pose proof (proj1 Hv t); lia.
Qed.

Lemma inv_reachable s : reachable s -> inv s.
Proof. induction 1; [apply inv_start|by eapply inv_step]. Qed.

(** ** Properties of every interleaving *)

(** C9: data-race freedom.  Whenever a thread is about to write the storage or
    run the destructor, no other thread is inside a method or holds a
    reference, and every earlier access happens before it; a thread that holds
    a reference has acquired the write that initialized the storage, and the
    storage is initialized. *)
Theorem race_free s : reachable s ->
  (forall t v, pc_of s t = Writing v ->
     seen (threads s t) = writes s /\ exclusive s t) /\
  (forall t, pc_of s t = Dropping ->
     seen (threads s t) = writes s /\ exclusive s t /\ exists v, cell s = Init v) /\
  (forall t, pc_of s t = Holding ->
     seen (threads s t) = writes s /\ exists v, cell s = Init v).
Proof.
  intros [_ [p Hp]]%inv_reachable.
  split_and!; intros t; [intros v|..]; intros Ht;
    pose proof (phase_of_pc s p t Hp) as E; rewrite Ht in E; split_hyps; subst p;
    simpl in Hp; split_hyps; eauto.
Qed.

(** C23: agreement.  Between two clears at most one [populate] wins, and every
    reference that [as_ref] hands out points to the winner's value. *)
Theorem set_once_agreement s : reachable s ->
  (length (won s) <= 1)%nat /\
  forall t, pc_of s t = Holding -> exists v, won s = [v] /\ cell s = Init v.
Proof.
  intros [_ [p Hp]]%inv_reachable. split.
  - destruct p; simpl in Hp; split_hyps; try done;
      match goal with E : won s = _ |- _ => rewrite E; simpl; lia end.
  - intros t Ht. pose proof (phase_of_pc s p t Hp) as E. rewrite Ht in E.
    destruct E as [_ [v ->]]. exists v. by destruct Hp as (_ & ? & ? & _).
Qed.

(** A reference is stable.  While a thread holds one, no step of any thread
    writes the storage or starts to clear the cell. *)
Lemma reference_stable s s' t :
  reachable s -> atomic_step s s' -> pc_of s t = Holding -> pc_of s' t = Holding ->
  cell s' = cell s /\ writes s' = writes s /\ won s' = won s.
Proof.
  intros Hr Hst Ht Ht'. pose proof (inv_reachable s Hr) as [_ [p Hp]].
  pose proof (phase_of_pc s p t Hp) as E. rewrite Ht in E. destruct E as [_ [v ->]].
  destruct Hst as [| | | |s t0 ? H|s t0 ? H| |s t0 ? H|s t0 H]; try done;
    exfalso; pose proof (phase_of_pc s (Full v) t0 Hp) as E; rewrite H in E;
    split_hyps; discriminate.
Qed.
End Concurrent.

(** ** A run

    Thread 0 publishes 7 and thread 1 takes a reference to it. *)
Definition zap (_ : Z) : Z := 0.

Lemma not_clearing_at h c n w (s : state Z) t th :
  ~ clearing s -> at_ th <> Dropping -> at_ th <> Resetting ->
  ~ clearing (mkState h c n (set_thread s t th) w).
Proof.
  intros Hn H1 H2 [t' Ht']. rewrite !pc_set in Ht'. case_decide; [tauto|].
  apply Hn. by exists t'.
Qed.

Lemma start_not_clearing : ~ clearing (@start Z).
Proof. intros [t [H|H]]; discriminate. Qed.

(** Thread 0 has won the exchange. *)
Lemma run_writing : exists s, reachable zap s /\ pc_of s 0 = Writing 7 /\ ~ clearing s /\
  s = mkState [(0, 0%nat); (1, 0%nat)] (Uninit None) 0
        (set_thread start 0 (mkThread (Writing 7) 1 0)) [].
Proof.
  eexists. split_and!; [..|reflexivity].
  - eapply reachable_step; [apply reachable_start|].
    exact (step_populate zap start 0 7 0 start_not_clearing eq_refl eq_refl).
  - reflexivity.
  - apply not_clearing_at; [apply start_not_clearing|done..].
Qed.

(** Thread 1 holds a reference and thread 2 is about to call [as_ref]. *)
Lemma run_holding : exists s, reachable zap s /\ pc_of s 1 = Holding /\ ~ clearing s /\
  pc_of s 2 = Idle /\ coh (threads s 2) = 0%nat /\ hist s !! 2%nat = Some (2, 1%nat).
Proof.
  destruct run_writing as (s & Hr & Hw & Hn & E).
  eapply reachable_step in Hr; [|by apply step_write]. subst s.
  eapply reachable_step in Hr; [|by apply (step_store zap _ 0 7)].
  eapply reachable_step in Hr; [|apply (step_load zap _ 1 2 2 1)].
  - eexists. split; [exact Hr|]. split_and!; try reflexivity.
    do 4 (apply not_clearing_at; [|done..]). apply start_not_clearing.
  - do 3 (apply not_clearing_at; [|done..]). apply start_not_clearing.
  - reflexivity.
  - vm_compute. lia.
  - reflexivity.
Qed.

Lemma race_free_witness : exists s, reachable zap s /\ pc_of s 1 = Holding /\
  seen (threads s 1) = writes s /\ exists v, cell s = Init v.
Proof.
  destruct run_holding as (s & Hr & Hh & _). exists s.
  split; [exact Hr|]. split; [exact Hh|]. exact (proj2 (proj2 (race_free zap s Hr)) 1%nat Hh).
Defined.

Lemma set_once_agreement_witness : exists s, reachable zap s /\ pc_of s 1 = Holding /\
  exists v, won s = [v] /\ cell s = Init v.
Proof.
  destruct run_holding as (s & Hr & Hh & _). exists s.
  split; [exact Hr|]. split; [exact Hh|]. exact (proj2 (set_once_agreement zap s Hr) 1%nat Hh).
Defined.
End set_once.
