(* ===== verification/Tarako.v ===== *)
(** [driver/src/lib.rs]: the module, its device and its life cycle.

    [module] is the state the code owns: the kernel it runs on, the global
    [KEY_PAIR], whether the misc device is registered and the references to it.
    [system] adds what the kernel decides: the phase of loading, the open files
    and the ioctls in progress, each with the reference to the key it took.
    [life_step] is the life cycle with every interleaving of these; the kernel's own
    rules (a module with an open file is not unloaded, a file with a call in
    progress is not released, an unregistered device is not opened) are the
    guards of its rules.  [inv] holds in every reachable state. *)
From S2P Require Import Prelude Exec Ffi RefKernel Vli Ecc Ecdsa Ioctl SetOnce.
From stdpp Require Import base gmap list numbers strings fin_sets.
From Stdlib Require Import ZArith Lia.
#[local] Open Scope Z_scope.

Module tarako.
Import ioctl.

(** ** State *)

Record module (W : Type) := mkModule {
  kernel : kstate W;
  KEY_PAIR : set_once.SetOnce KeyPair.KeyPair;
  registered : bool;      (* [_miscdev] is a live registration *)
  dev_refs : nat }.       (* the [ARef<Device>] values of open files *)
Arguments mkModule {W} _ _ _ _.
Arguments kernel {W} _.
Arguments KEY_PAIR {W} _.
Arguments registered {W} _.
Arguments dev_refs {W} _.

Section Module_.
Context {W : Type} `{!Kernel W}.

(** Running code of the other files on the module's state. *)
Definition on_kernel {A} (m : KM W A) : M (module W) A := fun s =>
  let '(r, st) := m (kernel s) in
  (r, mkModule st (KEY_PAIR s) (registered s) (dev_refs s)).

Definition on_key {A} (m : M (set_once.SetOnce KeyPair.KeyPair) A) : M (module W) A := fun s =>
  let '(r, c) := m (KEY_PAIR s) in
  (r, mkModule (kernel s) c (registered s) (dev_refs s)).

Definition set_registered (b : bool) : M (module W) unit := fun s =>
  (Ret tt, mkModule (kernel s) (KEY_PAIR s) b (dev_refs s)).

Definition set_refs (f : nat -> nat) : M (module W) unit := fun s =>
  (Ret tt, mkModule (kernel s) (KEY_PAIR s) (registered s) (f (dev_refs s))).

(** ** The misc device registration *)

Definition register : M (module W) unit :=
  _ ← on_kernel (call_result (misc_register "tarako"));
  set_registered true.

(** [Drop for MiscDeviceRegistration]. *)
Definition deregister : M (module W) unit :=
  _ ← on_kernel (call (fun w => (tt, misc_deregister w)));
  set_registered false.

(** ** Loading and unloading *)

(** The two parts of the initializer of [_miscdev]: before and in [pin_chain].
    Other threads can use the device between them. *)
Definition init_register : M (module W) KeyPair.KeyPair :=
  kp ← on_kernel generate_key_pair;
  _ ← register;
  mret kp.

Definition init_populate (kp : KeyPair.KeyPair) : M (module W) unit :=
  won ← on_key (set_once.populate kp);
  if negb won then
    _ ← deregister;
    throw EBUSY
  else mret tt.

Definition init : M (module W) unit :=
  kp ← init_register;
  init_populate kp.

(** [Drop for KeyCleanup]. *)
Definition drop_key_cleanup : M (module W) unit :=
  on_key (set_once.clear drop_key_pair).

(** The fields of [TarakoModule] are dropped in declaration order. *)
Definition drop_module : M (module W) unit :=
  _ ← deregister;
  drop_key_cleanup.

(** ** The device *)

(** [alloc] says whether the allocation of the [KBox] succeeds; when it does
    not, the reference taken before is dropped. *)
Definition open (alloc : bool) : M (module W) unit :=
  _ ← set_refs S;
  if alloc then mret tt
  else
    _ ← set_refs pred;
    throw ENOMEM.

(** The drop of a [TarakoDevice] when its file is released. *)
Definition release : M (module W) unit := set_refs pred.

(** [key] is the result of [KEY_PAIR.as_ref()]. *)
Definition ioctl (current : Task) (key : option KeyPair.KeyPair) (cmd arg : Z) : KM W Z :=
  if cmd =? TARAKO_HELLO then mret 0
  else if cmd =? TARAKO_GET_PUBKEY then handle_get_pubkey key arg cmd
  else if cmd =? TARAKO_SIGN_DATA then handle_sign_data current key arg cmd
  else throw ENOTTY.

(** ** The life cycle *)

Inductive phase :=
  | Unloaded
  | Initializing (kp : KeyPair.KeyPair)   (* registered, the key not yet published *)
  | Loaded
  | Unloading.                      (* deregistered, the key not yet cleared *)

Record ioctl_call := mkCall {
  call_file : nat;
  call_task : Task;
  call_cmd : Z;
  call_arg : Z;
  call_key : option KeyPair.KeyPair }.

Record system := mkSystem {
  mod_ : module W;
  phase_ : phase;
  files : gset nat;
  calls : list ioctl_call }.

Definition start (st : kstate W) : system :=
  mkSystem (mkModule st set_once.new false 0) Unloaded ∅ [].

(** Everything outside the module may act at any time: processes write their
    memory, the kernel measures other events. *)
Definition others_act (w w' : W) : Prop :=
  ima_log w `prefix_of` ima_log w' /\ user_log w' = user_log w.

Definition set_world (w : W) (m : module W) : module W :=
  mkModule (KState (points (kernel m)) (mem (kernel m)) w) (KEY_PAIR m) (registered m) (dev_refs m).

Inductive life_step : system -> system -> Prop :=
  | step_init s kp m :
      phase_ s = Unloaded -> init_register (mod_ s) = (Ret kp, m) ->
      life_step s (mkSystem m (Initializing kp) (files s) (calls s))
  | step_init_fail s e m :
      phase_ s = Unloaded -> init_register (mod_ s) = (Throw e, m) ->
      life_step s (mkSystem m Unloaded (files s) (calls s))
  | step_populate s kp m :
      phase_ s = Initializing kp -> init_populate kp (mod_ s) = (Ret tt, m) ->
      life_step s (mkSystem m Loaded (files s) (calls s))
  | step_populate_fail s kp e m :
      phase_ s = Initializing kp -> init_populate kp (mod_ s) = (Throw e, m) ->
      life_step s (mkSystem m Unloaded (files s) (calls s))
  | step_open s f m :
      registered (mod_ s) = true -> f ∉ files s -> open true (mod_ s) = (Ret tt, m) ->
      life_step s (mkSystem m (phase_ s) ({[f]} ∪ files s) (calls s))
  | step_open_fail s e m :
      registered (mod_ s) = true -> open false (mod_ s) = (Throw e, m) ->
      life_step s (mkSystem m (phase_ s) (files s) (calls s))
  | step_release s f m :
      f ∈ files s -> Forall (fun c => call_file c <> f) (calls s) ->
      release (mod_ s) = (Ret tt, m) ->
      life_step s (mkSystem m (phase_ s) (files s ∖ {[f]}) (calls s))
  | step_enter s f current cmd arg key m :
      f ∈ files s -> on_key set_once.as_ref (mod_ s) = (Ret key, m) ->
      life_step s (mkSystem m (phase_ s) (files s) (mkCall f current cmd arg key :: calls s))
  | step_exit s l1 c l2 (r : Z + Error) m :
      calls s = l1 ++ c :: l2 ->
      on_kernel (ioctl (call_task c) (call_key c) (call_cmd c) (call_arg c)) (mod_ s) =
        (match r with inl v => Ret v | inr e => Throw e end, m) ->
      life_step s (mkSystem m (phase_ s) (files s) (l1 ++ l2))
  | step_deregister s m :
      phase_ s = Loaded -> files s = ∅ -> deregister (mod_ s) = (Ret tt, m) ->
      life_step s (mkSystem m Unloading (files s) (calls s))
  | step_cleanup s m :
      phase_ s = Unloading -> drop_key_cleanup (mod_ s) = (Ret tt, m) ->
      life_step s (mkSystem m Unloaded (files s) (calls s))
  | step_world s w :
      others_act (world (kernel (mod_ s))) w ->
      life_step s (mkSystem (set_world w (mod_ s)) (phase_ s) (files s) (calls s)).

Inductive reachable (st : kstate W) : system -> Prop :=
  | reachable_start : reachable st (start st)
  | reachable_step s s' : reachable st s -> life_step s s' -> reachable st s'.

(** ** The invariant *)

(** A key pair fit for publication: well formed, and measured if it says so. *)
Definition key_ok (m : module W) (kp : KeyPair.KeyPair) : Prop :=
  key_pair_ok kp /\
  (KeyPair.ima_measured kp = true ->
   pubkey_event (KeyPair.pubkey kp) ∈ ima_log (world (kernel m))).

(** Empty storage holds nothing, or a key pair whose secret is overwritten. *)
Definition wiped (m : module W) : Prop :=
  exists l, KEY_PAIR m = set_once.mkSetOnce 0 (set_once.Uninit l) /\
    forall kp, l = Some kp -> Forall (eq 0) (KeyPair.private kp).

Definition publishes (m : module W) (kp : KeyPair.KeyPair) : Prop :=
  KEY_PAIR m = set_once.mkSetOnce 2 (set_once.Init kp) /\ key_ok m kp.

Definition cell_inv (p : phase) (m : module W) : Prop :=
  match p with
  | Unloaded => wiped m
  | Initializing kp => wiped m /\ key_ok m kp
  | Loaded | Unloading => exists kp, publishes m kp
  end.

Definition is_registered (p : phase) : bool :=
  match p with Initializing _ | Loaded => true | _ => false end.

Record inv (st0 : kstate W) (s : system) : Prop := mkInv {
  inv_cell : cell_inv (phase_ s) (mod_ s);
  inv_heap : points (kernel (mod_ s)) = points st0 /\ mem (kernel (mod_ s)) = mem st0;
  inv_refs : dev_refs (mod_ s) = base.size (files s);
  inv_reg : registered (mod_ s) = is_registered (phase_ s);
  inv_files : is_registered (phase_ s) = false -> files s = ∅;
  inv_calls : Forall (fun c => call_file c ∈ files s /\
    (call_key c = None \/ call_key c = set_once.contents (KEY_PAIR (mod_ s)))) (calls s) }.

(** What a run of kernel code keeps of the module, when it makes the accesses
    [l] to user memory. *)
Definition advances (l : list uaccess) (m m' : module W) : Prop :=
  points (kernel m') = points (kernel m) /\ mem (kernel m') = mem (kernel m) /\
  ima_log (world (kernel m)) `prefix_of` ima_log (world (kernel m')) /\
  user_log (world (kernel m')) = user_log (world (kernel m)) ++ l /\
  KEY_PAIR m' = KEY_PAIR m /\ dev_refs m' = dev_refs m.

Lemma key_ok_mono m m' kp :
  ima_log (world (kernel m)) `prefix_of` ima_log (world (kernel m')) ->
  key_ok m kp -> key_ok m' kp.
Proof.
  intros [l E] [Hk Hm]. split; [done|]. intros H. rewrite E. apply elem_of_app. auto.
Qed.

Lemma cell_inv_mono l p m m' : advances l m m' -> cell_inv p m -> cell_inv p m'.
Proof.
  intros (_ & _ & Hl & _ & Ek & _). destruct p; simpl; unfold wiped, publishes; rewrite Ek;
    naive_solver eauto using key_ok_mono.
Qed.

Lemma on_kernel_run {A} (k : KM W A) m r m' :
  on_kernel k m = (r, m') ->
  k (kernel m) = (r, kernel m') /\ KEY_PAIR m' = KEY_PAIR m /\
  registered m' = registered m /\ dev_refs m' = dev_refs m.
Proof. unfold on_kernel. destruct (k (kernel m)). by intros [= <- <-]. Qed.

Lemma wp_on_kernel {A} (k : KM W A) Qok Qerr m :
  wp k (fun a st => Qok a (mkModule st (KEY_PAIR m) (registered m) (dev_refs m)))
       (fun e st => Qerr e (mkModule st (KEY_PAIR m) (registered m) (dev_refs m))) (kernel m) ->
  wp (on_kernel k) Qok Qerr m.
Proof. unfold wp, on_kernel. by destruct (k (kernel m)) as [[] ?]. Qed.

Lemma same_heap_advances (m : module W) st b :
  ecc.same_heap (kernel m) st -> advances [] m (mkModule st (KEY_PAIR m) b (dev_refs m)).
Proof. intros (? & ? & ? & ? & ?). split_and!; try done. by rewrite app_nil_r. Qed.

#[global] Instance advances_preorder : PreOrder (advances []).
Proof.
  split; [intros m; split_and!; try done; by rewrite app_nil_r|].
  intros m1 m2 m3 (? & ? & ? & E1 & ? & ?) (? & ? & ? & E2 & ? & ?).
  rewrite app_nil_r in E1, E2. split_and!; try (rewrite ?app_nil_r; congruence). by etrans.
Qed.

Lemma set_world_advances w m : others_act (world (kernel m)) w -> advances [] m (set_world w m).
Proof. intros [? ?]. split_and!; try done. by rewrite app_nil_r. Qed.

Section Laws.
Context `{!VliLaws W} `{!EccLaws W} `{!CurveLaws W} `{!ImaLaws W} `{!VerityLaws W}
  `{!UserLaws W} `{!MiscLaws W}.

Lemma wp_call_frame {A} (f : W -> A * W) (Qok : A -> kstate W -> Prop) Qerr st :
  (forall a w, f (world st) = (a, w) -> keeps (world st) w ->
     Qok a (KState (points st) (mem st) w)) ->
  (forall a w, f (world st) = (a, w) -> keeps (world st) w) ->
  wp (call f) Qok Qerr st.
Proof. unfold wp, call. destruct (f (world st)) eqn:E; eauto. Qed.

Lemma wp_register m :
  wp register (fun _ m' => advances [] m m' /\ registered m' = true)
              (fun _ m' => advances [] m m' /\ registered m' = registered m) m.
Proof.
  unfold register. apply wp_bind, wp_on_kernel, wp_bind, wp_call_frame.
  - intros [[]|e] w E Hk; apply wp_question; intros ? [=]; [unfold wp; simpl|];
      split; try done; by apply same_heap_advances.
  - intros a w E. by eapply misc_register_frame.
Qed.

Lemma wp_deregister m :
  wp deregister (fun _ m' => advances [] m m' /\ registered m' = false) (fun _ _ => False) m.
Proof.
  unfold deregister. apply wp_bind, wp_on_kernel, wp_call_frame.
  - intros [] w E Hk. unfold wp; simpl. split; [|done]. by apply same_heap_advances.
  - intros a w [= _ <-]. apply misc_deregister_frame.
Qed.

Lemma wp_init_register m :
  wp init_register (fun kp m' => advances [] m m' /\ registered m' = true /\ key_ok m' kp)
                   (fun _ m' => advances [] m m' /\ registered m' = registered m) m.
Proof.
  unfold init_register. apply wp_bind, wp_on_kernel. eapply wp_mono.
  - apply generate_key_pair_ok.
  - intros kp st (Hh & Hkp & Hm). apply (same_heap_advances m st (registered m)) in Hh.
    apply wp_bind. eapply wp_mono; [apply wp_register|..].
    + intros _ m' [Ha Hr]. apply wp_ret. split_and!; [by etrans | done |].
      eapply key_ok_mono; [apply Ha|]. by split.
    + intros e m' [Ha Hr]. split; [by etrans | done].
  - intros e st [Hh _]. split; [by apply same_heap_advances | done].
Qed.

Lemma init_populate_wiped m kp : wiped m ->
  init_populate kp m = (Ret tt, mkModule (kernel m) (set_once.mkSetOnce 2 (set_once.Init kp))
                                         (registered m) (dev_refs m)).
Proof.
  intros (l & E & _). unfold init_populate, on_key, mbind, M_bind. by rewrite E.
Qed.

Lemma drop_key_cleanup_publishes m kp : publishes m kp ->
  drop_key_cleanup m =
    (Ret tt, mkModule (kernel m)
               (set_once.mkSetOnce 0 (set_once.Uninit (Some (drop_key_pair kp))))
               (registered m) (dev_refs m)).
Proof. intros [E _]. unfold drop_key_cleanup, on_key. by rewrite E. Qed.

Lemma drop_wipes l : Forall (eq 0) (vli.drop l).
Proof. unfold vli.drop. apply Forall_fmap, Forall_true. done. Qed.

(** What a call with the reference [key] may do: nothing without a key, and
    with one only accesses to the 257 bytes at its argument, whose writes are
    what its caller may have. *)
Definition may_access (current : Task) (key : option KeyPair.KeyPair) (arg : Z)
    (st st' : kstate W) : Prop :=
  exists l, transfers l arg 257 st st' /\
    Forall (fun e => exists kp, key = Some kp /\ released current kp e) l.

Lemma may_access_refl current key arg st : may_access current key arg st st.
Proof. exists []. split; [by apply same_heap_transfers | done]. Qed.

Lemma may_access_released current kp arg l n st st' :
  (n <= 257)%nat -> transfers l arg n st st' -> Forall (released current kp) l ->
  may_access current (Some kp) arg st st'.
Proof.
  intros Hn Ht Hl. exists l. split; [by eapply transfers_weaken|].
  eapply Forall_impl; [done|]. eauto.
Qed.

(** An ioctl returns or fails, whatever its arguments. *)
Lemma wp_ioctl current key cmd arg st :
  (forall kp, key = Some kp -> key_pair_ok kp) ->
  wp (ioctl current key cmd arg)
     (fun _ => may_access current key arg st) (fun _ => may_access current key arg st) st.
Proof.
  intros Hk. pose proof (may_access_refl current key arg st) as Hid. unfold ioctl.
  destruct (cmd =? TARAKO_HELLO); [by apply wp_ret|].
  destruct (cmd =? TARAKO_GET_PUBKEY).
  { destruct key as [kp|]; [|done]. destruct (Hk kp eq_refl) as (_ & _ & _ & _ & Ep).
    assert (forall b, Forall (released current kp) [UWrite arg (KeyPair.pubkey kp) b]) as Hw
      by (intros b; constructor; [by left | done]).
    assert (ecc.P256_PUBKEY_BYTES <= 257)%nat as Hle by (vm_compute; lia).
    eapply wp_mono; [apply handle_get_pubkey_ok; rewrite Ep;
      [apply sec1_compress_wf|apply sec1_compress_length]|..].
    - intros r st' (_ & _ & Ht & _). by eapply may_access_released.
    - intros e st' [(_ & -> & _)|[_ Ht]]; [done | by eapply may_access_released]. }
  destruct (cmd =? TARAKO_SIGN_DATA); [|by apply wp_throw].
  destruct key as [kp|]; [|done]. destruct (KeyPair.ima_measured kp) eqn:Hm.
  - eapply wp_mono; [apply handle_sign_data_ok; auto|..]; simpl.
    + intros r st' (_ & bs & req & _ & Ht & _ & Hc & Hs & _). eapply may_access_released; [done..|].
      constructor; [done|]. constructor; [|done]. right. eauto.
    + intros e st' (l & Ht & Hl). eapply may_access_released; [done..|].
      eapply Forall_impl; [done|]. by intros ? [? _].
  - unfold handle_sign_data. apply wp_bind, wp_ret. rewrite Hm. by apply wp_throw.
Qed.

(** *** Preservation *)

Context (st0 : kstate W).

Lemma life_inv_start : inv st0 (start st0).
Proof. split; simpl; try done. exists None. by split. Qed.

(** No call is in progress without an open file. *)
Lemma inv_no_calls s : inv st0 s -> is_registered (phase_ s) = false -> calls s = [].
Proof.
  intros Hi Hr. pose proof (inv_files _ _ Hi Hr) as Ef. pose proof (inv_calls _ _ Hi) as Hc.
  destruct (calls s); [done|]. apply Forall_cons in Hc as [[Hf _] _]. rewrite Ef in Hf. set_solver.
Qed.

(** The reference of a call in progress is to a well-formed key pair. *)
Lemma inv_call_key s c : inv st0 s -> c ∈ calls s ->
  forall kp, call_key c = Some kp -> publishes (mod_ s) kp.
Proof.
  intros Hi Hc kp Hk. pose proof (inv_calls _ _ Hi) as Hf. rewrite Forall_forall in Hf.
  destruct (Hf c Hc) as [_ [E|E]]; [congruence|]. rewrite Hk in E. pose proof (inv_cell _ _ Hi) as Hv.
  destruct (phase_ s); simpl in Hv; try (destruct Hv as [kp' Hp]; pose proof Hp as [Ek _];
    rewrite Ek in E; by injection E as ->);
    unfold wiped in Hv; split_hyps; match goal with H : KEY_PAIR _ = _ |- _ => by rewrite H in E end.
Qed.

(** A step of kernel code in a phase that stays registered or not as it was. *)
Lemma inv_advance l s m p' :
  inv st0 s -> advances l (mod_ s) m -> registered m = is_registered p' ->
  cell_inv p' m -> (is_registered p' = false -> files s = ∅) ->
  inv st0 (mkSystem m p' (files s) (calls s)).
Proof.
  intros [Hc [Hp Hm] Hd Hr Hf Hcs] (E1 & E2 & _ & _ & E3 & E4) Hreg Hcell Hfl.
  split; simpl; try done; [split; congruence | congruence | by rewrite E3].
Qed.

Lemma inv_init s kp m :
  inv st0 s -> phase_ s = Unloaded -> init_register (mod_ s) = (Ret kp, m) ->
  inv st0 (mkSystem m (Initializing kp) (files s) (calls s)).
Proof.
  intros Hi Hp E. destruct (wp_run _ _ _ _ _ _ (wp_init_register (mod_ s)) E) as (Ha & Hr & Hk).
  eapply inv_advance; try done. split; [|done].
  pose proof (inv_cell _ _ Hi) as Hc. rewrite Hp in Hc. by eapply (cell_inv_mono _ Unloaded).
Qed.

Lemma inv_init_fail s e m :
  inv st0 s -> phase_ s = Unloaded -> init_register (mod_ s) = (Throw e, m) ->
  inv st0 (mkSystem m Unloaded (files s) (calls s)).
Proof.
  intros Hi Hp E. destruct (wp_run_err _ _ _ _ _ _ (wp_init_register (mod_ s)) E) as [Ha Hr].
  pose proof (inv_cell _ _ Hi) as Hc. pose proof (inv_reg _ _ Hi) as Hg.
  pose proof (inv_files _ _ Hi) as Hf. rewrite Hp in Hc, Hg, Hf.
  eapply inv_advance; try done; [congruence | by eapply cell_inv_mono].
Qed.

Lemma life_inv_populate s kp :
  inv st0 s -> phase_ s = Initializing kp ->
  inv st0 (mkSystem (mkModule (kernel (mod_ s)) (set_once.mkSetOnce 2 (set_once.Init kp))
             (registered (mod_ s)) (dev_refs (mod_ s))) Loaded (files s) (calls s)).
Proof.
  intros [Hc Hh Hd Hr Hf Hcs] Hp. rewrite Hp in Hc, Hr. destruct Hc as [(l & El & _) Hk].
  split; simpl; try done; [by exists kp|].
  eapply Forall_impl; [exact Hcs|]. intros c [? [?|E]]; split; auto. left. by rewrite El in E.
Qed.

Lemma inv_cleanup s kp :
  inv st0 s -> phase_ s = Unloading ->
  inv st0 (mkSystem (mkModule (kernel (mod_ s))
             (set_once.mkSetOnce 0 (set_once.Uninit (Some (drop_key_pair kp))))
             (registered (mod_ s)) (dev_refs (mod_ s))) Unloaded (files s) (calls s)).
Proof.
  intros Hi Hp. pose proof (inv_no_calls s Hi) as Hn. destruct Hi as [Hc Hh Hd Hr Hf _].
  rewrite Hp in *. split; simpl; try done.
  - eexists. split; [reflexivity|]. intros kp' [= <-]. apply drop_wipes.
  - by rewrite Hn.
Qed.

(** Opening and releasing a file only moves the reference count. *)
Lemma inv_refs_change s fs n :
  inv st0 s -> n = base.size fs -> registered (mod_ s) = true ->
  Forall (fun c => call_file c ∈ fs) (calls s) ->
  inv st0 (mkSystem (mkModule (kernel (mod_ s)) (KEY_PAIR (mod_ s)) (registered (mod_ s)) n)
             (phase_ s) fs (calls s)).
Proof.
  intros [Hc Hh Hd Hr Hf Hcs] -> Hreg Hfs. split; simpl; try done; [congruence|].
  rewrite Forall_forall in *. naive_solver.
Qed.

Lemma inv_registered s f : inv st0 s -> f ∈ files s -> registered (mod_ s) = true.
Proof.
  intros Hi Hf. pose proof (inv_files _ _ Hi) as H. rewrite (inv_reg _ _ Hi).
  destruct (is_registered _); [done|]. rewrite H in Hf by done. set_solver.
Qed.

(** An ioctl in progress ends, with the accesses it may make. *)
Lemma call_run s c r m :
  inv st0 s -> c ∈ calls s ->
  on_kernel (ioctl (call_task c) (call_key c) (call_cmd c) (call_arg c)) (mod_ s) = (r, m) ->
  (exists r' : Z + Error, r = match r' with inl v => Ret v | inr e => Throw e end) /\
  may_access (call_task c) (call_key c) (call_arg c) (kernel (mod_ s)) (kernel m) /\
  registered m = registered (mod_ s) /\ exists l, advances l (mod_ s) m.
Proof.
  intros Hi Hc (E & Ek & Er & Ed)%on_kernel_run.
  pose proof (wp_ioctl (call_task c) (call_key c) (call_cmd c) (call_arg c) (kernel (mod_ s))) as Hw.
  unfold wp in Hw. rewrite E in Hw.
  assert (may_access (call_task c) (call_key c) (call_arg c) (kernel (mod_ s)) (kernel m) /\
    exists r' : Z + Error, r = match r' with inl v => Ret v | inr e => Throw e end) as [Ha Hr].
  { destruct r as [v|e|]; [split; [apply Hw | by exists (inl v)]
      | split; [apply Hw | by exists (inr e)] | destruct Hw];
      intros kp Hk; by apply (inv_call_key s c Hi). }
  split_and!; [done.. |]. destruct Ha as (l & (? & ? & ? & ? & _) & _). exists l. by split_and!.
Qed.

Lemma inv_exit s l1 c l2 r m :
  inv st0 s -> calls s = l1 ++ c :: l2 ->
  on_kernel (ioctl (call_task c) (call_key c) (call_cmd c) (call_arg c)) (mod_ s) = (r, m) ->
  inv st0 (mkSystem m (phase_ s) (files s) (l1 ++ l2)).
Proof.
  intros Hi Ec E. destruct (call_run s c r m Hi) as (_ & _ & Er & l & Ha); [rewrite Ec; set_solver|done|].
  destruct (inv_advance l s m (phase_ s) Hi Ha) as [Hc Hh Hd Hr Hf Hcs]; simpl in *.
  - rewrite Er. apply Hi.
  - eapply cell_inv_mono; [done|apply Hi].
  - apply Hi.
  - split; simpl; try done. rewrite Ec in Hcs. apply Forall_app in Hcs as [? Hcs].
    apply Forall_cons in Hcs as [_ ?]. by apply Forall_app.
Qed.

(** Outside of its methods the cell answers with what it contains. *)
Lemma as_ref_contents s key m :
  inv st0 s -> on_key set_once.as_ref (mod_ s) = (Ret key, m) ->
  key = set_once.contents (KEY_PAIR (mod_ s)) /\ m = mod_ s.
Proof.
  intros Hi E. pose proof (inv_cell _ _ Hi) as Hc. unfold on_key in E.
  destruct (mod_ s) as [k c b n]; simpl in *.
  destruct (phase_ s); simpl in Hc; unfold wiped, publishes in Hc; split_hyps; simpl in *; subst c;
    by injection E as <- <-.
Qed.

Lemma inv_enter s f cur cmd arg key m :
  inv st0 s -> f ∈ files s -> on_key set_once.as_ref (mod_ s) = (Ret key, m) ->
  inv st0 (mkSystem m (phase_ s) (files s) (mkCall f cur cmd arg key :: calls s)).
Proof.
  intros Hi Hf E. destruct (as_ref_contents s key m Hi E) as [-> ->].
  destruct Hi as [Hc Hh Hd Hr Hfl Hcs]. split; simpl; try done. constructor; [|done].
  split; [done|by right].
Qed.

Lemma life_inv_step s s' : inv st0 s -> life_step s s' -> inv st0 s'.
Proof.
  intros Hi Hst. pose proof (inv_cell _ _ Hi) as Hc.
  destruct Hst as [s kp m Hp E|s e m Hp E|s kp m Hp E|s kp e m Hp E|s f m Hr Hf E|s e m Hr E
    |s f m Hf Hn E|s f cur cmd arg key m Hf E|s l1 c l2 r m Ec E|s m Hp Ef E|s m Hp E|s w Hw].
  - by apply inv_init.
  - by eapply inv_init_fail.
  - rewrite Hp in Hc. destruct Hc as [Hw _]. rewrite init_populate_wiped in E by done.
    injection E as <-. by apply life_inv_populate.
  - rewrite Hp in Hc. destruct Hc as [Hw _]. by rewrite init_populate_wiped in E.
  - injection E as <-. apply inv_refs_change; try done.
    + rewrite size_union by set_solver. rewrite size_singleton, (inv_refs _ _ Hi). done.
    + eapply Forall_impl; [apply (inv_calls _ _ Hi)|]. set_solver.
  - injection E as _ <-. simpl. apply inv_refs_change; try done; [apply Hi|].
    eapply Forall_impl; [apply (inv_calls _ _ Hi)|]. by intros c [? _].
  - injection E as <-. apply inv_refs_change; try done.
    + rewrite size_difference by set_solver. rewrite size_singleton, (inv_refs _ _ Hi). lia.
    + by eapply inv_registered.
    + pose proof (inv_calls _ _ Hi) as Hcs. rewrite Forall_forall in *. set_solver.
  - by eapply inv_enter.
  - by eapply inv_exit.
  - destruct (wp_run _ _ _ _ _ _ (wp_deregister (mod_ s)) E) as [Ha Hr].
    eapply inv_advance; try done. rewrite Hp in Hc. by eapply (cell_inv_mono _ Unloading).
  - rewrite Hp in Hc. destruct Hc as [kp Hk]. rewrite (drop_key_cleanup_publishes _ _ Hk) in E.
    injection E as <-. by apply inv_cleanup.
  - apply (inv_advance []); [done | by apply set_world_advances | apply Hi | | apply Hi].
    eapply cell_inv_mono; [by apply set_world_advances | done].
Qed.

Lemma life_inv_reachable s : reachable st0 s -> inv st0 s.
Proof. induction 1; [apply life_inv_start|by eapply life_inv_step]. Qed.

(** *** What leaves the module *)

(** The step from [s1] to [s2] ends the call [c], which holds a reference to
    the published key pair [kp], and makes the accesses [l] for it. *)
Definition serves (s1 s2 : system) (c : ioctl_call) (kp : KeyPair.KeyPair) (l : list uaccess) : Prop :=
  c ∈ calls s1 /\ call_key c = Some kp /\ publishes (mod_ s1) kp /\
  (exists r, on_kernel (ioctl (call_task c) (call_key c) (call_cmd c) (call_arg c)) (mod_ s1) =
     (r, mod_ s2)) /\
  transfers l (call_arg c) 257 (kernel (mod_ s1)) (kernel (mod_ s2)) /\
  Forall (released (call_task c) kp) l.

Lemma step_serves s s' : inv st0 s -> life_step s s' -> exists l,
  user_log (world (kernel (mod_ s'))) = user_log (world (kernel (mod_ s))) ++ l /\
  (l = [] \/ exists c kp, serves s s' c kp l).
Proof.
  intros Hi Hst. pose proof (inv_cell _ _ Hi) as Hc.
  assert (forall m', advances [] (mod_ s) m' -> exists l,
    user_log (world (kernel m')) = user_log (world (kernel (mod_ s))) ++ l /\
    (l = [] \/ exists c kp, serves s s' c kp l)) as Hnil
    by (intros m' (_ & _ & _ & E & _); exists []; split; [done | by left]).
  destruct Hst as [s kp m Hp E|s e m Hp E|s kp m Hp E|s kp e m Hp E|s f m Hr Hf E|s e m Hr E
    |s f m Hf Hn E|s f cur cmd arg key m Hf E|s l1 c l2 r m Ec E|s m Hp Ef E|s m Hp E|s w Hw];
    simpl.
  - apply Hnil. apply (wp_run _ _ _ _ _ _ (wp_init_register (mod_ s)) E).
  - apply Hnil. apply (wp_run_err _ _ _ _ _ _ (wp_init_register (mod_ s)) E).
  - rewrite Hp in Hc. destruct Hc as [Hw _]. rewrite init_populate_wiped in E by done.
    injection E as <-. exists []. split; [by rewrite app_nil_r | by left].
  - rewrite Hp in Hc. destruct Hc as [Hw _]. by rewrite init_populate_wiped in E.
  - injection E as <-. exists []. split; [by rewrite app_nil_r | by left].
  - injection E as _ <-. exists []. split; [by rewrite app_nil_r | by left].
  - injection E as <-. exists []. split; [by rewrite app_nil_r | by left].
  - destruct (as_ref_contents s key m Hi E) as [_ ->]. by apply Hnil.
  - assert (c ∈ calls s) as Hin by (rewrite Ec; set_solver).
    destruct (call_run s c _ m Hi Hin E) as (_ & (l & Ht & Hl) & _). exists l.
    split; [apply Ht|]. destruct (call_key c) as [kp|] eqn:Hk.
    + right. exists c, kp. split_and!; try done; [by eapply inv_call_key | by rewrite Hk; eauto |].
      eapply Forall_impl; [done|]. by intros e (? & [= <-] & ?).
    + left. destruct l as [|e l]; [done|]. apply Forall_cons in Hl as [(? & ? & _) _]. done.
  - apply Hnil. apply (wp_run _ _ _ _ _ _ (wp_deregister (mod_ s)) E).
  - rewrite Hp in Hc. destruct Hc as [kp Hk]. rewrite (drop_key_cleanup_publishes _ _ Hk) in E.
    injection E as <-. exists []. split; [by rewrite app_nil_r | by left].
  - apply (Hnil (set_world w (mod_ s))). by apply set_world_advances.
Qed.

(** The access [e] was made on the way to [s], for a call of the life cycle. *)
Definition served (s : system) (e : uaccess) : Prop :=
  exists s1 s2 c kp l, reachable st0 s1 /\ life_step s1 s2 /\ rtc life_step s2 s /\
    serves s1 s2 c kp l /\ e ∈ l.

Lemma log_served s : reachable st0 s -> exists l,
  user_log (world (kernel (mod_ s))) = user_log (world st0) ++ l /\ Forall (served s) l.
Proof.
  induction 1 as [|s s' Hr (l & El & Hl) Hst].
  - exists []. simpl. split; [by rewrite app_nil_r | done].
  - destruct (step_serves s s' (life_inv_reachable s Hr) Hst) as (l' & El' & Hl').
    exists (l ++ l'). split; [by rewrite El', El, app_assoc|]. apply Forall_app. split.
    + eapply Forall_impl; [exact Hl|]. intros e (s1 & s2 & c & kp & lc & H1 & H2 & H3 & H4 & H5).
      exists s1, s2, c, kp, lc. split_and!; try done. by eapply rtc_r.
    + destruct Hl' as [->|(c & kp & Hs)]; [done|]. apply Forall_forall. intros e He.
      by exists s, s', c, kp, l'.
Qed.
End Laws.
End Module_.
Arguments system W : clear implicits.

(** ** A run

    The reference kernel is about to generate the key 5 and the nonce 11.  The
    module is loaded, a file is opened and an ioctl is issued on it. *)
#[local] Existing Instances ToyKernel toy_Vli toy_Ecc toy_Curve toy_Ima toy_Verity toy_User
  toy_Ioctl toy_Misc ecdsa.toy_group ecdsa.toy_group_laws.

Definition toy_st : kstate RW := toy_state [5; 11] true 4096 257.
Definition toy_unloaded : system RW := start toy_st.
Definition toy_key : KeyPair.KeyPair :=
  match fst (init_register (mod_ toy_unloaded)) with Ret kp => kp | _ => toy_kp end.
Definition toy_initializing : system RW :=
  mkSystem (snd (init_register (mod_ toy_unloaded))) (Initializing toy_key) ∅ [].
Definition toy_loaded : system RW :=
  mkSystem (snd (init_populate toy_key (mod_ toy_initializing))) Loaded ∅ [].
Definition toy_open (s : system RW) : system RW :=
  mkSystem (snd (open true (mod_ s))) (phase_ s) {[0%nat]} (calls s).
Definition toy_issue (cmd : Z) (key : option KeyPair.KeyPair) (s : system RW) : system RW :=
  mkSystem (mod_ s) (phase_ s) (files s) [mkCall 0 (toy_task 1) cmd 4096 key].
Definition toy_unloading : system RW :=
  mkSystem (snd (deregister (mod_ toy_loaded))) Unloading ∅ [].

Lemma toy_initializing_reachable : reachable toy_st toy_initializing.
Proof.
  eapply reachable_step; [apply reachable_start|].
  apply (step_init toy_unloaded toy_key (snd (init_register (mod_ toy_unloaded)))); [done|].
  vm_compute; reflexivity.
Qed.

Lemma toy_loaded_reachable : reachable toy_st toy_loaded.
Proof.
  eapply reachable_step; [apply toy_initializing_reachable|].
  apply (step_populate toy_initializing toy_key); [done|]. vm_compute; reflexivity.
Qed.

Lemma toy_open_reachable s : reachable toy_st s -> registered (mod_ s) = true -> files s = ∅ ->
  reachable toy_st (toy_open s).
Proof.
  intros Hr Hg Hf. eapply reachable_step; [exact Hr|]. unfold toy_open.
  replace ({[0%nat]} : gset nat) with ({[0%nat]} ∪ files s) by (rewrite Hf; apply (right_id_L _ _)).
  apply (step_open s 0 _ Hg); [rewrite Hf; set_solver|done].
Qed.

Lemma toy_issue_reachable cmd s key : reachable toy_st s -> 0%nat ∈ files s -> calls s = [] ->
  on_key set_once.as_ref (mod_ s) = (Ret key, mod_ s) ->
  reachable toy_st (toy_issue cmd key s).
Proof.
  intros Hr Hf Hc E. eapply reachable_step; [exact Hr|]. unfold toy_issue. rewrite <- Hc.
  by apply (step_enter s 0 (toy_task 1) cmd 4096 key (mod_ s)).
Qed.

(** An ioctl in progress on the loaded module, and one issued too early. *)
Definition toy_call (cmd : Z) : system RW := toy_issue cmd (Some toy_key) (toy_open toy_loaded).
Definition toy_early (cmd : Z) : system RW := toy_issue cmd None (toy_open toy_initializing).

Lemma toy_call_reachable cmd : reachable toy_st (toy_call cmd).
Proof.
  apply toy_issue_reachable; [|by apply elem_of_singleton|done|].
  - apply toy_open_reachable; [apply toy_loaded_reachable|vm_compute; reflexivity|done].
  - vm_compute; reflexivity.
Qed.

Lemma toy_early_reachable cmd : reachable toy_st (toy_early cmd).
Proof.
  apply toy_issue_reachable; [|by apply elem_of_singleton|done|].
  - apply toy_open_reachable; [apply toy_initializing_reachable|vm_compute; reflexivity|done].
  - vm_compute; reflexivity.
Qed.

Lemma toy_unloading_reachable : reachable toy_st toy_unloading.
Proof.
  eapply reachable_step; [apply toy_loaded_reachable|].
  apply (step_deregister toy_loaded); [done|done|]. vm_compute; reflexivity.
Qed.

(** ** Properties *)

Section Properties.
Context {W : Type} `{!Kernel W} `{!VliLaws W} `{!EccLaws W} `{!CurveLaws W} `{!ImaLaws W}
  `{!VerityLaws W} `{!UserLaws W} `{!MiscLaws W}.

(** Which handler a command reaches. *)
Lemma ioctl_get_pubkey `{!IoctlLaws W} current key arg :
  ioctl current key TARAKO_GET_PUBKEY arg = handle_get_pubkey key arg TARAKO_GET_PUBKEY.
Proof.
  unfold ioctl, TARAKO_HELLO, TARAKO_GET_PUBKEY. rewrite IO_ok, IOR_ok. reflexivity.
Qed.

Lemma ioctl_sign_data `{!IoctlLaws W} current key arg :
  ioctl current key TARAKO_SIGN_DATA arg = handle_sign_data current key arg TARAKO_SIGN_DATA.
Proof.
  unfold ioctl, TARAKO_HELLO, TARAKO_GET_PUBKEY, TARAKO_SIGN_DATA.
  rewrite IO_ok, IOR_ok, IOWR_ok. reflexivity.
Qed.

Lemma ioctl_unknown current key cmd arg (st : kstate W) :
  cmd ∉ [TARAKO_HELLO; TARAKO_GET_PUBKEY; TARAKO_SIGN_DATA] ->
  ioctl current key cmd arg st = (Throw ENOTTY, st).
Proof.
  intros Hcmd. unfold ioctl. rewrite !not_elem_of_cons in Hcmd.
  destruct Hcmd as (?%Z.eqb_neq & ?%Z.eqb_neq & ?%Z.eqb_neq & _).
  by repeat match goal with H : (_ =? _) = false |- _ => rewrite H; clear H end.
Qed.

(** C3: the attestation the module gives, end to end.  In every reachable state
    of the life cycle, if a signing ioctl in progress returns a value, then a
    key pair is published, its public key is the compressed point of its
    private key and is recorded in the IMA log, and the call read the caller's
    buffer once and wrote there once a signature that verifies under that key
    over the caller's own fs-verity digest and the data read, whatever other
    threads did meanwhile. *)
Theorem signing_attests `{!IoctlLaws W} `{G : ecdsa.EcGroup}
    `{!ecdsa.EcGroupLaws curve_order x_of} (st0 : kstate W) (s : system W) c v m' :
  reachable st0 s -> c ∈ calls s -> call_cmd c = TARAKO_SIGN_DATA ->
  on_kernel (ioctl (call_task c) (call_key c) (call_cmd c) (call_arg c)) (mod_ s) = (Ret v, m') ->
  v = 0 /\ exists kp,
    KEY_PAIR (mod_ s) = set_once.mkSetOnce 2 (set_once.Init kp) /\ key_pair_ok kp /\
    pubkey_event (KeyPair.pubkey kp) ∈ ima_log (world (kernel (mod_ s))) /\
    attests (call_task c) kp (call_arg c) (kernel (mod_ s)) (kernel m').
Proof.
  intros Hr Hc Hcmd E. pose proof (life_inv_reachable st0 s Hr) as Hi.
  apply on_kernel_run in E as [E _]. rewrite Hcmd, ioctl_sign_data in E.
  destruct (call_key c) as [kp|] eqn:Hk; [|discriminate].
  destruct (inv_call_key st0 s c Hi Hc kp Hk) as [Ek [Hkp Him]].
  destruct (KeyPair.ima_measured kp) eqn:Hm.
  - pose proof (handle_sign_data_attests (call_task c) kp (call_arg c) TARAKO_SIGN_DATA
      (kernel (mod_ s)) Hkp Hm) as Hw.
    destruct (wp_run _ _ _ _ _ _ Hw E) as (-> & Ha). split; [done|]. by exists kp; eauto.
  - exfalso. revert E. unfold handle_sign_data, mbind, M_bind, ok_or, mret, M_ret. by rewrite Hm.
Qed.

(** Reading the key, end to end.  A public-key ioctl in progress that
    returns gives 33, and its only access to user memory is a complete write of the
    published public key, the same that the signatures carry, at the caller's
    address. *)
Lemma get_pubkey_published `{!IoctlLaws W} (st0 : kstate W) (s : system W) c v m' :
  reachable st0 s -> c ∈ calls s -> call_cmd c = TARAKO_GET_PUBKEY ->
  on_kernel (ioctl (call_task c) (call_key c) (call_cmd c) (call_arg c)) (mod_ s) = (Ret v, m') ->
  v = 33 /\ exists kp,
    KEY_PAIR (mod_ s) = set_once.mkSetOnce 2 (set_once.Init kp) /\ key_pair_ok kp /\
    transfers [UWrite (call_arg c) (KeyPair.pubkey kp) true] (call_arg c) 33
      (kernel (mod_ s)) (kernel m').
Proof.
  intros Hr Hc Hcmd E. pose proof (life_inv_reachable st0 s Hr) as Hi.
  apply on_kernel_run in E as [E _]. rewrite Hcmd, ioctl_get_pubkey in E.
  destruct (call_key c) as [kp|] eqn:Hk; [|discriminate].
  destruct (inv_call_key st0 s c Hi Hc kp Hk) as [Ek [Hkp Him]].
  pose proof Hkp as (_ & _ & _ & _ & Ep).
  assert (bytes_ok (KeyPair.pubkey kp) /\ length (KeyPair.pubkey kp) = ecc.P256_PUBKEY_BYTES)
    as [Hb Hl] by (rewrite Ep; split; [apply sec1_compress_wf|apply sec1_compress_length]).
  destruct (wp_run _ _ _ _ _ _ (handle_get_pubkey_ok kp _ _ _ Hb Hl) E) as (-> & _ & Ht & _).
  split; [done|]. by exists kp.
Qed.

(** C13: every ioctl in progress ends: whatever the command, the argument and the
    caller, it returns a value or an error, never panics and never uses an
    invalid pointer; it leaves the kernel heap as it was and accesses at most
    the 257 bytes at its argument. *)
Theorem ioctl_completes (st0 : kstate W) (s : system W) c :
  reachable st0 s -> c ∈ calls s ->
  exists (r : Z + Error) m',
    on_kernel (ioctl (call_task c) (call_key c) (call_cmd c) (call_arg c)) (mod_ s) =
      (match r with inl v => Ret v | inr e => Throw e end, m') /\
    writes_within (call_arg c) 257 (kernel (mod_ s)) (kernel m').
Proof.
  intros Hr%life_inv_reachable Hc.
  destruct (on_kernel (ioctl _ _ _ _) (mod_ s)) as [r m'] eqn:E.
  destruct (call_run st0 s c r m' Hr Hc E) as ((r' & ->) & (l & Ht & _) & _).
  exists r', m'. split; [done|]. by exists l.
Qed.

(** C4: nothing else leaves the module.  In every reachable state, every access
    the driver has made to user memory since the start was made by an ioctl: in
    one step of the life cycle this call ran, with the key pair published at that
    time, and the access is one of those that its run added to the record, in the
    257 bytes at the caller's address.  What it wrote, completely or not, is the
    public key, or a response over the fs-verity digest of that very caller under
    a key recorded in the IMA log, and the bytes in its signature fields are an
    ECDSA signature of its hash by that key, which verifies: no other bytes that
    depend on the private key leave. *)
Theorem module_releases `{G : ecdsa.EcGroup} `{!ecdsa.EcGroupLaws curve_order x_of}
    (st0 : kstate W) (s : system W) :
  reachable st0 s -> exists l,
  user_log (world (kernel (mod_ s))) = user_log (world st0) ++ l /\
  Forall (fun e => exists s1 s2 c kp r lc,
    reachable st0 s1 /\ life_step s1 s2 /\ rtc life_step s2 s /\
    c ∈ calls s1 /\ call_key c = Some kp /\ publishes (mod_ s1) kp /\
    on_kernel (ioctl (call_task c) (call_key c) (call_cmd c) (call_arg c)) (mod_ s1) = (r, mod_ s2) /\
    user_log (world (kernel (mod_ s2))) = user_log (world (kernel (mod_ s1))) ++ lc /\ e ∈ lc /\
    inside (call_arg c) 257 e /\
    match e with
    | URead _ _ => True
    | UWrite _ bs _ => bs = KeyPair.pubkey kp \/
        exists req, bs = sign_data_req_bytes req /\ covers (call_task c) kp req /\
          signature_of kp req /\ signature_verifies kp req /\
          pubkey_event (KeyPair.pubkey kp) ∈ ima_log (world (kernel (mod_ s1)))
    end) l.
Proof.
  intros (l & El & Hl)%log_served. exists l. split; [done|]. eapply Forall_impl; [exact Hl|].
  intros e (s1 & s2 & c & kp & lc & H1 & H2 & H3 & (Hc & Hk & Hp & (r & Er) & Ht & Hrel) & He).
  destruct Ht as (_ & _ & _ & Eu & Hin & _). rewrite Forall_forall in Hin, Hrel.
  exists s1, s2, c, kp, r, lc. split_and!; try done; [by apply Hin|].
  specialize (Hrel e He). destruct e as [|p bs b]; [done|].
  destruct Hrel as [?|(Hm & req & ? & ? & Hs)]; [by left|right]. exists req.
  split_and!; try done; [by apply signature_of_verifies | by apply Hp].
Qed.

(** A reference to the key never dangles: as long as an ioctl that obtained
    one is in progress, the global cell is in its published state and holds
    that very key pair. *)
Lemma references_valid (st0 : kstate W) (s : system W) c kp :
  reachable st0 s -> c ∈ calls s -> call_key c = Some kp ->
  KEY_PAIR (mod_ s) = set_once.mkSetOnce 2 (set_once.Init kp).
Proof. intros Hr%life_inv_reachable Hc Hk. by apply (inv_call_key st0 s c Hr Hc kp Hk). Qed.

(** C12: unloading destroys the secret.  When the key is about to be cleared, no
    file is open and no ioctl is in progress, which is what the unsafe [clear]
    asks for; clearing succeeds; and whenever the module is not loaded, the
    cell is empty and what its storage still holds of a private key is zero. *)
Theorem unload_wipes_key (st0 : kstate W) (s : system W) :
  reachable st0 s ->
  (phase_ s = Unloading -> files s = ∅ /\ calls s = [] /\
     exists m', drop_key_cleanup (mod_ s) = (Ret tt, m') /\ wiped m') /\
  (phase_ s = Unloaded -> wiped (mod_ s)).
Proof.
  intros Hr%life_inv_reachable. pose proof (inv_cell _ _ Hr) as Hc. split; intros Hp.
  - split_and!; [apply (inv_files _ _ Hr) | apply (inv_no_calls st0 s Hr) |]; rewrite ?Hp; try done.
    rewrite Hp in Hc. destruct Hc as [kp Hk]. rewrite (drop_key_cleanup_publishes _ _ Hk).
    eexists. split; [done|]. eexists. split; [done|]. intros kp' [= <-]. apply drop_wipes.
  - by rewrite Hp in Hc.
Qed.

(** Initialization is never refused by the cell: in every reachable state
    where a generated key pair waits for publication, [populate] wins, so the
    [EBUSY] branch is not taken, and the module then publishes a well-formed
    key pair. *)
Lemma init_never_busy (st0 : kstate W) (s : system W) kp :
  reachable st0 s -> phase_ s = Initializing kp ->
  exists m', init_populate kp (mod_ s) = (Ret tt, m') /\ publishes m' kp /\
    registered m' = true.
Proof.
  intros Hr%life_inv_reachable Hp. pose proof (inv_cell _ _ Hr) as Hc. pose proof (inv_reg _ _ Hr) as Hg.
  rewrite Hp in Hc, Hg. destruct Hc as [Hw Hk]. rewrite init_populate_wiped by done.
  eexists. by split_and!.
Qed.

(** C26: the module neither leaks nor overreleases: in every reachable state the
    kernel's points and buffers are those of the start, there is exactly one
    device reference per open file, and the device is registered exactly in the
    phases in which it should be. *)
Theorem module_resources (st0 : kstate W) (s : system W) :
  reachable st0 s ->
  points (kernel (mod_ s)) = points st0 /\ mem (kernel (mod_ s)) = mem st0 /\
  dev_refs (mod_ s) = base.size (files s) /\
  registered (mod_ s) = is_registered (phase_ s).
Proof. intros [_ [? ?] ? ? _ _]%life_inv_reachable. by split_and!. Qed.

(** *** Winding down *)







(** C30: loading and unloading as functions.  From an empty cell, [init] either
    publishes a well-formed key pair behind a registered device, or fails and
    leaves the registration and the cell as they were; dropping the module then
    deregisters the device and wipes the key. *)
Theorem load_unload (m : module W) :
  wiped m ->
  wp init (fun _ m1 => registered m1 = true /\ (exists kp, publishes m1 kp) /\
                       wp drop_module (fun _ m2 => registered m2 = false /\ wiped m2)
                                      (fun _ _ => False) m1)
          (fun _ m1 => registered m1 = registered m /\ KEY_PAIR m1 = KEY_PAIR m) m.
Proof.
  intros Hw. unfold init. apply wp_bind. eapply wp_mono; [apply wp_init_register|..].
  - intros kp m1 (Ha & Hr & Hk). pose proof (cell_inv_mono _ Unloaded m m1 Ha Hw) as Hw1.
    unfold wp at 1. rewrite (init_populate_wiped m1 kp Hw1). split; [done|].
    assert (publishes (mkModule (kernel m1) (set_once.mkSetOnce 2 (set_once.Init kp))
              (registered m1) (dev_refs m1)) kp) as Hp by done.
    split; [by exists kp|]. unfold drop_module. apply wp_bind.
    eapply wp_mono; [apply wp_deregister| |done]. intros _ m2 [Ha2 Hr2].
    destruct (cell_inv_mono _ Unloading _ _ Ha2) as [kp2 Hk2]; [by exists kp|].
    unfold wp. rewrite (drop_key_cleanup_publishes _ _ Hk2). split; [done|].
    eexists. split; [done|]. intros kp' [= <-]. apply drop_wipes.
  - intros e m1 [Ha Hr]. split; [done|]. apply Ha.
Qed.

Lemma on_kernel_pure {A} (f : KM W A) (m : module W) r :
  f (kernel m) = (r, kernel m) -> on_kernel f m = (r, m).
Proof. unfold on_kernel. intros ->. by destruct m. Qed.

(** C31: refusals.  For an ioctl in progress in any reachable state: an unknown
    command is [ENOTTY]; a key command of a call that entered without a key is
    [ENXIO], and every call that entered before the key was published is such
    a call; signing with a key that IMA has not measured is [EPERM].  In all
    these cases, and for the greeting, which answers 0, the module's state is
    exactly what it was. *)
Theorem ioctl_refusals `{!IoctlLaws W} (st0 : kstate W) (s : system W) c :
  reachable st0 s -> c ∈ calls s ->
  let run := on_kernel (ioctl (call_task c) (call_key c) (call_cmd c) (call_arg c)) (mod_ s) in
  (call_cmd c = TARAKO_HELLO -> run = (Ret 0, mod_ s)) /\
  (call_cmd c ∉ [TARAKO_HELLO; TARAKO_GET_PUBKEY; TARAKO_SIGN_DATA] ->
     run = (Throw ENOTTY, mod_ s)) /\
  (forall kp, phase_ s = Initializing kp -> call_key c = None) /\
  (call_key c = None -> call_cmd c ∈ [TARAKO_GET_PUBKEY; TARAKO_SIGN_DATA] ->
     run = (Throw ENXIO, mod_ s)) /\
  (forall kp, call_key c = Some kp -> KeyPair.ima_measured kp = false ->
     call_cmd c = TARAKO_SIGN_DATA -> run = (Throw EPERM, mod_ s)).
Proof.
  intros Hr%life_inv_reachable Hc run. unfold run. split_and!.
  - intros ->. apply on_kernel_pure. unfold ioctl. by rewrite Z.eqb_refl.
  - intros Hcmd. apply on_kernel_pure, ioctl_unknown, Hcmd.
  - intros kp Hp. destruct (call_key c) as [kp'|] eqn:Hk; [exfalso|done].
    destruct (inv_call_key st0 s c Hr Hc kp' Hk) as [Ek _].
    pose proof (inv_cell _ _ Hr) as Hcell. rewrite Hp in Hcell. destruct Hcell as [(l & El & _) _].
    by rewrite El in Ek.
  - intros -> Hcmd. rewrite !elem_of_cons in Hcmd.
    destruct Hcmd as [->|[->|[]%elem_of_nil]]; rewrite ?ioctl_get_pubkey, ?ioctl_sign_data;
      by apply on_kernel_pure.
  - intros kp -> Hm ->. rewrite ioctl_sign_data. apply on_kernel_pure. by apply handle_sign_data_gate.
Qed.
End Properties.

(** ** The properties on the run above *)

Abbreviation toy_HELLO := (@TARAKO_HELLO RW ToyKernel).
Abbreviation toy_GET_PUBKEY := (@TARAKO_GET_PUBKEY RW ToyKernel).
Abbreviation toy_SIGN_DATA := (@TARAKO_SIGN_DATA RW ToyKernel).

Definition toy_req (cmd : Z) (key : option KeyPair.KeyPair) : ioctl_call :=
  mkCall 0 (toy_task 1) cmd 4096 key.

Lemma signing_attests_witness :
  exists m', on_kernel (ioctl (toy_task 1) (Some toy_key) toy_SIGN_DATA 4096)
               (mod_ (toy_call toy_SIGN_DATA)) = (Ret 0, m') /\
  exists kp, pubkey_event (KeyPair.pubkey kp) ∈ ima_log (world (kernel (mod_ (toy_call toy_SIGN_DATA)))) /\
    attests (toy_task 1) kp 4096 (kernel (mod_ (toy_call toy_SIGN_DATA))) (kernel m').
Proof.
  destruct (run_ret (on_kernel (ioctl (toy_task 1) (Some toy_key) toy_SIGN_DATA 4096))
    (mod_ (toy_call toy_SIGN_DATA))) as (v & m' & E); [vm_compute; reflexivity|].
  destruct (signing_attests (Kernel0 := ToyKernel) toy_st (toy_call toy_SIGN_DATA)
    (toy_req toy_SIGN_DATA (Some toy_key)) v m' (toy_call_reachable _)
    (list_elem_of_here _ _) eq_refl E) as (-> & kp & _ & _ & Hm & Ha).
  exists m'. split; [exact E|]. exists kp. split; [exact Hm | exact Ha].
Defined.

Lemma ioctl_completes_witness :
  reachable toy_st (toy_call 12345) /\
  exists (r : Z + Error) m',
    on_kernel (ioctl (toy_task 1) (Some toy_key) 12345 4096) (mod_ (toy_call 12345)) =
      (match r with inl v => Ret v | inr e => Throw e end, m') /\
    writes_within 4096 257 (kernel (mod_ (toy_call 12345))) (kernel m').
Proof.
  split; [apply toy_call_reachable|].
  exact (ioctl_completes (Kernel0 := ToyKernel) toy_st (toy_call 12345) (toy_req 12345 (Some toy_key))
    (toy_call_reachable _) (list_elem_of_here _ _)).
Defined.

(** The signing call of the run has ended. *)
Definition toy_signed : system RW :=
  mkSystem (snd (on_kernel (ioctl (toy_task 1) (Some toy_key) toy_SIGN_DATA 4096)
                   (mod_ (toy_call toy_SIGN_DATA)))) Loaded (files (toy_call toy_SIGN_DATA)) [].

Lemma toy_signed_reachable : reachable toy_st toy_signed.
Proof.
  eapply reachable_step; [apply (toy_call_reachable toy_SIGN_DATA)|].
  apply (step_exit (toy_call toy_SIGN_DATA) [] (toy_req toy_SIGN_DATA (Some toy_key)) [] (inl 0));
    [reflexivity|]. apply run_fst. vm_compute. reflexivity.
Qed.

Lemma module_releases_witness :
  reachable toy_st toy_signed /\
  exists l, l <> [] /\ user_log (world (kernel (mod_ toy_signed))) = user_log (world toy_st) ++ l /\
    Forall (fun e => exists s1 s2 c kp (lc : list uaccess), reachable toy_st s1 /\ life_step s1 s2 /\
      publishes (mod_ s1) kp /\ e ∈ lc /\ inside (call_arg c) 257 e /\
      match e with
      | URead _ _ => True
      | UWrite _ bs _ => bs = KeyPair.pubkey kp \/
          exists req, bs = sign_data_req_bytes req /\ signature_verifies kp req
      end) l.
Proof.
  split; [apply toy_signed_reachable|].
  destruct (module_releases (Kernel0 := ToyKernel) toy_st toy_signed toy_signed_reachable)
    as (l & El & Hl).
  exists l. split_and!; [|exact El|].
  - intros ->. rewrite app_nil_r in El. vm_compute in El. discriminate.
  - eapply Forall_impl; [exact Hl|].
    intros e (s1 & s2 & c & kp & r & lc & H1 & H2 & _ & _ & _ & H5 & _ & _ & H6 & H7 & H8).
    exists s1, s2, c, kp, lc. split_and!; try assumption. destruct e as [|p bs b]; [exact I|].
    destruct H8 as [H8|(req & E1 & _ & _ & E2 & _)]; [left; exact H8 | right; exists req].
    split; [exact E1 | exact E2].
Defined.

Lemma unload_wipes_key_witness :
  reachable toy_st toy_unloading /\ phase_ toy_unloading = Unloading /\
  exists m', drop_key_cleanup (mod_ toy_unloading) = (Ret tt, m') /\ wiped m'.
Proof.
  split; [apply toy_unloading_reachable|]. split; [reflexivity|].
  exact (proj2 (proj2 (proj1 (unload_wipes_key (Kernel0 := ToyKernel) toy_st toy_unloading
    toy_unloading_reachable) eq_refl))).
Defined.

Lemma module_resources_witness :
  reachable toy_st (toy_call toy_HELLO) /\ dev_refs (mod_ (toy_call toy_HELLO)) = 1%nat /\
  registered (mod_ (toy_call toy_HELLO)) = true.
Proof.
  split; [apply toy_call_reachable|].
  destruct (module_resources (Kernel0 := ToyKernel) toy_st (toy_call toy_HELLO)
    (toy_call_reachable _)) as (_ & _ & Hd & Hr).
  split; [rewrite Hd; reflexivity | exact Hr].
Defined.


Lemma load_unload_witness :
  let m := mod_ toy_unloaded in
  wiped m /\ exists m1, init m = (Ret tt, m1) /\ registered m1 = true.
Proof.
  assert (Hw : wiped (mod_ toy_unloaded)) by (exists None; split; [reflexivity|discriminate]).
  split; [exact Hw|].
  destruct (run_ret init (mod_ toy_unloaded)) as ([] & m1 & E); [vm_compute; reflexivity|].
  exists m1. split; [exact E|]. exact (proj1 (wp_run _ _ _ _ _ _ (load_unload (Kernel0 := ToyKernel) _ Hw) E)).
Defined.

Lemma ioctl_refusals_witness :
  reachable toy_st (toy_early toy_SIGN_DATA) /\
  on_kernel (ioctl (toy_task 1) None toy_SIGN_DATA 4096) (mod_ (toy_early toy_SIGN_DATA)) =
    (Throw ENXIO, mod_ (toy_early toy_SIGN_DATA)).
Proof.
  split; [apply toy_early_reachable|].
  refine (proj1 (proj2 (proj2 (proj2 (ioctl_refusals (Kernel0 := ToyKernel) toy_st
    (toy_early toy_SIGN_DATA) (toy_req toy_SIGN_DATA None) (toy_early_reachable _)
    (list_elem_of_here _ _))))) eq_refl _). right. left.
Defined.
End tarako.
