(* ===== verification/Programs.v ===== *)
(** The handlers of [driver/src/ioctl.rs] as trees of actions.

    A computation of [Exec] runs to its end on a state.  To interleave several
    ioctls, the code has to stop between two actions: a [prog] is a tree whose
    nodes are the driver's calls of the kernel and its accesses to kernel
    memory, with what follows for every answer.  [run] executes a tree on a
    state without a break.  The code below is that of [Ecc], [Ioctl] and [Tarako]
    action by action; [ioctl_agrees] states that running it is running theirs, and
    [ioctl_actions] that it is finite: whatever the kernel answers, it has at most
    903 actions, 9 for each of the 100 nonces and 3 around them. *)
From S2P Require Import Prelude Exec Ffi RefKernel Vli Ecc Ecdsa Ioctl SetOnce Tarako.
From stdpp Require Import base gmap list numbers strings.
From Stdlib Require Import ZArith Lia.
#[local] Open Scope Z_scope.

Module programs.
Import ecc ioctl.

(** ** Actions and programs *)

Inductive action : Type -> Type :=
  | AAlloc (nd : Z) : action (option loc)
  | AFree (p : loc) : action unit
  | ADeref (p : loc) : action ffi.Point
  | AReadLimbs (o : option loc) (n : nat) : action (list Z)
  | AWriteLimbs (o : option loc) (src : list Z) : action unit
  | AGenPrivkey (curve nd : Z) (key : list Z) : action (Z * list Z)
  | AMakePubKey (curve nd : Z) (priv raw : list Z) : action (Z * list Z)
  | AGetDigest (i : inode) (buf : list Z) : action (Z * list Z)
  | AReadUser (ptr len : Z) (n : nat) : action (Result (list Z))
  | AWriteUser (ptr len : Z) (bs : list Z) : action (Result unit).

Inductive prog (A : Type) : Type :=
  | PRet (a : A)
  | PThrow (e : Error)
  | PFault (f : fault)
  | PAct {B : Type} (a : action B) (k : B -> prog A).
Arguments PRet {A} _.
Arguments PThrow {A} _.
Arguments PFault {A} _.
Arguments PAct {A B} _ _.

#[global] Instance prog_ret : MRet prog := fun A a => PRet a.
#[global] Instance prog_bind : MBind prog := fun A B f =>
  fix go (m : prog A) : prog B :=
    match m with
    | PRet a => f a
    | PThrow e => PThrow e
    | PFault x => PFault x
    | PAct a k => PAct a (fun b => go (k b))
    end.

Definition act {B} (a : action B) : prog B := PAct a PRet.

(** The result of a scope as a value, and a scope with a destructor. *)
Fixpoint result_of {A} (m : prog A) : prog (Result A) :=
  match m with
  | PRet a => PRet (Ok a)
  | PThrow e => PRet (Err e)
  | PFault x => PFault x
  | PAct a k => PAct a (fun b => result_of (k b))
  end.
Definition question_ {A} (r : Result A) : prog A :=
  match r with Ok a => PRet a | Err e => PThrow e end.
Definition ok_or_ {A} (o : option A) (e : Error) : prog A :=
  match o with Some a => PRet a | None => PThrow e end.
Definition with_drop_ {A} (d : prog unit) (m : prog A) : prog A :=
  r ← result_of m; _ ← result_of d; question_ r.

Definition call_result_ {A} (a : action (Result A)) : prog A := r ← act a; question_ r.

Definition slice_ (lo hi : nat) (l : list Z) : prog (list Z) :=
  if bool_decide (lo <= hi /\ hi <= length l)%nat
  then PRet (take (hi - lo) (drop lo l)) else PFault SlicePanic.
Definition copy_from_slice_ (dst : list Z) (lo hi : nat) (src : list Z) : prog (list Z) :=
  if bool_decide (lo <= hi /\ hi <= length dst)%nat
  then if bool_decide (length src = hi - lo)%nat
       then PRet (take lo dst ++ src ++ drop hi dst)
       else PFault CopyLenPanic
  else PFault SlicePanic.

Section Code.
Context {W : Type} `{!Kernel W}.

(** ** [ecc.rs] *)

Definition x_scalar_ (self : Point) : prog Scalar :=
  pt ← act (ADeref (inner self));
  limbs ← act (AReadLimbs (ffi.x pt) P256_DIGITS);
  mret (vli.from_limbs limbs).

Definition generate_private_key_ : prog Scalar :=
  let key := vli.zero P256_DIGITS in
  '(ret, key) ← act (AGenPrivkey P256 (c_uint P256_DIGITS) key);
  if ret <? 0 then PThrow (from_errno ret) else mret key.

Definition make_public_key_ (privkey : Scalar) : prog Point :=
  o ← act (AAlloc (c_uint P256_DIGITS));
  p ← ok_or_ o ENOMEM;
  point ← act (ADeref p);
  if is_null (ffi.x point) || is_null (ffi.y point) then
    act (AFree p) ≫= fun _ => PThrow EFAULT
  else
    let raw := replicate (2 * P256_DIGITS) 0 in
    '(ret, raw) ← act (AMakePubKey P256 (c_uint P256_DIGITS) privkey raw);
    if ret <? 0 then
      act (AFree p) ≫= fun _ => PThrow (from_errno ret)
    else
      act (AWriteLimbs (ffi.x point) (take P256_DIGITS raw)) ≫= fun _ =>
      act (AWriteLimbs (ffi.y point) (take P256_DIGITS (drop P256_DIGITS raw))) ≫= fun _ =>
      mret (mkPoint p).

(** ** [ioctl.rs] *)

Definition sign_body_ (data_hash : list Z) (privkey curve_n k : Scalar) (pubk : Point)
    : prog (option (Scalar * Scalar)) :=
  r_swapped ← x_scalar_ pubk;
  let r := reduce_once (vli.unswap P256_DIGITS r_swapped) curve_n in
  if vli.is_zero P256_DIGITS r then mret None else
  z ← question_ (vli.from_be_bytes P256_DIGITS data_hash);
  let z := reduce_once z curve_n in
  let s := vli.mod_mult P256_DIGITS r privkey curve_n in
  let z_plus_rs := add_reduce z s curve_n in
  let k_inv := vli.mod_inv P256_DIGITS k curve_n in
  let s := vli.mod_mult P256_DIGITS z_plus_rs k_inv curve_n in
  if vli.is_zero P256_DIGITS s then mret None else mret (Some (r, s)).

Definition sign_attempt_ (data_hash : list Z) (privkey curve_n : Scalar)
    : prog (option (Scalar * Scalar)) :=
  k ← generate_private_key_;
  pubk ← make_public_key_ k;
  with_drop_ (act (AFree (inner pubk))) (sign_body_ data_hash privkey curve_n k pubk).

Fixpoint sign_loop_ (iterations : nat) (data_hash : list Z) (privkey curve_n : Scalar)
    : prog (Scalar * Scalar) :=
  match iterations with
  | O => PThrow EINVAL
  | S iterations =>
      o ← sign_attempt_ data_hash privkey curve_n;
      match o with
      | Some rs => mret rs
      | None => sign_loop_ iterations data_hash privkey curve_n
      end
  end.

Definition sign_ (self : KeyPair.KeyPair) (data : list Z) : prog (Scalar * Scalar) :=
  sign_loop_ 100 (sha256_hash data) (KeyPair.private self) (KeyPair.curve_n self).

Definition current_exe_fsverity_digest_ (current : Task) : prog FsverityDigest :=
  mm ← ok_or_ (task_mm current) EPERM;
  match mm with
  | None => PThrow EPERM
  | Some mm =>
      match exe_file mm with
      | None => PThrow EPERM
      | Some exe_file =>
          match f_inode exe_file with
          | None => PThrow EPERM
          | Some inode =>
              '(ret, buffer) ← act (AGetDigest inode (replicate FS_VERITY_MAX_DIGEST_SIZE 0));
              if ret <? 0 then PThrow (from_errno ret) else
              let size := Z.to_nat ret in
              if bool_decide (size = 0)%nat then PThrow ENOENT else
              if bool_decide (length buffer < size)%nat then PThrow EOVERFLOW else
              mret (mkFsverityDigest size buffer)
          end
      end
  end.

Definition read_sign_data_req_ (arg buf_size : Z) : prog SignDataReq.SignDataReq :=
  bs ← call_result_ (AReadUser arg buf_size size_of_SignDataReq);
  mret (sign_data_req_bytes_mut bs).

Definition write_sign_data_req_ (arg buf_size : Z) (req : SignDataReq.SignDataReq) : prog unit :=
  call_result_ (AWriteUser arg buf_size (sign_data_req_bytes req)).

Definition handle_get_pubkey_ (key_pair : option KeyPair.KeyPair) (arg cmd : Z) : prog Z :=
  kp ← ok_or_ key_pair ENXIO;
  let buf_size := IOC_SIZE cmd in
  if buf_size <? Z.of_nat P256_PUBKEY_BYTES then PThrow E2BIG else
  call_result_ (AWriteUser arg buf_size (KeyPair.pubkey kp)) ≫= fun _ =>
  mret (Z.of_nat P256_PUBKEY_BYTES).

Fixpoint copy_limbs_ (dst : list Z) (i : nat) (limbs_rev : list Z) : prog (list Z) :=
  match limbs_rev with
  | [] => mret dst
  | limb :: limbs_rev =>
      dst ← copy_from_slice_ dst (i * 8) ((i + 1) * 8) (to_be_bytes limb);
      copy_limbs_ dst (S i) limbs_rev
  end.

Definition to_sign_bytes_ (digest : list Z) (user_data : list Z) : prog (list Z) :=
  to_sign_len ← ok_or_ (checked_add (length digest) USER_DATA_BYTES) EINVAL;
  let to_sign := replicate (FS_VERITY_MAX_DIGEST_SIZE + USER_DATA_BYTES) 0 in
  to_sign ← copy_from_slice_ to_sign 0 (length digest) digest;
  to_sign ← copy_from_slice_ to_sign (length digest) to_sign_len user_data;
  slice_ 0 to_sign_len to_sign.

Definition handle_sign_data_ (current : Task) (key_pair : option KeyPair.KeyPair) (arg cmd : Z) : prog Z :=
  let buf_size := IOC_SIZE cmd in
  kp ← ok_or_ key_pair ENXIO;
  if negb (KeyPair.ima_measured kp) then PThrow EPERM else
  fd ← current_exe_fsverity_digest_ current;
  digest ← slice_ 0 (size fd) (buffer fd);
  req ← read_sign_data_req_ arg buf_size;
  to_sign ← to_sign_bytes_ digest (SignDataReq.user_data req);
  let hash := sha256_hash to_sign in
  '(sig_r_limbs, sig_s_limbs) ← sign_ kp to_sign;
  sig_r ← copy_limbs_ (SignDataReq.sig_r req) 0 (reverse sig_r_limbs);
  sig_s ← copy_limbs_ (SignDataReq.sig_s req) 0 (reverse sig_s_limbs);
  pubkey ← copy_from_slice_ (SignDataReq.pubkey req) 0 (length (SignDataReq.pubkey req))
             (KeyPair.pubkey kp);
  write_sign_data_req_ arg buf_size
    (SignDataReq.mk (SignDataReq.user_data req) hash sig_r sig_s pubkey) ≫= fun _ =>
  mret 0.

(** [MiscDevice::ioctl]. *)
Definition ioctl_ (current : Task) (key : option KeyPair.KeyPair) (cmd arg : Z) : prog Z :=
  if cmd =? TARAKO_HELLO then mret 0
  else if cmd =? TARAKO_GET_PUBKEY then handle_get_pubkey_ key arg cmd
  else if cmd =? TARAKO_SIGN_DATA then handle_sign_data_ current key arg cmd
  else PThrow ENOTTY.

(** ** Running a program without a break *)

Definition perform {B} (a : action B) : KM W B :=
  match a in action B return KM W B with
  | AAlloc nd => alloc_point nd
  | AFree p => free_point p
  | ADeref p => deref_point p
  | AReadLimbs o n => read_limbs o n
  | AWriteLimbs o src => write_limbs o src
  | AGenPrivkey curve nd key => call (ecc_gen_privkey curve nd key)
  | AMakePubKey curve nd priv raw => call (ecc_make_pub_key curve nd priv raw)
  | AGetDigest i buf => call (fsverity_get_digest i buf)
  | AReadUser ptr len n => call (read_slice ptr len n)
  | AWriteUser ptr len bs => call (write_slice ptr len bs)
  end.

Fixpoint run {A} (m : prog A) : KM W A :=
  match m with
  | PRet a => mret a
  | PThrow e => throw e
  | PFault x => fail_with x
  | PAct a k => perform a ≫= fun b => run (k b)
  end.

(** *** Agreement *)

Definition agrees {A} (m : KM W A) (p : prog A) : Prop := forall st, run p st = m st.

Lemma agrees_ret {A} (a : A) : agrees (mret a) (mret a).
Proof. done. Qed.
Lemma agrees_throw {A} e : agrees (A := A) (throw e) (PThrow e).
Proof. done. Qed.
Lemma agrees_act {B} (a : action B) : agrees (perform a) (act a).
Proof. intros st. simpl. unfold mbind, M_bind. by destruct (perform a st) as [[] ?]. Qed.

Lemma run_bind {A B} (p : prog A) (f : A -> prog B) st : run (p ≫= f) st = (run p ≫= fun a => run (f a)) st.
Proof.
  revert st. induction p as [a|e|x|C a k IH]; intros st; [done..|]. simpl. unfold mbind, M_bind.
  destruct (perform a st) as [[b|e|x] st']; [|done..]. apply IH.
Qed.

Lemma agrees_bind {A B} (m : KM W A) (f : A -> KM W B) p g :
  agrees m p -> (forall a, agrees (f a) (g a)) -> agrees (m ≫= f) (p ≫= g).
Proof.
  intros Hm Hf st. rewrite run_bind. unfold mbind, M_bind. rewrite Hm.
  destruct (m st) as [[] ?]; [apply Hf | done..].
Qed.

Lemma agrees_ok_or {A} (o : option A) e : agrees (ok_or o e) (ok_or_ o e).
Proof. by destruct o. Qed.
Lemma agrees_question {A} (r : Result A) : agrees (question r) (question_ r).
Proof. by destruct r. Qed.
Lemma agrees_if {A} (b : bool) (m m' : KM W A) p p' :
  agrees m p -> agrees m' p' -> agrees (if b then m else m') (if b then p else p').
Proof. by destruct b. Qed.

(** An action answers or faults; errors are values of its answer. *)
Lemma perform_answers {B} (a : action B) st e st' : perform a st <> (Throw e, st').
Proof.
  destruct a; simpl; unfold alloc_point, free_point, deref_point, read_limbs, write_limbs, call;
    repeat case_match; congruence.
Qed.

Lemma agrees_result {A} (m : KM W A) p : agrees m p -> agrees (as_result m) (result_of p).
Proof.
  intros H st. unfold as_result. rewrite <- H. clear H. revert st.
  induction p as [a|e|x|C a k IH]; intros st; [done..|]. simpl. unfold mbind, M_bind.
  destruct (perform a st) as [[b|e|x] st'] eqn:E; [apply IH | by apply perform_answers in E | done].
Qed.

Lemma agrees_with_drop {A} (d : KM W unit) (m : KM W A) pd p :
  agrees d pd -> agrees m p -> agrees (with_drop d m) (with_drop_ pd p).
Proof.
  intros Hd Hm st. unfold with_drop_. rewrite run_bind. unfold mbind, M_bind at 1.
  rewrite (agrees_result m p Hm). unfold as_result, with_drop.
  assert (forall (r : Result A) s, run (result_of pd ≫= fun _ => question_ r) s =
    match d s with
    | (Fault f, s') => (Fault f, s')
    | (_, s') => (match r with Ok a => Ret a | Err e => Throw e end, s')
    end) as H.
  { intros r s. rewrite run_bind. unfold mbind, M_bind. rewrite (agrees_result d pd Hd).
    unfold as_result. destruct (d s) as [[]]; by destruct r. }
  destruct (m st) as [[] ?]; [apply H.. | done].
Qed.

Lemma agrees_slice lo hi l : agrees (slice lo hi l) (slice_ lo hi l).
Proof. intros st. unfold slice, slice_. by case_bool_decide. Qed.
Lemma agrees_copy dst lo hi src :
  agrees (copy_from_slice dst lo hi src) (copy_from_slice_ dst lo hi src).
Proof. intros st. unfold copy_from_slice, copy_from_slice_. by repeat case_bool_decide. Qed.
Lemma agrees_call_result {A} (f : W -> Result A * W) (a : action (Result A)) :
  perform a = call f -> agrees (call_result f) (call_result_ a).
Proof.
  intros E. unfold call_result. rewrite <- E.
  apply agrees_bind; [apply agrees_act | intros r; apply agrees_question].
Qed.

(** *** The code *)

Create HintDb agrees.
#[local] Hint Resolve agrees_ret agrees_throw agrees_act agrees_ok_or agrees_question agrees_if
  agrees_with_drop agrees_slice agrees_copy : agrees.

(** Two programs that are written alike agree action by action. *)
Ltac agree :=
  repeat first
    [ progress intros
    | progress cbv zeta
    | match goal with
      | |- agrees (_ ≫= _) (_ ≫= _) => apply agrees_bind
      | |- agrees (match ?x with _ => _ end) _ => destruct x
      end
    | solve [eauto with agrees] ].

Lemma x_scalar_agrees self : agrees (x_scalar self) (x_scalar_ self).
Proof.
  apply agrees_bind; [exact (agrees_act (ADeref _)) | intros pt].
  apply agrees_bind; [exact (agrees_act (AReadLimbs _ _)) | intros limbs]. apply agrees_ret.
Qed.

Lemma generate_private_key_agrees : agrees generate_private_key generate_private_key_.
Proof.
  apply agrees_bind; [exact (agrees_act (AGenPrivkey _ _ _)) | intros [ret key]]. agree.
Qed.

Lemma make_public_key_agrees privkey : agrees (make_public_key privkey) (make_public_key_ privkey).
Proof.
  assert (forall p e, agrees (A := Point) (free_point p ≫= fun _ => throw e)
    (act (AFree p) ≫= fun _ => PThrow e)) as Hfree.
  { intros p e. apply agrees_bind; [exact (agrees_act (AFree _)) | intros _; apply agrees_throw]. }
  apply agrees_bind; [exact (agrees_act (AAlloc _)) | intros o].
  apply agrees_bind; [apply agrees_ok_or | intros p].
  apply agrees_bind; [exact (agrees_act (ADeref _)) | intros point].
  apply agrees_if; [apply Hfree|].
  apply agrees_bind; [exact (agrees_act (AMakePubKey _ _ _ _)) | intros [ret raw]].
  apply agrees_if; [apply Hfree|].
  apply agrees_bind; [exact (agrees_act (AWriteLimbs _ _)) | intros _].
  apply agrees_bind; [exact (agrees_act (AWriteLimbs _ _)) | intros _]. apply agrees_ret.
Qed.

Lemma sign_loop_agrees n data_hash privkey curve_n :
  agrees (sign_loop n data_hash privkey curve_n) (sign_loop_ n data_hash privkey curve_n).
Proof.
  induction n as [|n IH]; [apply agrees_throw|]. apply agrees_bind.
  - apply agrees_bind; [apply generate_private_key_agrees | intros k].
    apply agrees_bind; [apply make_public_key_agrees | intros pubk].
    apply agrees_with_drop; [exact (agrees_act (AFree _))|].
    apply agrees_bind; [apply x_scalar_agrees | intros r]. agree.
  - intros [rs|]; [apply agrees_ret | exact IH].
Qed.

Lemma current_digest_agrees current :
  agrees (current_exe_fsverity_digest current) (current_exe_fsverity_digest_ current).
Proof.
  apply agrees_bind; [apply agrees_ok_or | intros mm].
  destruct mm as [mm|]; [|apply agrees_throw]. destruct (exe_file mm) as [file|]; [|apply agrees_throw].
  destruct (f_inode file) as [i|]; [|apply agrees_throw].
  apply agrees_bind; [exact (agrees_act (AGetDigest _ _)) | intros [ret buffer]]. agree.
Qed.

Lemma copy_limbs_agrees dst i limbs : agrees (copy_limbs dst i limbs) (copy_limbs_ dst i limbs).
Proof.
  revert dst i. induction limbs as [|l limbs IH]; intros dst i; [apply agrees_ret|].
  apply agrees_bind; [apply agrees_copy | intros dst'; apply IH].
Qed.

Lemma to_sign_bytes_agrees d u : agrees (to_sign_bytes d u) (to_sign_bytes_ d u).
Proof. unfold to_sign_bytes, to_sign_bytes_. agree. Qed.

Lemma handle_get_pubkey_agrees key arg cmd :
  agrees (handle_get_pubkey key arg cmd) (handle_get_pubkey_ key arg cmd).
Proof.
  apply agrees_bind; [apply agrees_ok_or | intros kp]. apply agrees_if; [apply agrees_throw|].
  apply agrees_bind; [by apply agrees_call_result | intros _; apply agrees_ret].
Qed.

Lemma handle_sign_data_agrees current key arg cmd :
  agrees (handle_sign_data current key arg cmd) (handle_sign_data_ current key arg cmd).
Proof.
  apply agrees_bind; [apply agrees_ok_or | intros kp]. apply agrees_if; [apply agrees_throw|].
  apply agrees_bind; [apply current_digest_agrees | intros fd].
  apply agrees_bind; [apply agrees_slice | intros d].
  apply agrees_bind.
  { apply agrees_bind; [by apply agrees_call_result | intros bs; apply agrees_ret]. }
  intros req. apply agrees_bind; [apply to_sign_bytes_agrees | intros to_sign].
  apply agrees_bind; [apply sign_loop_agrees | intros [r s]].
  apply agrees_bind; [apply copy_limbs_agrees | intros sig_r].
  apply agrees_bind; [apply copy_limbs_agrees | intros sig_s].
  apply agrees_bind; [apply agrees_copy | intros pubkey].
  apply agrees_bind; [by apply agrees_call_result | intros _; apply agrees_ret].
Qed.

Lemma ioctl_agrees current key cmd arg :
  agrees (tarako.ioctl current key cmd arg) (ioctl_ current key cmd arg).
Proof.
  apply agrees_if; [apply agrees_ret|]. apply agrees_if; [apply handle_get_pubkey_agrees|].
  apply agrees_if; [apply handle_sign_data_agrees | apply agrees_throw].
Qed.

(** ** How many actions *)

Fixpoint at_most {A} (n : nat) (p : prog A) {struct p} : Prop :=
  match p with
  | PAct a k => match n with O => False | S n => forall b, at_most n (k b) end
  | _ => True
  end.

Lemma at_most_mono {A} (p : prog A) : forall n m, (n <= m)%nat -> at_most n p -> at_most m p.
Proof.
  induction p as [a|e|x|C a k IH]; intros n m Hle Hn; [done..|].
  destruct n as [|n]; [done|]. destruct m as [|m]; [lia|]. intros b. by apply (IH b n); [lia|apply Hn].
Qed.

Lemma at_most_bind {A B} (p : prog A) (f : A -> prog B) m : forall n,
  at_most n p -> (forall a, at_most m (f a)) -> at_most (n + m) (p ≫= f).
Proof.
  induction p as [a|e|x|C a k IH]; intros n Hn Hf; [|done..|].
  - apply (at_most_mono _ m); [lia | apply Hf].
  - destruct n as [|n]; [done|]. intros b. by apply IH; [apply Hn|].
Qed.

Lemma at_most_result {A} (p : prog A) : forall n, at_most n p -> at_most n (result_of p).
Proof.
  induction p as [a|e|x|C a k IH]; intros n Hn; [done..|].
  destruct n as [|n]; [done|]. intros b. by apply IH, Hn.
Qed.

Lemma at_most_act {B} (a : action B) : at_most 1 (act a).
Proof. done. Qed.
Lemma at_most_ok_or {A} (o : option A) e : at_most 0 (ok_or_ o e).
Proof. by destruct o. Qed.

(** A pure part of the code. *)
Ltac no_action := simpl; repeat case_match; done.

Lemma make_public_key_actions privkey : at_most 5 (make_public_key_ privkey).
Proof.
  intros o. destruct o as [p|]; [|done]. intros point. simpl. destruct (_ || _); [by intros []|].
  intros [ret raw]. simpl. destruct (ret <? 0); [by intros []|]. by intros [] [].
Qed.

Lemma sign_attempt_actions data_hash privkey curve_n :
  at_most 9 (sign_attempt_ data_hash privkey curve_n).
Proof.
  apply (at_most_bind _ _ 8 1); [intros [r k]; no_action | intros k].
  apply (at_most_bind _ _ 3 5); [apply make_public_key_actions | intros pubk].
  apply (at_most_bind _ _ 1 2).
  - apply at_most_result. intros pt limbs. simpl. destruct (vli.is_zero _ _); [done|].
    destruct (vli.from_be_bytes _ _); [|done]. simpl. by destruct (vli.is_zero _ _).
  - intros r. by destruct r.
Qed.

Lemma sign_loop_actions n data_hash privkey curve_n :
  at_most (9 * n) (sign_loop_ n data_hash privkey curve_n).
Proof.
  induction n as [|n IH]; [done|]. replace (9 * S n)%nat with (9 + 9 * n)%nat by lia.
  apply at_most_bind; [apply sign_attempt_actions|]. intros [rs|]; [|exact IH]. done.
Qed.

Lemma copy_limbs_actions dst i limbs : at_most 0 (copy_limbs_ dst i limbs).
Proof.
  revert dst i. induction limbs as [|l limbs IH]; intros dst i; [done|].
  apply (at_most_bind _ _ 0 0); [|intros; apply IH]. unfold copy_from_slice_. no_action.
Qed.

Lemma handle_sign_data_actions current key arg cmd :
  at_most 903 (handle_sign_data_ current key arg cmd).
Proof.
  apply (at_most_bind _ _ 903 0); [apply at_most_ok_or | intros kp].
  destruct (KeyPair.ima_measured kp); [simpl negb; cbv iota | exact I].
  apply (at_most_bind _ _ 902 1).
  { unfold current_exe_fsverity_digest_. destruct (task_mm current) as [[mm|]|]; [|done..]. simpl.
    destruct (exe_file mm) as [f|]; [|done]. destruct (f_inode f); [|done]. intros [r b]. no_action. }
  intros fd. apply (at_most_bind _ _ 902 0); [unfold slice_; no_action | intros d].
  apply (at_most_bind _ _ 901 1); [intros [bs|e]; done | intros req].
  apply (at_most_bind _ _ 901 0).
  { unfold to_sign_bytes_. destruct (checked_add _ _); [|done]. simpl.
    apply (at_most_bind _ _ 0 0); [unfold copy_from_slice_; no_action | intros t].
    apply (at_most_bind _ _ 0 0); [unfold copy_from_slice_; no_action | intros u].
    unfold slice_; no_action. }
  intros to_sign. apply (at_most_mono _ (9 * 100 + 1)%nat); [lia|].
  apply at_most_bind; [apply sign_loop_actions | intros [r s]].
  apply (at_most_bind _ _ 1 0); [apply copy_limbs_actions | intros sig_r].
  apply (at_most_bind _ _ 1 0); [apply copy_limbs_actions | intros sig_s].
  apply (at_most_bind _ _ 1 0); [unfold copy_from_slice_; no_action | intros pubkey].
  intros [[]|e]; done.
Qed.

Lemma ioctl_actions current key cmd arg : at_most 903 (ioctl_ current key cmd arg).
Proof.
  unfold ioctl_. destruct (cmd =? TARAKO_HELLO); [done|]. destruct (cmd =? TARAKO_GET_PUBKEY).
  { apply (at_most_bind _ _ 903 0); [apply at_most_ok_or | intros kp].
    cbv zeta. destruct (IOC_SIZE cmd <? Z.of_nat P256_PUBKEY_BYTES); [done|]. intros [[]|e]; done. }
  destruct (cmd =? TARAKO_SIGN_DATA); [|done]. apply handle_sign_data_actions.
Qed.
End Code.
End programs.
