(* ===== verification/Concurrent.v ===== *)
(** Ioctls that run at the same time.

    Several calls of [MiscDevice::ioctl] are in progress on one kernel; between
    any two actions of one (a call of a kernel function, an access to kernel
    memory), the others act, and the rest of the kernel changes as it likes.

    What a call meets is again a kernel: its state is the memory that the call
    itself has allocated, and every kernel function first lets the others act.
    [view_kernel] is this kernel, and it satisfies the laws if the shared one
    does.  So what [Ioctl] proves for every kernel holds for a call among others;
    [inv] carries it through the interleavings. *)
From S2P Require Import Prelude Exec Ffi RefKernel Vli Ecc Ecdsa Ioctl SetOnce Tarako Programs.
From stdpp Require Import base numbers gmap list strings.
From Stdlib Require Import ZArith Zdivisibility Lia.
#[local] Open Scope Z_scope.

Module concurrent.
Import ecc ioctl programs.

(** ** Maps that others have a share in *)

Section Maps.
Context {V : Type}.
Implicit Types m d : gmap loc V.

Lemma difference_insert_new m d k v :
  d !! k = None -> <[k := v]> m ∖ d = <[k := v]> (m ∖ d).
Proof.
  intros Hd. apply map_eq. intros i. destruct (decide (i = k)) as [->|Hi].
  - rewrite lookup_insert_eq. apply lookup_difference_Some. by rewrite lookup_insert_eq.
  - rewrite lookup_insert_ne by done. rewrite !lookup_difference.
    destruct (d !! i); [done|]. by rewrite lookup_insert_ne.
Qed.

Lemma difference_delete m d k : delete k m ∖ d = delete k (m ∖ d).
Proof.
  apply map_eq. intros i. destruct (decide (i = k)) as [->|Hi].
  - rewrite lookup_delete_eq, lookup_difference. destruct (d !! k); [done|]. apply lookup_delete_eq.
  - rewrite lookup_delete_ne by done. rewrite !lookup_difference.
    destruct (d !! i); [done|]. by rewrite lookup_delete_ne.
Qed.

Lemma subseteq_delete_mine m d m' k : is_Some (d !! k) -> m ∖ d ⊆ m' -> m ∖ d ⊆ delete k m'.
Proof.
  intros [v Hk] H. apply map_subseteq_spec. intros i x Hi. apply lookup_delete_Some. split.
  - intros <-. apply lookup_difference_Some in Hi as [_ Hi]. congruence.
  - by eapply lookup_weaken.
Qed.

(** What is mine of a map that I share with others. *)
Lemma union_difference_mine m d : (m ∪ d) ∖ (d ∖ m) = m.
Proof.
  apply map_eq. intros i. rewrite !lookup_difference, lookup_union.
  destruct (m !! i), (d !! i); done.
Qed.

Lemma union_none m d k : (m ∪ d) !! k = None -> m !! k = None /\ (d ∖ m) !! k = None.
Proof. rewrite lookup_union_None. intros [H1 H2]. split; [done|]. by rewrite lookup_difference, H1. Qed.
End Maps.

(** ** The outcome of a call *)

Section Outcome.
Context {W : Type} `{!Kernel W} `{G : ecdsa.EcGroup}.

(** What a call that returned [v] has transferred: nothing for a hello, the
    public key, or the request and the signed response. *)
Inductive granted (task : Task) (key : option KeyPair.KeyPair) (cmd arg : Z) : Z -> list uaccess -> Prop :=
  | granted_hello : cmd = TARAKO_HELLO -> granted task key cmd arg 0 []
  | granted_pubkey kp : cmd = TARAKO_GET_PUBKEY -> key = Some kp ->
      granted task key cmd arg 33 [UWrite arg (KeyPair.pubkey kp) true]
  | granted_sign kp bs req : cmd = TARAKO_SIGN_DATA -> key = Some kp -> KeyPair.ima_measured kp = true ->
      length bs = size_of_SignDataReq -> SignDataReq.user_data req = take USER_DATA_BYTES bs ->
      covers task kp req -> signature_verifies kp req ->
      granted task key cmd arg 0 [URead arg bs; UWrite arg (sign_data_req_bytes req) true].

(** What a call that failed has transferred: no complete write, and nothing
    that the caller may not have. *)
Definition refused (task : Task) (key : option KeyPair.KeyPair) (arg : Z) (l : list uaccess) : Prop :=
  Forall (fun e => inside arg 257 e /\ ~ completed e /\
                   exists kp, key = Some kp /\ released task kp e) l.

Lemma refused_nil task key arg : refused task key arg [].
Proof. constructor. Qed.

Definition transferred (n : nat) (arg : Z) (Q : list uaccess -> Prop) (st st' : kstate W) : Prop :=
  exists l, transfers l arg n st st' /\ Q l.

Context `{!VliLaws W} `{!EccLaws W} `{!CurveLaws W} `{!VerityLaws W} `{!UserLaws W}
  `{!ecdsa.EcGroupLaws curve_order x_of}.

Lemma ioctl_outcome task key cmd arg st : (forall kp, key = Some kp -> key_pair_ok kp) ->
  wp (tarako.ioctl task key cmd arg)
     (fun v => transferred 257 arg (granted task key cmd arg v) st)
     (fun _ => transferred 257 arg (refused task key arg) st) st.
Proof.
  intros Hk.
  assert (forall Q : list uaccess -> Prop, Q [] -> transferred 257 arg Q st st) as Hid
    by (intros Q HQ; exists []; split; [by apply same_heap_transfers | done]).
  unfold tarako.ioctl. destruct (Z.eqb_spec cmd TARAKO_HELLO) as [E|_].
  { apply wp_ret, Hid. by constructor. }
  destruct (Z.eqb_spec cmd TARAKO_GET_PUBKEY) as [E|_].
  { destruct key as [kp|]; [|exact (Hid _ (refused_nil task None arg))]. destruct (Hk kp eq_refl) as (_ & _ & _ & _ & Ep).
    assert (P256_PUBKEY_BYTES <= 257)%nat as Hle by (vm_compute; lia).
    eapply wp_mono; [apply handle_get_pubkey_ok; rewrite Ep;
      [apply sec1_compress_wf | apply sec1_compress_length]|..].
    - intros r st' (-> & _ & Ht & _). eexists. split; [by eapply transfers_weaken|]. by apply granted_pubkey.
    - intros e st' [(_ & -> & _)|[_ Ht]]; [apply Hid, refused_nil|]. apply (transfers_weaken _ _ _ 257) in Ht; [|done].
      eexists. split; [done|]. destruct Ht as (_ & _ & _ & _ & Hi & _).
      constructor; [|done]. split_and!; [by apply Forall_inv in Hi | by intros [] | exists kp; split; [done | by left]]. }
  destruct (Z.eqb_spec cmd TARAKO_SIGN_DATA) as [E|_]; [|apply wp_throw, Hid, refused_nil].
  destruct key as [kp|]; [|exact (Hid _ (refused_nil task None arg))]. destruct (KeyPair.ima_measured kp) eqn:Hm.
  - eapply wp_mono; [apply handle_sign_data_attests; auto|..]; simpl.
    + intros r st' (-> & bs & req & Hl & Ht & Eu & Hc & Hs & _). eexists. split; [done|].
      by eapply granted_sign.
    + intros e st' (l & Ht & Hl). exists l. split; [done|]. destruct Ht as (_ & _ & _ & _ & Hi & _).
      apply Forall_forall. intros x Hx. rewrite Forall_forall in Hi, Hl.
      destruct (Hl x Hx). split_and!; [by apply Hi | done | by exists kp].
  - unfold handle_sign_data. apply wp_bind, wp_ret. rewrite Hm. apply wp_throw, Hid, refused_nil.
Qed.
End Outcome.

(** ** The kernel that one call sees *)

Section View.
Context {W : Type} `{!Kernel W}.

(** The transfers of the call so far, and the memory of the others and the world
    that its next kernel calls will find. *)
Record view := mkView {
  mine : list uaccess;
  env : nat -> kstate W }.

Definition cons_env (s : kstate W) (e : nat -> kstate W) : nat -> kstate W :=
  fun n => match n with O => s | S n => e n end.

Definition found (v : view) : kstate W := env v 0.
Definition later (l : list uaccess) (v : view) : view := mkView (mine v ++ l) (fun n => env v (S n)).

(** The shared kernel with the call's own memory, and back. *)
Definition shared (st : kstate view) : kstate W :=
  let s := found (world st) in
  KState (points st ∪ points s) (mem st ∪ mem s) (world s).
Definition own (st : kstate view) (s' : kstate W) : kstate view :=
  let s := found (world st) in
  KState (points s' ∖ (points s ∖ points st)) (mem s' ∖ (mem s ∖ mem st)) (later [] (world st)).

Definition on_world {A} (f : W -> A * W) (v : view) : A * view :=
  (fst (f (world (found v))), later [] v).

#[local] Instance view_kernel : Kernel view := {|
  ecc_alloc_point nd st := let '(o, s') := ecc_alloc_point nd (shared st) in (o, own st s');
  ecc_free_point p st := own st (ecc_free_point p (shared st));
  ecc_gen_privkey c nd key := on_world (ecc_gen_privkey c nd key);
  ecc_make_pub_key c nd priv raw := on_world (ecc_make_pub_key c nd priv raw);
  ecc_get_curve := ecc_get_curve;
  ecc_digits_from_bytes := ecc_digits_from_bytes;
  vli_mod_inv := vli_mod_inv;
  vli_mod_mult_slow := vli_mod_mult_slow;
  vli_cmp := vli_cmp;
  vli_sub := vli_sub;
  vli_is_zero := vli_is_zero;
  sha256 := sha256;
  ima_measure_critical_data label name buf h d := on_world (ima_measure_critical_data label name buf h d);
  fsverity_get_digest i buf := on_world (fsverity_get_digest i buf);
  from_errno := from_errno;
  read_slice ptr len n v :=
    let r := fst (read_slice ptr len n (world (found v))) in
    (r, later match r with Ok bs => [URead ptr bs] | Err _ => [] end v);
  write_slice ptr len bs v :=
    let r := fst (write_slice ptr len bs (world (found v))) in
    (r, later [UWrite ptr bs match r with Ok _ => true | Err _ => false end] v);
  IO := IO;
  IOR := IOR;
  IOWR := IOWR;
  IOC_SIZE := IOC_SIZE;
  misc_register name := on_world (misc_register name);
  misc_deregister v := later [] v;
  ima_log _ := [];
  user_log v := mine v;
  user_byte _ _ := None;
  quiet := False;
  verity_digest := verity_digest;
  curve_order := curve_order;
  curve_coords := curve_coords |}.

Lemma later_keeps v : keeps v (later [] v).
Proof. split_and!; [done | apply app_nil_r | done]. Qed.

Lemma on_world_run {A} (f : W -> A * W) v a v' : on_world f v = (a, v') ->
  keeps v v' /\ exists w', f (world (found v)) = (a, w').
Proof.
  intros [= <- <-]. split; [apply later_keeps|]. exists (snd (f (world (found v)))).
  by destruct (f _).
Qed.

#[local] Instance view_VliLaws `{H : !VliLaws W} : VliLaws view.
Proof. split; apply H. Qed.

#[local] Instance view_IoctlLaws `{H : !IoctlLaws W} : IoctlLaws view.
Proof. split; apply H. Qed.

Lemma own_points_eq st s' p pt :
  (points (shared st)) !! p = None -> points s' = <[p := pt]> (points (shared st)) ->
  points (own st s') = <[p := pt]> (points st).
Proof.
  intros Hp E. apply union_none in Hp as [_ Hd]. simpl. rewrite E. simpl.
  rewrite difference_insert_new by done. by rewrite union_difference_mine.
Qed.

#[local] Instance view_EccLaws `{!EccLaws W} : EccLaws view.
Proof.
  split.
  - intros nd st o st'. simpl. destruct (ecc_alloc_point nd (shared st)) as [o' s'] eqn:E.
    intros [= <- <-]. split; [apply later_keeps|].
    destruct (ecc_alloc_ok _ _ _ _ E) as [_ Ho]. destruct o' as [p|].
    + destruct Ho as (pt & bx & by_ & Hp & Ep & Em & Hx & Hy & Hxy & Lx & Ly).
      pose proof (union_none _ _ _ Hp) as [Hp1 _].
      exists pt, bx, by_. split_and!; try done.
      * by apply own_points_eq.
      * simpl. rewrite Em. simpl. destruct (ffi.x pt) as [lx|], (ffi.y pt) as [ly|]; simpl;
          repeat rewrite difference_insert_new by
            first [by apply (union_none _ _ _ (Hx _ eq_refl)) | by apply (union_none _ _ _ (Hy _ eq_refl))];
          by rewrite union_difference_mine.
      * intros l Hl. by apply (union_none _ _ _ (Hx l Hl)).
      * intros l Hl. by apply (union_none _ _ _ (Hy l Hl)).
    + destruct Ho as [Ep Em]. simpl. rewrite Ep, Em. simpl. by rewrite !union_difference_mine.
  - intros p st pt Hp. split; [apply later_keeps|].
    assert (points (shared st) !! p = Some pt) as Hp' by (by apply lookup_union_Some_l).
    destruct (ecc_free_ok p (shared st) pt Hp') as (_ & Ep & Em). simpl. rewrite Ep, Em. split.
    + simpl. by rewrite difference_delete, union_difference_mine.
    + simpl. destruct (ffi.x pt) as [lx|], (ffi.y pt) as [ly|]; simpl;
        by rewrite ?difference_delete, union_difference_mine.
  - intros cid nd key v r key' v' [Hk [w' E]]%on_world_run.
    split; [done|]. by destruct (ecc_gen_privkey_frame _ _ _ _ _ _ _ E).
  - intros cid nd priv raw v r raw' v' [Hk [w' E]]%on_world_run.
    split; [done|]. by destruct (ecc_make_pub_key_frame _ _ _ _ _ _ _ _ E).
Qed.

#[local] Instance view_CurveLaws `{H : !CurveLaws W} : CurveLaws view.
Proof.
  split; try apply H.
  - intros key v r key' v' Hl [_ [w' E]]%on_world_run. intros Hr.
    exact (gen_privkey_ok key _ r key' w' Hl E Hr).
  - intros priv raw v r raw' v' Hp Hr Hl [_ [w' E]]%on_world_run. intros Hr0.
    exact (make_pub_key_ok priv raw _ r raw' w' Hp Hr Hl E Hr0).
Qed.

#[local] Instance view_VerityLaws `{!VerityLaws W} : VerityLaws view.
Proof.
  split.
  - intros i buf v r buf' v' [Hk [w' E]]%on_world_run. split; [done|].
    by destruct (fsverity_frame _ _ _ _ _ _ E).
  - intros i buf v r buf' v' [Hk [w' E]]%on_world_run. intros H1 H2.
    exact (fsverity_ok i buf _ r buf' w' E H1 H2).
Qed.

#[local] Instance view_UserLaws `{!UserLaws W} : UserLaws view.
Proof.
  split.
  - intros ptr len n v bs v'. simpl. destruct (read_slice ptr len n _) as [r w'] eqn:E. simpl.
    intros [= -> <-]. destruct (read_slice_ok _ _ _ _ _ _ E) as (_ & _ & Hl & Hn & Hb & _).
    by split_and!.
  - intros ptr len n v e v'. simpl. destruct (read_slice ptr len n _) as [r w'] eqn:E. simpl.
    intros [= -> <-]. split; [apply later_keeps|]. by destruct (read_slice_err _ _ _ _ _ _ E).
  - intros ptr len bs v v'. simpl. destruct (write_slice ptr len bs _) as [r w'] eqn:E. simpl.
    intros [= -> <-]. destruct (write_slice_ok _ _ _ _ _ E) as (_ & _ & Hl & _). by split_and!.
  - intros ptr len bs v e v'. simpl. destruct (write_slice ptr len bs _) as [r w'] eqn:E. simpl.
    intros [= -> <-]. destruct (write_slice_err _ _ _ _ _ _ E) as (_ & _ & He & _). by split_and!.
Qed.

(** ** One action of a call among others *)

(** What an action has transferred, by its answer. *)
Definition transfer {B} (a : action B) : B -> list uaccess :=
  match a in action B return B -> list uaccess with
  | AReadUser ptr _ _ => fun r => match r with Ok bs => [URead ptr bs] | Err _ => [] end
  | AWriteUser ptr _ bs => fun r => [UWrite ptr bs match r with Ok _ => true | Err _ => false end]
  | _ => fun _ => []
  end.

(** The points of a call have buffers that are the call's, each its own. *)
Definition buffer_of (pt : ffi.Point) (l : loc) : Prop := ffi.x pt = Some l \/ ffi.y pt = Some l.
Definition closed (P : gmap loc ffi.Point) (M : gmap loc (list Z)) : Prop :=
  (forall p pt l, P !! p = Some pt -> buffer_of pt l -> is_Some (M !! l)) /\
  (forall p q pt pt' l, P !! p = Some pt -> P !! q = Some pt' -> buffer_of pt l -> buffer_of pt' l -> p = q).

(** [m'] is [m] with the share [x] replaced by [x']. *)
Definition replaces {V} (m x m' x' : gmap loc V) : Prop :=
  x' ##ₘ m ∖ x /\ m' = x' ∪ (m ∖ x).

Lemma replaces_refl {V} (m x : gmap loc V) : x ⊆ m -> replaces m x m x.
Proof. intros H. split; [by apply map_disjoint_difference_r1 | by rewrite map_difference_union]. Qed.

Lemma replaces_rest {V} (m x m' : gmap loc V) : m ∖ x ⊆ m' -> replaces m x m' (m' ∖ (m ∖ x)).
Proof.
  intros H. assert (m' ∖ (m ∖ x) ##ₘ m ∖ x) as Hd by (by apply map_disjoint_difference_l1).
  split; [done|]. rewrite map_union_comm by done. by rewrite map_difference_union.
Qed.

Lemma replaces_insert {V} (m x : gmap loc V) k v v' : x ⊆ m -> x !! k = Some v ->
  replaces m x (<[k := v']> m) (<[k := v']> x).
Proof.
  intros Hx Hk. split.
  - apply map_disjoint_insert_l_2; [|by apply map_disjoint_difference_r1].
    rewrite lookup_difference. by rewrite Hk.
  - by rewrite <- insert_union_l, map_difference_union.
Qed.

Lemma difference_twice {V} (m x : gmap loc V) : (m ∖ x) ∖ x = m ∖ x.
Proof. apply map_eq. intros i. rewrite !lookup_difference. by destruct (x !! i). Qed.

(** The snapshot with which the call sees exactly the shared state. *)
Definition rest_of (st : kstate W) (P : gmap loc ffi.Point) (M : gmap loc (list Z)) : kstate W :=
  KState (points st ∖ P) (mem st ∖ M) (world st).

Lemma shared_rest st P M l e : P ⊆ points st -> M ⊆ mem st ->
  shared (KState P M (mkView l (cons_env (rest_of st P M) e))) = st.
Proof.
  intros HP HM. unfold shared. simpl. rewrite !map_difference_union by done. by destruct st.
Qed.

Lemma own_rest st P M l e s' :
  own (KState P M (mkView l (cons_env (rest_of st P M) e))) s' =
  KState (points s' ∖ (points st ∖ P)) (mem s' ∖ (mem st ∖ M)) (mkView (l ++ []) e).
Proof. unfold own. simpl. by rewrite !difference_twice. Qed.

Lemma closed_alloc `{!EccLaws W} nd (v : kstate view) o v' :
  closed (points v) (mem v) -> ecc_alloc_point nd v = (o, v') -> closed (points v') (mem v').
Proof.
  intros [H1 H2] E. destruct (ecc_alloc_ok _ _ _ _ E) as [_ Ho].
  destruct o as [p|]; [|by destruct Ho as [-> ->]].
  destruct Ho as (pt & bx & by_ & Hp & -> & -> & Hx & Hy & Hxy & _).
  assert (forall q pt' l, points v !! q = Some pt' -> buffer_of pt' l -> ~ buffer_of pt l) as Hn.
  { intros q pt' l Hq Hl [E1|E1]; destruct (H1 _ _ _ Hq Hl) as [b Eb];
      [rewrite (Hx l E1) in Eb | rewrite (Hy l E1) in Eb]; done. }
  split.
  - intros q pt' l [[<- <-]|[Hne Hq]]%lookup_insert_Some Hl.
    + destruct Hl as [E1|E1]; rewrite E1; simpl; [destruct (ffi.y pt) as [ly|]; simpl|];
        rewrite ?lookup_insert_is_Some'; rewrite ?lookup_insert_eq; eauto.
    + destruct (H1 q pt' l Hq Hl) as [b Eb]. unfold add_buf.
      destruct (ffi.x pt), (ffi.y pt); rewrite ?lookup_insert_is_Some'; eauto.
  - intros q q' pt1 pt2 l [[<- <-]|[Hne Hq]]%lookup_insert_Some [[<- <-]|[Hne' Hq']]%lookup_insert_Some Hl Hl';
      [done | | | by eauto]; exfalso; by eapply Hn.
Qed.

Lemma closed_free `{!EccLaws W} p pt (v : kstate view) :
  closed (points v) (mem v) -> points v !! p = Some pt ->
  closed (points (ecc_free_point p v)) (mem (ecc_free_point p v)).
Proof.
  intros [H1 H2] Hp. destruct (ecc_free_ok p v pt Hp) as (_ & -> & ->). split.
  - intros q pt' l [Hne Hq]%lookup_delete_Some Hl. destruct (H1 q pt' l Hq Hl) as [b Eb]. exists b.
    assert (~ buffer_of pt l) as Hn by (intros Hl'; by apply Hne, (H2 p q pt pt' l)).
    unfold del_buf. unfold buffer_of in Hn.
    destruct (ffi.x pt), (ffi.y pt); rewrite ?lookup_delete_ne by (intros ->; tauto); done.
  - intros q q' pt1 pt2 l [_ Hq]%lookup_delete_Some [_ Hq']%lookup_delete_Some. by eapply H2.
Qed.

(** A call that owns [P] and [M] answers an action [a] on the shared state as it
    would in its view, and only its own share changes. *)
Definition acts {B} (a : action B) (st : kstate W) P M l (r : B) (st' : kstate W) P' M' : Prop :=
  perform a st = (Ret r, st') /\
  replaces (points st) P (points st') P' /\ replaces (mem st) M (mem st') M' /\ closed P' M' /\
  forall e, exists e0,
    perform a (KState P M (mkView l e0)) = (Ret r, KState P' M' (mkView (l ++ transfer a r) e)).

Section Act.
Context `{!EccLaws W} (st : kstate W) (P : gmap loc ffi.Point) (M : gmap loc (list Z)) (l : list uaccess).
Context (HP : P ⊆ points st) (HM : M ⊆ mem st) (HC : closed P M).

Lemma alloc_acts nd : exists r st' P' M', acts (AAlloc nd) st P M l r st' P' M'.
Proof using All.
  destruct (ecc_alloc_point nd st) as [o st'] eqn:E.
  pose proof (proj2 (ecc_alloc_ok _ _ _ _ E)) as Ho.
  assert (forall e, ecc_alloc_point nd (KState P M (mkView l (cons_env (rest_of st P M) e))) =
    (o, KState (points st' ∖ (points st ∖ P)) (mem st' ∖ (mem st ∖ M)) (mkView (l ++ []) e))) as Ev.
  { intros e. simpl. rewrite shared_rest, E by done. by rewrite own_rest. }
  exists o, st', (points st' ∖ (points st ∖ P)), (mem st' ∖ (mem st ∖ M)). split_and!.
  - simpl. unfold alloc_point. by rewrite E.
  - apply replaces_rest. etrans; [apply map_subseteq_difference_l; reflexivity|].
    destruct o as [p|]; [|by destruct Ho as [-> _]].
    destruct Ho as (pt & bx & by_ & Hp & -> & _). by apply insert_subseteq.
  - apply replaces_rest. etrans; [apply map_subseteq_difference_l; reflexivity|].
    destruct o as [p|]; [|by destruct Ho as [_ ->]].
    destruct Ho as (pt & bx & by_ & _ & _ & -> & Hx & Hy & Hxy & _).
    destruct (ffi.x pt) as [lx|] eqn:Ex, (ffi.y pt) as [ly|] eqn:Ey; simpl;
      [| by apply insert_subseteq; auto .. | done].
    etrans; [apply (insert_subseteq _ lx); auto|]. apply insert_subseteq.
    rewrite lookup_insert_ne by (intros ->; by apply (Hxy ly)). auto.
  - apply (closed_alloc nd (KState P M (mkView l (cons_env (rest_of st P M) (fun _ => st)))) o _ HC (Ev _)).
  - intros e. exists (cons_env (rest_of st P M) e). simpl perform. unfold alloc_point. by rewrite Ev.
Qed.

Lemma free_acts p pt : P !! p = Some pt ->
  exists st' P' M', acts (AFree p) st P M l tt st' P' M'.
Proof using All.
  intros Hp. assert (points st !! p = Some pt) as Hp' by (by eapply lookup_weaken).
  destruct (ecc_free_ok p st pt Hp') as (_ & Ep & Em).
  set (st' := ecc_free_point p st) in *.
  assert (forall e, ecc_free_point p (KState P M (mkView l (cons_env (rest_of st P M) e))) =
    KState (points st' ∖ (points st ∖ P)) (mem st' ∖ (mem st ∖ M)) (mkView (l ++ []) e)) as Ev.
  { intros e. simpl. rewrite shared_rest by done. by rewrite own_rest. }
  exists st', (points st' ∖ (points st ∖ P)), (mem st' ∖ (mem st ∖ M)). split_and!.
  - simpl. unfold free_point. by rewrite Hp'.
  - apply replaces_rest. rewrite Ep. apply subseteq_delete_mine; [by eexists|].
    apply map_subseteq_difference_l; reflexivity.
  - apply replaces_rest. rewrite Em.
    assert (mem st ∖ M ⊆ mem st) as H0 by (apply map_subseteq_difference_l; reflexivity).
    destruct (ffi.x pt) as [lx|] eqn:Ex, (ffi.y pt) as [ly|] eqn:Ey; simpl;
      repeat (apply subseteq_delete_mine; [apply (proj1 HC p pt); [done|]; unfold buffer_of; auto|]); done.
  - pose proof (closed_free p pt (KState P M (mkView l (cons_env (rest_of st P M) (fun _ => st)))) HC Hp) as H.
    by rewrite Ev in H.
  - intros e. exists (cons_env (rest_of st P M) e). simpl perform. unfold free_point.
    simpl points. rewrite Hp. by rewrite Ev.
Qed.

(** An action that changes neither points nor buffers. *)
Lemma keep_acts {B} (a : action B) r w' : perform a st = (Ret r, KState (points st) (mem st) w') ->
  (forall e, exists e0, perform a (KState P M (mkView l e0)) = (Ret r, KState P M (mkView (l ++ transfer a r) e))) ->
  exists r st' P' M', acts a st P M l r st' P' M'.
Proof using HP HM HC.
  intros E Ev. exists r, (KState (points st) (mem st) w'), P, M. by split_and!; try apply replaces_refl.
Qed.

Lemma call_acts {B} (a : action B) (f : W -> B * W) (g : view -> B * view) :
  perform a = call f -> perform a = call g ->
  (forall v, g v = (fst (f (world (found v))), later (transfer a (fst (f (world (found v))))) v)) ->
  exists r st' P' M', acts a st P M l r st' P' M'.
Proof using HP HM HC.
  intros Ef Eg Hg. destruct (f (world st)) as [r w'] eqn:E. apply (keep_acts a r w').
  - rewrite Ef. unfold call. by rewrite E.
  - intros e. exists (cons_env (rest_of st P M) e). rewrite Eg. unfold call. simpl world.
    rewrite Hg. simpl. by rewrite E.
Qed.

(** The action does not fault in the view of the call. *)
Abbreviation safe a := (forall e f s, perform a (KState P M (mkView l e)) <> (Fault f, s)).

(** A pointer that is not the call's would be a fault in its view. *)
Ltac not_mine Hf f Hb :=
  destruct (Hf (fun _ => st) BadPointer (KState P M (mkView l (fun _ => st))));
  simpl; unfold f; simpl; rewrite Hb, ?bool_decide_false by done; done.

Lemma read_acts o n : safe (AReadLimbs o n) -> exists r st' P' M', acts (AReadLimbs o n) st P M l r st' P' M'.
Proof using HP HM HC.
  intros Hf. destruct o as [a|]; [|by destruct (Hf (fun _ => st) BadPointer _ eq_refl)].
  destruct (M !! a) as [b|] eqn:Hb; [destruct (decide (n <= length b)%nat) as [Hn|Hn]|].
  - apply (keep_acts _ (take n b) (world st)).
    + simpl. unfold read_limbs. simpl. rewrite (lookup_weaken _ _ _ _ Hb HM).
      rewrite bool_decide_true by done. by destruct st.
    + intros e. exists e. simpl. unfold read_limbs. simpl. by rewrite Hb, bool_decide_true, app_nil_r.
  - not_mine Hf (@read_limbs) Hb.
  - not_mine Hf (@read_limbs) Hb.
Qed.

Lemma write_acts o src : safe (AWriteLimbs o src) ->
  exists r st' P' M', acts (AWriteLimbs o src) st P M l r st' P' M'.
Proof using HP HM HC.
  intros Hf. destruct o as [a|]; [|by destruct (Hf (fun _ => st) BadPointer _ eq_refl)].
  destruct (M !! a) as [b|] eqn:Hb; [destruct (decide (length src <= length b)%nat) as [Hn|Hn]|].
  - set (b' := src ++ drop (length src) b).
    exists tt, (KState (points st) (<[a := b']> (mem st)) (world st)), P, (<[a := b']> M). split_and!.
    + simpl. unfold write_limbs. rewrite (lookup_weaken _ _ _ _ Hb HM). by rewrite bool_decide_true.
    + by apply replaces_refl.
    + by apply (replaces_insert _ _ _ b).
    + destruct HC as [H1 H2]. split; [|done]. intros p pt q Hp Hq.
      apply lookup_insert_is_Some'. right. by eapply H1.
    + intros e. exists e. simpl. unfold write_limbs. simpl. by rewrite Hb, bool_decide_true, app_nil_r.
  - not_mine Hf (@write_limbs) Hb.
  - not_mine Hf (@write_limbs) Hb.
Qed.

(** Every action that does not fault in the view of the call. *)
Lemma act_acts {B} (a : action B) :
  safe a -> exists r st' P' M', acts a st P M l r st' P' M'.
Proof using All.
  intros Hf. destruct a as [nd|p|p|o n|o src|c nd key|c nd priv raw|i buf|ptr len n|ptr len bs].
  - apply alloc_acts.
  - destruct (P !! p) as [pt|] eqn:Hp; [exists tt; by eapply free_acts|].
    not_mine Hf (@free_point) Hp.
  - destruct (P !! p) as [pt|] eqn:Hp.
    + apply (keep_acts _ pt (world st)).
      * simpl. unfold deref_point. rewrite (lookup_weaken _ _ _ _ Hp HP). by destruct st.
      * intros e. exists e. simpl. unfold deref_point. simpl. by rewrite Hp, app_nil_r.
    + not_mine Hf (@deref_point) Hp.
  - by apply read_acts.
  - by apply write_acts.
  - by apply (call_acts _ (ecc_gen_privkey c nd key) (ecc_gen_privkey c nd key)).
  - by apply (call_acts _ (ecc_make_pub_key c nd priv raw) (ecc_make_pub_key c nd priv raw)).
  - by apply (call_acts _ (fsverity_get_digest i buf) (fsverity_get_digest i buf)).
  - by apply (call_acts _ (read_slice ptr len n) (read_slice ptr len n)).
  - by apply (call_acts _ (write_slice ptr len bs) (write_slice ptr len bs)).
Qed.
End Act.
End View.
Arguments view W : clear implicits.

(** ** Heaps in shares *)

Section Splits.
Context {V : Type}.

(** The map consists of the given pairwise disjoint parts. *)
Inductive splits : gmap loc V -> list (gmap loc V) -> Prop :=
  | splits_nil : splits ∅ []
  | splits_cons x m xs : x ##ₘ m -> splits m xs -> splits (x ∪ m) (x :: xs).

Lemma splits_one m : splits m [m].
Proof.
  rewrite <- (map_union_empty m) at 1. constructor; [apply map_disjoint_empty_r | constructor].
Qed.

Lemma splits_swap m x y xs : splits m (x :: y :: xs) -> splits m (y :: x :: xs).
Proof.
  inversion 1 as [|? r ? Hx Hr]; subst. inversion Hr as [|? r' ? Hy Hr']; subst.
  apply map_disjoint_union_r in Hx as [Hxy Hx].
  rewrite map_union_assoc, (map_union_comm x y), <- map_union_assoc by done.
  constructor; [apply map_disjoint_union_r; by split|]. by constructor.
Qed.

#[export] Instance splits_Permutation m : Proper ((≡ₚ) ==> iff) (splits m).
Proof.
  assert (forall xs ys, xs ≡ₚ ys -> forall m, splits m xs -> splits m ys) as H.
  { induction 1 as [|x xs ys _ IH|x y xs|xs ys zs _ IH1 _ IH2]; intros m' Hm; auto.
    - inversion Hm; subst. constructor; auto.
    - by apply splits_swap. }
  intros xs ys E. split; [by apply H | apply H; by symmetry].
Qed.

Lemma splits_part m f1 x f2 : splits m (f1 ++ x :: f2) -> x ⊆ m.
Proof. rewrite <- Permutation_middle. inversion 1; subst. apply map_union_subseteq_l. Qed.

(** Who replaces his share leaves the others theirs. *)
Lemma splits_replaces m m' f1 x x' f2 :
  splits m (f1 ++ x :: f2) -> replaces m x m' x' -> splits m' (f1 ++ x' :: f2).
Proof.
  rewrite <- !Permutation_middle. inversion 1 as [|? r ? Hx Hr]; subst. intros [Hd ->].
  assert ((x ∪ r) ∖ x = r) as E.
  { apply map_eq. intros i. rewrite lookup_difference, lookup_union. destruct (x !! i) eqn:Ei; simpl.
    - symmetry. by eapply map_disjoint_Some_l.
    - by destruct (r !! i). }
  rewrite E in *. by constructor.
Qed.

Lemma splits_empty m xs : splits m xs -> Forall (eq ∅) xs -> m = ∅.
Proof.
  induction 1 as [|x m xs _ _ IH]; [done|]. intros [<- Hx]%Forall_cons. rewrite IH by done.
  apply map_empty_union.
Qed.

Lemma splits_alone m x xs : splits m (x :: xs) -> Forall (eq ∅) xs -> m = x.
Proof.
  inversion 1 as [|? r ? _ Hr]; subst. intros He. rewrite (splits_empty r xs) by done.
  apply map_union_empty.
Qed.

Lemma splits_snoc_empty m xs : splits m xs -> splits m (xs ++ [∅]).
Proof.
  intros H. rewrite <- Permutation_cons_append, <- (map_empty_union m).
  constructor; [apply map_disjoint_empty_l | done].
Qed.
End Splits.

(** ** Calls in progress *)

Section Pool.
Context {W : Type} `{!Kernel W}.

(** A call: its caller, the key it found, its arguments, the code it has still to
    run, what it has transferred, and the number of its actions so far. *)
Record thread := mkThread {
  caller : Task;
  key : option KeyPair.KeyPair;
  cmd : Z;
  arg : Z;
  code : prog Z;
  log : list uaccess;
  taken : nat }.

Record pool := mkPool {
  kernel : kstate W;
  threads : list thread }.

Definition enter (task : Task) (key : option KeyPair.KeyPair) (cmd arg : Z) : thread :=
  mkThread task key cmd arg (ioctl_ task key cmd arg) [] 0.

(** The call goes on with the answer of its action. *)
Definition resume {B} (k : B -> prog Z) (r : exec B) : prog Z :=
  match r with Ret b => k b | Throw e => PThrow e | Fault f => PFault f end.
Definition transfer_of {B} (a : action B) (r : exec B) : list uaccess :=
  match r with Ret b => transfer a b | _ => [] end.

(** The next action of a call, if it has not ended. *)
Definition advance (t : thread) (st : kstate W) : option (thread * kstate W) :=
  match code t with
  | PAct a k =>
      let '(r, st') := perform a st in
      Some (mkThread (caller t) (key t) (cmd t) (arg t) (resume k r)
              (log t ++ transfer_of a r) (S (taken t)), st')
  | _ => None
  end.

(** A new call starts, one of the calls acts, or something else happens in the
    kernel, outside of the calls' memory. *)
Inductive pool_step : pool -> pool -> Prop :=
  | step_enter p task key cmd arg :
      (forall kp, key = Some kp -> key_pair_ok kp) ->
      pool_step p (mkPool (kernel p) (threads p ++ [enter task key cmd arg]))
  | step_act st st' l1 t t' l2 :
      advance t st = Some (t', st') ->
      pool_step (mkPool st (l1 ++ t :: l2)) (mkPool st' (l1 ++ t' :: l2))
  | step_world p w' :
      keeps (world (kernel p)) w' ->
      pool_step p (mkPool (KState (points (kernel p)) (mem (kernel p)) w') (threads p)).

Definition ended (t : thread) : bool := match code t with PAct _ _ => false | _ => true end.

(** *** The invariant *)

Context `{G : ecdsa.EcGroup}.

(** How a call ends, with nothing left in its share. *)
Definition returns_ok (t : thread) (v : Z) (s : kstate (view W)) : Prop :=
  points s = ∅ /\ mem s = ∅ /\ granted (caller t) (key t) (cmd t) (arg t) v (mine (world s)).
Definition throws_ok (t : thread) (e : Error) (s : kstate (view W)) : Prop :=
  points s = ∅ /\ mem s = ∅ /\ refused (caller t) (key t) (arg t) (mine (world s)).

(** Whatever the others do from now on, the call ends well; it owns the share
    [f] of the heap and has not more than the rest of its 903 actions to make. *)
Definition thread_ok (t : thread) (f : gmap loc ffi.Point * gmap loc (list Z)) : Prop :=
  closed (fst f) (snd f) /\ (taken t <= 903)%nat /\ at_most (903 - taken t) (code t) /\
  forall e, wp (@run (view W) view_kernel Z (code t)) (returns_ok t) (throws_ok t)
              (KState (fst f) (snd f) (mkView (log t) e)).

Record inv (st0 : kstate W) (p : pool) (fs : list (gmap loc ffi.Point * gmap loc (list Z))) : Prop := {
  inv_points : splits (points (kernel p)) (points st0 :: (fst <$> fs));
  inv_mem : splits (mem (kernel p)) (mem st0 :: (snd <$> fs));
  inv_threads : Forall2 thread_ok (threads p) fs;
  inv_log : user_log (world (kernel p)) ≡ₚ user_log (world st0) ++ mjoin (log <$> threads p) }.

Context `{!VliLaws W} `{!EccLaws W} `{!CurveLaws W} `{!VerityLaws W} `{!UserLaws W}
  `{!ecdsa.EcGroupLaws curve_order x_of}.

Lemma granted_view task key cmd arg v l :
  @granted (view W) view_kernel _ task key cmd arg v l -> granted task key cmd arg v l.
Proof. intros [?|? ? ?|? ? ? ? ? ? ? ? ? ?]; [by apply granted_hello | by apply granted_pubkey | by eapply granted_sign]. Qed.

Lemma enter_ok task key cmd arg : (forall kp, key = Some kp -> key_pair_ok kp) ->
  thread_ok (enter task key cmd arg) (∅, ∅).
Proof.
  intros Hk. split_and!; simpl; [done | lia | apply ioctl_actions |]. intros e.
  pose proof (@ioctl_outcome (view W) view_kernel _ view_VliLaws view_EccLaws view_CurveLaws view_VerityLaws
    view_UserLaws _ task key cmd arg (KState ∅ ∅ (mkView [] e)) Hk) as Ho. unfold wp in *.
  rewrite <- (@ioctl_agrees (view W) view_kernel task key cmd arg) in Ho.
  change (@ioctl_ (view W) view_kernel) with (@ioctl_ W _) in Ho.
  destruct (run _ _) as [[v|err|] s]; [| |done];
    destruct Ho as (l & (Ep & Em & _ & El & _) & Hg); simpl in El; subst l; split_and!; try done.
  by apply granted_view.
Qed.

(** The kernel's record of transfers grows by what the action transfers. *)
Lemma perform_log {B} (a : action B) st r st' : perform a st = (Ret r, st') ->
  user_log (world st') = user_log (world st) ++ transfer a r.
Proof.
  destruct a as [nd|p|p|o n|o src|c nd key|c nd priv raw|i buf|ptr len n|ptr len bs]; simpl;
    unfold alloc_point, free_point, deref_point, read_limbs, write_limbs, call.
  - destruct (ecc_alloc_point nd st) as [o s] eqn:E. intros [= <- <-]. rewrite app_nil_r.
    by destruct (ecc_alloc_ok _ _ _ _ E) as [(_ & ? & _) _].
  - destruct (points st !! p) eqn:E; [|done]. intros [= <- <-]. rewrite app_nil_r.
    by destruct (ecc_free_ok p st _ E) as [(_ & ? & _) _].
  - intros H0. rewrite app_nil_r. by repeat case_match; simplify_eq.
  - intros H0. rewrite app_nil_r. by repeat case_match; simplify_eq.
  - intros H0. rewrite app_nil_r. by repeat case_match; simplify_eq.
  - destruct (ecc_gen_privkey c nd key _) as [[x y] w] eqn:E. intros [= <- <-]. rewrite app_nil_r.
    by destruct (ecc_gen_privkey_frame _ _ _ _ _ _ _ E) as [(_ & ? & _) _].
  - destruct (ecc_make_pub_key c nd priv raw _) as [[x y] w] eqn:E. intros [= <- <-]. rewrite app_nil_r.
    by destruct (ecc_make_pub_key_frame _ _ _ _ _ _ _ _ E) as [(_ & ? & _) _].
  - destruct (fsverity_get_digest i buf _) as [[x y] w] eqn:E. intros [= <- <-]. rewrite app_nil_r.
    by destruct (fsverity_frame _ _ _ _ _ _ E) as [(_ & ? & _) _].
  - destruct (read_slice ptr len n _) as [[bs|x] w] eqn:E; intros [= <- <-].
    + by destruct (read_slice_ok _ _ _ _ _ _ E) as (_ & ? & _).
    + rewrite app_nil_r. by destruct (read_slice_err _ _ _ _ _ _ E) as [(_ & ? & _) _].
  - destruct (write_slice ptr len bs _) as [[[]|x] w] eqn:E; intros [= <- <-].
    + by destruct (write_slice_ok _ _ _ _ _ E) as (_ & ? & _).
    + by destruct (write_slice_err _ _ _ _ _ _ E) as (_ & ? & _).
Qed.

(** One action of a call keeps what is promised of it, and the others' shares. *)
Lemma advance_ok t st P M t' st' : thread_ok t (P, M) -> P ⊆ points st -> M ⊆ mem st ->
  advance t st = Some (t', st') ->
  exists P' M' l, replaces (points st) P (points st') P' /\ replaces (mem st) M (mem st') M' /\
    thread_ok t' (P', M') /\ log t' = log t ++ l /\
    user_log (world st') = user_log (world st) ++ l.
Proof.
  intros (HC & Hn & Hm & Hw) HP HM. unfold advance. simpl in *.
  destruct (code t) as [| | |B a k] eqn:Ec; [done..|].
  destruct (act_acts st P M (log t) HP HM HC a) as (r & s & P' & M' & Er & Rp & Rm & HC' & Ev).
  { intros e f s E. specialize (Hw e). unfold wp in Hw. simpl in Hw. unfold mbind, M_bind in Hw.
    by rewrite E in Hw. }
  rewrite Er. intros [= <- <-]. exists P', M', (transfer a r). split_and!; [done..| | done | by apply perform_log].
  destruct (903 - taken t)%nat as [|n] eqn:En; [done|].
  split_and!; simpl; [done | lia | replace (902 - taken t)%nat with n by lia; exact (Hm r) |].
  intros e. destruct (Ev e) as [e0 E0]. specialize (Hw e0). unfold wp in Hw. simpl in Hw.
  unfold mbind, M_bind in Hw. by rewrite E0 in Hw.
Qed.

Lemma pool_inv_step st0 p p' fs : inv st0 p fs -> pool_step p p' -> exists fs', inv st0 p' fs'.
Proof.
  intros [Hp Hm Ht Hl] Hs. destruct Hs as [p task key cmd arg Hk|st st' l1 t t' l2 E|p w' (_ & El & _)].
  - exists (fs ++ [(∅, ∅)]). split; simpl.
    + rewrite fmap_app. by apply (splits_snoc_empty _ (_ :: _)).
    + rewrite fmap_app. by apply (splits_snoc_empty _ (_ :: _)).
    + apply Forall2_app; [done|]. constructor; [by apply enter_ok | done].
    + rewrite fmap_app, join_app. simpl. by rewrite app_nil_r.
  - simpl in *. apply Forall2_app_inv_l in Ht as (f1 & f2' & H1 & H2 & ->).
    inversion H2 as [|? [P M] ? f2 Hok H3]; subst. rewrite fmap_app, fmap_cons in Hp. rewrite fmap_app, fmap_cons in Hm.
    destruct (advance_ok t st P M t' st') as (P' & M' & l & Rp & Rm & Hok' & Elog & El); try done.
    + by apply (splits_part _ (_ :: _) _ _ Hp).
    + by apply (splits_part _ (_ :: _) _ _ Hm).
    + exists (f1 ++ (P', M') :: f2). split; simpl.
      * rewrite fmap_app, fmap_cons. by apply (splits_replaces _ _ (_ :: _) _ _ _ Hp).
      * rewrite fmap_app, fmap_cons. by apply (splits_replaces _ _ (_ :: _) _ _ _ Hm).
      * apply Forall2_app; [done|]. by constructor.
      * rewrite El, Hl, !fmap_app, !join_app, !fmap_cons. simpl. rewrite Elog. solve_Permutation.
  - exists fs. split; simpl; try done. by rewrite El.
Qed.

Lemma inv_reached st0 p : rtc pool_step (mkPool st0 []) p -> exists fs, inv st0 p fs.
Proof.
  intros Hr. remember (mkPool st0 []) as p0 eqn:E0.
  assert (exists fs, inv st0 p0 fs) as Hi.
  { subst. exists []. split; simpl; [apply splits_one | apply splits_one | by apply Forall2_nil | by rewrite app_nil_r]. }
  clear E0. induction Hr as [p|p q r Hs _ IH]; [done|]. apply IH. destruct Hi as [fs Hi]. by eapply pool_inv_step.
Qed.

(** What is known of a call at any time. *)
Definition thread_state (t : thread) : Prop :=
  (taken t <= 903)%nat /\
  match code t with
  | PRet v => granted (caller t) (key t) (cmd t) (arg t) v (log t)
  | PThrow _ => refused (caller t) (key t) (arg t) (log t)
  | PFault _ => False
  | PAct _ _ => True
  end.

Lemma thread_ok_state (st : kstate W) t f : thread_ok t f ->
  thread_state t /\ (ended t = true -> f = (∅, ∅)).
Proof.
  intros (_ & Hn & _ & Hw). specialize (Hw (fun _ => st)). unfold thread_state, ended, wp in *.
  destruct f as [P M]. destruct (code t); simpl in *; [..|by split]; [| |done];
    destruct Hw as (E1 & E2 & Hg); simpl in E1, E2; subst; by split.
Qed.
End Pool.
Arguments thread : clear implicits.
Arguments pool W : clear implicits.

(** ** Running a schedule *)

Section Schedule.
Context {W : Type} `{!Kernel W}.

(** The call number [i] acts, if there is one that has not ended. *)
Definition act_at (i : nat) (p : pool W) : pool W :=
  match threads p !! i with
  | Some t =>
      match advance t (kernel p) with
      | Some (t', st') => mkPool st' (take i (threads p) ++ t' :: drop (S i) (threads p))
      | None => p
      end
  | None => p
  end.
Definition schedule (is_ : list nat) (p : pool W) : pool W := fold_left (fun p i => act_at i p) is_ p.

Lemma schedule_steps is_ p : rtc pool_step p (schedule is_ p).
Proof.
  revert p. induction is_ as [|i is_ IH]; intros p; [done|]. simpl. etrans; [|apply IH].
  unfold act_at. destruct (threads p !! i) as [t|] eqn:Ht; [|done].
  destruct (advance t (kernel p)) as [[t' st']|] eqn:E; [|done]. apply rtc_once.
  destruct p as [st ts]. simpl in *. rewrite <- (take_drop_middle ts i t Ht) at 1. by constructor.
Qed.
End Schedule.

(** ** The property *)

(** C5: ioctls that run at the same time.  Any number of calls, from any
    callers, are in progress on one kernel; they interleave at every call of a
    kernel function and every access to kernel memory, and the rest of the
    kernel changes meanwhile.  In every state that can be reached: no call has
    used a dead or null pointer or panicked; a call that returned 0 or 33 has
    transferred nothing, the public key, or the data it read and a response over
    these data and its caller's digest with a valid signature, as its command
    says; one that failed has completed no write, and what it tried to write is
    what its caller may have; none has made more than 903 actions; the points
    and buffers that were there before are as they were, and when all calls have
    ended there are no others; and the transfers the kernel has recorded since
    are those of the calls. *)
Theorem concurrent_calls {W : Type} `{!Kernel W}
    `{!VliLaws W} `{!EccLaws W} `{!CurveLaws W} `{!VerityLaws W} `{!UserLaws W}
    `{G : ecdsa.EcGroup} `{!ecdsa.EcGroupLaws curve_order x_of} (st0 : kstate W) (p : pool W) :
  rtc pool_step (mkPool st0 []) p ->
  Forall thread_state (threads p) /\
  points st0 ⊆ points (kernel p) /\ mem st0 ⊆ mem (kernel p) /\
  (Forall (fun t => ended t = true) (threads p) ->
     points (kernel p) = points st0 /\ mem (kernel p) = mem st0) /\
  user_log (world (kernel p)) ≡ₚ user_log (world st0) ++ mjoin (log <$> threads p).
Proof.
  intros [fs [Hp Hm Ht Hl]]%inv_reached. split_and!; [| | | |done].
  - eapply Forall2_Forall_l; [done|]. apply Forall_true. intros f t Hf. by apply (thread_ok_state st0 t f).
  - by apply (splits_part _ [] _ _ Hp).
  - by apply (splits_part _ [] _ _ Hm).
  - intros He. assert (Forall (eq (∅, ∅)) fs) as Hf.
    { eapply Forall2_Forall_r; [exact Ht|]. eapply Forall_impl; [exact He|].
      intros t E f Hf. symmetry. by apply (thread_ok_state st0 t f Hf). }
    split; [apply (splits_alone _ _ _ Hp) | apply (splits_alone _ _ _ Hm)];
      apply Forall_fmap; (eapply Forall_impl; [done|]); by intros ? <-.
Qed.

(** Two signing calls on one kernel, one action each in turn. *)
Definition toy_pool : pool RW :=
  let c := @enter RW ToyKernel (toy_task 1) (Some toy_kp) (@TARAKO_SIGN_DATA RW ToyKernel) 4096 in
  mkPool (toy_state [11; 13] true 4096 257) [c; c].
Definition toy_turns : list nat := mjoin (replicate 12 [0; 1]%nat).

Lemma concurrent_calls_witness :
  exists p, rtc (@pool_step RW ToyKernel) (mkPool (toy_state [11; 13] true 4096 257) []) p /\
    (code <$> threads p) = [PRet 0; PRet 0] /\ Forall (@thread_state RW ToyKernel ecdsa.toy_group) (threads p) /\
    points (kernel p) = points (toy_state [11; 13] true 4096 257).
Proof.
  pose (p := @schedule RW ToyKernel toy_turns toy_pool).
  assert (rtc (@pool_step RW ToyKernel) (mkPool (toy_state [11; 13] true 4096 257) []) p) as Hr.
  { eapply rtc_l; [apply (step_enter _ (toy_task 1) (Some toy_kp) (@TARAKO_SIGN_DATA RW ToyKernel) 4096);
      intros kp [= <-]; exact toy_kp_ok|].
    eapply rtc_l; [apply (step_enter _ (toy_task 1) (Some toy_kp) (@TARAKO_SIGN_DATA RW ToyKernel) 4096);
      intros kp [= <-]; exact toy_kp_ok|].
    apply (@schedule_steps RW ToyKernel toy_turns toy_pool). }
  assert ((code <$> threads p) = [PRet 0; PRet 0]) as Ec by (vm_compute; reflexivity).
  pose proof (@concurrent_calls RW ToyKernel toy_Vli toy_Ecc toy_Curve toy_Verity toy_User
    ecdsa.toy_group ecdsa.toy_group_laws _ p Hr) as (Hts & _ & _ & Hf & _).
  exists p. split; [exact Hr|]. split; [exact Ec|]. split; [exact Hts|].
  apply Hf. clear -Ec. destruct (threads p) as [|t1 [|t2 [|t3 ts]]]; try discriminate Ec. injection Ec as E1 E2.
  unfold ended. constructor; [by rewrite E1|]. constructor; [by rewrite E2 | done].
Defined.
End concurrent.
