(* ===== verification/Wire.v ===== *)
(** The text and byte encodings that the userspace programs exchange: the parts
    of the Go and Python standard libraries used by [attester/main.go] and
    [test/attestation/verifier.py].

    A string is the list of its Unicode code points; a byte string is a list of
    integers in [0, 256).  [Hex] has [encoding/hex] and [bytes.fromhex], [Json]
    the string encodings of [json.Marshal] and [json.dumps], [Der] the encoding
    of a pair of integers by [encoding/asn1] and the decoder it is proved
    against. *)
From S2P Require Import Prelude Sha256.
From stdpp Require Import base list numbers strings.
From Stdlib Require Import ZArith Lia Wf_nat Ascii.
#[local] Open Scope Z_scope.

Abbreviation str := (list Z).

(** The code points of an ASCII constant. *)
Fixpoint codes (s : string) : str :=
  match s with
  | EmptyString => []
  | String a s => Z.of_nat (nat_of_ascii a) :: codes s
  end.

(** ** Hexadecimal *)
Module Hex.

Definition digit (n : Z) : Z := if n <? 10 then 48 + n else 87 + n.

(** [hex.EncodeToString], [bytes.hex]. *)
Fixpoint encode (bs : list Z) : str :=
  match bs with
  | [] => []
  | b :: bs => digit (b / 16) :: digit (b mod 16) :: encode bs
  end.

Definition of_char (c : Z) : option Z :=
  if (48 <=? c) && (c <=? 57) then Some (c - 48)
  else if (97 <=? c) && (c <=? 102) then Some (c - 87)
  else if (65 <=? c) && (c <=? 70) then Some (c - 55)
  else None.

(** [hex.DecodeString]. *)
Fixpoint decode (s : str) : option (list Z) :=
  match s with
  | [] => Some []
  | [_] => None
  | a :: b :: s =>
      hi ← of_char a; lo ← of_char b; bs ← decode s; Some (16 * hi + lo :: bs)
  end.

(** ASCII white space, as Python's [Py_ISSPACE] has it. *)
Definition is_space (c : Z) : bool := (c =? 32) || (9 <=? c) && (c <=? 13).

(** [bytes.fromhex]: white space is allowed between bytes. *)
Fixpoint fromhex (s : str) : option (list Z) :=
  match s with
  | [] => Some []
  | a :: s =>
      if is_space a then fromhex s
      else match s with
           | [] => None
           | b :: s =>
               hi ← of_char a; lo ← of_char b; bs ← fromhex s; Some (16 * hi + lo :: bs)
           end
  end.

Lemma of_char_digit n : 0 <= n < 16 -> of_char (digit n) = Some n.
Proof.
  intros H. unfold of_char, digit. destruct (Z.ltb_spec n 10).
  - rewrite (proj2 (Z.leb_le _ _)), (proj2 (Z.leb_le _ _)) by lia. cbn. f_equal. lia.
  - rewrite (proj2 (Z.leb_gt (87 + n) 57)) by lia. rewrite andb_false_r.
    rewrite (proj2 (Z.leb_le _ _)), (proj2 (Z.leb_le _ _)) by lia. cbn. f_equal. lia.
Qed.

Lemma digit_not_space n : 0 <= n -> is_space (digit n) = false.
Proof.
  intros H. unfold is_space, digit. destruct (n <? 10);
    apply orb_false_iff; split; [apply Z.eqb_neq; lia | apply andb_false_iff; right; apply Z.leb_gt; lia
    | apply Z.eqb_neq; lia | apply andb_false_iff; right; apply Z.leb_gt; lia].
Qed.

Lemma byte_nibbles b : 0 <= b < 256 -> 0 <= b / 16 < 16 /\ 0 <= b mod 16 < 16 /\
  16 * (b / 16) + b mod 16 = b.
Proof.
  intros H. split_and!; try apply Z.mod_pos_bound; try lia;
    [apply Z.div_pos; lia | apply Z.div_lt_upper_bound; lia | symmetry; apply Z.div_mod; lia].
Qed.

Lemma decode_encode bs : bytes_ok bs -> decode (encode bs) = Some bs.
Proof.
  induction 1 as [|b bs Hb _ IH]; [done|]. destruct (byte_nibbles b Hb) as (H1 & H2 & E).
  cbn [encode decode]. rewrite !of_char_digit, IH by done. cbn [mbind option_bind]. by rewrite E.
Qed.

Lemma fromhex_encode bs : bytes_ok bs -> fromhex (encode bs) = Some bs.
Proof.
  induction 1 as [|b bs Hb _ IH]; [done|]. destruct (byte_nibbles b Hb) as (H1 & H2 & E).
  cbn [encode fromhex]. rewrite digit_not_space, !of_char_digit, IH by lia.
  cbn [mbind option_bind]. by rewrite E.
Qed.

Lemma encode_length bs : length (encode bs) = (2 * length bs)%nat.
Proof. induction bs; cbn [encode length]; lia. Qed.

Lemma of_char_bound c n : of_char c = Some n -> 0 <= n < 16.
Proof.
  unfold of_char.
  repeat (case_match; [intros [= <-]; match goal with H : _ && _ = true |- _ =>
    apply andb_true_iff in H as [?%Z.leb_le ?%Z.leb_le] end; lia|]). done.
Qed.

Lemma decode_wf s : forall bs, decode s = Some bs ->
  bytes_ok bs /\ length s = (2 * length bs)%nat.
Proof.
  induction s as [s IH] using (induction_ltof1 _ (@length Z)); unfold ltof in IH.
  intros bs. destruct s as [|a [|b s]]; [intros [= <-]; split; [constructor|done]|done|]. cbn [decode].
  destruct (of_char a) eqn:Ea; [|done]. destruct (of_char b) eqn:Eb; [|done].
  cbn [mbind option_bind]. destruct (decode s) as [bs'|] eqn:Es; [|done]. intros [= <-].
  destruct (IH s ltac:(cbn; lia) bs' Es) as [Hb Hl].
  apply of_char_bound in Ea, Eb. split; [|cbn [length]; lia]. constructor; [|done].
  split; cbn; lia.
Qed.

Lemma fromhex_wf s : forall bs, fromhex s = Some bs -> bytes_ok bs.
Proof.
  induction s as [s IH] using (induction_ltof1 _ (@length Z)); unfold ltof in IH.
  intros bs. destruct s as [|a s]; [intros [= <-]; constructor|]. cbn [fromhex].
  destruct (is_space a); [by apply IH; cbn; lia|]. destruct s as [|b s]; [done|].
  intros (hi & Ea & (lo & Eb & (bs' & Es & [= <-])%bind_Some)%bind_Some)%bind_Some.
  apply of_char_bound in Ea, Eb. constructor; [split; cbn; lia|]. apply (IH s); [cbn; lia|done].
Qed.
End Hex.

(** ** JSON strings *)
Module Json.

(** UTF-8. *)
Definition utf8 (c : Z) : list Z :=
  if c <? 0x80 then [c]
  else if c <? 0x800 then [0xc0 + c / 64; 0x80 + c mod 64]
  else if c <? 0x10000 then [0xe0 + c / 4096; 0x80 + c / 64 mod 64; 0x80 + c mod 64]
  else [0xf0 + c / 262144; 0x80 + c / 4096 mod 64; 0x80 + c / 64 mod 64; 0x80 + c mod 64].

(** [\uXXXX]. *)
Definition escape_u (c : Z) : list Z :=
  [92; 117; Hex.digit (c / 4096 mod 16); Hex.digit (c / 256 mod 16); Hex.digit (c / 16 mod 16);
   Hex.digit (c mod 16)].

(** The two-character escapes that both libraries use. *)
Definition short_escape (c : Z) : option (list Z) :=
  if c =? 34 then Some [92; 34]          (* quotation mark *)
  else if c =? 92 then Some [92; 92]     (* backslash *)
  else if c =? 8 then Some [92; 98]
  else if c =? 12 then Some [92; 102]
  else if c =? 10 then Some [92; 110]
  else if c =? 13 then Some [92; 114]
  else if c =? 9 then Some [92; 116]
  else None.

(** The other characters that [json.Marshal] escapes. *)
Definition go_escaped (c : Z) : bool :=
  (c <? 32) || (c =? 60) || (c =? 62) || (c =? 38) || (c =? 0x2028) || (c =? 0x2029).

(** [json.Marshal]: HTML characters and the line separators are escaped, other
    characters beyond ASCII are written in UTF-8. *)
Definition go_char (c : Z) : list Z :=
  match short_escape c with
  | Some e => e
  | None => if go_escaped c then escape_u c else utf8 c
  end.

(** [json.dumps] with [ensure_ascii]: everything outside the printable ASCII
    range is escaped, with a surrogate pair beyond the basic plane. *)
Definition py_char (c : Z) : list Z :=
  match short_escape c with
  | Some e => e
  | None =>
      if (32 <=? c) && (c <=? 126) then [c]
      else if c <? 0x10000 then escape_u c
      else escape_u (0xd800 + (c - 0x10000) / 1024) ++ escape_u (0xdc00 + (c - 0x10000) mod 1024)
  end.

Definition quoted (char : Z -> list Z) (s : str) : list Z :=
  [34] ++ mjoin (char <$> s) ++ [34].

(** An object without white space; the values are already encoded. *)
Definition object (char : Z -> list Z) (fields : list (str * list Z)) : list Z :=
  [123] ++
  mjoin (imap (fun i '(k, v) => (if (i =? 0)%nat then [] else [44]) ++ quoted char k ++ [58] ++ v)
              fields) ++
  [125].

(** The characters on which the two encodings agree: ASCII but for DEL and the
    HTML characters, and the two line separators. *)
Definition same_char (c : Z) : bool :=
  (0 <=? c) && (c <? 127) && negb ((c =? 60) || (c =? 62) || (c =? 38)) ||
  (c =? 0x2028) || (c =? 0x2029).

Lemma short_escape_ascii c e : short_escape c = Some e -> 0 <= c < 127.
Proof. unfold short_escape. repeat (case_match; [lia|]). done. Qed.

Lemma utf8_head c : 0x80 <= c -> exists b l, utf8 c = b :: l /\ 0xc0 <= b.
Proof.
  intros H. unfold utf8. rewrite (proj2 (Z.ltb_ge _ _)) by lia.
  repeat case_match; do 2 eexists; (split; [reflexivity|]);
    match goal with |- _ <= _ + ?q => assert (0 <= q) by (apply Z.div_pos; lia); lia end.
Qed.

Lemma same_char_eq c : same_char c = true -> go_char c = py_char c.
Proof.
  unfold go_char, py_char, same_char. intros H. destruct (short_escape c) as [e|] eqn:He; [done|].
  destruct (go_escaped c) eqn:Eg; unfold go_escaped in Eg.
  - rewrite (proj2 (andb_false_iff _ _)) by lia. by rewrite (proj2 (Z.ltb_lt c 0x10000)) by lia.
  - rewrite (proj2 (andb_true_iff _ _)) by lia.
    unfold utf8. by rewrite (proj2 (Z.ltb_lt c 0x80)) by lia.
Qed.

(** On every other character the encodings differ in their first byte. *)
Lemma other_char_differs c : 0 <= c -> same_char c = false ->
  exists a l a' l', go_char c = a :: l /\ py_char c = a' :: l' /\ a <> a'.
Proof.
  intros H0 Hs. unfold go_char, py_char. unfold same_char in Hs.
  assert (short_escape c = None \/ c = 34 \/ c = 92 \/ c < 32) as He
    by (unfold short_escape; repeat (case_match; [lia|]); by left).
  destruct He as [He|He]; [rewrite He|lia].
  assert (c <> 92) by (intros ->; discriminate).
  destruct (go_escaped c) eqn:Eg; unfold go_escaped in Eg.
  - rewrite (proj2 (andb_true_iff _ _)) by lia. exists 92. by do 3 eexists.
  - rewrite (proj2 (andb_false_iff _ _)) by lia.
    assert (exists b l, utf8 c = b :: l /\ b <> 92) as (b & l & Eb & Hb).
    { destruct (decide (c = 127)) as [->|]; [by exists 127, []|].
      destruct (utf8_head c ltac:(lia)) as (b & l & E1 & ?). exists b, l. split; [done|lia]. }
    rewrite Eb. exists b, l, 92. destruct (c <? 0x10000); by eexists.
Qed.

Lemma go_py_chars s : Forall (fun c => same_char c = true) s ->
  mjoin (go_char <$> s) = mjoin (py_char <$> s).
Proof.
  induction 1 as [|c s Hc _ IH]; [done|]. rewrite !fmap_cons.
  change (go_char c ++ mjoin (go_char <$> s) = py_char c ++ mjoin (py_char <$> s)).
  by rewrite IH, same_char_eq.
Qed.

Lemma go_py_quoted s :
  Forall (fun c => same_char c = true) s -> quoted go_char s = quoted py_char s.
Proof. intros H. unfold quoted. by rewrite go_py_chars. Qed.

(** The encodings of a string agree only if all its characters do. *)
Lemma go_py_chars_inv s rest : Forall (fun c => 0 <= c) s ->
  mjoin (go_char <$> s) ++ rest = mjoin (py_char <$> s) ++ rest ->
  Forall (fun c => same_char c = true) s.
Proof.
  induction 1 as [|c s Hc _ IH]; [constructor|]. rewrite !fmap_cons.
  change ((go_char c ++ mjoin (go_char <$> s)) ++ rest =
          (py_char c ++ mjoin (py_char <$> s)) ++ rest -> Forall (fun c => same_char c = true) (c :: s)).
  rewrite <- !app_assoc. intros E. destruct (same_char c) eqn:Hs.
  - constructor; [done|]. apply IH. rewrite (same_char_eq c Hs) in E. by apply app_inv_head in E.
  - destruct (other_char_differs c Hc Hs) as (a & l & a' & l' & E1 & E2 & Hne).
    rewrite E1, E2 in E. by injection E as ? _.
Qed.

Lemma same_char_hex n : 0 <= n < 16 -> same_char (Hex.digit n) = true.
Proof. unfold same_char, Hex.digit. destruct (Z.ltb_spec n 10); lia. Qed.

Lemma same_char_encode bs : bytes_ok bs -> Forall (fun c => same_char c = true) (Hex.encode bs).
Proof.
  induction 1 as [|b bs Hb _ IH]; [constructor|]. destruct (Hex.byte_nibbles b Hb) as (H1 & H2 & _).
  cbn [Hex.encode]. do 2 (constructor; [by apply same_char_hex|]). done.
Qed.
End Json.

(** ** DER *)
Module Der.

(** The contents of an INTEGER: minimal two's complement of a number that is
    not negative. *)
Definition magnitude (z : Z) : list Z :=
  Sha256.be_bytes (Z.to_nat (Z.log2 z / 8 + 1)) z.

Definition int_content (z : Z) : list Z :=
  let m := magnitude z in
  match m with b :: _ => if 128 <=? b then 0 :: m else m | [] => m end.

Definition length_bytes (n : nat) : list Z :=
  if (n <? 128)%nat then [Z.of_nat n]
  else let m := magnitude (Z.of_nat n) in 128 + Z.of_nat (length m) :: m.

Definition tlv (tag : Z) (content : list Z) : list Z :=
  tag :: length_bytes (length content) ++ content.

(** [asn1.Marshal] of a struct of two [*big.Int]. *)
Definition marshal (rs : Z * Z) : list Z :=
  tlv 0x30 (tlv 0x02 (int_content (fst rs)) ++ tlv 0x02 (int_content (snd rs))).

(** A decoder for signatures: definite short lengths, minimal non-negative
    integers, no trailing bytes. *)
Definition take_tlv (tag : Z) (bs : list Z) : option (list Z * list Z) :=
  match bs with
  | t :: n :: bs =>
      if (t =? tag) && (0 <=? n) && (n <? 128) && (n <=? Z.of_nat (length bs))
      then Some (take (Z.to_nat n) bs, drop (Z.to_nat n) bs) else None
  | _ => None
  end.

Definition decode_int (content : list Z) : option Z :=
  match content with
  | [] => None
  | [b] => if b <? 128 then Some b else None
  | b :: b' :: _ =>
      if (b <? 128) && negb ((b =? 0) && (b' <? 128)) then Some (be_value content) else None
  end.

Definition unmarshal (bs : list Z) : option (Z * Z) :=
  '(body, rest) ← take_tlv 0x30 bs;
  '(c1, body) ← take_tlv 0x02 body;
  '(c2, body) ← take_tlv 0x02 body;
  if bool_decide (rest = [] /\ body = []) then
    r ← decode_int c1; s ← decode_int c2; Some (r, s)
  else None.

(** *** The decoder undoes the encoder *)

Lemma be_value_cons b bs : be_value (b :: bs) = be_value bs + 2 ^ (8 * Z.of_nat (length bs)) * b.
Proof.
  unfold be_value. rewrite reverse_cons, value_app by lia.
  rewrite length_reverse. by rewrite value_cons, value_nil, Z.mul_0_r, Z.add_0_r.
Qed.

(** The number of bytes of a magnitude is the least that holds the number. *)
Lemma magnitude_ok z : 0 <= z ->
  exists b bs, magnitude z = b :: bs /\ bytes_ok (b :: bs) /\ be_value (b :: bs) = z /\
    Z.of_nat (length bs) = Z.log2 z / 8 /\ (b = 0 -> bs = []).
Proof.
  intros H0. pose proof (Z.log2_nonneg z) as Hl. pose proof (Z.div_pos (Z.log2 z) 8 Hl ltac:(lia)).
  set (n := Z.to_nat (Z.log2 z / 8 + 1)).
  assert (Hn : Z.of_nat n = Z.log2 z / 8 + 1) by lia.
  assert (length (magnitude z) = n) as HL by apply Sha256.be_bytes_length.
  assert (Hb : bytes_ok (magnitude z)) by apply Sha256.be_bytes_ok.
  assert (Hv : be_value (magnitude z) = z).
  { unfold be_value, magnitude, Sha256.be_bytes. fold n.
    rewrite reverse_involutive, value_digits by lia. apply Z.mod_small. split; [done|].
    destruct (decide (z = 0)) as [->|]; [apply Z.pow_pos_nonneg; lia|].
    apply Z.lt_le_trans with (2 ^ Z.succ (Z.log2 z)); [apply Z.log2_spec; lia|].
    apply Z.pow_le_mono_r; [lia|]. pose proof (Z.mod_pos_bound (Z.log2 z) 8 ltac:(lia)).
    pose proof (Z.div_mod (Z.log2 z) 8 ltac:(lia)). lia. }
  destruct (magnitude z) as [|b bs]; [cbn [length] in HL; lia|]. cbn [length] in HL.
  exists b, bs. split_and!; try done; [lia|]. intros ->.
  destruct (decide (z = 0)) as [->|Hz]; [apply nil_length_inv; change (Z.log2 0 / 8) with 0 in Hn; lia|]. exfalso.
  apply Forall_cons in Hb as [_ Hb]. rewrite be_value_cons in Hv.
  pose proof (value_bound 8 ltac:(lia) (reverse bs) ltac:(by apply Forall_reverse)) as Hbd.
  rewrite length_reverse in Hbd. fold (be_value bs) in Hbd.
  assert (2 ^ (8 * Z.of_nat (length bs)) <= z); [|lia].
  apply Z.le_trans with (2 ^ Z.log2 z); [|apply Z.log2_spec; lia].
  apply Z.pow_le_mono_r; [lia|]. pose proof (Z.mul_div_le (Z.log2 z) 8 ltac:(lia)). lia.
Qed.

Lemma decode_int_content z : 0 <= z ->
  decode_int (int_content z) = Some z /\
  Z.of_nat (length (int_content z)) <= Z.log2 z / 8 + 2.
Proof.
  intros H0. destruct (magnitude_ok z H0) as (b & bs & E & Hb & Hv & Hl & Hn).
  unfold int_content. rewrite E. apply Forall_cons in Hb as [Hb0 _].
  destruct (Z.leb_spec 128 b).
  - split; [|cbn [length]; lia]. cbn [decode_int].
    rewrite (proj2 (Z.ltb_ge b 128)), andb_false_r by lia. cbn [negb andb].
    change (0 <? 128) with true. cbn [andb]. rewrite be_value_cons, Hv. f_equal. lia.
  - split; [|cbn [length]; lia]. destruct bs as [|b' bs]; cbn [decode_int].
    + rewrite (proj2 (Z.ltb_lt b 128)) by lia. f_equal. rewrite <- Hv, be_value_cons.
      change (be_value []) with 0. change (2 ^ (8 * Z.of_nat (length [])))%Z with 1. lia.
    + rewrite (proj2 (Z.ltb_lt b 128)) by lia. rewrite (proj2 (Z.eqb_neq b 0)); [by rewrite Hv|].
      intros ->. by specialize (Hn eq_refl).
Qed.

Lemma take_tlv_tlv tag content rest : (length content < 128)%nat ->
  take_tlv tag (tlv tag content ++ rest) = Some (content, rest).
Proof.
  intros H. unfold tlv, length_bytes. rewrite (proj2 (Nat.ltb_lt _ _)) by done. cbn.
  rewrite Z.eqb_refl, length_app.
  rewrite (proj2 (Z.leb_le _ _)), (proj2 (Z.ltb_lt _ _)), (proj2 (Z.leb_le _ _)) by lia.
  cbn. rewrite Nat2Z.id, take_app_length, drop_app_length. done.
Qed.

Lemma tlv_length tag content : (length content < 128)%nat ->
  length (tlv tag content) = (2 + length content)%nat.
Proof.
  intros H. unfold tlv, length_bytes. rewrite (proj2 (Nat.ltb_lt _ _)) by done. done.
Qed.

Lemma int_content_small z : 0 <= z < 2 ^ 256 ->
  decode_int (int_content z) = Some z /\ (length (int_content z) <= 33)%nat.
Proof.
  intros Hz. destruct (decode_int_content z ltac:(lia)) as [E Hl]. split; [done|].
  assert (Z.log2 z / 8 <= 31); [|lia]. apply Z.lt_succ_r, Z.div_lt_upper_bound; [lia|].
  destruct (decide (z = 0)) as [->|]; [done|]. apply (Z.log2_lt_pow2 z 256); lia.
Qed.

Lemma tlv_bytes tag content : 0 <= tag < 256 -> (length content < 128)%nat ->
  bytes_ok content -> bytes_ok (tlv tag content).
Proof.
  intros Ht Hl Hc. unfold tlv, length_bytes. rewrite (proj2 (Nat.ltb_lt _ _)) by done.
  constructor; [done|]. constructor; [|done]. unfold digit_ok. lia.
Qed.

Lemma int_content_bytes z : bytes_ok (int_content z).
Proof.
  unfold int_content. assert (bytes_ok (magnitude z)) as H by apply Sha256.be_bytes_ok.
  destruct (magnitude z) as [|b bs]; [constructor|]. case_match; [|done].
  constructor; [split; [lia|done]|done].
Qed.

Lemma marshal_bytes r s :
  0 <= r < 2 ^ 256 -> 0 <= s < 2 ^ 256 -> bytes_ok (marshal (r, s)).
Proof.
  intros [_ Lr]%int_content_small [_ Ls]%int_content_small. unfold marshal, fst, snd.
  apply tlv_bytes; [lia| |].
  - rewrite length_app, !tlv_length; lia.
  - apply Forall_app. split; apply tlv_bytes; try lia; apply int_content_bytes.
Qed.

(** A signature of two 256-bit numbers survives its encoding. *)
Lemma unmarshal_marshal r s :
  0 <= r < 2 ^ 256 -> 0 <= s < 2 ^ 256 -> unmarshal (marshal (r, s)) = Some (r, s).
Proof.
  intros [Er Lr]%int_content_small [Es Ls]%int_content_small. unfold unmarshal, marshal, fst, snd.
  rewrite <- (app_nil_r (tlv 0x30 _)).
  rewrite take_tlv_tlv by (rewrite length_app, !tlv_length; lia). cbn [mbind option_bind].
  rewrite take_tlv_tlv by lia. cbn [mbind option_bind].
  rewrite <- (app_nil_r (tlv 0x02 (int_content s))), take_tlv_tlv by lia. cbn [mbind option_bind].
  rewrite bool_decide_true by done. by rewrite Er, Es.
Qed.

(** The DER form in which the attester sends a signature loses nothing: the
    decoder, which admits only minimal non-negative integers and no trailing
    bytes, gives back the pair, and the encoding consists of bytes. *)
Lemma der_roundtrip (r s : Z) :
  0 <= r < 2 ^ 256 -> 0 <= s < 2 ^ 256 ->
  unmarshal (marshal (r, s)) = Some (r, s) /\ bytes_ok (marshal (r, s)).
Proof. intros Hr Hs. split; [by apply unmarshal_marshal|by apply marshal_bytes]. Qed.
End Der.
