(* ===== verification/Attester.v ===== *)
(** [attester/main.go]: the userspace program that turns a request into a quote.

    The device file is an interface, [Device]: opening, closing, and an ioctl
    that takes the contents of the argument buffer and gives the new ones.
    [SigningDevice] says what the program relies on; the driver's model is shown
    to provide it in [Attestation].  Logging, timing and the HTTP server around
    [quoteHandler] are left out. *)
From S2P Require Import Prelude Exec Sha256 Wire Ffi Ecc Ioctl.
From stdpp Require Import base list numbers strings.
From Stdlib Require Import ZArith Lia.
#[local] Open Scope Z_scope.

Module attester.
Import ecc ioctl.

(** ** Constants and messages *)

Definition tarakoHello : Z := 0x00005300.
Definition tarakoGetPubkey : Z := 0x80215301.
Definition tarakoSignData : Z := 0xC1015302.
Definition userDataBytes : nat := 128.

Definition bindingDomain : list Z := codes "TARAKO-TQ-REQUEST-V1" ++ [0].

Record quoteRequest := mkQuoteRequest { Request : str; Nonce : str }.

Record quoteResponse := mkQuoteResponse {
  Hash : str;
  PublicKey : str;
  SignatureDER : str;
  UserData : str }.

(** The errors, by the place that makes them. *)
Inductive error :=
  | DecodeNonce | NonceLength | EmptyRequest
  | OpenDevice (e : Error)
  | HelloError (e : Error) | HelloReturned (r : Z)
  | GetPubkeyError (e : Error) | GetPubkeyReturned (r : Z)
  | SignDataError (e : Error) | SignDataReturned (r : Z)
  | KeyChanged
  | DecodeUserData | UserDataLength.

(** ** Request binding *)

(** [json.Marshal] of a [bindingContext]. *)
Definition marshalContext (nonce request : str) : list Z :=
  Json.object Json.go_char [(codes "nonce", Json.quoted Json.go_char nonce);
                            (codes "request", Json.quoted Json.go_char request)].

Definition requestBinding (request : quoteRequest) : error + list Z :=
  match Hex.decode (Nonce request) with
  | None => inl DecodeNonce
  | Some nonce =>
      if negb (length nonce =? 32)%nat then inl NonceLength
      else if bool_decide (Request request = []) then inl EmptyRequest
      else inr (Sha256.sha256
                  (bindingDomain ++ marshalContext (Nonce request) (Request request)))
  end.

Definition parseUserData (value : str) : error + list Z :=
  match Hex.decode value with
  | None => inl DecodeUserData
  | Some data =>
      if (length data =? 0)%nat || (userDataBytes <? length data)%nat then inl UserDataLength
      else inr data
  end.

(** ** The device *)

Class Device (S : Type) := {
  dev_open : S -> option Error * S;
  dev_close : S -> S;
  dev_ioctl : Z -> list Z -> S -> (Result Z * list Z) * S
}.

Section Quote.
Context {S : Type} `{!Device S}.

(** One ioctl whose return value must be [expected]; the new buffer. *)
Definition ioctl_expect (cmd : Z) (buf : list Z) (expected : Z)
    (on_err : Error -> error) (on_ret : Z -> error) (s : S) : (error + list Z) * S :=
  let '((result, buf), s) := dev_ioctl cmd buf s in
  match result with
  | Err e => (inl (on_err e), s)
  | Ok r => if negb (r =? expected) then (inl (on_ret r), s) else (inr buf, s)
  end.

(** [copy(dst, src)]. *)
Definition go_copy (dst src : list Z) : list Z :=
  take (length dst) src ++ drop (length src) dst.

(** The request as it is passed to the signing ioctl. *)
Definition signingRequest (userData : list Z) : SignDataReq.SignDataReq :=
  SignDataReq.mk (go_copy (replicate userDataBytes 0) userData)
    (replicate 32 0) (replicate 32 0) (replicate 32 0) (replicate 33 0).

Definition respond (req : SignDataReq.SignDataReq) (publicKey : list Z) : quoteResponse :=
  mkQuoteResponse
    (Hex.encode (SignDataReq.hash req))
    (Hex.encode publicKey)
    (Hex.encode (Der.marshal (be_value (SignDataReq.sig_r req), be_value (SignDataReq.sig_s req))))
    (Hex.encode (SignDataReq.user_data req)).

(** [tarakoQuote] with the device open. *)
Definition quoteWith (userData : list Z) (s : S) : (error + quoteResponse) * S :=
  match ioctl_expect tarakoHello [] 0 HelloError HelloReturned s with
  | (inl e, s) => (inl e, s)
  | (inr _, s) =>
  match ioctl_expect tarakoGetPubkey (replicate 33 0) 33 GetPubkeyError GetPubkeyReturned s with
  | (inl e, s) => (inl e, s)
  | (inr publicKey, s) =>
  match ioctl_expect tarakoSignData (sign_data_req_bytes (signingRequest userData)) 0
          SignDataError SignDataReturned s with
  | (inl e, s) => (inl e, s)
  | (inr buf, s) =>
      let req := sign_data_req_bytes_mut buf in
      if bool_decide (SignDataReq.pubkey req = publicKey)
      then (inr (respond req publicKey), s)
      else (inl KeyChanged, s)
  end end end.

Definition tarakoQuote (userData : list Z) (s : S) : (error + quoteResponse) * S :=
  match dev_open s with
  | (Some e, s) => (inl (OpenDevice e), s)
  | (None, s) => let '(r, s) := quoteWith userData s in (r, dev_close s)
  end.

(** The HTTP handler, from a decoded request to the status and the answer. *)
Definition quoteHandler (post : bool) (input : option quoteRequest) (s : S)
    : (Z * option quoteResponse) * S :=
  if negb post then ((405, None), s) else
  match input with
  | None => ((400, None), s)
  | Some input =>
      match requestBinding input with
      | inl _ => ((400, None), s)
      | inr binding =>
          match tarakoQuote binding s with
          | (inl _, s) => ((500, None), s)
          | (inr quote, s) => ((200, Some quote), s)
          end
      end
  end.

(** [runQuote]: [random] stands for [rand.Read] of 32 bytes, [None] on error. *)
Definition runQuote (args : list str) (random : option (list Z)) (s : S)
    : option (error + quoteResponse) * S :=
  match args with
  | _ :: _ :: _ => (None, s)
  | [] => match random with
          | None => (None, s)
          | Some data => let '(r, s) := tarakoQuote data s in (Some r, s)
          end
  | [value] => match parseUserData value with
               | inl e => (Some (inl e), s)
               | inr data => let '(r, s) := tarakoQuote data s in (Some r, s)
               end
  end.
End Quote.

(** ** What the program relies on *)

(** A device that attests an executable with the fs-verity digest [d] under the
    public key [pk]; [sig_ok hash rs] is the validity of a signature.  [ready]
    is the set of states in which the interface is used. *)
Class SigningDevice (S : Type) `{!Device S} (ready : S -> Prop) (d pk : list Z)
    (sig_ok : list Z -> Z * Z -> Prop) : Prop := {
  open_ready s o s' : ready s -> dev_open s = (o, s') -> ready s';
  hello_ready s r b s' : ready s -> dev_ioctl tarakoHello [] s = ((r, b), s') ->
    ready s' /\ r = Ok 0;
  pubkey_ready s r b s' : ready s ->
    dev_ioctl tarakoGetPubkey (replicate 33 0) s = ((r, b), s') ->
    ready s' /\ forall v, r = Ok v -> v = 33 /\ b = pk;
  sign_ready s req r b s' : ready s -> req_ok req -> bytes_ok (sign_data_req_bytes req) ->
    dev_ioctl tarakoSignData (sign_data_req_bytes req) s = ((r, b), s') ->
    ready s' /\ forall v, r = Ok v -> v = 0 /\ exists req',
      b = sign_data_req_bytes req' /\ req_ok req' /\
      SignDataReq.user_data req' = SignDataReq.user_data req /\
      SignDataReq.hash req' = Sha256.sha256 (d ++ SignDataReq.user_data req) /\
      SignDataReq.pubkey req' = pk /\
      sig_ok (SignDataReq.hash req')
             (be_value (SignDataReq.sig_r req'), be_value (SignDataReq.sig_s req'))
}.

(** A quote that attests [userData]. *)
Definition good_quote (d pk : list Z) (sig_ok : list Z -> Z * Z -> Prop) (userData : list Z)
    (q : quoteResponse) : Prop :=
  let u := go_copy (replicate userDataBytes 0) userData in
  Hash q = Hex.encode (Sha256.sha256 (d ++ u)) /\
  PublicKey q = Hex.encode pk /\
  UserData q = Hex.encode u /\
  exists rs, SignatureDER q = Hex.encode (Der.marshal rs) /\ sig_ok (Sha256.sha256 (d ++ u)) rs.

Lemma go_copy_length dst src : length (go_copy dst src) = length dst.
Proof. unfold go_copy. rewrite length_app, length_take, length_drop. lia. Qed.

Lemma signing_request_ok userData : bytes_ok userData ->
  req_ok (signingRequest userData) /\ bytes_ok (sign_data_req_bytes (signingRequest userData)).
Proof.
  intros Hb. split.
  - split_and!; try done. cbn [SignDataReq.user_data signingRequest]. apply go_copy_length.
  - assert (forall n, bytes_ok (replicate n 0)) as Hz
      by (intros n; apply Forall_replicate; split; [lia|done]).
    unfold sign_data_req_bytes, signingRequest, go_copy; cbn [SignDataReq.user_data
      SignDataReq.hash SignDataReq.sig_r SignDataReq.sig_s SignDataReq.pubkey].
    repeat (apply Forall_app; split); try apply Hz; [by apply Forall_take | apply Forall_drop, Hz].
Qed.

Section Correct.
Context {S : Type} `{!Device S} {ready : S -> Prop} {d pk : list Z}
  {sig_ok : list Z -> Z * Z -> Prop} `{!SigningDevice S ready d pk sig_ok}.

Lemma ioctl_expect_run cmd buf expected on_err on_ret (s s' : S) buf' :
  ioctl_expect cmd buf expected on_err on_ret s = (inr buf', s') ->
  dev_ioctl cmd buf s = ((Ok expected, buf'), s').
Proof.
  unfold ioctl_expect. destruct (dev_ioctl cmd buf s) as [[[r|e] b] s1]; [|done].
  destruct (Z.eqb_spec r expected) as [->|]; [|done]. by intros [= <- <-].
Qed.

Lemma quote_with_good userData s q s' :
  ready s -> bytes_ok userData -> quoteWith userData s = (inr q, s') ->
  good_quote d pk sig_ok userData q.
Proof.
  intros Hs Hb. destruct (signing_request_ok userData Hb) as [Hok Hbytes]. unfold quoteWith.
  destruct (ioctl_expect tarakoHello _ _ _ _ s) as [[e|b0] s0] eqn:E0; [done|].
  apply ioctl_expect_run in E0. destruct (hello_ready s _ _ _ Hs E0) as [H0 _].
  destruct (ioctl_expect tarakoGetPubkey _ _ _ _ s0) as [[e|b1] s1] eqn:E1; [done|].
  apply ioctl_expect_run in E1. destruct (pubkey_ready s0 _ _ _ H0 E1) as [H1 P1].
  destruct (P1 _ eq_refl) as [_ ->].
  destruct (ioctl_expect tarakoSignData _ _ _ _ s1) as [[e|b2] s2] eqn:E2; [done|].
  apply ioctl_expect_run in E2. destruct (sign_ready s1 _ _ _ _ H1 Hok Hbytes E2) as [H2 P2].
  destruct (P2 _ eq_refl) as (_ & req & -> & Hr & Hu & Hh & Hp & Hs').
  rewrite req_of_bytes_of_req by done. rewrite bool_decide_true by done. intros [= <- <-].
  cbn [signingRequest SignDataReq.user_data] in Hu, Hh.
  unfold good_quote, respond; cbn [Hash PublicKey UserData SignatureDER].
  rewrite Hu, Hh. split_and!; try done. eexists. split; [done|]. by rewrite <- Hh.
Qed.

Lemma quote_good userData s q s' :
  ready s -> bytes_ok userData -> tarakoQuote userData s = (inr q, s') ->
  good_quote d pk sig_ok userData q.
Proof.
  intros Hs Hb. unfold tarakoQuote. destruct (dev_open s) as [[e|] s0] eqn:E; [done|].
  destruct (quoteWith userData s0) as [r s1] eqn:Eq. intros [= -> <-].
  eapply quote_with_good; [|done|done]. by eapply open_ready.
Qed.
End Correct.

(** The data given on the command line.  [parseUserData] accepts exactly the
    hexadecimal strings of 1 to 128 bytes and returns the bytes; every byte
    string of that size is accepted in the form in which the quote prints it,
    and the two errors tell bad digits from a bad size. *)
Lemma parse_user_data_correct (value : str) :
  match parseUserData value with
  | inr data => Hex.decode value = Some data /\ bytes_ok data /\ (1 <= length data <= 128)%nat /\
                length value = (2 * length data)%nat /\ parseUserData (Hex.encode data) = inr data
  | inl e => (e = DecodeUserData /\ Hex.decode value = None) \/
             (e = UserDataLength /\ exists data, Hex.decode value = Some data /\
                ~ (1 <= length data <= 128)%nat)
  end.
Proof.
  unfold parseUserData. destruct (Hex.decode value) as [data|] eqn:E; [|by left].
  destruct (Hex.decode_wf value data E) as [Hb Hl]. unfold userDataBytes.
  destruct ((length data =? 0)%nat || (128 <? length data)%nat) eqn:Es.
  - right. split; [done|]. exists data. split; [done|].
    apply orb_true_iff in Es as [?%Nat.eqb_eq|?%Nat.ltb_lt]; lia.
  - apply orb_false_iff in Es as [H1 H2]. pose proof (proj1 (Nat.eqb_neq _ _) H1).
    pose proof (proj1 (Nat.ltb_ge _ _) H2).
    split_and!; try done; try lia. by rewrite Hex.decode_encode, H1, H2.
Qed.

(** The vector of the program's own test. *)
Example request_binding_vector :
  requestBinding (mkQuoteRequest (codes "repeatable-client-request") (replicate 64 48)) =
    inr (Sha256.be_bytes 32 0x21874ef909af0728a9b2deaa3ab269fa114276fda8ea8535e24046ad90a4bfc9).
Proof. vm_compute. reflexivity. Qed.
End attester.
