(* ===== verification/Verifier.v ===== *)
(** [test/attestation/verifier.py]: the verifier of quotes.

    Requests are handled one at a time, as the lock around the table of
    outstanding challenges makes them appear; a handler is a function from the
    table to an answer and the new table.  A Python exception that the code
    turns into an error answer is [None].  The random values of [os.urandom] and
    the contents of the policy files are arguments; the [cryptography] package
    is the class [Cryptography]. *)
From S2P Require Import Prelude Sha256 Wire.
From stdpp Require Import base gmap list numbers strings.
From Stdlib Require Import ZArith Lia.
#[local] Open Scope Z_scope.

Module verifier.

(** ** Constants and values *)

Definition DOMAIN : list Z := codes "TARAKO-TQ-REQUEST-V1" ++ [0].
Definition USER_DATA_BYTES : nat := 128.

(** JSON values as Python has them; no program here sends a fraction. *)
Inductive json :=
  | JStr (s : str)
  | JObj (fields : list (str * json))
  | JArr (items : list json)
  | JInt (n : Z)
  | JBool (b : bool)
  | JNull.

Fixpoint lookup (k : str) (fields : list (str * json)) : option json :=
  match fields with
  | [] => None
  | (k', v) :: fields => if bool_decide (k' = k) then Some v else lookup k fields
  end.

(** [d.get(k)] or [d[k]] where a string is needed. *)
Definition get_str (k : string) (fields : list (str * json)) : option str :=
  match lookup (codes k) fields with Some (JStr s) => Some s | _ => None end.

(** The elliptic-curve keys of [cryptography.hazmat]. *)
Class Cryptography (key : Type) := {
  from_encoded_point : list Z -> option key;
  key_verify : key -> list Z -> list Z -> bool;   (* DER signature, message *)
  sign_result : list Z -> list Z                  (* with the verifier's own key *)
}.

(** ** Appraisal *)

(** [json.dumps] of the context, keys sorted and without white space. *)
Definition request_context (request_value : str) (nonce : list Z) : list Z :=
  Json.object Json.py_char
    [(codes "nonce", Json.quoted Json.py_char (Hex.encode nonce));
     (codes "request", Json.quoted Json.py_char request_value)].

Definition make_request_binding (request_value : str) (nonce : list Z) : list Z :=
  Sha256.sha256 (DOMAIN ++ request_context request_value nonce).

(** The files of the policy directory, [None] if one cannot be read. *)
Record policy_files := mkPolicy { approved_digest : str; trusted_tak : list Z }.

(** [str.strip] on ASCII text, where [str.isspace] also has the separators. *)
Definition isspace (c : Z) : bool := Hex.is_space c || (28 <=? c) && (c <=? 31).
Fixpoint lstrip (s : str) : str :=
  match s with c :: s' => if isspace c then lstrip s' else s | [] => [] end.
Definition strip (s : str) : str := reverse (lstrip (reverse (lstrip s))).

Lemma lstrip_id s : Forall (fun c => isspace c = false) s -> lstrip s = s.
Proof. destruct 1 as [|c s Hc _]; [done|]. simpl. by rewrite Hc. Qed.

Lemma strip_encode bs : bytes_ok bs -> strip (Hex.encode bs) = Hex.encode bs.
Proof.
  intros Hb. assert (Forall (fun c => isspace c = false) (Hex.encode bs)) as H.
  { induction Hb as [|b bs Hb _ IH]; [constructor|]. destruct (Hex.byte_nibbles b Hb) as (H1 & H2 & _).
    cbn [Hex.encode]. repeat constructor; [| |done]; unfold isspace, Hex.is_space, Hex.digit;
      case_match; lia. }
  unfold strip. rewrite (lstrip_id _ H), lstrip_id by (by apply Forall_reverse).
  apply reverse_involutive.
Qed.

Section Verifier.
Context {key : Type} `{!Cryptography key}.

Definition load_appraisal_policy (files : option policy_files)
    : option (list Z * list Z * key) :=
  files ← files;
  digest ← Hex.fromhex (strip (approved_digest files));
  public_key ← from_encoded_point (trusted_tak files);
  Some (digest, trusted_tak files, public_key).

(** [assert_ b]: go on unless the check raises. *)
Definition assert_ (b : bool) : option unit := if b then Some tt else None.

Definition verify_tarako_quote (quote : list (str * json)) (binding digest trusted_key_bytes : list Z)
    (trusted_key : key) : option str :=
  _ ← assert_ (length binding <=? USER_DATA_BYTES)%nat;
  let expected_user_data := binding ++ replicate (USER_DATA_BYTES - length binding) 0 in
  user_data ← get_str "user_data" quote;
  response_user_data ← Hex.fromhex user_data;
  _ ← assert_ (bool_decide (response_user_data = expected_user_data));
  public_key ← get_str "public_key" quote;
  quoted_key ← Hex.fromhex public_key;
  _ ← assert_ (bool_decide (quoted_key = trusted_key_bytes));
  let message := digest ++ expected_user_data in
  let expected_hash := Hex.encode (Sha256.sha256 message) in
  hash ← get_str "hash" quote;
  _ ← assert_ (bool_decide (hash = expected_hash));
  signature ← get_str "signature_der" quote;
  signature_der ← Hex.fromhex signature;
  _ ← assert_ (key_verify trusted_key signature_der message);
  Some expected_hash.

(** ** Challenges *)

Record challenge_t := mkChallenge { ch_nonce : str; ch_request : str }.
Abbreviation table := (gmap (list Z) challenge_t).

Record result_t := mkResult {
  res_challenge_id : str;
  res_digest : str;
  res_kernel_hash : str;
  res_nonce : str;
  res_request : str;
  res_request_binding : str }.

(** [json.dumps(result, sort_keys=True, separators=(",", ":"))]. *)
Definition result_bytes (r : result_t) : list Z :=
  let q := Json.quoted Json.py_char in
  Json.object Json.py_char
    [(codes "accepted", codes "true");
     (codes "challenge_id", q (res_challenge_id r));
     (codes "digest", q (res_digest r));
     (codes "kernel_hash", q (res_kernel_hash r));
     (codes "nonce", q (res_nonce r));
     (codes "request", q (res_request r));
     (codes "request_binding", q (res_request_binding r))].

Inductive response :=
  | Failed (status : Z)
  | Challenged (challenge_id nonce request : str)
  | Accepted (result : result_t) (signature : list Z).

(** [body] is [None] when the request is not JSON. *)
Definition json_request_value (body : option json) : option str :=
  match body with
  | Some (JObj fields) =>
      request ← get_str "request" fields;
      if bool_decide (request = []) then None else Some request
  | _ => None
  end.

(** [nonce] and [id] are the 32 and 16 bytes drawn from [os.urandom]. *)
Definition challenge (body : option json) (nonce id : list Z) (outstanding_challenges : table)
    : response * table :=
  match json_request_value body with
  | None => (Failed 400, outstanding_challenges)
  | Some request =>
      let challenge_id := Hex.encode id in
      (Challenged challenge_id (Hex.encode nonce) request,
       <[challenge_id := mkChallenge (Hex.encode nonce) request]> outstanding_challenges)
  end.

(** The part of [verify] inside [try]. *)
Definition appraise (files : option policy_files) (fields : list (str * json))
    (expected : challenge_t) : option (list Z * str * list Z) :=
  request ← get_str "request" fields;
  _ ← assert_ (bool_decide (request = ch_request expected));
  nonce ← get_str "nonce" fields;
  _ ← assert_ (bool_decide (nonce = ch_nonce expected));
  match lookup (codes "tq") fields with
  | Some (JObj quote) =>
      nonce ← Hex.fromhex (ch_nonce expected);
      let binding := make_request_binding (ch_request expected) nonce in
      '(digest, public_key_bytes, public_key) ← load_appraisal_policy files;
      kernel_hash ← verify_tarako_quote quote binding digest public_key_bytes public_key;
      Some (digest, kernel_hash, binding)
  | _ => None
  end.

Definition verify (files : option policy_files) (body : option json)
    (outstanding_challenges : table) : response * table :=
  match body with
  | Some (JObj fields) =>
      match get_str "challenge_id" fields with
      | None => (Failed 400, outstanding_challenges)
      | Some challenge_id =>
          match outstanding_challenges !! challenge_id with
          | None => (Failed 409, outstanding_challenges)
          | Some expected =>
              let rest := delete challenge_id outstanding_challenges in
              match appraise files fields expected with
              | None => (Failed 400, rest)
              | Some (digest, kernel_hash, binding) =>
                  let result := mkResult challenge_id (Hex.encode digest) kernel_hash
                    (ch_nonce expected) (ch_request expected) (Hex.encode binding) in
                  (Accepted result (sign_result (result_bytes result)), rest)
              end
          end
      end
  | _ => (Failed 400, outstanding_challenges)
  end.

(** ** The service over time *)

Inductive event :=
  | EChallenge (body : option json) (nonce id : list Z)
  | EVerify (files : option policy_files) (body : option json).

Definition handle (e : event) (t : table) : response * table :=
  match e with
  | EChallenge body nonce id => challenge body nonce id t
  | EVerify files body => verify files body t
  end.

Fixpoint serve (es : list event) (t : table) : list response * table :=
  match es with
  | [] => ([], t)
  | e :: es => let '(r, t) := handle e t in
               let '(rs, t) := serve es t in (r :: rs, t)
  end.

(** How often a challenge was issued, and how often it was answered with an
    acceptance. *)
Definition issues (id : str) (r : response) : nat :=
  match r with Challenged id' _ _ => if bool_decide (id' = id) then 1 else 0 | _ => 0 end.
Definition accepts (id : str) (r : response) : nat :=
  match r with Accepted res _ => if bool_decide (res_challenge_id res = id) then 1 else 0 | _ => 0 end.
Definition total (f : response -> nat) (rs : list response) : nat := sum_list_with f rs.
Definition pending (id : str) (t : table) : nat :=
  match t !! id with Some _ => 1 | None => 0 end.

Lemma handle_budget id e t :
  (accepts id (fst (handle e t)) + pending id (snd (handle e t)) <=
   issues id (fst (handle e t)) + pending id t)%nat.
Proof.
  destruct e as [body nonce rid|files body]; simpl.
  - unfold challenge, pending. destruct (json_request_value body); simpl; [|lia].
    destruct (decide (Hex.encode rid = id)) as [<-|Hne].
    + rewrite lookup_insert_eq, bool_decide_true by done. lia.
    + rewrite lookup_insert_ne by done. lia.
  - unfold verify. destruct body as [[| fields | | | |]|]; simpl; try lia.
    destruct (get_str "challenge_id" fields) as [cid|]; simpl; [|lia].
    destruct (t !! cid) as [expected|] eqn:Et; simpl; [|lia].
    assert (forall n : nat, (n <= if bool_decide (cid = id) then 1 else 0)%nat ->
      (n + pending id (delete cid t) <= pending id t)%nat) as H.
    { intros n Hn. unfold pending. destruct (decide (cid = id)) as [<-|Hne].
      - rewrite lookup_delete_eq, Et. rewrite bool_decide_true in Hn by done. lia.
      - rewrite lookup_delete_ne by done. rewrite bool_decide_false in Hn by done. lia. }
    destruct (appraise files fields expected) as [[[digest kh] binding]|]; simpl;
      [by apply H | apply (H 0%nat); lia].
Qed.

Lemma serve_budget id es : forall t,
  (total (accepts id) (fst (serve es t)) + pending id (snd (serve es t)) <=
   total (issues id) (fst (serve es t)) + pending id t)%nat.
Proof.
  induction es as [|e es IH]; intros t; [done|]. cbn [serve].
  pose proof (handle_budget id e t) as He. destruct (handle e t) as [r t1]; simpl in He.
  specialize (IH t1). destruct (serve es t1) as [rs t2]; simpl in *. unfold total in *. simpl. lia.
Qed.

(** C19: a challenge is used at most once: over any sequence of requests, the
    number of signed results for a challenge is at most the number of times it
    was issued, whatever the evidence and however many attempts. *)
Theorem challenge_used_once (es : list event) (id : str) :
  (total (accepts id) (fst (serve es ∅)) <= total (issues id) (fst (serve es ∅)))%nat.
Proof. pose proof (serve_budget id es ∅) as H. unfold pending in H. rewrite lookup_empty in H. lia. Qed.

Lemma assert_some b (u : unit) : assert_ b = Some u -> b = true.
Proof. by destruct b. Qed.

(** Everything an accepted quote has been checked for. *)
Lemma verify_tarako_quote_sound quote binding digest pkb (pk : key) h :
  verify_tarako_quote quote binding digest pkb pk = Some h ->
  let u := binding ++ replicate (USER_DATA_BYTES - length binding) 0 in
  h = Hex.encode (Sha256.sha256 (digest ++ u)) /\ get_str "hash" quote = Some h /\
  (get_str "user_data" quote ≫= Hex.fromhex) = Some u /\
  (get_str "public_key" quote ≫= Hex.fromhex) = Some pkb /\
  exists der, (get_str "signature_der" quote ≫= Hex.fromhex) = Some der /\
    key_verify pk der (digest ++ u) = true.
Proof.
  unfold verify_tarako_quote. intros H.
  repeat first [ apply bind_Some in H as (? & ? & H)
               | match goal with E : assert_ _ = Some _ |- _ => apply assert_some in E end ].
  injection H as <-.
  repeat match goal with E : bool_decide _ = true |- _ => apply bool_decide_eq_true in E; subst end.
  split_and!; try done; try (apply bind_Some; eauto).
  eexists. split; [apply bind_Some; eauto|done].
Qed.

(** Acceptance is sound.  A signed result is only given for a challenge that
    was outstanding, which is consumed; it repeats the challenge's nonce and
    request; and the evidence carried the provisioned key, the user data that
    binds exactly this request and nonce, and a signature that the key accepts
    over the approved digest followed by that user data. *)
Lemma verify_sound (files : option policy_files) (body : option json) (t t' : table)
    (res : result_t) (sig : list Z) :
  verify files body t = (Accepted res sig, t') ->
  exists ch nonce digest pkb pk fields quote der,
    t !! res_challenge_id res = Some ch /\ t' = delete (res_challenge_id res) t /\
    res_nonce res = ch_nonce ch /\ res_request res = ch_request ch /\
    Hex.fromhex (ch_nonce ch) = Some nonce /\
    load_appraisal_policy files = Some (digest, pkb, pk) /\ res_digest res = Hex.encode digest /\
    body = Some (JObj fields) /\ lookup (codes "tq") fields = Some (JObj quote) /\
    let binding := make_request_binding (ch_request ch) nonce in
    let u := binding ++ replicate 96 0 in
    (get_str "user_data" quote ≫= Hex.fromhex) = Some u /\
    (get_str "public_key" quote ≫= Hex.fromhex) = Some pkb /\
    (get_str "signature_der" quote ≫= Hex.fromhex) = Some der /\
    key_verify pk der (digest ++ u) = true /\
    res_kernel_hash res = Hex.encode (Sha256.sha256 (digest ++ u)) /\
    sig = sign_result (result_bytes res).
Proof.
  unfold verify. destruct body as [[| fields | | | |]|]; try done.
  destruct (get_str "challenge_id" fields) as [cid|]; [|done].
  destruct (t !! cid) as [ch|] eqn:Et; [|done].
  destruct (appraise files fields ch) as [[[digest kh] binding]|] eqn:Ea; [|done].
  intros [= <- <- <-]. simpl. unfold appraise in Ea.
  apply bind_Some in Ea as (? & _ & Ea). apply bind_Some in Ea as (? & _ & Ea).
  apply bind_Some in Ea as (? & _ & Ea). apply bind_Some in Ea as (? & _ & Ea).
  destruct (lookup (codes "tq") fields) as [[| quote | | | |]|] eqn:Eq; try done.
  apply bind_Some in Ea as (nonce & En & Ea).
  apply bind_Some in Ea as ([[digest' pkb] pk] & Ep & Ea).
  apply bind_Some in Ea as (kh' & Ek & Ea). injection Ea as -> -> <-.
  destruct (verify_tarako_quote_sound _ _ _ _ _ _ Ek) as (Hh & _ & Hu & Hp & der & Hd & Hv).
  assert (length (make_request_binding (ch_request ch) nonce) = 32%nat) as Hl
    by apply Sha256.sha256_wf.
  rewrite Hl in *. change (USER_DATA_BYTES - 32)%nat with 96%nat in *.
  exists ch, nonce, digest, pkb, pk, fields, quote, der. by split_and!.
Qed.
End Verifier.
End verifier.
