(* ===== verification/Attestation.v ===== *)
(** The parts put together: the driver as the device of the attester, and a
    quote's way from a challenge to its acceptance.

    [driver_device] runs the driver's ioctls on a buffer of the attester's own
    memory and is shown to be a [SigningDevice]; the attester's theorems then
    hold of the driver.  The two programs compute the request binding with
    different JSON encoders; [request_contexts_agree] says exactly when they
    agree, and [honest_quote_accepted] that an honest quote is then accepted. *)
From S2P Require Import Prelude Exec Sha256 Ffi RefKernel Vli Ecc Ecdsa Ioctl SetOnce Tarako.
From S2P Require Import Wire Attester Verifier.
From stdpp Require Import base gmap list numbers strings.
From Stdlib Require Import ZArith Lia.
#[local] Open Scope Z_scope.

Module attestation.
Import ioctl attester.

(** ** The two encodings of a request *)

Lemma object_two char k1 v1 k2 v2 :
  Json.object char [(k1, v1); (k2, v2)] =
  [123] ++ (Json.quoted char k1 ++ [58] ++ v1) ++ ([44] ++ Json.quoted char k2 ++ [58] ++ v2) ++ [125].
Proof.
  change (Json.object char [(k1, v1); (k2, v2)]) with
    ([123] ++ (([] ++ Json.quoted char k1 ++ [58] ++ v1) ++
               ([44] ++ Json.quoted char k2 ++ [58] ++ v2) ++ []) ++ [125]).
  by rewrite app_nil_r, app_nil_l, <- (app_assoc _ _ [125]).
Qed.

Lemma marshal_context_shape nonce request : bytes_ok nonce ->
  exists pre, marshalContext (Hex.encode nonce) request =
                pre ++ Json.quoted Json.go_char request ++ [125] /\
              verifier.request_context request nonce =
                pre ++ Json.quoted Json.py_char request ++ [125].
Proof.
  intros Hn. unfold marshalContext, verifier.request_context. rewrite !object_two.
  rewrite (Json.go_py_quoted (Hex.encode nonce)) by (by apply Json.same_char_encode).
  change (Json.quoted Json.go_char (codes "nonce")) with (Json.quoted Json.py_char (codes "nonce")).
  change (Json.quoted Json.go_char (codes "request")) with (Json.quoted Json.py_char (codes "request")).
  eexists ([123] ++ (Json.quoted Json.py_char (codes "nonce") ++ [58] ++
    Json.quoted Json.py_char (Hex.encode nonce)) ++
    [44] ++ Json.quoted Json.py_char (codes "request") ++ [58]).
  split; by rewrite <- !app_assoc.
Qed.

Lemma contexts_agree_iff nonce request : bytes_ok nonce -> Forall (fun c => 0 <= c) request ->
  marshalContext (Hex.encode nonce) request = verifier.request_context request nonce <->
  Forall (fun c => Json.same_char c = true) request.
Proof.
  intros Hn Hr. destruct (marshal_context_shape nonce request Hn) as (pre & -> & ->). split.
  - intros E. apply app_inv_head in E. unfold Json.quoted in E.
    rewrite <- !app_assoc in E. apply app_inv_head in E. by apply Json.go_py_chars_inv in E.
  - intros H. by rewrite Json.go_py_quoted.
Qed.

Lemma request_binding_run nonce request :
  bytes_ok nonce -> length nonce = 32%nat -> request <> [] ->
  requestBinding (mkQuoteRequest request (Hex.encode nonce)) =
    inr (Sha256.sha256 (bindingDomain ++ marshalContext (Hex.encode nonce) request)).
Proof.
  intros Hn Hl Hr. unfold requestBinding. cbn [Nonce Request].
  rewrite Hex.decode_encode, Hl, bool_decide_false by done. done.
Qed.

(** ** The driver as a device *)

(** The kernel's SHA-256 is SHA-256. *)
Class ShaLaws (W : Type) `{!Kernel W} : Prop :=
  sha256_is bs : sha256 bs = Sha256.sha256 bs.

(** A process that stores to its own buffer of 257 bytes at [arg], which nobody
    writes during an ioctl but the driver. *)
Class OwnMemory (W : Type) `{!Kernel W} (arg : Z) (poke : list Z -> W -> W) : Prop := {
  poke_holds bs w : (length bs <= 257)%nat -> bytes_ok bs -> user_holds (poke bs w) arg bs;
  poke_others bs w : tarako.others_act w (poke bs w);
  own_quiet : quiet
}.

Section Driver.
Context {W : Type} `{!Kernel W} (current : Task) (arg : Z) (poke : list Z -> W -> W) (alloc : bool).
Abbreviation module := (tarako.module W).

Definition peek (w : W) (n : nat) : list Z :=
  (fun i => default 0 (user_byte w (arg + Z.of_nat i))) <$> seq 0 n.

Definition poke_module (buf : list Z) (m : module) : module :=
  let k := tarako.kernel m in
  tarako.mkModule (KState (points k) (mem k) (poke buf (world k)))
    (tarako.KEY_PAIR m) (tarako.registered m) (tarako.dev_refs m).

(** An ioctl of the process [current] on its buffer.  The last case does not
    occur: the driver never faults. *)
Definition driver_ioctl (cmd : Z) (buf : list Z) (m : module) : (Result Z * list Z) * module :=
  match (key ← tarako.on_key set_once.as_ref;
         tarako.on_kernel (tarako.ioctl current key cmd arg)) (poke_module buf m) with
  | (Ret v, m) => ((Ok v, peek (world (tarako.kernel m)) (length buf)), m)
  | (Throw e, m) => ((Err e, peek (world (tarako.kernel m)) (length buf)), m)
  | (Fault _, m) => ((Err EFAULT, buf), m)
  end.

#[local] Instance driver_device : Device module := {|
  dev_open m :=
    if tarako.registered m then
      match tarako.open alloc m with
      | (Throw e, m) => (Some e, m)
      | (_, m) => (None, m)
      end
    else (Some ENOENT, m);
  dev_close m := snd (tarako.release m);
  dev_ioctl := driver_ioctl |}.

Lemma peek_holds w bs : user_holds w arg bs -> peek w (length bs) = bs.
Proof.
  intros H. apply list_eq. intros i. unfold peek. rewrite list_lookup_fmap.
  destruct (decide (i < length bs)%nat) as [Hi|Hi].
  - rewrite lookup_seq_lt by done. destruct (lookup_lt_is_Some_2 bs i Hi) as [b Hb].
    simpl. by rewrite (H i b Hb).
  - rewrite (lookup_seq_ge 0), (lookup_ge_None_2 bs) by lia. done.
Qed.

(** Two byte strings of one length at one address are equal. *)
Lemma holds_inj w bs bs' : length bs = length bs' ->
  user_holds w arg bs -> user_holds w arg bs' -> bs = bs'.
Proof. intros Hl H H'. by rewrite <- (peek_holds w bs H), <- (peek_holds w bs' H'), Hl. Qed.

Context `{!VliLaws W} `{!EccLaws W} `{!CurveLaws W} `{!VerityLaws W} `{!UserLaws W}
  `{!IoctlLaws W} `{!ShaLaws W} `{!OwnMemory W arg poke}
  `{G : ecdsa.EcGroup} `{!ecdsa.EcGroupLaws curve_order x_of}.
Context (kp : KeyPair.KeyPair) (i : inode) (d : list Z).
Context (Hkp : key_pair_ok kp) (Hm : KeyPair.ima_measured kp = true)
  (Hi : exe_inode current = Some i) (Hd : verity_digest i = Some d).

(** The module has published [kp]. *)
Definition ready (m : module) : Prop :=
  tarako.KEY_PAIR m = set_once.mkSetOnce 2 (set_once.Init kp).

Definition sig_ok (hash : list Z) (rs : Z * Z) : Prop :=
  ecdsa.verify curve_order (ecdsa.smul (val (KeyPair.private kp)) ecdsa.base) (be_value hash) rs = true.

(** An ioctl on a ready module is one of the driver's dispatcher. *)
Lemma driver_ioctl_run cmd buf m :
  ready m ->
  let m0 := poke_module buf m in
  driver_ioctl cmd buf m =
    match tarako.ioctl current (Some kp) cmd arg (tarako.kernel m0) with
    | (Ret v, st) => ((Ok v, peek (world st) (length buf)),
        tarako.mkModule st (tarako.KEY_PAIR m) (tarako.registered m) (tarako.dev_refs m))
    | (Throw e, st) => ((Err e, peek (world st) (length buf)),
        tarako.mkModule st (tarako.KEY_PAIR m) (tarako.registered m) (tarako.dev_refs m))
    | (Fault _, st) => ((Err EFAULT, buf),
        tarako.mkModule st (tarako.KEY_PAIR m) (tarako.registered m) (tarako.dev_refs m))
    end.
Proof.
  intros Hr. unfold driver_ioctl, mbind, M_bind, tarako.on_key, tarako.on_kernel.
  cbn [poke_module tarako.KEY_PAIR]. rewrite Hr.
  change (set_once.as_ref (set_once.mkSetOnce 2 (set_once.Init kp)))
    with (@Ret (option KeyPair.KeyPair) (Some kp), set_once.mkSetOnce 2 (set_once.Init kp)).
  cbv beta iota zeta. rewrite <- Hr.
  cbn [tarako.kernel tarako.KEY_PAIR tarako.registered tarako.dev_refs poke_module].
  by destruct (tarako.ioctl _ _ _ _ _) as [[] ?].
Qed.

Lemma driver_ioctl_ready cmd buf m r b m' :
  ready m -> driver_ioctl cmd buf m = ((r, b), m') -> ready m'.
Proof.
  intros Hr. rewrite driver_ioctl_run by done.
  by destruct (tarako.ioctl _ _ _ _ _) as [[] ?]; intros [= <- <- <-].
Qed.

Lemma driver_pubkey m r b m' :
  ready m -> driver_ioctl tarakoGetPubkey (replicate 33 0) m = ((r, b), m') ->
  forall v, r = Ok v -> v = 33 /\ b = KeyPair.pubkey kp.
Proof using All.
  intros Hr E v ->. rewrite driver_ioctl_run in E by done.
  assert (tarakoGetPubkey = TARAKO_GET_PUBKEY) as Ec by
    (unfold TARAKO_GET_PUBKEY; by rewrite IOR_ok).
  rewrite Ec, tarako.ioctl_get_pubkey in E.
  pose proof Hkp as (_ & _ & _ & _ & Ep).
  assert (bytes_ok (KeyPair.pubkey kp) /\ length (KeyPair.pubkey kp) = ecc.P256_PUBKEY_BYTES)
    as [Hb Hl] by (rewrite Ep; split; [apply sec1_compress_wf|apply sec1_compress_length]).
  destruct (handle_get_pubkey _ _ _ _) as [[v'|e|f] st] eqn:Eh; [|discriminate..].
  destruct (wp_run _ _ _ _ _ _ (handle_get_pubkey_ok kp _ _ _ Hb Hl) Eh) as (-> & _ & _ & Hu).
  specialize (Hu (own_quiet (poke := poke))).
  rewrite length_replicate in E. apply triple_eq in E as ([= <-] & <- & _). split; [done|].
  change 33%nat with ecc.P256_PUBKEY_BYTES. rewrite <- Hl. by apply peek_holds.
Qed.

Lemma driver_sign m req r b m' :
  ready m -> req_ok req -> bytes_ok (sign_data_req_bytes req) ->
  driver_ioctl tarakoSignData (sign_data_req_bytes req) m = ((r, b), m') ->
  forall v, r = Ok v -> v = 0 /\ exists req',
    b = sign_data_req_bytes req' /\ req_ok req' /\
    SignDataReq.user_data req' = SignDataReq.user_data req /\
    SignDataReq.hash req' = Sha256.sha256 (d ++ SignDataReq.user_data req) /\
    SignDataReq.pubkey req' = KeyPair.pubkey kp /\
    sig_ok (SignDataReq.hash req')
           (be_value (SignDataReq.sig_r req'), be_value (SignDataReq.sig_s req')).
Proof using All.
  intros Hr Hok Hb E v ->. rewrite driver_ioctl_run in E by done.
  assert (tarakoSignData = TARAKO_SIGN_DATA) as Ec by
    (unfold TARAKO_SIGN_DATA; by rewrite IOWR_ok).
  rewrite Ec, tarako.ioctl_sign_data in E.
  assert (Hlen : length (sign_data_req_bytes req) = 257%nat) by (by apply req_bytes_length).
  set (st0 := tarako.kernel (poke_module (sign_data_req_bytes req) m)) in *.
  assert (Hp : user_holds (world st0) arg (sign_data_req_bytes req)) 
    by (apply (poke_holds (poke := poke)); [lia|done]).
  destruct (handle_sign_data current (Some kp) arg TARAKO_SIGN_DATA st0) as [[v'|e|f] st] eqn:Eh;
    [|discriminate..].
  destruct (wp_run _ _ _ _ _ _ (handle_sign_data_attests current kp arg _ st0 Hkp Hm) Eh)
    as (-> & bs & req' & Lbs & _ & Eu' & (Hok' & i' & d' & Ei & Ed & Hhash & Hpk) & Hv & Hq).
  destruct (Hq (own_quiet (poke := poke))) as [Hu Hh'].
  rewrite Hlen in E. apply triple_eq in E as ([= <-] & <- & _). split; [done|].
  rewrite Hi in Ei. injection Ei as <-. rewrite Hd in Ed. injection Ed as <-.
  assert (SignDataReq.user_data req' = SignDataReq.user_data req) as Eu.
  { rewrite Eu', <- (holds_inj (world st0) (sign_data_req_bytes req) bs); [|by rewrite Hlen, Lbs|done..].
    unfold sign_data_req_bytes. by rewrite <- (proj1 Hok), take_app_length. }
  exists req'. rewrite <- (sha256_is (d ++ _)), <- Eu. split_and!; try done.
  change 257%nat with size_of_SignDataReq.
  rewrite <- (req_bytes_length req' Hok'). by apply peek_holds.
Qed.

Lemma driver_is_signing : SigningDevice module ready d (KeyPair.pubkey kp) sig_ok.
Proof using All.
  split.
  - intros m o m' Hr. cbn [dev_open driver_device]. destruct (tarako.registered m).
    + destruct alloc; by intros [= <- <-].
    + by intros [= <- <-].
  - intros m r b m' Hr E. split; [by eapply driver_ioctl_ready|].
    cbn [dev_ioctl driver_device] in E. rewrite driver_ioctl_run in E by done.
    assert (tarakoHello = TARAKO_HELLO) as Ec by (unfold TARAKO_HELLO; by rewrite IO_ok).
    unfold tarako.ioctl in E. rewrite Ec, Z.eqb_refl in E. by injection E.
  - intros m r b m' Hr E. split; [by eapply driver_ioctl_ready|]. by eapply driver_pubkey.
  - intros m req r b m' Hr Hok Hb E. split; [by eapply driver_ioctl_ready|].
    by eapply driver_sign.
Qed.
End Driver.

(** ** From a challenge to its acceptance *)

(** What the [cryptography] package promises: the compressed point of a private
    key decodes to a key that accepts exactly the valid DER signatures. *)
Class CryptographyLaws (W : Type) `{!Kernel W} `{!ecdsa.EcGroup}
    (key : Type) `{!verifier.Cryptography key} : Prop :=
  point_key x : 0 < x < curve_order -> exists k,
    verifier.from_encoded_point (sec1_compress (curve_coords x)) = Some k /\
    forall der msg, verifier.key_verify k der msg =
      match Der.unmarshal der with
      | Some rs => ecdsa.verify curve_order (ecdsa.smul x ecdsa.base) (be_value (Sha256.sha256 msg)) rs
      | None => false
      end.

(** The JSON of a quote, and the body the client sends to the verifier. *)
Definition quote_json (q : quoteResponse) : list (str * verifier.json) :=
  [(codes "hash", verifier.JStr (Hash q)); (codes "public_key", verifier.JStr (PublicKey q));
   (codes "signature_der", verifier.JStr (SignatureDER q));
   (codes "user_data", verifier.JStr (UserData q))].

Definition client_body (challenge_id nonce request : str) (q : quoteResponse) : verifier.json :=
  verifier.JObj
    [(codes "challenge_id", verifier.JStr challenge_id); (codes "nonce", verifier.JStr nonce);
     (codes "request", verifier.JStr request); (codes "tq", verifier.JObj (quote_json q))].

Lemma get_quote_json q :
  verifier.get_str "hash" (quote_json q) = Some (Hash q) /\
  verifier.get_str "public_key" (quote_json q) = Some (PublicKey q) /\
  verifier.get_str "signature_der" (quote_json q) = Some (SignatureDER q) /\
  verifier.get_str "user_data" (quote_json q) = Some (UserData q).
Proof. done. Qed.

Lemma verify_range `{!ecdsa.EcGroup} n Q z r s :
  ecdsa.verify n Q z (r, s) = true -> 0 < r < n /\ 0 < s < n.
Proof. unfold ecdsa.verify. case_match eqn:E; [|done]. intros _. lia. Qed.

Section Accept.
Context {W : Type} `{!Kernel W} `{!CurveLaws W} `{G : !ecdsa.EcGroup}
  {key : Type} `{!verifier.Cryptography key} `{!CryptographyLaws W key}.

(** A good quote over the binding passes the appraisal. *)
Lemma good_quote_appraised kp d binding q k :
  key_pair_ok kp -> bytes_ok d -> bytes_ok binding -> length binding = 32%nat ->
  verifier.from_encoded_point (KeyPair.pubkey kp) = Some k ->
  (forall der msg, verifier.key_verify k der msg =
      match Der.unmarshal der with
      | Some rs => ecdsa.verify curve_order (ecdsa.smul (val (KeyPair.private kp)) ecdsa.base)
                     (be_value (Sha256.sha256 msg)) rs
      | None => false
      end) ->
  good_quote d (KeyPair.pubkey kp) (sig_ok kp) binding q ->
  verifier.verify_tarako_quote (quote_json q) binding d (KeyPair.pubkey kp) k =
    Some (Hex.encode (Sha256.sha256 (d ++ binding ++ replicate 96 0))).
Proof.
  intros Hkp Hd Hb Hl Hk Hv (Eh & Ep & Eu & [r s] & Es & Hs).
  destruct (get_quote_json q) as (G1 & G2 & G3 & G4).
  assert (go_copy (replicate userDataBytes 0) binding = binding ++ replicate 96 0) as Ec.
  { unfold go_copy. rewrite length_replicate, take_ge by (rewrite Hl; vm_compute; lia).
    by rewrite Hl, drop_replicate. }
  rewrite Ec in *. clear Ec.
  assert (bytes_ok (KeyPair.pubkey kp)) as Hpk.
  { destruct Hkp as (_ & _ & _ & _ & ->). apply sec1_compress_wf. }
  assert (bytes_ok (binding ++ replicate 96 0)) as Hu.
  { apply Forall_app. split; [done|]. apply Forall_replicate. split; [lia|done]. }
  pose proof order_bits. destruct (verify_range _ _ _ _ _ Hs) as [Hr Hs'].
  assert (bytes_ok (Der.marshal (r, s))) as Hder by (apply Der.marshal_bytes; lia).
  unfold verifier.verify_tarako_quote. rewrite Hl. change (32 <=? verifier.USER_DATA_BYTES)%nat with true.
  change (verifier.USER_DATA_BYTES - 32)%nat with 96%nat.
  rewrite G1, G2, G3, G4, Eh, Ep, Eu, Es. cbn [mbind option_bind verifier.assert_].
  rewrite !Hex.fromhex_encode by done. cbn [mbind option_bind].
  rewrite !bool_decide_true by done. cbn [mbind option_bind verifier.assert_].
  rewrite Hv, Der.unmarshal_marshal by lia. unfold sig_ok in Hs. by rewrite Hs.
Qed.

(** The verifier's handler on the client's body, once the quote passes. *)
Lemma client_body_accepted (t : gmap (list Z) verifier.challenge_t) d pkb k challenge_id nonce
    request q h :
  bytes_ok d -> bytes_ok nonce -> verifier.from_encoded_point pkb = Some k ->
  t !! challenge_id = Some (verifier.mkChallenge (Hex.encode nonce) request) ->
  verifier.verify_tarako_quote (quote_json q) (verifier.make_request_binding request nonce) d pkb k =
    Some h ->
  exists res sig,
    verifier.verify (Some (verifier.mkPolicy (Hex.encode d) pkb))
      (Some (client_body challenge_id (Hex.encode nonce) request q)) t =
      (verifier.Accepted res sig, delete challenge_id t) /\
    verifier.res_challenge_id res = challenge_id /\
    verifier.res_request res = request /\ verifier.res_nonce res = Hex.encode nonce /\
    verifier.res_digest res = Hex.encode d /\ sig = verifier.sign_result (verifier.result_bytes res).
Proof.
  intros Hd Hn Hk Ht Ha. do 2 eexists. split.
  - unfold verifier.verify, client_body.
    change (verifier.get_str "challenge_id" _) with (Some challenge_id). cbv iota.
    rewrite Ht. unfold verifier.appraise.
    change (verifier.get_str "request" _) with (Some request).
    change (verifier.get_str "nonce" _) with (Some (Hex.encode nonce)).
    change (verifier.lookup (codes "tq") _) with (Some (verifier.JObj (quote_json q))).
    cbn [mbind option_bind verifier.ch_request verifier.ch_nonce].
    rewrite !bool_decide_true by done. cbn [mbind option_bind verifier.assert_].
    rewrite Hex.fromhex_encode by done. cbn [mbind option_bind].
    unfold verifier.load_appraisal_policy.
    cbn [mbind option_bind verifier.approved_digest verifier.trusted_tak].
    rewrite verifier.strip_encode, Hex.fromhex_encode, Hk by done. cbn [mbind option_bind].
    rewrite Ha. reflexivity.
  - by split_and!.
Qed.
End Accept.

(** An honest answer to a challenge is accepted. *)
Lemma honest_accepted {W : Type} `{!Kernel W} `{!VliLaws W} `{!EccLaws W} `{!CurveLaws W}
    `{!VerityLaws W} `{!UserLaws W} `{!IoctlLaws W} `{!ShaLaws W}
    `{G : !ecdsa.EcGroup} `{!ecdsa.EcGroupLaws curve_order x_of}
    {key : Type} `{!verifier.Cryptography key} `{!CryptographyLaws W key}
    (current : Task) (arg : Z) (poke : list Z -> W -> W) `{!OwnMemory W arg poke} (alloc : bool)
    (kp : KeyPair.KeyPair) (i : inode) (d : list Z)
    (body : option verifier.json) (request : str) (nonce id : list Z) t m q m' :
  key_pair_ok kp -> KeyPair.ima_measured kp = true ->
  exe_inode current = Some i -> verity_digest i = Some d -> bytes_ok d -> ready kp m ->
  verifier.json_request_value body = Some request -> bytes_ok nonce -> length nonce = 32%nat ->
  Forall (fun c => Json.same_char c = true) request ->
  @quoteHandler _ (driver_device current arg poke alloc) true
    (Some (mkQuoteRequest request (Hex.encode nonce))) m = ((200, Some q), m') ->
  let '(answer, t1) := verifier.challenge body nonce id t in
  answer = verifier.Challenged (Hex.encode id) (Hex.encode nonce) request /\
  exists res sig,
    verifier.verify (Some (verifier.mkPolicy (Hex.encode d) (KeyPair.pubkey kp)))
      (Some (client_body (Hex.encode id) (Hex.encode nonce) request q)) t1 =
      (verifier.Accepted res sig, delete (Hex.encode id) t1) /\
    verifier.res_challenge_id res = Hex.encode id /\
    verifier.res_request res = request /\ verifier.res_nonce res = Hex.encode nonce /\
    verifier.res_digest res = Hex.encode d /\ sig = verifier.sign_result (verifier.result_bytes res).
Proof.
  intros Hkp Hm Hi Hd Hdb Hr Hreq Hn Hl Hsame E.
  assert (request <> []) as Hne.
  { intros ->. destruct body as [[| fs | | | |]|]; try done. simpl in Hreq.
    apply bind_Some in Hreq as (r & _ & Hreq). by case_bool_decide; simplify_eq. }
  assert (marshalContext (Hex.encode nonce) request = verifier.request_context request nonce) as Ec.
  { apply contexts_agree_iff; [done| |done]. eapply Forall_impl; [exact Hsame|].
    intros c Hc. unfold Json.same_char in Hc. lia. }
  unfold quoteHandler in E. simpl negb in E. cbv iota in E.
  rewrite (request_binding_run nonce request Hn Hl Hne), Ec in E.
  change (Sha256.sha256 (bindingDomain ++ verifier.request_context request nonce))
    with (verifier.make_request_binding request nonce) in E.
  set (binding := verifier.make_request_binding request nonce) in *.
  destruct (tarakoQuote binding m) as [[e|q'] m1] eqn:Eq; [discriminate|]. injection E as -> _.
  pose proof (driver_is_signing current arg poke alloc kp i d Hkp Hm Hi Hd) as Hs.
  destruct (Sha256.sha256_wf (verifier.DOMAIN ++ verifier.request_context request nonce)) as [Lb Bb].
  pose proof (@quote_good _ (driver_device current arg poke alloc) _ _ _ _ Hs binding m q m1 Hr Bb Eq)
    as Hg.
  unfold verifier.challenge. rewrite Hreq. split; [done|].
  pose proof Hkp as (_ & Hk2 & _ & _ & Hk5).
  destruct (point_key (val (KeyPair.private kp)) Hk2) as (k & Hk & Hv).
  rewrite <- Hk5 in Hk. pose proof (good_quote_appraised kp d binding q k Hkp Hdb Bb Lb Hk Hv Hg) as Ha.
  exact (client_body_accepted _ d (KeyPair.pubkey kp) k (Hex.encode id) nonce request q _
    Hdb Hn Hk (lookup_insert_eq _ _ _) Ha).
Qed.

(** ** Properties *)

(** C22: the bindings of attester and verifier.  For a well-formed nonce and a
    request that is not empty, both hash the same domain followed by a JSON
    context, and the two contexts are equal exactly when every character of the
    request is one that the Go and Python encoders write alike: a request with
    [<], [>], [&], DEL or a character beyond ASCII (the two line separators
    apart) gets two different contexts. *)
Theorem request_contexts_agree (request : str) (nonce : list Z) :
  bytes_ok nonce -> length nonce = 32%nat -> request <> [] -> Forall (fun c => 0 <= c) request ->
  let go := marshalContext (Hex.encode nonce) request in
  let py := verifier.request_context request nonce in
  requestBinding (mkQuoteRequest request (Hex.encode nonce)) =
    inr (Sha256.sha256 (bindingDomain ++ go)) /\
  verifier.make_request_binding request nonce = Sha256.sha256 (bindingDomain ++ py) /\
  (go = py <-> Forall (fun c => Json.same_char c = true) request).
Proof.
  intros Hn Hl Hr Hc go py. split; [by apply request_binding_run|]. split; [done|].
  by apply contexts_agree_iff.
Qed.

(** C21: the driver is the device the attester relies on: for a process with the
    fs-verity digest [d], a module that has published a measured key pair
    answers the three ioctls on the process's own buffer as [SigningDevice]
    asks, with that digest and public key, and stays ready. *)
Theorem driver_signing_device {W : Type} `{!Kernel W} `{!VliLaws W} `{!EccLaws W} `{!CurveLaws W}
    `{!VerityLaws W} `{!UserLaws W} `{!IoctlLaws W} `{!ShaLaws W}
    `{G : !ecdsa.EcGroup} `{!ecdsa.EcGroupLaws curve_order x_of}
    (current : Task) (arg : Z) (poke : list Z -> W -> W) `{!OwnMemory W arg poke} (alloc : bool)
    (kp : KeyPair.KeyPair) (i : inode) (d : list Z) :
  key_pair_ok kp -> KeyPair.ima_measured kp = true ->
  exe_inode current = Some i -> verity_digest i = Some d ->
  @SigningDevice (tarako.module W) (driver_device current arg poke alloc)
    (ready kp) d (KeyPair.pubkey kp) (sig_ok kp).
Proof. intros. by eapply driver_is_signing. Qed.

(** A quote that the attester obtains from the driver is good: its hash,
    public key, user data and signature are the hexadecimal and DER forms of the
    SHA-256 of the program's fs-verity digest and the padded data, of the
    published key, of the data, and of a signature valid for that hash. *)
Lemma driver_quote_good {W : Type} `{!Kernel W} `{!VliLaws W} `{!EccLaws W} `{!CurveLaws W}
    `{!VerityLaws W} `{!UserLaws W} `{!IoctlLaws W} `{!ShaLaws W}
    `{G : !ecdsa.EcGroup} `{!ecdsa.EcGroupLaws curve_order x_of}
    (current : Task) (arg : Z) (poke : list Z -> W -> W) `{!OwnMemory W arg poke} (alloc : bool)
    (kp : KeyPair.KeyPair) (i : inode) (d userData : list Z) m q m' :
  key_pair_ok kp -> KeyPair.ima_measured kp = true ->
  exe_inode current = Some i -> verity_digest i = Some d ->
  ready kp m -> bytes_ok userData ->
  @tarakoQuote _ (driver_device current arg poke alloc) userData m = (inr q, m') ->
  good_quote d (KeyPair.pubkey kp) (sig_ok kp) userData q.
Proof.
  intros Hkp Hm Hi Hd Hr Hb E.
  pose proof (driver_is_signing current arg poke alloc kp i d Hkp Hm Hi Hd) as Hs.
  by eapply (@quote_good _ (driver_device current arg poke alloc)).
Qed.

(** The whole flow.  A challenge is issued for a request that both encoders
    write alike, the attester answers it from the driver, and the client passes
    the quote on: with the program's digest and the published key as policy,
    the verifier accepts, for this request, nonce and digest, and the challenge
    is consumed. *)
Lemma honest_quote_accepted {W : Type} `{!Kernel W} `{!VliLaws W} `{!EccLaws W} `{!CurveLaws W}
    `{!VerityLaws W} `{!UserLaws W} `{!IoctlLaws W} `{!ShaLaws W}
    `{G : !ecdsa.EcGroup} `{!ecdsa.EcGroupLaws curve_order x_of}
    {key : Type} `{!verifier.Cryptography key} `{!CryptographyLaws W key}
    (current : Task) (arg : Z) (poke : list Z -> W -> W) `{!OwnMemory W arg poke} (alloc : bool)
    (kp : KeyPair.KeyPair) (i : inode) (d : list Z)
    (body : option verifier.json) (request : str) (nonce id : list Z) t m q m' :
  key_pair_ok kp -> KeyPair.ima_measured kp = true ->
  exe_inode current = Some i -> verity_digest i = Some d -> bytes_ok d -> ready kp m ->
  verifier.json_request_value body = Some request -> bytes_ok nonce -> length nonce = 32%nat ->
  Forall (fun c => Json.same_char c = true) request ->
  @quoteHandler _ (driver_device current arg poke alloc) true
    (Some (mkQuoteRequest request (Hex.encode nonce))) m = ((200, Some q), m') ->
  let '(answer, t1) := verifier.challenge body nonce id t in
  answer = verifier.Challenged (Hex.encode id) (Hex.encode nonce) request /\
  exists res sig,
    verifier.verify (Some (verifier.mkPolicy (Hex.encode d) (KeyPair.pubkey kp)))
      (Some (client_body (Hex.encode id) (Hex.encode nonce) request q)) t1 =
      (verifier.Accepted res sig, delete (Hex.encode id) t1) /\
    verifier.res_request res = request /\ verifier.res_nonce res = Hex.encode nonce /\
    verifier.res_digest res = Hex.encode d.
Proof.
  intros Hkp Hm Hi Hd Hdb Hr Hreq Hn Hl Hsame E.
  pose proof (honest_accepted current arg poke alloc kp i d body request nonce id t m q m'
    Hkp Hm Hi Hd Hdb Hr Hreq Hn Hl Hsame E) as Hacc.
  destruct (verifier.challenge body nonce id t) as [answer t1].
  destruct Hacc as (Ha & res & sig & Hv & _ & H1 & H2 & H3 & _). split; [done|]. by exists res, sig.
Qed.

(** ** The properties on a run

    The loaded module of [Tarako]'s run serves a process whose executable is
    inode 1, with a buffer at 4096; keys of the verifier's package are private
    keys, which the reference kernel's points reveal. *)
#[local] Existing Instances ToyKernel toy_Vli toy_Ecc toy_Curve toy_Verity toy_User toy_Ioctl
  ecdsa.toy_group ecdsa.toy_group_laws.

Fixpoint poke_at (ptr : Z) (bs : list Z) (m : gmap Z Z) : gmap Z Z :=
  match bs with [] => m | b :: bs => <[ptr := b]> (poke_at (ptr + 1) bs m) end.

Definition toy_poke (bs : list Z) (w : RW) : RW := set_user (poke_at 4096 bs (rw_user w)) w.

Lemma poke_at_lookup bs m : forall ptr j b, bs !! j = Some b ->
  poke_at ptr bs m !! (ptr + Z.of_nat j) = Some b.
Proof.
  induction bs as [|c bs IH]; intros ptr [|j] b Hj; simpl in *; try done.
  - injection Hj as <-. by rewrite Z.add_0_r, lookup_insert_eq.
  - rewrite lookup_insert_ne by lia. rewrite <- (IH (ptr + 1) j b Hj). f_equal. lia.
Qed.

#[local] Instance toy_memory : OwnMemory RW 4096 toy_poke.
Proof.
  split; [|by intros; split|done]. intros bs w _ Hb j b Hj.
  change (((fun b => b mod 256) <$> poke_at 4096 bs (rw_user w) !! (4096 + Z.of_nat j)) = Some b).
  rewrite (poke_at_lookup bs _ 4096 j b Hj). simpl. f_equal. apply Z.mod_small.
  exact (Forall_lookup_1 _ _ _ _ Hb Hj).
Qed.

#[local] Instance toy_sha : ShaLaws RW.
Proof. by intros bs. Qed.

#[local] Instance toy_crypto : verifier.Cryptography Z := {|
  verifier.from_encoded_point bs := match bs with [] => None | _ :: x => Some (be_value x) end;
  verifier.key_verify k der msg :=
    match Der.unmarshal der with
    | Some rs => ecdsa.verify PrimeCert.p256_order (ecdsa.smul k ecdsa.base)
                   (be_value (Sha256.sha256 msg)) rs
    | None => false
    end;
  verifier.sign_result := Sha256.sha256 |}.

#[local] Instance toy_crypto_laws : CryptographyLaws RW Z.
Proof.
  intros x Hx. exists x. split; [|done].
  change (Some (be_value (be32 (x mod PrimeCert.p256_order))) = Some x).
  change (0 < x < PrimeCert.p256_order) in Hx. pose proof PrimeCert.p256_order_bits.
  rewrite Z.mod_small, be32_value by lia. done.
Qed.

Definition toy_module : tarako.module RW := tarako.mod_ tarako.toy_loaded.
Definition toy_device : Device (tarako.module RW) := driver_device (toy_task 1) 4096 toy_poke true.

Lemma toy_key_is_kp : tarako.toy_key = toy_kp.
Proof. vm_compute. reflexivity. Qed.

Lemma toy_ready : ready toy_kp toy_module.
Proof. rewrite <- toy_key_is_kp. vm_compute. reflexivity. Qed.

Lemma request_contexts_agree_witness :
  let request := codes "a<b" in let nonce := replicate 32 1 in
  marshalContext (Hex.encode nonce) request <> verifier.request_context request nonce /\
  (marshalContext (Hex.encode nonce) request = verifier.request_context request nonce <->
   Forall (fun c => Json.same_char c = true) request).
Proof.
  split; [vm_compute; discriminate|].
  refine (proj2 (proj2 (request_contexts_agree (codes "a<b") (replicate 32 1) _ eq_refl _ _))).
  - apply Forall_replicate. split; [discriminate|reflexivity].
  - discriminate.
  - repeat constructor; discriminate.
Defined.

Lemma driver_signing_device_witness :
  @SigningDevice (tarako.module RW) toy_device (ready toy_kp) (replicate 32 7)
    (KeyPair.pubkey toy_kp) (sig_ok toy_kp) /\ ready toy_kp toy_module.
Proof.
  split; [|exact toy_ready].
  exact (driver_signing_device (toy_task 1) 4096 toy_poke true toy_kp 1 (replicate 32 7)
    toy_kp_ok eq_refl eq_refl eq_refl).
Defined.

(** Whether a run of the attester gives a quote. *)
Definition quotes {S} (r : (error + quoteResponse) * S) : bool :=
  match fst r with inr _ => true | inl _ => false end.

Lemma quotes_run {S} (r : (error + quoteResponse) * S) :
  quotes r = true -> exists q s', r = (inr q, s').
Proof. destruct r as [[e|q] s']; [done|]. by exists q, s'. Qed.

(** A challenge for the request "hi", and the attester's answer to it. *)
Definition toy_body : option verifier.json :=
  Some (verifier.JObj [(codes "request", verifier.JStr (codes "hi"))]).
Definition toy_nonce : list Z := replicate 32 3.
Definition toy_id : list Z := replicate 16 9.
Definition toy_table : gmap (list Z) verifier.challenge_t :=
  snd (verifier.challenge toy_body toy_nonce toy_id ∅).
Definition toy_answer : (Z * option quoteResponse) * tarako.module RW :=
  @quoteHandler _ toy_device true (Some (mkQuoteRequest (codes "hi") (Hex.encode toy_nonce))) toy_module.

Definition handled (r : (Z * option quoteResponse) * tarako.module RW) : bool :=
  match fst r with (200, Some _) => true | _ => false end.

Lemma handled_run r : handled r = true -> exists q m', r = ((200, Some q), m').
Proof.
  unfold handled. destruct r as [[c [q|]] m']; simpl; intros H; [exists q, m'|];
    repeat (case_match; try done); subst; done.
Qed.

Lemma toy_answered : exists q m', toy_answer = ((200, Some q), m').
Proof. apply handled_run. vm_compute. reflexivity. Qed.

Definition toy_policy : verifier.policy_files :=
  verifier.mkPolicy (Hex.encode (replicate 32 7)) (KeyPair.pubkey toy_kp).

Definition accepted (r : verifier.response) : bool :=
  match r with verifier.Accepted _ _ => true | _ => false end.

Lemma accepted_run (r : verifier.response * gmap (list Z) verifier.challenge_t) :
  accepted (fst r) = true -> exists res sig t', r = (verifier.Accepted res sig, t').
Proof. destruct r as [[| |res sig] t']; try done. by exists res, sig, t'. Qed.

Definition toy_quote : quoteResponse :=
  match fst toy_answer with (_, Some q) => q | _ => mkQuoteResponse [] [] [] [] end.
End attestation.
