(* ===== verification/Client.v ===== *)
(** [test/attestation/client.py]: the relying party.

    [main] is a computation over the state of the network, with the exception
    that ends it.  [requests.post] is the class [Network]; OpenSSL, the X.509
    and the elliptic-curve parts of the [cryptography] package are the classes
    [X509] and [verifier.Cryptography].  The command line, the temporary file
    that hands the certificate to OpenSSL and the delay between two attempts are
    left out. *)
From S2P Require Import Prelude Wire Verifier.
From stdpp Require Import base list numbers strings pretty sorting.
From Stdlib Require Import ZArith Lia.
#[local] Open Scope Z_scope.

Module client.
Import verifier.

(** ** Python values *)

(** The order of Python strings. *)
Fixpoint str_le (s t : str) : bool :=
  match s, t with
  | [], _ => true
  | _, [] => false
  | c :: s, d :: t => (c <? d) || ((c =? d) && str_le s t)
  end.

Fixpoint insert_item {A} (kv : str * A) (l : list (str * A)) : list (str * A) :=
  match l with
  | [] => [kv]
  | kv' :: l' => if str_le (fst kv) (fst kv') then kv :: l else kv' :: insert_item kv l'
  end.
Fixpoint sort_items {A} (l : list (str * A)) : list (str * A) :=
  match l with [] => [] | kv :: l => insert_item kv (sort_items l) end.

(** An array without white space; the items are already encoded. *)
Definition array (items : list (list Z)) : list Z :=
  [91] ++ mjoin (imap (fun i v => (if (i =? 0)%nat then [] else [44]) ++ v) items) ++ [93].

(** [json.dumps(j, sort_keys=True, separators=(",", ":"))]. *)
Fixpoint dumps (j : json) : list Z :=
  match j with
  | JStr s => Json.quoted Json.py_char s
  | JObj fields =>
      Json.object Json.py_char (sort_items (map (fun kv => (fst kv, dumps (snd kv))) fields))
  | JArr items => array (map dumps items)
  | JInt n => codes (pretty n)
  | JBool b => codes (if b then "true" else "false")
  | JNull => codes "null"
  end.

(** [==]: a boolean is a number, and the order of a dictionary does not count. *)
Definition number (j : json) : option Z :=
  match j with JInt n => Some n | JBool b => Some (if b then 1 else 0) | _ => None end.

Fixpoint py_eq (a b : json) {struct a} : bool :=
  match a, b with
  | JStr s, JStr t => bool_decide (s = t)
  | JNull, JNull => true
  | JArr l, JArr m =>
      (fix items l m := match l, m with
        | [], [] => true
        | x :: l, y :: m => py_eq x y && items l m
        | _, _ => false
        end) l m
  | JObj fs, JObj gs =>
      (length fs =? length gs)%nat &&
      (fix fields fs := match fs with
        | [] => true
        | (k, x) :: fs => match lookup k gs with Some y => py_eq x y | None => false end && fields fs
        end) fs
  | _, _ => match number a, number b with Some x, Some y => x =? y | _, _ => false end
  end.

(** [str.encode]: a surrogate cannot be encoded. *)
Definition encode (s : str) : option (list Z) :=
  if forallb (fun c => negb ((0xd800 <=? c) && (c <=? 0xdfff))) s
  then Some (mjoin (Json.utf8 <$> s)) else None.

(** ** The outside world *)

Record http_response := mkHttp { status : Z; content : option json }.

(** [requests.post(f"http://{host}:{port}{path}", json=body)]; [None] is a
    [RequestException]. *)
Class Network (N : Type) :=
  post : str -> Z -> string -> json -> N -> option http_response * N.

Class X509 (cert key : Type) := {
  openssl_verify : list Z -> list Z -> bool;     (* the CA file, the certificate *)
  load_pem_x509_certificate : list Z -> option cert;
  issuer : cert -> list Z;
  subject : cert -> list Z;
  public_key : cert -> option key                (* [None] if it is not an EC key *)
}.

(** The exceptions, by the place that raises them. *)
Inductive raised :=
  | RequestException | AssertionError | KeyError | TypeError | ValueError
  | CalledProcessError | InvalidSignature
  | WrongIssuer | NotEcKey | Rejected | WrongChallengeId | WrongNonce | WrongRequest.

(** ** The program *)

Section Client.
Context {N : Type} `{!Network N}.

Definition NM (A : Type) : Type := N -> (raised + A) * N.
#[local] Instance NM_ret : MRet NM := fun A a n => (inr a, n).
#[local] Instance NM_bind : MBind NM := fun A B f m n =>
  match m n with (inr a, n) => f a n | (inl e, n) => (inl e, n) end.

Definition raise {A} (e : raised) : NM A := fun n => (inl e, n).
Definition try_ {A} (o : option A) (e : raised) : NM A :=
  match o with Some a => mret a | None => raise e end.
Definition check (b : bool) (e : raised) : NM unit := if b then mret tt else raise e.

Definition requests_post (host : str) (port : Z) (path : string) (body : json) : NM http_response :=
  fun n => let '(o, n) := post host port path body n in try_ o RequestException n.

Definition raise_for_status (r : http_response) : NM unit :=
  check (negb ((400 <=? status r) && (status r <? 600))) RequestException.

(** The error of [response.json()] is a [RequestException] too. *)
Definition response_json (r : http_response) : NM json := try_ (content r) RequestException.

(** [j[k]] and [j.get(k)]. *)
Definition item (j : json) (k : string) : NM json :=
  match j with JObj fields => try_ (lookup (codes k) fields) KeyError | _ => raise TypeError end.
Definition get (fields : list (str * json)) (k : string) : json :=
  default JNull (lookup (codes k) fields).
Definition as_str (j : json) : NM str :=
  match j with JStr s => mret s | _ => raise TypeError end.

Definition attempt_challenge (verifier_host request_value : str) : NM json :=
  response ← requests_post verifier_host 5001 "/challenge"
    (JObj [(codes "request", JStr request_value)]);
  _ ← raise_for_status response;
  response_json response.

(** The loop from attempt [5 - attempts]. *)
Fixpoint challenge_loop (attempts : nat) (verifier_host request_value : str) : NM json :=
  match attempts with
  | O => raise AssertionError
  | S attempts => fun n =>
      match attempt_challenge verifier_host request_value n with
      | (inl RequestException, n) =>
          if (attempts =? 0)%nat then (inl RequestException, n)
          else challenge_loop attempts verifier_host request_value n
      | r => r
      end
  end.

Definition request_challenge (verifier_host request_value : str) : NM json :=
  challenge_loop 5 verifier_host request_value.

Context {cert key : Type} `{!X509 cert key} `{!Cryptography key}.

(** The evidence: a challenge, a quote for it, and the verifier's answer. *)
Definition obtain_envelope (verifier_host attester_host request : str) : NM (json * json) :=
  challenge ← request_challenge verifier_host request;
  nonce ← item challenge "nonce";
  challenge_request ← item challenge "request";
  quote_response ← requests_post attester_host 5000 "/quote"
    (JObj [(codes "nonce", nonce); (codes "request", challenge_request)]);
  _ ← raise_for_status quote_response;
  challenge_id ← item challenge "challenge_id";
  tq ← response_json quote_response;
  result_response ← requests_post verifier_host 5001 "/verify"
    (JObj [(codes "challenge_id", challenge_id); (codes "nonce", nonce);
           (codes "request", challenge_request); (codes "tq", tq)]);
  _ ← raise_for_status result_response;
  envelope ← response_json result_response;
  mret (challenge, envelope).

(** The verifier's key, from a certificate that the root CA has issued. *)
Definition verifier_key (trusted_root_ca : list Z) (envelope : json) : NM key :=
  certificate ← item envelope "certificate";
  certificate ← as_str certificate;
  certificate_pem ← try_ (encode certificate) ValueError;
  _ ← check (openssl_verify trusted_root_ca certificate_pem) CalledProcessError;
  root_certificate ← try_ (load_pem_x509_certificate trusted_root_ca) ValueError;
  verifier_certificate ← try_ (load_pem_x509_certificate certificate_pem) ValueError;
  _ ← check (bool_decide (issuer verifier_certificate = subject root_certificate)) WrongIssuer;
  try_ (public_key verifier_certificate) NotEcKey.

(** The checks on the signed result; the program prints what this returns. *)
Definition check_result (verifier_public_key : key) (challenge envelope : json) (request : str)
    : NM json :=
  result ← item envelope "result";
  let result_bytes := dumps result in
  signature ← item envelope "signature";
  signature ← as_str signature;
  signature ← try_ (Hex.fromhex signature) ValueError;
  _ ← check (key_verify verifier_public_key signature result_bytes) InvalidSignature;
  match result with
  | JObj fields =>
      _ ← check (match get fields "accepted" with JBool true => true | _ => false end) Rejected;
      challenge_id ← item challenge "challenge_id";
      _ ← check (py_eq (get fields "challenge_id") challenge_id) WrongChallengeId;
      nonce ← item challenge "nonce";
      _ ← check (py_eq (get fields "nonce") nonce) WrongNonce;
      _ ← check (py_eq (get fields "request") (JStr request)) WrongRequest;
      mret result
  | _ => raise TypeError
  end.

Definition main (trusted_root_ca : list Z) (verifier_host attester_host request : str) : NM json :=
  '(challenge, envelope) ← obtain_envelope verifier_host attester_host request;
  verifier_public_key ← verifier_key trusted_root_ca envelope;
  check_result verifier_public_key challenge envelope request.

(** ** Lemmas *)

Lemma bind_inr {A B} (m : NM A) (f : A -> NM B) n b n' :
  (m ≫= f) n = (inr b, n') -> exists a n1, m n = (inr a, n1) /\ f a n1 = (inr b, n').
Proof. unfold mbind, NM_bind. destruct (m n) as [[e|a] n1]; [done|]. eauto. Qed.

Lemma try_inr {A} (o : option A) e n a n' : try_ o e n = (inr a, n') -> o = Some a /\ n' = n.
Proof. destruct o; [|done]. by intros [= -> ->]. Qed.

Lemma check_inr b e n u n' : check b e n = (inr u, n') -> b = true /\ n' = n.
Proof. destruct b; [|done]. by intros [= _ ->]. Qed.

Lemma item_inr j k n v n' : item j k n = (inr v, n') ->
  n' = n /\ exists fields, j = JObj fields /\ lookup (codes k) fields = Some v.
Proof. destruct j; try done. intros [E ->]%try_inr. eauto. Qed.

Lemma item_obj fields k n v n' :
  item (JObj fields) k n = (inr v, n') -> lookup (codes k) fields = Some v /\ n' = n.
Proof. apply try_inr. Qed.

Lemma as_str_inr j n s n' : as_str j n = (inr s, n') -> j = JStr s /\ n' = n.
Proof. destruct j; try done. by intros [= -> ->]. Qed.

Lemma get_some fields k v : get fields k = v -> v <> JNull -> lookup (codes k) fields = Some v.
Proof. unfold get. destruct (lookup _ _); simpl; congruence. Qed.

Lemma py_eq_str j s : py_eq j (JStr s) = true -> j = JStr s.
Proof. destruct j; try done. simpl. intros ->%bool_decide_eq_true. done. Qed.
End Client.

(** ** Canonical JSON *)

Lemma str_le_total s t : str_le s t = true \/ str_le t s = true.
Proof.
  revert t. induction s as [|c s IH]; intros [|d t]; simpl; auto.
  destruct (Z.lt_trichotomy c d) as [?|[->|?]]; [left; lia | | right; lia].
  rewrite Z.ltb_irrefl, Z.eqb_refl. apply IH.
Qed.

Lemma str_le_trans s t u : str_le s t = true -> str_le t u = true -> str_le s u = true.
Proof.
  revert t u. induction s as [|c s IH]; intros [|d t] [|e u]; simpl; try done.
  intros [?|[? ?]%andb_true_iff]%orb_true_iff [?|[? ?]%andb_true_iff]%orb_true_iff;
    apply orb_true_iff; [left; lia..|]. right. apply andb_true_iff. split; [lia|by eapply IH].
Qed.

Lemma str_le_antisymm s t : str_le s t = true -> str_le t s = true -> s = t.
Proof.
  revert t. induction s as [|c s IH]; intros [|d t]; simpl; try done.
  intros [?|[? ?]%andb_true_iff]%orb_true_iff [?|[? ?]%andb_true_iff]%orb_true_iff; try lia.
  f_equal; [lia|by apply IH].
Qed.

Section Sort.
Context {A : Type}.
Definition key_le (x y : str * A) : Prop := str_le (fst x) (fst y) = true.

Lemma insert_item_perm (kv : str * A) l : insert_item kv l ≡ₚ kv :: l.
Proof.
  induction l as [|kv' l IH]; simpl; [done|]. destruct (str_le _ _); [done|].
  rewrite IH. apply Permutation_swap.
Qed.

Lemma sort_items_perm (l : list (str * A)) : sort_items l ≡ₚ l.
Proof. induction l as [|kv l IH]; simpl; [done|]. by rewrite insert_item_perm, IH. Qed.

Lemma insert_item_sorted (kv : str * A) l :
  StronglySorted key_le l -> StronglySorted key_le (insert_item kv l).
Proof.
  induction 1 as [|kv' l Hs IH Hf]; simpl; [by repeat constructor|].
  destruct (str_le (fst kv) (fst kv')) eqn:E.
  - constructor; [by constructor|]. constructor; [done|].
    eapply Forall_impl; [exact Hf|]. intros x. by apply str_le_trans.
  - constructor; [done|]. rewrite insert_item_perm. constructor; [|done].
    destruct (str_le_total (fst kv) (fst kv')); [congruence|done].
Qed.

Lemma sort_items_sorted (l : list (str * A)) : StronglySorted key_le (sort_items l).
Proof. induction l; simpl; [constructor|by apply insert_item_sorted]. Qed.

(** A dictionary has one sorted list of items. *)
Lemma sort_items_unique (l l' : list (str * A)) :
  l ≡ₚ l' -> NoDup (fst <$> l) -> sort_items l = sort_items l'.
Proof.
  intros Hp Hn. apply (StronglySorted_unique_strong key_le).
  - intros x y Hx Hy H1 H2. rewrite sort_items_perm in Hx, Hy. rewrite <- Hp in Hy.
    pose proof (str_le_antisymm _ _ H1 H2) as E.
    apply list_elem_of_lookup in Hx as [i Hi], Hy as [j Hj].
    assert (i = j) as ->; [|congruence].
    apply (NoDup_lookup (fst <$> l) i j (fst x)); [done|by rewrite list_lookup_fmap, Hi|].
    by rewrite list_lookup_fmap, Hj, E.
  - apply sort_items_sorted.
  - apply sort_items_sorted.
  - by rewrite !sort_items_perm.
Qed.
End Sort.

(** The result object of [verify], in the JSON it is sent as. *)
Definition result_json (r : result_t) : json :=
  JObj [(codes "accepted", JBool true);
        (codes "challenge_id", JStr (res_challenge_id r));
        (codes "digest", JStr (res_digest r));
        (codes "kernel_hash", JStr (res_kernel_hash r));
        (codes "nonce", JStr (res_nonce r));
        (codes "request", JStr (res_request r));
        (codes "request_binding", JStr (res_request_binding r))].

(** One step of a run that returned. *)
Ltac run_inv H :=
  repeat first
    [ apply bind_inr in H as (? & ? & ?H & H)
    | match goal with
      | E : try_ _ _ _ = (inr _, _) |- _ => apply try_inr in E as [E ->]
      | E : check _ _ _ = (inr _, _) |- _ => apply check_inr in E as [E ->]
      | E : item (JObj _) _ _ = (inr _, _) |- _ => apply item_obj in E as [E ->]
      | E : item _ _ _ = (inr _, _) |- _ => apply item_inr in E as (-> & ? & -> & E)
      | E : as_str _ _ = (inr _, _) |- _ => apply as_str_inr in E as [-> ->]
      end ].

Section Theorems.
Context {N : Type} `{!Network N}.

(** An attempt that returns is one HTTP exchange with a good status. *)
Lemma attempt_inr vh r n j n' : attempt_challenge vh r n = (inr j, n') ->
  exists resp, post vh 5001 "/challenge" (JObj [(codes "request", JStr r)]) n = (Some resp, n') /\
    content resp = Some j /\ ~ 400 <= status resp < 600.
Proof.
  unfold attempt_challenge. intros H. apply bind_inr in H as (resp & n1 & H1 & H).
  apply bind_inr in H as (u & n2 & H2 & H). apply check_inr in H2 as [H2 ->].
  apply try_inr in H as [H ->]. unfold requests_post in H1.
  destruct (post _ _ _ _ n) as [o n2] eqn:E. apply try_inr in H1 as [-> ->].
  exists resp. split_and!; [done | done | lia].
Qed.

(** An attempt fails only with the exception that the loop catches. *)
Lemma attempt_inl vh r n e n' : attempt_challenge vh r n = (inl e, n') -> e = RequestException.
Proof.
  unfold attempt_challenge, mbind, NM_bind, requests_post, raise_for_status, check, response_json, try_.
  destruct (post _ _ _ _ n) as [[resp|] n1]; [|by intros [= <- _]].
  simpl. destruct (_ && _); simpl; [by intros [= <- _]|].
  destruct (content resp); by intros [= <- _].
Qed.

(** The states of the network after failed attempts. *)
Inductive failures (vh r : str) : nat -> N -> N -> Prop :=
  | failures_0 n : failures vh r 0 n n
  | failures_S k n n1 n2 :
      attempt_challenge vh r n = (inl RequestException, n1) -> failures vh r k n1 n2 ->
      failures vh r (S k) n n2.

(** The loop: the first success within the attempts, or that many failures. *)
Lemma challenge_loop_ok vh r m : forall n o n',
  challenge_loop (S m) vh r n = (o, n') ->
  (exists k j n1, (k <= m)%nat /\ failures vh r k n n1 /\
     attempt_challenge vh r n1 = (inr j, n') /\ o = inr j) \/
  (failures vh r (S m) n n' /\ o = inl RequestException).
Proof.
  induction m as [|m IH]; intros n o n' H; cbn [challenge_loop] in H;
    destruct (attempt_challenge vh r n) as [[e|j] n1] eqn:E.
  - pose proof (attempt_inl _ _ _ _ _ E) as ->. injection H as <- <-. right.
    split; [|done]. by eapply failures_S; [|constructor].
  - injection H as <- <-. left. exists 0%nat, j, n. split_and!; [lia | constructor | done | done].
  - pose proof (attempt_inl _ _ _ _ _ E) as ->. apply IH in H as [(k & j & n2 & Hk & Hf & Ha & ->)|[Hf ->]].
    + left. exists (S k), j, n2. split_and!; [lia | by eapply failures_S | done | done].
    + right. split; [|done]. by eapply failures_S.
  - injection H as <- <-. left. exists 0%nat, j, n. split_and!; [lia | constructor | done | done].
Qed.

(** The challenge request is retried: [request_challenge] returns the answer
    of the first of at most five attempts that succeeds, and raises the
    [RequestException] of the fifth if all fail; the assertion after the loop
    is never reached. *)
Lemma request_challenge_retries (verifier_host request : str) (n n' : N) o :
  request_challenge verifier_host request n = (o, n') ->
  (exists k j n1, (k < 5)%nat /\ failures verifier_host request k n n1 /\
     attempt_challenge verifier_host request n1 = (inr j, n') /\ o = inr j) \/
  (failures verifier_host request 5 n n' /\ o = inl RequestException).
Proof.
  intros [(k & j & n1 & Hk & H)|H]%challenge_loop_ok; [left|by right].
  exists k, j, n1. split; [lia|done].
Qed.

Context {cert key : Type} `{!X509 cert key} `{!Cryptography key}.

(** The three exchanges when every server answers with status 200. *)
Lemma obtain_envelope_run vh ah r n n1 n2 n3 challenge cid nonce req tq envelope :
  post vh 5001 "/challenge" (JObj [(codes "request", JStr r)]) n =
    (Some (mkHttp 200 (Some (JObj challenge))), n1) ->
  lookup (codes "challenge_id") challenge = Some cid ->
  lookup (codes "nonce") challenge = Some nonce -> lookup (codes "request") challenge = Some req ->
  post ah 5000 "/quote" (JObj [(codes "nonce", nonce); (codes "request", req)]) n1 =
    (Some (mkHttp 200 (Some tq)), n2) ->
  post vh 5001 "/verify" (JObj [(codes "challenge_id", cid); (codes "nonce", nonce);
      (codes "request", req); (codes "tq", tq)]) n2 = (Some (mkHttp 200 (Some envelope)), n3) ->
  obtain_envelope vh ah r n = (inr (JObj challenge, envelope), n3).
Proof.
  intros E1 Hc Hn Hr E2 E3.
  unfold obtain_envelope, request_challenge, challenge_loop, attempt_challenge, requests_post,
    raise_for_status, response_json, item, mbind, NM_bind.
  rewrite E1. cbn [try_ mret NM_ret check negb andb status content Z.leb Z.ltb Z.compare
    Pos.compare Pos.compare_cont]. rewrite Hn, Hr. cbn [try_ mret NM_ret].
  rewrite E2. cbn [try_ mret NM_ret check negb andb status content Z.leb Z.ltb Z.compare
    Pos.compare Pos.compare_cont]. rewrite Hc. cbn [try_ mret NM_ret]. by rewrite E3.
Qed.

(** A certificate of the verifier that the root has issued, with its key. *)
Definition issued (trusted_root_ca : list Z) (certificate : str) (k : key) : Prop :=
  exists pem root_cert cert, encode certificate = Some pem /\
    openssl_verify trusted_root_ca pem = true /\
    load_pem_x509_certificate trusted_root_ca = Some root_cert /\
    load_pem_x509_certificate pem = Some cert /\ issuer cert = subject root_cert /\
    public_key cert = Some k.

Lemma verifier_key_run trusted_root_ca envelope certificate k (n : N) :
  lookup (codes "certificate") envelope = Some (JStr certificate) ->
  issued trusted_root_ca certificate k ->
  verifier_key trusted_root_ca (JObj envelope) n = (inr k, n).
Proof.
  intros Hc (pem & rc & vc & E1 & E2 & E3 & E4 & E5 & E6).
  unfold verifier_key, item, mbind, NM_bind. rewrite Hc. cbn [try_ mret NM_ret as_str].
  rewrite E1. cbn [try_ mret NM_ret]. rewrite E2. cbn [check mret NM_ret].
  rewrite E3. cbn [try_ mret NM_ret]. rewrite E4. cbn [try_ mret NM_ret].
  rewrite E5, bool_decide_true by done. cbn [check mret NM_ret]. by rewrite E6.
Qed.

Lemma check_result_run (k : key) challenge envelope r sig request (n : N) :
  lookup (codes "result") envelope = Some (result_json r) ->
  lookup (codes "signature") envelope = Some (JStr (Hex.encode sig)) -> bytes_ok sig ->
  key_verify k sig (result_bytes r) = true ->
  lookup (codes "challenge_id") challenge = Some (JStr (res_challenge_id r)) ->
  lookup (codes "nonce") challenge = Some (JStr (res_nonce r)) -> res_request r = request ->
  check_result k (JObj challenge) (JObj envelope) request n = (inr (result_json r), n).
Proof.
  intros Hr Hs Hb Hk Hc Hn Hq.
  unfold check_result, item, mbind, NM_bind. rewrite Hr. cbn [try_ mret NM_ret]. rewrite Hs.
  cbn [try_ mret NM_ret as_str]. rewrite Hex.fromhex_encode by done. cbn [try_ mret NM_ret].
  change (dumps (result_json r)) with (result_bytes r). rewrite Hk. cbn [check mret NM_ret].
  unfold result_json at 1. rewrite Hc, Hn. cbn [try_ mret NM_ret].
  change (get _ "accepted") with (JBool true). change (get _ "challenge_id") with (JStr (res_challenge_id r)).
  change (get _ "nonce") with (JStr (res_nonce r)). change (get _ "request") with (JStr (res_request r)).
  cbn [py_eq check mret NM_ret]. by rewrite !bool_decide_true by done.
Qed.

(** What the client relies on.  When the program prints a result, the
    verifier's certificate passed OpenSSL's check against the trusted root and
    names it as issuer, the result's canonical JSON carries a signature under
    that certificate's key, and the result says that the evidence was accepted
    for the challenge identifier and nonce that the verifier had issued to this
    run and for the very request on the command line. *)
Lemma client_checked (trusted_root_ca : list Z) (verifier_host attester_host request : str)
    (n n' : N) (result : json) :
  main trusted_root_ca verifier_host attester_host request n = (inr result, n') ->
  exists challenge envelope n1 pem root_cert cert k sig fields certificate signature,
    obtain_envelope verifier_host attester_host request n = (inr (JObj challenge, JObj envelope), n1) /\
    lookup (codes "certificate") envelope = Some (JStr certificate) /\ encode certificate = Some pem /\
    openssl_verify trusted_root_ca pem = true /\
    load_pem_x509_certificate trusted_root_ca = Some root_cert /\
    load_pem_x509_certificate pem = Some cert /\ issuer cert = subject root_cert /\
    public_key cert = Some k /\
    lookup (codes "signature") envelope = Some (JStr signature) /\ Hex.fromhex signature = Some sig /\
    key_verify k sig (dumps result) = true /\
    lookup (codes "result") envelope = Some result /\ result = JObj fields /\
    lookup (codes "accepted") fields = Some (JBool true) /\
    lookup (codes "request") fields = Some (JStr request) /\
    (exists cid, lookup (codes "challenge_id") challenge = Some cid /\
       py_eq (get fields "challenge_id") cid = true) /\
    (exists nonce, lookup (codes "nonce") challenge = Some nonce /\
       py_eq (get fields "nonce") nonce = true).
Proof.
  unfold main. intros H. apply bind_inr in H as ([challenge envelope] & n1 & Ho & H).
  apply bind_inr in H as (k & n2 & Hk & H). unfold verifier_key in Hk. run_inv Hk.
  unfold check_result in H.
  apply bind_inr in H as (res & n3 & Hres & H). run_inv H.
  destruct res as [|fields| | | |]; try done. run_inv H. injection H as <- <-.
  repeat match goal with E : bool_decide _ = true |- _ => apply bool_decide_eq_true in E end.
  match goal with E : py_eq _ (JStr request) = true |- _ => apply py_eq_str, get_some in E; [|done] end.
  do 11 eexists. split_and!; try done; [|by eauto..].
  apply get_some; [|done]. by repeat case_match.
Qed.
End Theorems.

(** A server that refuses the first [n] requests. *)
#[local] Instance flaky_network : Network nat := fun _ _ _ body n =>
  match n with
  | O => (Some (mkHttp 200 (Some body)), O)
  | S n => (Some (mkHttp 503 None), n)
  end.

End client.
