(* ===== verification/Canonical.v ===== *)
(** Canonical JSON can be read back.

    The client checks a signature over the text that it gets by encoding the
    result again.  This file shows that such a text determines the result: if a
    dictionary is written like a result of the verifier, then it has the fields
    of that result, with values that are written alike. *)
From S2P Require Import Prelude Wire Verifier Client.
From stdpp Require Import base gmap list numbers strings pretty.
From Stdlib Require Import ZArith Lia.
#[local] Open Scope Z_scope.

Module canonical.
Import verifier client.

(** ** Strings *)

(** The body of a string up to its closing quotation mark, and what follows. *)
Fixpoint scan (l : list Z) : option (list Z * list Z) :=
  match l with
  | [] => None
  | c :: r =>
      if c =? 34 then Some ([], r)
      else if c =? 92 then
        match r with
        | e :: r => prod_map (fun b => c :: e :: b) id <$> scan r
        | [] => None
        end
      else prod_map (cons c) id <$> scan r
  end.

(** A text that [scan] goes through. *)
Definition passes (w : list Z) : Prop :=
  forall r, scan (w ++ r) = prod_map (app w) id <$> scan r.

Lemma passes_app w w' : passes w -> passes w' -> passes (w ++ w').
Proof.
  intros H H' r. rewrite <- app_assoc, H, H'. destruct (scan r) as [[b rest]|]; [|done].
  simpl. by rewrite <- app_assoc.
Qed.

Lemma passes_char c : c <> 34 -> c <> 92 -> passes [c].
Proof. intros H1 H2 r. simpl. by rewrite (proj2 (Z.eqb_neq c 34) H1), (proj2 (Z.eqb_neq c 92) H2). Qed.

Lemma passes_escape e : passes [92; e].
Proof. done. Qed.

Lemma passes_digit n : passes [Hex.digit (n mod 16)].
Proof.
  pose proof (Z.mod_pos_bound n 16). apply passes_char; unfold Hex.digit; case_match; lia.
Qed.

Lemma passes_escape_u c : passes (Json.escape_u c).
Proof.
  unfold Json.escape_u.
  apply (passes_app [_; _]); [done|]. do 3 (apply (passes_app [_]); [apply passes_digit|]).
  apply passes_digit.
Qed.

Lemma passes_py_char c : passes (Json.py_char c).
Proof.
  unfold Json.py_char. destruct (Json.short_escape c) as [e|] eqn:He.
  - unfold Json.short_escape in He. by repeat case_match; simplify_eq.
  - assert (c <> 34 /\ c <> 92) as [? ?] by (split; intros ->; discriminate).
    repeat case_match; [by apply passes_char | apply passes_escape_u |].
    apply passes_app; apply passes_escape_u.
Qed.

Lemma passes_string s : passes (mjoin (Json.py_char <$> s)).
Proof.
  induction s as [|c s IH]; [intros r; by destruct (scan r) as [[??]|] eqn:E; simpl; rewrite ?E|].
  apply (passes_app (Json.py_char c)); [apply passes_py_char | exact IH].
Qed.

(** A string in quotation marks ends where it ends. *)
Lemma quoted_split s s' r r' :
  Json.quoted Json.py_char s ++ r = Json.quoted Json.py_char s' ++ r' ->
  Json.quoted Json.py_char s = Json.quoted Json.py_char s' /\ r = r'.
Proof.
  unfold Json.quoted. rewrite <- !app_assoc. simpl. intros [= E].
  pose proof (passes_string s (34 :: r)) as H. rewrite E, (passes_string s') in H.
  simpl in H. injection H as H <-. rewrite !app_nil_r in H. by rewrite H.
Qed.

(** A string of plain characters is the only one that is written like it. *)
Definition plain (c : Z) : Prop := Json.py_char c = [c] /\ c <> 92.

Lemma py_char_head c : Json.py_char c = [c] \/ exists l, Json.py_char c = 92 :: l.
Proof.
  unfold Json.py_char. destruct (Json.short_escape c) as [e|] eqn:He.
  - right. unfold Json.short_escape in He. by repeat case_match; simplify_eq; eauto.
  - repeat case_match; [by left|right; unfold Json.escape_u; simpl; eauto..].
Qed.

Lemma quoted_plain s t : Forall plain t ->
  Json.quoted Json.py_char s = Json.quoted Json.py_char t -> s = t.
Proof.
  unfold Json.quoted. intros Ht [= E%app_inj_2]; [|done]. destruct E as [E _].
  revert s E. induction Ht as [|c t [Hc Hn] _ IH]; intros [|d s] E; [done| | |].
  - by destruct (py_char_head d) as [H|[l H]]; rewrite fmap_cons in E; simpl in E; rewrite H in E.
  - rewrite fmap_cons in E; simpl in E. by rewrite Hc in E.
  - rewrite !fmap_cons in E; simpl in E. rewrite Hc in E.
    destruct (py_char_head d) as [H|[l H]]; rewrite H in E; simpl in E; [|congruence].
    injection E as -> E. f_equal. by apply IH.
Qed.

Lemma plain_range c : (32 <=? c) && (c <=? 126) && negb ((c =? 34) || (c =? 92)) = true -> plain c.
Proof.
  intros H. unfold plain, Json.py_char, Json.short_escape.
  repeat (rewrite (proj2 (Z.eqb_neq c _)) by lia).
  rewrite (proj2 (andb_true_iff _ _)) by lia. split; [done|lia].
Qed.

(** ** Values *)

(** A number is written with digits and a sign. *)
Definition numeral (c : Z) : bool := (c =? 45) || (48 <=? c) && (c <=? 57).

Lemma numeral_digit x : numeral (Z.of_nat (Ascii.nat_of_ascii (pretty_N_char x))) = true.
Proof. unfold pretty_N_char. by repeat case_match. Qed.

Lemma numeral_go x s : Forall (fun c => numeral c = true) (codes s) ->
  Forall (fun c => numeral c = true) (codes (pretty_N_go x s)) /\
  ((0 < x)%N \/ codes s <> [] -> codes (pretty_N_go x s) <> []).
Proof.
  revert s. induction (N.lt_wf_0 x) as [x _ IH]; intros s Hs.
  destruct (decide (0 < x)%N) as [Hx|Hx].
  - rewrite pretty_N_go_step by done.
    destruct (IH (x `div` 10)%N ltac:(by apply N.div_lt) (String (pretty_N_char (x `mod` 10)) s))
      as [H1 H2]; [constructor; [apply numeral_digit | done]|].
    split; [done|]. intros _. apply H2. by right.
  - assert (x = 0%N) as -> by lia. rewrite pretty_N_go_0. split; [done|]. intros [?|?]; [lia|done].
Qed.

Lemma numeral_pretty (n : Z) :
  exists c l, codes (pretty n) = c :: l /\ numeral c = true.
Proof.
  assert (forall x : N, exists c l, codes (pretty x) = c :: l /\ numeral c = true) as H.
  { intros x. unfold pretty, pretty_N. case_decide as Hx; [by exists 48, []|].
    destruct (numeral_go x "" ltac:(constructor)) as [H1 H2].
    destruct (codes (pretty_N_go x "")) as [|c l]; [destruct H2; [left; lia|done]|].
    inversion H1. eauto. }
  destruct n as [|p|p]; [by exists 48, [] | apply (H (Npos p)) |].
  by exists 45, (codes (pretty (Npos p))).
Qed.

(** The values of a result. *)
Definition simple (v : list Z) : Prop :=
  v = codes "true" \/ exists s, v = Json.quoted Json.py_char s.

(** A value that starts like one of these is one of these. *)
Lemma value_split j v r r' : simple v -> dumps j ++ r = v ++ r' -> dumps j = v /\ r = r'.
Proof.
  intros [->|[s ->]] E.
  - destruct j as [t|fs|xs|n|[]|]; try discriminate E.
    + cbn [dumps] in E. destruct (numeral_pretty n) as (c & l & H & Hc). rewrite H in E.
      injection E as -> _. discriminate Hc.
    + by injection E as ->.
  - destruct j as [t|fs|xs|n|[]|]; try discriminate E.
    + by apply quoted_split.
    + cbn [dumps] in E. destruct (numeral_pretty n) as (c & l & H & Hc). rewrite H in E.
      injection E as -> _. discriminate Hc.
Qed.

(** ** Objects *)

Abbreviation q := (Json.quoted Json.py_char).

Definition item_text (kv : str * list Z) : list Z := q (fst kv) ++ 58 :: snd kv.
Definition more (l : list (str * list Z)) : list Z := mjoin ((fun kv => 44 :: item_text kv) <$> l).

Lemma object_cons kv l :
  Json.object Json.py_char (kv :: l) = 123 :: item_text kv ++ more l ++ [125].
Proof.
  unfold Json.object. rewrite imap_cons. destruct kv as [k v]. unfold item_text.
  assert (forall f : nat -> str * list Z -> list Z,
    (forall i kv, f (S i) kv = 44 :: item_text kv) -> imap (f ∘ S) l = (fun kv => 44 :: item_text kv) <$> l)
    as E.
  { intros f Hf. rewrite <- (imap_const (fun kv => 44 :: item_text kv)). apply imap_ext.
    intros i kv _. apply Hf. }
  rewrite E by (by intros i [k' v']). unfold more. cbn [mjoin list_join fst snd Nat.eqb].
  by rewrite <- !app_assoc.
Qed.

(** The values that an object holds are encoded, or those of a result. *)
Abbreviation encoded := (Forall (fun kv : str * list Z => exists j, snd kv = dumps j)).
Abbreviation simples := (Forall (fun kv : str * list Z => simple (snd kv))).

Lemma cons_tail (x : Z) l l' : x :: l = x :: l' -> l = l'.
Proof. by intros [= ?]. Qed.

Lemma item_split kv kv' r r' :
  (exists j, snd kv = dumps j) -> simple (snd kv') -> item_text kv ++ r = item_text kv' ++ r' ->
  (q (fst kv) = q (fst kv') /\ snd kv = snd kv') /\ r = r'.
Proof.
  intros [j Hj] Hs E. unfold item_text in E. rewrite <- !app_assoc in E.
  apply quoted_split in E as [E1 E]. rewrite Hj in *.
  by apply cons_tail, value_split in E as [E2 E3].
Qed.

Lemma more_split L : forall R, encoded L -> simples R -> more L ++ [125] = more R ++ [125] ->
  Forall2 (fun kv kv' => q (fst kv) = q (fst kv') /\ snd kv = snd kv') L R.
Proof.
  induction L as [|kv L IH]; intros [|kv' R] HL HR E; [constructor|discriminate E|discriminate E|].
  apply Forall_cons in HL as [H1 HL], HR as [H2 HR]. unfold more in E.
  rewrite !fmap_cons in E. cbn [mjoin list_join] in E. rewrite <- !app_assoc in E.
  apply cons_tail, item_split in E as [Ek E]; [|done..]. constructor; [done|]. by apply IH.
Qed.

Lemma object_split L R : encoded L -> simples R -> R <> [] ->
  Json.object Json.py_char L = Json.object Json.py_char R ->
  Forall2 (fun kv kv' => q (fst kv) = q (fst kv') /\ snd kv = snd kv') L R.
Proof.
  destruct R as [|kv' R]; [done|]. intros HL HR _ E. rewrite object_cons in E.
  destruct L as [|kv L]; [discriminate E|]. rewrite object_cons in E.
  apply Forall_cons in HL as [H1 HL], HR as [H2 HR].
  apply cons_tail, item_split in E as [Ek E]; [|done..]. constructor; [done|]. by apply more_split.
Qed.

(** ** Results *)

(** The fields that the verifier signs. *)
Definition result_items (r : result_t) : list (str * list Z) :=
  [(codes "accepted", codes "true");
   (codes "challenge_id", q (res_challenge_id r));
   (codes "digest", q (res_digest r));
   (codes "kernel_hash", q (res_kernel_hash r));
   (codes "nonce", q (res_nonce r));
   (codes "request", q (res_request r));
   (codes "request_binding", q (res_request_binding r))].

Lemma result_items_plain r : Forall (fun kv => Forall plain (fst kv)) (result_items r).
Proof. repeat constructor; discriminate. Qed.

Lemma result_items_simple r : simples (result_items r).
Proof. unfold result_items, simple. repeat apply Forall_cons_2; simpl; eauto. Qed.

(** A dictionary that is written like a result has its fields, with values
    written like those of the result. *)
Lemma result_fields fields r : dumps (JObj fields) = result_bytes r ->
  map (fun kv => (fst kv, dumps (snd kv))) fields ≡ₚ result_items r.
Proof.
  intros E. rewrite <- (sort_items_perm (map _ fields)). set (L := sort_items _) in *.
  assert (encoded L) as HL.
  { unfold L. rewrite sort_items_perm. apply Forall_map. apply Forall_forall. eauto. }
  apply (object_split L (result_items r)) in E; [|done | apply result_items_simple | done].
  assert (L = result_items r) as ->; [|done].
  pose proof (result_items_plain r) as Hp. revert Hp. clear HL.
  induction E as [|[k v] [k' v'] L' R' [Ek Ev] _ IH]; intros Hp; [done|].
  apply Forall_cons in Hp as [Hk Hp]. simpl in *. apply quoted_plain in Ek; [|done].
  subst. f_equal. by apply IH.
Qed.

(** C36: canonical JSON is exact: a dictionary, in any order, is written as the
    bytes that the verifier signs for a result if and only if its fields are
    those of the result, no more and no fewer, each with a value that is
    written like the one of the result. *)
Theorem canonical_json (fields : list (str * json)) (r : result_t) :
  dumps (JObj fields) = result_bytes r <->
  map (fun kv => (fst kv, dumps (snd kv))) fields ≡ₚ result_items r.
Proof.
  split; [apply result_fields|]. intros Hp.
  transitivity (Json.object Json.py_char (sort_items (result_items r))); [|reflexivity].
  cbn [dumps]. f_equal. apply sort_items_unique; [done|]. rewrite Hp.
  apply (bool_decide_eq_true_1 _). vm_compute. reflexivity.
Qed.

Lemma lookup_elem k fields v : lookup k fields = Some v -> (k, v) ∈ fields.
Proof.
  induction fields as [|[k' v'] fields IH]; [done|]. simpl.
  case_bool_decide as Hk; [intros [= ->]; subst; left | intros H; right; by apply IH].
Qed.

Lemma lookup_present k fields v : (k, v) ∈ fields -> exists v', lookup k fields = Some v'.
Proof.
  induction fields as [|[k' v'] fields IH]; [by intros ?%elem_of_nil|]. simpl.
  intros [E|H]%elem_of_cons; [simplify_eq; rewrite bool_decide_true by done; eauto|].
  case_bool_decide; eauto.
Qed.

Lemma result_items_keys r k t t' : (k, t) ∈ result_items r -> (k, t') ∈ result_items r -> t = t'.
Proof. unfold result_items. set_unfold. naive_solver discriminate. Qed.

(** A field of the result is there, with a value that is written like its. *)
Lemma result_field fields r k t : dumps (JObj fields) = result_bytes r -> (k, t) ∈ result_items r ->
  exists v, lookup k fields = Some v /\ dumps v = t.
Proof.
  intros E%result_fields Hin. pose proof Hin as H. rewrite <- E in H.
  apply list_elem_of_fmap in H as ([k' v'] & [= -> _] & H).
  apply lookup_present in H as [v Hv]. exists v. split; [done|].
  apply (result_items_keys r k'); [|done]. rewrite <- E.
  apply lookup_elem in Hv. apply list_elem_of_fmap. by exists (k', v).
Qed.

Lemma dumps_string j s : dumps j = q s -> exists t, j = JStr t /\ q t = q s.
Proof.
  intros E. destruct j as [t|fs|xs|n|[]|]; try discriminate E; [by exists t|].
  cbn [dumps] in E. destruct (numeral_pretty n) as (c & l & H & Hc). rewrite H in E.
  injection E as -> _. discriminate Hc.
Qed.

Lemma plain_hex bs : bytes_ok bs -> Forall plain (Hex.encode bs).
Proof.
  induction 1 as [|b bs Hb _ IH]; [constructor|]. destruct (Hex.byte_nibbles b Hb) as (H1 & H2 & _).
  cbn [Hex.encode]. do 2 (constructor; [apply plain_range; unfold Hex.digit; case_match; lia|]). done.
Qed.
End canonical.
