(* ===== verification/Security.v ===== *)
(** What an accepted quote means.

    The verifier accepts; the module has run in some way.  Then a process whose
    executable has the approved fs-verity digest called the module, which signed
    the binding of this very request and nonce for it, under a key that IMA had
    recorded; or else the evidence has a forged signature, or a hash collision
    is at hand.  Nothing is assumed of the signature scheme or the hash: the
    theorem shows the forgery or the collision, as in a reduction.  The proof
    composes the verifier's soundness with the record of everything the module
    has written to user memory. *)
From S2P Require Import Prelude Exec Sha256 Ffi RefKernel Vli Ecc Ecdsa Ioctl SetOnce Tarako.
From S2P Require Import Wire Attester Verifier Attestation.
From stdpp Require Import base gmap list numbers strings.
From Stdlib Require Import ZArith Lia.
#[local] Open Scope Z_scope.

Module security.
Import ioctl attestation.

Section Security.
Context {W : Type} `{!Kernel W} `{!VliLaws W} `{!EccLaws W} `{!CurveLaws W} `{!ImaLaws W}
  `{!VerityLaws W} `{!UserLaws W} `{!MiscLaws W} `{!ShaLaws W}.
Context {key : Type} `{!verifier.Cryptography key}.

(** The module has written the request [req], completely or not. *)
Definition wrote (s : tarako.system W) (req : SignDataReq.SignDataReq) : Prop :=
  req_ok req /\ exists ptr complete,
    UWrite ptr (sign_data_req_bytes req) complete ∈
      user_log (world (tarako.kernel (tarako.mod_ s))).

(** The signature [der] of [msg] is accepted under the policy's key, and the
    module has never written a response with that key and the hash of [msg]:
    it was made by someone else. *)
Definition forged (s : tarako.system W) (pkb : list Z) (pk : key) (der msg : list Z) : Prop :=
  verifier.key_verify pk der msg = true /\
  forall req, wrote s req -> SignDataReq.pubkey req = pkb ->
    SignDataReq.hash req <> Sha256.sha256 msg.

(** A message that the module has hashed for a response, another one than
    [msg] and with its hash. *)
Definition collides (s : tarako.system W) (msg : list Z) : Prop :=
  exists req i d, wrote s req /\ verity_digest i = Some d /\
    d ++ SignDataReq.user_data req <> msg /\
    Sha256.sha256 (d ++ SignDataReq.user_data req) = Sha256.sha256 msg.

(** The evidence has [der] as the signature of its quote. *)
Definition presents (body : option verifier.json) (der : list Z) : Prop :=
  exists fields quote, body = Some (verifier.JObj fields) /\
    verifier.lookup (codes "tq") fields = Some (verifier.JObj quote) /\
    (verifier.get_str "signature_der" quote ≫= Hex.fromhex) = Some der.

(** Whether the module has written a response with this key and hash can be
    read off the record. *)
Lemma wrote_or_forged s pkb (pk : key) der msg : verifier.key_verify pk der msg = true ->
  (exists req, wrote s req /\ SignDataReq.pubkey req = pkb /\
     SignDataReq.hash req = Sha256.sha256 msg) \/ forged s pkb pk der msg.
Proof.
  intros Hv. set (log := user_log (world (tarako.kernel (tarako.mod_ s)))).
  set (P e := match e with
    | UWrite _ bs _ => length bs = size_of_SignDataReq /\
        SignDataReq.pubkey (sign_data_req_bytes_mut bs) = pkb /\
        SignDataReq.hash (sign_data_req_bytes_mut bs) = Sha256.sha256 msg
    | URead _ _ => False
    end).
  assert (forall e, Decision (P e)) as Hdec by (intros [|]; simpl; apply _).
  destruct (decide (Exists P log)) as [(e & He & HP)%Exists_exists|Hn]; [left|right].
  - destruct e as [|ptr bs b]; [done|]. destruct HP as (Hl & Hp & Hh).
    exists (sign_data_req_bytes_mut bs). split; [|done]. split; [by apply req_of_bytes_ok|].
    exists ptr, b. by rewrite bytes_of_req_of_bytes.
  - split; [done|]. intros req (Hreq & ptr & b & Hin) Hp Hh. apply Hn, Exists_exists.
    eexists. split; [exact Hin|]. cbv beta iota delta [P]. rewrite req_of_bytes_of_req by done.
    by rewrite req_bytes_length.
Qed.

(** A digest and user data of the fixed size are determined by their
    concatenation. *)
Lemma message_parts (d d' u u' : list Z) :
  length u = length u' -> d ++ u = d' ++ u' -> d = d' /\ u = u'.
Proof. intros Hl E. by apply app_inj_2 in E. Qed.

(** A response of the module is not its public key. *)
Lemma response_not_pubkey req kp :
  req_ok req -> key_pair_ok kp -> sign_data_req_bytes req <> KeyPair.pubkey kp.
Proof.
  intros Hr (_ & _ & _ & _ & Hp) E. apply (f_equal length) in E.
  rewrite req_bytes_length, Hp, sec1_compress_length in E by done. discriminate.
Qed.

Lemma req_bytes_inj req req' :
  req_ok req -> req_ok req' -> sign_data_req_bytes req = sign_data_req_bytes req' -> req = req'.
Proof.
  intros Hr Hr' E. rewrite <- (req_of_bytes_of_req req Hr), E. by apply req_of_bytes_of_req.
Qed.

(** What was written out, for whom: in the step from [s1] to [s2], the call [c] of
    a process whose executable has the digest [digest] ran with the published
    key pair [kp], whose public key is [pkb] and recorded by IMA; and among the
    accesses of this run is a write of a response to the caller's buffer, with
    the user data [u], the hash of [digest] and [u], and a signature of that hash
    by [kp]. *)
Definition attested (st0 : kstate W) (s : tarako.system W) (digest u pkb : list Z) : Prop :=
  exists s1 s2 c kp i r lc ptr complete req,
    tarako.reachable st0 s1 /\ tarako.life_step s1 s2 /\ rtc tarako.life_step s2 s /\
    c ∈ tarako.calls s1 /\ tarako.call_key c = Some kp /\
    tarako.publishes (tarako.mod_ s1) kp /\ KeyPair.pubkey kp = pkb /\
    pubkey_event pkb ∈ ima_log (world (tarako.kernel (tarako.mod_ s1))) /\
    exe_inode (tarako.call_task c) = Some i /\ verity_digest i = Some digest /\
    tarako.on_kernel (tarako.ioctl (tarako.call_task c) (tarako.call_key c) (tarako.call_cmd c)
      (tarako.call_arg c)) (tarako.mod_ s1) = (r, tarako.mod_ s2) /\
    user_log (world (tarako.kernel (tarako.mod_ s2))) =
      user_log (world (tarako.kernel (tarako.mod_ s1))) ++ lc /\
    UWrite ptr (sign_data_req_bytes req) complete ∈ lc /\
    inside (tarako.call_arg c) 257 (UWrite ptr (sign_data_req_bytes req) complete) /\
    SignDataReq.user_data req = u /\ SignDataReq.pubkey req = pkb /\
    SignDataReq.hash req = Sha256.sha256 (digest ++ u) /\ signature_of kp req.

(** A response that was written was written for a process. *)
Lemma wrote_for st0 s req :
  tarako.reachable st0 s -> user_log (world st0) = [] -> wrote s req ->
  exists i d, verity_digest i = Some d /\
    SignDataReq.hash req = Sha256.sha256 (d ++ SignDataReq.user_data req) /\
    attested st0 s d (SignDataReq.user_data req) (SignDataReq.pubkey req).
Proof.
  intros Hr H0 (Hreq & ptr & b & Hin). destruct (tarako.log_served st0 s Hr) as (l & El & Hl).
  rewrite El, H0, app_nil_l in Hin. rewrite Forall_forall in Hl.
  destruct (Hl _ Hin) as (s1 & s2 & c & kp & lc & H1 & H2 & H3 & (Hc & Hk & Hp & (r & Er) & Ht & Hrel) & He).
  destruct Ht as (_ & _ & _ & Eu & Hi & _). rewrite Forall_forall in Hrel, Hi.
  pose proof (Hrel _ He) as [Hpk|(Hm & req' & Eq & (Hreq' & i & d & Ei & Ed & Hh & Hpk) & Hs)].
  - destruct (response_not_pubkey req kp Hreq); [apply Hp | done].
  - apply req_bytes_inj in Eq as <-; [|done|done]. rewrite sha256_is in Hh.
    exists i, d. split_and!; try done. rewrite Hpk.
    exists s1, s2, c, kp, i, r, lc, ptr, b, req. split_and!; try done; [by apply Hp | by apply Hi].
Qed.

Lemma signature_attested st0 s pkb (pk : key) der digest binding :
  tarako.reachable st0 s -> user_log (world st0) = [] -> length binding = 32%nat ->
  let u := binding ++ replicate 96 0 in
  verifier.key_verify pk der (digest ++ u) = true ->
  attested st0 s digest u pkb \/ forged s pkb pk der (digest ++ u) \/ collides s (digest ++ u).
Proof.
  intros Hr H0 Hl u Hkv.
  destruct (wrote_or_forged s pkb pk der _ Hkv) as [(req & Hw & <- & Eh)|Hf]; [|by right; left].
  destruct (wrote_for st0 s req Hr H0 Hw) as (i & d & Ed & Hh & Ha). rewrite Hh in Eh.
  destruct (decide (d ++ SignDataReq.user_data req = digest ++ u)) as [Em|Hne].
  - left. apply message_parts in Em as [-> Eu]; [by rewrite <- Eu|].
    rewrite (proj1 (proj1 Hw)). unfold u. by rewrite length_app, length_replicate, Hl.
  - right; right. by exists req, i, d.
Qed.

(** C2: acceptance means attestation.  Suppose the verifier signs a result, with
    the policy's digest and key, and the module has reached its state from a
    start with an empty record of transfers, by any interleaving of loading,
    calls of any processes and unloading.  Then the result is for the request of
    the challenge and the policy's digest, and on the way to this state a call of
    a process whose executable has exactly the approved fs-verity digest ran with
    the policy's key, which IMA had recorded, and this very run wrote out, to its
    caller, a response whose user data binds the request and the nonce of the
    verifier's challenge, with the hash of digest and user data and a signature
    of it; unless the evidence presents a forgery, a signature under the
    policy's key of a message whose hash the module never wrote out, or the
    module has hashed another message with the same hash. *)
Theorem acceptance_implies_attestation (st0 : kstate W) (s : tarako.system W)
    (files : option verifier.policy_files) (body : option verifier.json)
    (t t' : gmap (list Z) verifier.challenge_t) (res : verifier.result_t) (sig : list Z)
    (digest pkb : list Z) (pk : key) (ch : verifier.challenge_t) (nonce : list Z) :
  tarako.reachable st0 s -> user_log (world st0) = [] ->
  verifier.verify files body t = (verifier.Accepted res sig, t') ->
  verifier.load_appraisal_policy files = Some (digest, pkb, pk) ->
  t !! verifier.res_challenge_id res = Some ch ->
  Hex.fromhex (verifier.ch_nonce ch) = Some nonce ->
  let u := verifier.make_request_binding (verifier.ch_request ch) nonce ++ replicate 96 0 in
  verifier.res_request res = verifier.ch_request ch /\
  verifier.res_digest res = Hex.encode digest /\
  (attested st0 s digest u pkb \/
   (exists der, presents body der /\ forged s pkb pk der (digest ++ u)) \/
   collides s (digest ++ u)).
Proof.
  intros Hr H0 Hv Hp Ht Hn u.
  destruct (verifier.verify_sound files body t t' res sig Hv)
    as (ch' & nonce' & digest' & pkb' & pk' & fields & quote & der & Ht' & _ & _ & Er & Hn' & Hp' &
        Ed & Eb & Eq & _ & _ & Eder & Hkv & _).
  rewrite Ht in Ht'. injection Ht' as <-. rewrite Hn in Hn'. injection Hn' as <-.
  rewrite Hp in Hp'. injection Hp' as <- <- <-. split_and!; [done | done |].
  destruct (signature_attested st0 s pkb pk der digest _ Hr H0 (proj1 (Sha256.sha256_wf _)) Hkv)
    as [?|[?|?]]; [by left | right; left; exists der; split; [by exists fields, quote | done] | by right; right].
Qed.
End Security.

(** ** The theorem on a run

    The process with the approved program stores the binding of the challenge
    of [Attestation]'s run in its buffer and has it signed; the verifier's
    package verifies ECDSA signatures. *)
#[local] Existing Instances ToyKernel toy_Vli toy_Ecc toy_Curve toy_Ima toy_Verity toy_User
  toy_Ioctl toy_Misc toy_sha toy_memory ecdsa.toy_group toy_crypto.

Definition toy_binding : list Z := verifier.make_request_binding (codes "hi") toy_nonce.
Definition toy_stored : tarako.system RW :=
  let s := tarako.toy_open tarako.toy_loaded in
  let m := tarako.mod_ s in
  tarako.mkSystem
    (tarako.set_world (toy_poke (sign_data_req_bytes (attester.signingRequest toy_binding))
                         (world (tarako.kernel m))) m)
    (tarako.phase_ s) (tarako.files s) (tarako.calls s).
Definition toy_asked : tarako.system RW :=
  tarako.toy_issue tarako.toy_SIGN_DATA (Some tarako.toy_key) toy_stored.
Definition toy_done : tarako.system RW :=
  tarako.mkSystem
    (snd (tarako.on_kernel (tarako.ioctl (toy_task 1) (Some tarako.toy_key) tarako.toy_SIGN_DATA 4096)
            (tarako.mod_ toy_asked)))
    (tarako.phase_ toy_asked) (tarako.files toy_asked) [].

Lemma toy_done_reachable : tarako.reachable tarako.toy_st toy_done.
Proof.
  assert (tarako.reachable tarako.toy_st toy_stored) as H1.
  { eapply tarako.reachable_step.
    - apply (tarako.toy_open_reachable tarako.toy_loaded);
        [apply tarako.toy_loaded_reachable | vm_compute; reflexivity | reflexivity].
    - apply tarako.step_world, (poke_others (poke := toy_poke)). }
  assert (tarako.reachable tarako.toy_st toy_asked) as H2.
  { apply tarako.toy_issue_reachable; [exact H1 | by apply elem_of_singleton | reflexivity |].
    vm_compute. reflexivity. }
  eapply tarako.reachable_step; [exact H2|].
  apply (tarako.step_exit toy_asked [] (tarako.toy_req tarako.toy_SIGN_DATA (Some tarako.toy_key)) []
    (inl 0)); [reflexivity|]. apply run_fst. vm_compute. reflexivity.
Qed.

Definition toy_log : list uaccess := user_log (world (tarako.kernel (tarako.mod_ toy_done))).
Definition written (e : uaccess) : option SignDataReq.SignDataReq :=
  match e with
  | UWrite _ bs _ => if (length bs =? 257)%nat then Some (sign_data_req_bytes_mut bs) else None
  | URead _ _ => None
  end.
Definition toy_response : SignDataReq.SignDataReq :=
  match omap written toy_log with req :: _ => req | [] => sign_data_req_bytes_mut [] end.

Lemma toy_log_is :
  toy_log = [URead 4096 (sign_data_req_bytes (attester.signingRequest toy_binding));
             UWrite 4096 (sign_data_req_bytes toy_response) true].
Proof. vm_compute. reflexivity. Qed.

Lemma write_eq p bs c p' bs' c' : UWrite p bs c = UWrite p' bs' c' -> bs = bs'.
Proof. congruence. Qed.

Lemma toy_wrote req : wrote toy_done req -> req = toy_response.
Proof.
  intros (Hr & ptr & b & Hin). change (UWrite ptr (sign_data_req_bytes req) b ∈ toy_log) in Hin.
  rewrite toy_log_is in Hin. apply elem_of_cons in Hin as [[=]|Hin].
  apply list_elem_of_singleton in Hin. pose proof (write_eq _ _ _ _ _ _ Hin) as E. apply req_bytes_inj; [done| |done].
  split_and!; vm_compute; reflexivity.
Qed.

Lemma toy_response_written : wrote toy_done toy_response.
Proof.
  split; [split_and!; vm_compute; reflexivity|]. exists 4096, true.
  change (UWrite 4096 (sign_data_req_bytes toy_response) true ∈ toy_log).
  rewrite toy_log_is. right. left.
Qed.

Definition toy_ch : verifier.challenge_t := verifier.mkChallenge (Hex.encode toy_nonce) (codes "hi").

Definition toy_message : list Z :=
  replicate 32 7 ++ verifier.make_request_binding (verifier.ch_request toy_ch) toy_nonce ++ replicate 96 0.

Lemma toy_not_forged (pk : Z) der : ~ forged toy_done (KeyPair.pubkey toy_kp) pk der toy_message.
Proof.
  intros [_ H]. apply (H toy_response toy_response_written); vm_compute; reflexivity.
Qed.

Lemma toy_no_collision : ~ collides toy_done toy_message.
Proof.
  intros (req & i & d & ->%toy_wrote & Hd & Hne & _).
  assert (d = replicate 32 7) as ->.
  { change (ref_verity i = Some d) in Hd. unfold ref_verity in Hd. by case_match; simplify_eq. }
  apply Hne. vm_compute. reflexivity.
Qed.

Definition toy_evidence : option verifier.json :=
  Some (client_body (Hex.encode toy_id) (Hex.encode toy_nonce) (codes "hi")
          (attester.respond toy_response (KeyPair.pubkey toy_kp))).

Definition accepted_id (r : verifier.response * gmap (list Z) verifier.challenge_t) : str :=
  match fst r with verifier.Accepted res _ => verifier.res_challenge_id res | _ => [] end.

Lemma acceptance_implies_attestation_witness :
  exists res sig t',
    verifier.verify (Some toy_policy) toy_evidence toy_table = (verifier.Accepted res sig, t') /\
    verifier.res_request res = verifier.ch_request toy_ch /\
    attested tarako.toy_st toy_done (replicate 32 7)
      (verifier.make_request_binding (verifier.ch_request toy_ch) toy_nonce ++ replicate 96 0)
      (KeyPair.pubkey toy_kp).
Proof.
  destruct (accepted_run (verifier.verify (Some toy_policy) toy_evidence toy_table))
    as (res & sig & t' & E); [vm_compute; reflexivity|].
  exists res, sig, t'. split; [exact E|].
  assert (verifier.res_challenge_id res = Hex.encode toy_id) as Eid.
  { transitivity (accepted_id (verifier.verify (Some toy_policy) toy_evidence toy_table));
      [by rewrite E | vm_compute; reflexivity]. }
  assert (toy_table !! verifier.res_challenge_id res = Some toy_ch) as Et
    by (rewrite Eid; vm_compute; reflexivity).
  destruct (acceptance_implies_attestation tarako.toy_st toy_done (Some toy_policy) toy_evidence
    toy_table t' res sig (replicate 32 7) (KeyPair.pubkey toy_kp) 5 toy_ch toy_nonce
    toy_done_reachable eq_refl E ltac:(vm_compute; reflexivity) Et ltac:(vm_compute; reflexivity))
    as (Hq & _ & [Ha|[(der & _ & Hf)|Hc]]).
  - split; [exact Hq | exact Ha].
  - destruct (toy_not_forged 5 der Hf).
  - destruct (toy_no_collision Hc).
Defined.
End security.
