(* ===== verification/Flow.v ===== *)
(** The whole exchange, with the client at its centre.

    [honest_network] connects the client to the verifier's two handlers and to
    the attester on the driver: a state of the network is the verifier's table
    of challenges and the module.  [client_accepts_honest] says that the client
    then prints the verifier's result for its request. *)
From S2P Require Import Prelude Exec Sha256 Ffi RefKernel Vli Ecc Ecdsa Ioctl SetOnce Tarako.
From S2P Require Import Wire Attester Verifier Attestation Client.
From stdpp Require Import base gmap list numbers strings.
From Stdlib Require Import ZArith Lia.
#[local] Open Scope Z_scope.

Module flow.
Import ioctl attester attestation client.

(** ** The network *)

(** The JSON answers of the verifier's handlers; the text of an error is left
    out. *)
Definition http_of (certificate : str) (r : verifier.response) : http_response :=
  match r with
  | verifier.Failed status => mkHttp status (Some (verifier.JObj [(codes "accepted", verifier.JBool false)]))
  | verifier.Challenged challenge_id nonce request => mkHttp 200 (Some (verifier.JObj
      [(codes "challenge_id", verifier.JStr challenge_id); (codes "nonce", verifier.JStr nonce);
       (codes "request", verifier.JStr request)]))
  | verifier.Accepted result signature => mkHttp 200 (Some (verifier.JObj
      [(codes "certificate", verifier.JStr certificate); (codes "result", result_json result);
       (codes "signature", verifier.JStr (Hex.encode signature))]))
  end.

(** [decoder.Decode(&input)] with [DisallowUnknownFields]: the name of a field
    is matched up to case, a later value of a field replaces an earlier one,
    [null] leaves a field as it is, and an unknown name or a value that is not a
    string is an error.  The long s is the one character beyond ASCII whose case
    folding is a letter of the two names.  Bodies over the 1 MiB limit of the
    handler are not considered. *)
Definition fold_rune (c : Z) : Z :=
  if (97 <=? c) && (c <=? 122) then c - 32 else if c =? 0x17F then 83 else c.

Definition named (field : string) (k : str) : bool :=
  bool_decide (map fold_rune k = map fold_rune (codes field)).

Definition assign (input : quoteRequest) (k : str) (v : verifier.json) : option quoteRequest :=
  match v with
  | verifier.JStr s =>
      if named "request" k then Some (mkQuoteRequest s (Nonce input))
      else if named "nonce" k then Some (mkQuoteRequest (Request input) s)
      else None
  | verifier.JNull => if named "request" k || named "nonce" k then Some input else None
  | _ => None
  end.

Fixpoint assign_all (input : quoteRequest) (fields : list (str * verifier.json)) : option quoteRequest :=
  match fields with
  | [] => Some input
  | (k, v) :: fields => input ← assign input k v; assign_all input fields
  end.

Definition quote_request (body : verifier.json) : option quoteRequest :=
  match body with
  | verifier.JObj fields => assign_all (mkQuoteRequest [] []) fields
  | verifier.JNull => Some (mkQuoteRequest [] [])
  | _ => None
  end.

Section Flow.
Context {W : Type} `{!Kernel W} {key : Type} `{!verifier.Cryptography key}.
Abbreviation table := (gmap (list Z) verifier.challenge_t).
Context (current : Task) (arg : Z) (poke : list Z -> W -> W) (alloc : bool).
Context (files : verifier.policy_files) (certificate : str) (nonce id : list Z).

(** [nonce] and [id] are what the verifier draws for the next challenge. *)
#[local] Instance honest_network : Network (table * tarako.module W) :=
  fun host port path body '(t, m) =>
    if bool_decide (path = "/challenge"%string) then
      let '(r, t) := verifier.challenge (Some body) nonce id t in (Some (http_of certificate r), (t, m))
    else if bool_decide (path = "/verify"%string) then
      let '(r, t) := verifier.verify (Some files) (Some body) t in (Some (http_of certificate r), (t, m))
    else
      let '((status, q), m) := @quoteHandler _ (driver_device current arg poke alloc) true
                                 (quote_request body) m in
      (Some (mkHttp status ((fun q => verifier.JObj (quote_json q)) <$> q)), (t, m)).

(** C10: the whole exchange succeeds.  The verifier's policy has the digest of the
    attester's program and the key that the module has published and IMA has
    measured; the client trusts the root that issued the verifier's
    certificate; the request is one that both JSON encoders write alike; the
    driver gives the attester a quote.  Then the client obtains a challenge, a
    quote and a result, all its checks pass, and it prints the verifier's result
    for its own request, with the approved digest; the challenge is used up. *)
Theorem client_accepts_honest `{!VliLaws W} `{!EccLaws W} `{!CurveLaws W}
    `{!VerityLaws W} `{!UserLaws W} `{!IoctlLaws W} `{!ShaLaws W}
    `{G : !ecdsa.EcGroup} `{!ecdsa.EcGroupLaws curve_order x_of} `{!CryptographyLaws W key}
    `{!OwnMemory W arg poke} {cert : Type} `{!X509 cert key}
    (kp : KeyPair.KeyPair) (i : inode) (d : list Z) (root : list Z) (k : key)
    (verifier_host attester_host request : str) (t : table) m q m' :
  key_pair_ok kp -> KeyPair.ima_measured kp = true ->
  exe_inode current = Some i -> verity_digest i = Some d -> bytes_ok d -> ready kp m ->
  files = verifier.mkPolicy (Hex.encode d) (KeyPair.pubkey kp) ->
  request <> [] -> Forall (fun c => Json.same_char c = true) request ->
  bytes_ok nonce -> length nonce = 32%nat ->
  @quoteHandler _ (driver_device current arg poke alloc) true
    (Some (mkQuoteRequest request (Hex.encode nonce))) m = ((200, Some q), m') ->
  issued root certificate k ->
  (forall msg, bytes_ok (verifier.sign_result msg) /\
               verifier.key_verify k (verifier.sign_result msg) msg = true) ->
  exists res,
    main root verifier_host attester_host request (t, m) =
      (inr (result_json res), (delete (Hex.encode id) t, m')) /\
    verifier.res_request res = request /\ verifier.res_nonce res = Hex.encode nonce /\
    verifier.res_digest res = Hex.encode d.
Proof.
  intros Hkp Hm Hi Hd Hdb Hr Hf Hne Hsame Hn Hl Eq Hiss Hsig.
  set (body := verifier.JObj [(codes "request", verifier.JStr request)]).
  assert (verifier.json_request_value (Some body) = Some request) as Hreq.
  { change (verifier.json_request_value (Some body)) with
      (if bool_decide (request = []) then None else Some request).
    by rewrite bool_decide_false. }
  pose proof (honest_accepted current arg poke alloc kp i d (Some body) request nonce id t m q m'
    Hkp Hm Hi Hd Hdb Hr Hreq Hn Hl Hsame Eq) as Hacc.
  destruct (verifier.challenge (Some body) nonce id t) as [answer t1] eqn:Ec.
  assert (delete (Hex.encode id) t1 = delete (Hex.encode id) t) as Et.
  { unfold verifier.challenge in Ec. rewrite Hreq in Ec. injection Ec as _ <-.
    by rewrite delete_insert_eq. }
  destruct Hacc as (-> & res & sig & Hv & Eid & Er & En & Ed & Es).
  exists res. split_and!; try done. rewrite <- Hf in Hv.
  set (envelope := [(codes "certificate", verifier.JStr certificate); (codes "result", result_json res);
       (codes "signature", verifier.JStr (Hex.encode sig))]).
  set (challenge := [(codes "challenge_id", verifier.JStr (Hex.encode id));
       (codes "nonce", verifier.JStr (Hex.encode nonce)); (codes "request", verifier.JStr request)]).
  assert (obtain_envelope verifier_host attester_host request (t, m) =
    (inr (verifier.JObj challenge, verifier.JObj envelope), (delete (Hex.encode id) t, m'))) as Eo.
  { eapply (obtain_envelope_run _ _ _ _ (t1, m) (t1, m')); try reflexivity.
    - unfold post, honest_network. rewrite bool_decide_true by done.
      change (verifier.JObj [(codes "request", verifier.JStr request)]) with body. by rewrite Ec.
    - unfold post, honest_network. rewrite !bool_decide_false by done.
      change (quote_request _) with (Some (mkQuoteRequest request (Hex.encode nonce))).
      rewrite Eq. reflexivity.
    - unfold post, honest_network. rewrite bool_decide_false, bool_decide_true by done.
      change (verifier.JObj [(codes "challenge_id", verifier.JStr (Hex.encode id));
        (codes "nonce", verifier.JStr (Hex.encode nonce)); (codes "request", verifier.JStr request);
        (codes "tq", verifier.JObj (quote_json q))])
        with (client_body (Hex.encode id) (Hex.encode nonce) request q).
      rewrite Hv, Et. reflexivity. }
  unfold main, mbind, NM_bind. rewrite Eo.
  rewrite (verifier_key_run root envelope certificate k) by done.
  destruct (Hsig (verifier.result_bytes res)) as [Hb Hk]. rewrite <- Es in Hb, Hk.
  apply (check_result_run k challenge envelope res sig); try done; simpl; by rewrite ?Eid, ?En.
Qed.
End Flow.

(** ** The exchange on a run

    The device and the challenge of [Attestation]'s run.  A key of the package
    is a key of the group, or the verifier's own, which signs with the hash. *)
#[local] Existing Instances ToyKernel toy_Vli toy_Ecc toy_Curve toy_Verity toy_User toy_Ioctl
  ecdsa.toy_group ecdsa.toy_group_laws toy_memory toy_sha.

#[local] Instance flow_crypto : verifier.Cryptography (Z + unit) := {|
  verifier.from_encoded_point bs := inl <$> @verifier.from_encoded_point Z toy_crypto bs;
  verifier.key_verify k der msg :=
    match k with
    | inl k => @verifier.key_verify Z toy_crypto k der msg
    | inr _ => bool_decide (der = Sha256.sha256 msg)
    end;
  verifier.sign_result := Sha256.sha256 |}.

#[local] Instance flow_crypto_laws : CryptographyLaws RW (Z + unit).
Proof.
  intros x Hx. destruct (toy_crypto_laws x Hx) as (k & Hk & Hv). exists (inl k).
  split; [|exact Hv]. change (inl <$> @verifier.from_encoded_point Z toy_crypto
    (sec1_compress (curve_coords x)) = Some (@inl Z unit k)). by rewrite Hk.
Qed.

#[local] Instance flow_x509 : X509 unit (Z + unit) := {|
  openssl_verify root pem := bool_decide (root = pem);
  load_pem_x509_certificate _ := Some tt;
  issuer _ := [1];
  subject _ := [1];
  public_key _ := Some (inr tt) |}.

Lemma client_accepts_honest_witness :
  exists m' res,
    @main (gmap (list Z) verifier.challenge_t * tarako.module RW)
      (honest_network (toy_task 1) 4096 toy_poke true toy_policy (codes "CA") toy_nonce toy_id)
      unit (Z + unit) flow_x509 flow_crypto (codes "CA") [] [] (codes "hi") (∅, toy_module) =
      (inr (result_json res), (delete (Hex.encode toy_id) ∅, m')) /\
    verifier.res_request res = codes "hi".
Proof.
  destruct toy_answered as (q & m' & E). exists m'.
  assert (H7 : bytes_ok (replicate 32 7)) by (apply Forall_replicate; split; [discriminate|reflexivity]).
  assert (H3 : bytes_ok toy_nonce) by (apply Forall_replicate; split; [discriminate|reflexivity]).
  assert (Hs : Forall (fun c => Json.same_char c = true) (codes "hi")) by (repeat constructor).
  assert (Hi : issued (codes "CA") (codes "CA") (inr tt))
    by (exists (codes "CA"), tt, tt; split_and!; reflexivity).
  assert (Hk : forall msg, bytes_ok (Sha256.sha256 msg) /\
    bool_decide (Sha256.sha256 msg = Sha256.sha256 msg) = true)
    by (intros msg; split; [apply Sha256.sha256_wf | by apply bool_decide_eq_true]).
  pose proof (client_accepts_honest (toy_task 1) 4096 toy_poke true toy_policy (codes "CA")
    toy_nonce toy_id toy_kp 1 (replicate 32 7) (codes "CA") (inr tt) [] [] (codes "hi") ∅ toy_module q m'
    toy_kp_ok eq_refl eq_refl eq_refl H7 toy_ready eq_refl ltac:(discriminate) Hs H3 eq_refl E Hi Hk)
    as (res & Hm & Hr & _).
  exists res. split; [exact Hm | exact Hr].
Defined.
End flow.
