(* ===== verification/Rfc6979.v ===== *)
(** The signing code on published values.

    The curve arithmetic is the kernel's.  Here the reference kernel answers it
    with the points of RFC 6979 (appendix A.2.5): the public key of its private
    key, and the abscissas of its nonces' points, which are the published [r].
    The theorem reproduces the published signatures and the public key, so that
    the definitions of [Ioctl], [Vli] and [Sha256] are checked against values
    computed elsewhere. *)
From S2P Require Import Prelude Exec Sha256 Ffi PrimeCert RefKernel Vli Ecc Ioctl Wire.
From stdpp Require Import base gmap list numbers strings.
From Stdlib Require Import ZArith Lia.
#[local] Open Scope Z_scope.

Module rfc6979.

Definition x : Z := 0xC9AFA9D845BA75166B5C215767B1D6934E50C3DB36E89B127B8A622B120F6721.
Definition U : Z * Z :=
  (0x60FED4BA255A9D31C961EB74C6356D68C049B8923B61FA6CE669622E60F29FB6,
   0x7903FE1008B8BC99A41AE9E95628BC64F2F1B20C2D7E9F5177A3C294D4462299).

(** With SHA-256: the message, the nonce and the signature. *)
Record vector := mkVector { message : list Z; k : Z; signature : Z * Z }.

Definition sample : vector := mkVector (codes "sample")
  0xA6E3C57DD01ABE90086538398355DD4C3B17AA873382B0F24D6129493D8AAD60
  (0xEFD48B2AACB6A8FD1140DD9CD45E81D69D2C877B56AAF991C34D0EA84EAF3716,
   0xF7CB1C942D657C41D436C7A1B6E29F65F3E900DBB9AFF4064DC4AB2F843ACDA8).
Definition test : vector := mkVector (codes "test")
  0xD16B6AE827F17175E040871A1C7EC3500192C4C92677336EC2537ACAEE0008E0
  (0xF1ABB023518351CD71D881567B1EA663ED3EFCF6C5132B354F28D3B0B7D38367,
   0x019F4113742A2B14BD25926B49C649155F267E60D3814B4C0CC84250E46F0083).

(** ** The kernel *)

(** The multiples of the base point that the vectors name. *)
Definition kG (m : Z) : Z * Z :=
  if m =? x then U
  else if m =? k sample then (fst (signature sample), 0)
  else if m =? k test then (fst (signature test), 0)
  else (0, 0).

Lemma kG_ok m : 0 <= fst (kG m) < 2 ^ 256 /\ 0 <= snd (kG m) < 2 ^ 256.
Proof. unfold kG. repeat case_match; vm_compute; intuition discriminate. Qed.

Definition RfcKernel : Kernel RW := RefKernel toy_hash kG.
#[local] Existing Instance RfcKernel.

#[local] Instance rfc_Vli : VliLaws RW := ref_VliLaws toy_hash kG toy_hash_ok.
#[local] Instance rfc_Ecc : EccLaws RW := ref_EccLaws toy_hash kG.
#[local] Instance rfc_Curve : CurveLaws RW := ref_CurveLaws toy_hash kG kG_ok.

(** The run of [ecdsa_sign] on a vector, the kernel drawing its nonce. *)
Definition sign (v : vector) : exec (list Z * list Z) :=
  fst (ioctl.ecdsa_sign (message v) (digits 64 4 x) (digits 64 4 p256_order)
         (toy_state [k v] true 0 0)).

(** The public key that [generate_key_pair] derives when the kernel draws [x]. *)
Definition public_key : option (list Z) :=
  match fst (ioctl.generate_key_pair (toy_state [x] true 0 0)) with
  | Ret kp => Some (ioctl.KeyPair.pubkey kp)
  | _ => None
  end.

(** The signing code gives the published signatures: with the private key of
    RFC 6979, A.2.5 and its nonces for the messages "sample" and "test",
    [ecdsa_sign] returns exactly the limbs of the values [r] and [s] given
    there, and [generate_key_pair] stores the compressed form of its public
    key. *)
Lemma rfc6979_signatures :
  sign sample = Ret (ioctl.encode_sig (signature sample)) /\
  sign test = Ret (ioctl.encode_sig (signature test)) /\
  public_key = Some (3 :: reverse (digits 8 32 (fst U))).
Proof. split_and!; vm_compute; reflexivity. Qed.
End rfc6979.
