(* ===== verification/Qgs.v ===== *)
(** [tdx/tdx-qgs-protocol.h]: the framing of requests to and responses from the
    TDX quote generation service, and the receiving side that
    [tdx/qemu-qgs-protocol.patch] adds to QEMU.

    A C pointer is the buffer behind it; an access outside of it is a fault.
    [parse_response] gets exactly the bytes received, so that a theorem that it
    does not fault says that it never reads further.  Values of [uint32_t] are
    reduced modulo [2^32]. *)
From S2P Require Import Prelude Exec.
From stdpp Require Import base list numbers strings.
From Stdlib Require Import ZArith Lia.
#[local] Open Scope Z_scope.

Module qgs.

Definition TDX_QGS_PREFIX_SIZE : nat := 4.
Definition TDX_QGS_MESSAGE_SIZE : nat := 24.
Definition TDX_QGS_HEADER_SIZE : nat := (TDX_QGS_PREFIX_SIZE + TDX_QGS_MESSAGE_SIZE)%nat.

Abbreviation CM := (M unit).

(** ** The header file *)

(** [p[off]], ..., [p[off + 3]] as a little-endian number. *)
Definition tdx_qgs_le32 (p : list Z) (off : nat) : CM Z :=
  b0 ← index p off;
  b1 ← index p (off + 1);
  b2 ← index p (off + 2);
  b3 ← index p (off + 3);
  mret (Z.lor (Z.lor (Z.lor b0 (Z.shiftl b1 8)) (Z.shiftl b2 16)) (Z.shiftl b3 24)).

(** [(uint8_t)v]. *)
Definition u8 (v : Z) : Z := v mod 2 ^ 8.

Definition tdx_qgs_put_le32 (p : list Z) (off : nat) (value : Z) : CM (list Z) :=
  p ← set_index p off (u8 value);
  p ← set_index p (off + 1) (u8 (Z.shiftr value 8));
  p ← set_index p (off + 2) (u8 (Z.shiftr value 16));
  set_index p (off + 3) (u8 (Z.shiftr value 24)).

Definition tdx_qgs_request_header (p : list Z) (report_size : Z) : CM (list Z) :=
  let size := (Z.of_nat TDX_QGS_MESSAGE_SIZE + report_size) mod 2 ^ 32 in
  p ← copy_from_slice p 0 TDX_QGS_HEADER_SIZE (replicate TDX_QGS_HEADER_SIZE 0);
  p ← set_index p 0 (u8 (Z.shiftr size 24));
  p ← set_index p 1 (u8 (Z.shiftr size 16));
  p ← set_index p 2 (u8 (Z.shiftr size 8));
  p ← set_index p 3 (u8 size);
  p ← set_index p 4 1;
  p ← set_index p 6 1;
  p ← tdx_qgs_put_le32 p 12 size;
  tdx_qgs_put_le32 p 20 report_size.

(** The return value, and [*quote_size] when it is assigned. *)
Definition tdx_qgs_parse_response (p : list Z) (received capacity : Z) : CM (Z * option Z) :=
  if (capacity <? received) || (capacity <? Z.of_nat TDX_QGS_HEADER_SIZE) then mret (-1, None) else
  if received <? Z.of_nat TDX_QGS_PREFIX_SIZE then mret (0, None) else
  b0 ← index p 0;
  b1 ← index p 1;
  b2 ← index p 2;
  b3 ← index p 3;
  let size := Z.lor (Z.lor (Z.lor (Z.shiftl b0 24) (Z.shiftl b1 16)) (Z.shiftl b2 8)) b3 in
  if (size <=? Z.of_nat TDX_QGS_MESSAGE_SIZE) || (capacity - Z.of_nat TDX_QGS_PREFIX_SIZE <? size) ||
     (Z.of_nat TDX_QGS_PREFIX_SIZE + size <? received) then mret (-1, None) else
  if received <? Z.of_nat TDX_QGS_HEADER_SIZE then mret (0, None) else
  b4 ← index p 4;
  b5 ← index p 5;
  b6 ← index p 6;
  b7 ← index p 7;
  type ← tdx_qgs_le32 p 8;
  size2 ← tdx_qgs_le32 p 12;
  error_code ← tdx_qgs_le32 p 16;
  id_size ← tdx_qgs_le32 p 20;
  quote_len ← tdx_qgs_le32 p 24;
  if negb (b4 =? 1) || negb (b5 =? 0) || negb (b6 =? 1) || negb (b7 =? 0) || negb (type =? 1) ||
     negb (size2 =? size) || negb (error_code =? 0) || negb (id_size =? 0) ||
     negb (quote_len =? size - Z.of_nat TDX_QGS_MESSAGE_SIZE) then mret (-1, None) else
  if negb (received =? Z.of_nat TDX_QGS_PREFIX_SIZE + size) then mret (0, None) else
  mret (1, Some (size - Z.of_nat TDX_QGS_MESSAGE_SIZE)).

(** ** Sending *)

(** The report grows by the header's size, [junk] being the new storage, moves
    up, and gets its header. *)
Definition frame_request (send_data junk : list Z) : CM (list Z) :=
  let grown := send_data ++ junk in
  moved ← copy_from_slice grown TDX_QGS_HEADER_SIZE (TDX_QGS_HEADER_SIZE + length send_data) send_data;
  tdx_qgs_request_header moved (Z.of_nat (length send_data) mod 2 ^ 32).

(** ** Receiving *)

Inductive outcome :=
  | Pending (receive_buf : list Z)
  | QuoteError
  | QuoteSuccess (quote : list Z).

(** A read asks the channel for at most [room] bytes; [available] is what the
    channel would give without that bound, any part of what has arrived, and
    nothing at the end of the stream. *)
Definition piece (available : list Z) (room : Z) : list Z := take (Z.to_nat room) available.

(** The socket became readable, with the bytes [available]. *)
Definition on_readable (payload_len : Z) (receive_buf available : list Z) : outcome :=
  let chunk := piece available (payload_len - Z.of_nat (length receive_buf)) in
  if bool_decide (chunk = []) then QuoteError else
  let receive_buf := receive_buf ++ chunk in
  match fst (tdx_qgs_parse_response receive_buf (Z.of_nat (length receive_buf)) payload_len tt) with
  | Ret (complete, quote_size) =>
      if complete <? 0 then QuoteError
      else if 0 <? complete then
        QuoteSuccess (take (Z.to_nat (default 0 quote_size)) (drop TDX_QGS_HEADER_SIZE receive_buf))
      else Pending receive_buf
  | _ => QuoteError
  end.

(** The pieces in which the stream arrives.  What a read leaves behind is not
    read any more: it has filled the buffer, and a full buffer is never
    [Pending] (see [on_readable_sound]). *)
Fixpoint receive (payload_len : Z) (chunks : list (list Z)) (receive_buf : list Z) : outcome :=
  match chunks with
  | [] => Pending receive_buf
  | chunk :: chunks =>
      match on_readable payload_len receive_buf chunk with
      | Pending receive_buf => receive payload_len chunks receive_buf
      | o => o
      end
  end.

(** ** Specification *)

(** The response that carries [quote]. *)
Definition le32_bytes (v : Z) : list Z := digits 8 4 v.
Definition be32_bytes (v : Z) : list Z := reverse (digits 8 4 v).
Definition frame (quote : list Z) : list Z :=
  let n := Z.of_nat (length quote) in
  be32_bytes (24 + n) ++ [1; 0; 1; 0] ++ le32_bytes 1 ++ le32_bytes (24 + n) ++ le32_bytes 0 ++
  le32_bytes 0 ++ le32_bytes n ++ quote.

(** ** Lemmas *)

Lemma lor_shiftl_add a c k : 0 <= k -> 0 <= a < 2 ^ k -> Z.lor a (Z.shiftl c k) = a + 2 ^ k * c.
Proof.
  intros Hk Ha.
  assert (Z.land a (Z.shiftl c k) = 0) as Hl.
  { apply Z.bits_inj'. intros i Hi. rewrite Z.land_spec, Z.bits_0. apply andb_false_iff.
    destruct (Z.lt_ge_cases i k).
    - right. by apply Z.shiftl_spec_low.
    - left. replace a with (a mod 2 ^ k) by (apply Z.mod_small; lia).
      apply Z.mod_pow2_bits_high. lia. }
  pose proof (Z.lxor_lor _ _ Hl) as E1. pose proof (Z.add_nocarry_lxor _ _ Hl) as E2.
  rewrite Z.shiftl_mul_pow2 in * by done. lia.
Qed.

Lemma bytes4 b0 b1 b2 b3 : bytes_ok [b0; b1; b2; b3] ->
  0 <= b0 < 2 ^ 8 /\ 0 <= b1 < 2 ^ 8 /\ 0 <= b2 < 2 ^ 8 /\ 0 <= b3 < 2 ^ 8.
Proof.
  unfold digits_ok. intros H.
  rewrite !Forall_cons in H. destruct H as (H0 & H1 & H2 & H3 & _).
  by unfold digit_ok in *.
Qed.

Lemma le32_value b0 b1 b2 b3 : bytes_ok [b0; b1; b2; b3] ->
  Z.lor (Z.lor (Z.lor b0 (Z.shiftl b1 8)) (Z.shiftl b2 16)) (Z.shiftl b3 24) =
  value 8 [b0; b1; b2; b3].
Proof.
  intros (H0 & H1 & H2 & H3)%bytes4.
  rewrite (lor_shiftl_add b0), (lor_shiftl_add _ b2), (lor_shiftl_add _ b3) by lia.
  rewrite !value_cons, value_nil. lia.
Qed.

Lemma be32_bytes_value b0 b1 b2 b3 : bytes_ok [b0; b1; b2; b3] ->
  Z.lor (Z.lor (Z.lor (Z.shiftl b0 24) (Z.shiftl b1 16)) (Z.shiftl b2 8)) b3 =
  be_value [b0; b1; b2; b3].
Proof.
  intros Hb. unfold be_value. change (reverse [b0; b1; b2; b3]) with [b3; b2; b1; b0].
  rewrite <- le32_value by (by apply (Forall_reverse _ [b0; b1; b2; b3])).
  rewrite (Z.lor_comm _ b3), (Z.lor_comm _ (Z.shiftl b2 8)), (Z.lor_comm _ (Z.shiftl b1 16)).
  by rewrite !Z.lor_assoc.
Qed.

(** Four bytes hold a number exactly if they are its digits. *)
Lemma value_iff l v : bytes_ok l -> length l = 4%nat -> 0 <= v < 2 ^ 32 ->
  value 8 l = v <-> l = le32_bytes v.
Proof.
  intros Hb Hl Hv. unfold le32_bytes. split.
  - intros <-. rewrite <- Hl. symmetry. by apply digits_value.
  - intros ->. rewrite value_digits by lia. by apply Z.mod_small.
Qed.

Lemma be_value_iff l v : bytes_ok l -> length l = 4%nat -> 0 <= v < 2 ^ 32 ->
  be_value l = v <-> l = be32_bytes v.
Proof.
  intros Hb Hl Hv. unfold be_value, be32_bytes.
  rewrite value_iff; [|by apply Forall_reverse|by rewrite length_reverse|done].
  unfold le32_bytes. split; [intros <-|intros ->]; by rewrite reverse_involutive.
Qed.

Lemma frame_length quote : length (frame quote) = (28 + length quote)%nat.
Proof. unfold frame, be32_bytes, le32_bytes. rewrite !length_app, length_reverse, !digits_length. simpl. lia. Qed.

(** A read that is in the buffer. *)
Lemma wp_le32 p off b0 b1 b2 b3 (Qok : Z -> unit -> Prop) Qerr st :
  p !! off = Some b0 -> p !! (off + 1)%nat = Some b1 -> p !! (off + 2)%nat = Some b2 ->
  p !! (off + 3)%nat = Some b3 -> bytes_ok p ->
  Qok (value 8 [b0; b1; b2; b3]) st -> wp (tdx_qgs_le32 p off) Qok Qerr st.
Proof.
  intros H0 H1 H2 H3 Hb HQ. unfold tdx_qgs_le32.
  do 4 (eapply wp_bind, wp_index; [eassumption|]). apply wp_ret.
  rewrite le32_value; [done|]. unfold digits_ok in *.
  repeat (constructor; [by eapply Forall_lookup_1|]). constructor.
Qed.

Ltac wp_read := first
  [ apply wp_bind; eapply wp_index; [reflexivity|]
  | apply wp_bind; eapply wp_le32; [reflexivity..| done |] ].

(** The header of a frame, given as its four-byte groups. *)
Lemma frame_header p q v0 v1 v2 v3 v4 v5 :
  p = v0 ++ [1; 0; 1; 0] ++ v1 ++ v2 ++ v3 ++ v4 ++ v5 ++ q ->
  Forall (fun v => bytes_ok v /\ length v = 4%nat) [v0; v1; v2; v3; v4; v5] ->
  let n := Z.of_nat (length q) in 24 + n < 2 ^ 32 ->
  be_value v0 = 24 + n -> value 8 v1 = 1 -> value 8 v2 = 24 + n -> value 8 v3 = 0 ->
  value 8 v4 = 0 -> value 8 v5 = n -> p = frame q.
Proof.
  intros -> Hv n Hn E0 E1 E2 E3 E4 E5. unfold frame. fold n.
  rewrite !Forall_cons in Hv. destruct Hv as ((?&?)&(?&?)&(?&?)&(?&?)&(?&?)&(?&?)&_).
  apply be_value_iff in E0 as ->; [|done|done|lia].
  apply value_iff in E1 as ->; [|done|done|lia]. apply value_iff in E2 as ->; [|done|done|lia].
  apply value_iff in E3 as ->; [|done|done|lia]. apply value_iff in E4 as ->; [|done|done|lia].
  apply value_iff in E5 as ->; [|done|done|lia]. done.
Qed.

Lemma be_value_bound l : bytes_ok l -> length l = 4%nat -> 0 <= be_value l < 2 ^ 32.
Proof.
  intros Hb Hl. unfold be_value. pose proof (value_bound 8 ltac:(lia) (reverse l)) as H.
  rewrite length_reverse, Hl in H. apply H. by apply Forall_reverse.
Qed.

(** Only frames are accepted, and no byte beyond those received is read. *)
Lemma parse_ok p capacity : bytes_ok p ->
  wp (tdx_qgs_parse_response p (Z.of_nat (length p)) capacity)
     (fun r _ => r = (-1, None) \/ (r = (0, None) /\ Z.of_nat (length p) < capacity) \/
        exists q, r = (1, Some (Z.of_nat (length q))) /\ q <> [] /\ p = frame q /\
          Z.of_nat (length p) <= capacity /\ 24 + Z.of_nat (length q) < 2 ^ 32)
     (fun _ _ => False) tt.
Proof.
  intros Hb. unfold tdx_qgs_parse_response.
  change (Z.of_nat TDX_QGS_HEADER_SIZE) with 28. change (Z.of_nat TDX_QGS_PREFIX_SIZE) with 4.
  change (Z.of_nat TDX_QGS_MESSAGE_SIZE) with 24.
  destruct ((capacity <? _) || _) eqn:C1; [apply wp_ret; by left|].
  destruct (Z.of_nat (length p) <? 4) eqn:C2; [apply wp_ret; right; left; split; [done|lia]|].
  assert (4 <= length p)%nat as L4 by lia. clear C2.
  do 4 (destruct p as [|? p]; [exfalso; rewrite ?length_cons in L4; simpl in L4; lia|]). rename z into b0, z0 into b1, z1 into b2, z2 into b3.
  do 4 wp_read.
  assert (bytes_ok [b0; b1; b2; b3]) as Hb0 by (by apply (Forall_take _ 4) in Hb).
  rewrite be32_bytes_value by done. pose proof (be_value_bound _ Hb0 eq_refl) as Hsz.
  remember (be_value [b0; b1; b2; b3]) as size eqn:Es. symmetry in Es.
  match goal with |- wp (if ?c then _ else _) _ _ _ => destruct c eqn:C3 end; [apply wp_ret; by left|].
  match goal with |- wp (if ?c then _ else _) _ _ _ => destruct c eqn:C4 end; [apply wp_ret; right; left; split; [done|lia]|].
  assert (24 <= length p)%nat as L24 by (apply Z.ltb_ge in C4; rewrite !length_cons in C4; lia).
  do 24 (destruct p as [|? p]; [exfalso; rewrite ?length_cons in L24; simpl in L24; lia|]).
  do 4 wp_read. do 5 wp_read.
  match goal with |- wp (if ?c then _ else _) _ _ _ => destruct c eqn:C5 end; [apply wp_ret; by left|].
  match goal with |- wp (if ?c then _ else _) _ _ _ => destruct c eqn:C6 end; [apply wp_ret; right; left; split; [done|lia]|].
  apply wp_ret. right; right. exists p. rewrite !length_cons in *.
  rewrite !orb_false_iff, !negb_false_iff, !Z.eqb_eq in C5. rewrite negb_false_iff, Z.eqb_eq in C6.
  destruct C5 as ((((((((-> & ->) & ->) & ->) & E1) & E2) & E3) & E4) & E5).
  assert (size = 24 + Z.of_nat (length p)) as Esz by lia. rewrite Esz in *.
  assert (forall i, bytes_ok (take 4 (drop i (b0 :: b1 :: b2 :: b3 :: 1 :: 0 :: 1 :: 0 ::
    z3 :: z4 :: z5 :: z6 :: z7 :: z8 :: z9 :: z10 :: z11 :: z12 :: z13 :: z14 :: z15 :: z16 ::
    z17 :: z18 :: z19 :: z20 :: z21 :: z22 :: p)))) as Hg
    by (intros i; by apply Forall_take, Forall_drop).
  split_and!; [do 2 f_equal; lia | intros ->; simpl in *; lia | | lia | lia].
  apply (frame_header _ p [b0; b1; b2; b3] [z3; z4; z5; z6] [z7; z8; z9; z10] [z11; z12; z13; z14]
    [z15; z16; z17; z18] [z19; z20; z21; z22]); try done; [|lia|lia].
  apply Forall_forall. intros v Hv. rewrite !elem_of_cons in Hv.
  destruct Hv as [->|[->|[->|[->|[->|[->|[]%elem_of_nil]]]]]]; (split; [|done]);
    [exact (Hg 0%nat)|exact (Hg 8%nat)|exact (Hg 12%nat)|exact (Hg 16%nat)|exact (Hg 20%nat)|
     exact (Hg 24%nat)].
Qed.

Lemma frame_bytes q : bytes_ok q -> bytes_ok (frame q).
Proof.
  intros Hq. unfold frame, be32_bytes, le32_bytes, digits_ok. rewrite !Forall_app.
  split_and!; try done; try (apply digits_wf; lia); [apply Forall_reverse, digits_wf; lia|].
  concrete_digits.
Qed.

(** The bytes of a frame, one by one. *)
Lemma frame_explicit q :
  let n := Z.of_nat (length q) in
  exists a0 a1 a2 a3 b0 b1 b2 b3 c0 c1 c2 c3,
    frame q = a0 :: a1 :: a2 :: a3 :: 1 :: 0 :: 1 :: 0 :: 1 :: 0 :: 0 :: 0 ::
      b0 :: b1 :: b2 :: b3 :: 0 :: 0 :: 0 :: 0 :: 0 :: 0 :: 0 :: 0 :: c0 :: c1 :: c2 :: c3 :: q /\
    be32_bytes (24 + n) = [a0; a1; a2; a3] /\ le32_bytes (24 + n) = [b0; b1; b2; b3] /\
    le32_bytes n = [c0; c1; c2; c3].
Proof. do 12 eexists. split_and!; reflexivity. Qed.

(** A received part of a frame is incomplete, the whole frame is its quote. *)
Lemma parse_frame q p capacity :
  bytes_ok q -> q <> [] -> 24 + Z.of_nat (length q) < 2 ^ 32 ->
  28 + Z.of_nat (length q) <= capacity -> p `prefix_of` frame q ->
  wp (tdx_qgs_parse_response p (Z.of_nat (length p)) capacity)
     (fun r _ => r = if (length p =? length (frame q))%nat then (1, Some (Z.of_nat (length q))) else (0, None))
     (fun _ _ => False) tt.
Proof.
  intros Hq Hne Hn Hc Hp. pose proof (prefix_length _ _ Hp) as Hlp. rewrite frame_length in *.
  assert (0 < length q)%nat as Hpos by (destruct q; [done|simpl; lia]).
  assert (bytes_ok p) as Hb.
  { pose proof (frame_bytes q Hq) as Hf. destruct Hp as [r E]. rewrite E in Hf.
    unfold digits_ok in Hf. by apply Forall_app in Hf as [? _]. }
  assert (forall i b, frame q !! i = Some b -> (i < length p)%nat -> p !! i = Some b) as Hix.
  { intros i b Hi Hlt. destruct Hp as [r E]. rewrite E in Hi. by rewrite lookup_app_l in Hi. }
  unfold tdx_qgs_parse_response.
  change (Z.of_nat TDX_QGS_HEADER_SIZE) with 28. change (Z.of_nat TDX_QGS_PREFIX_SIZE) with 4.
  change (Z.of_nat TDX_QGS_MESSAGE_SIZE) with 24.
  rewrite (proj2 (Z.ltb_ge capacity _)), (proj2 (Z.ltb_ge capacity 28)) by lia. simpl orb. cbv iota.
  destruct (Z.ltb_spec (Z.of_nat (length p)) 4).
  { apply wp_ret. by rewrite (proj2 (Nat.eqb_neq _ _)) by lia. }
  destruct (frame_explicit q) as (a0 & a1 & a2 & a3 & b0 & b1 & b2 & b3 & c0 & c1 & c2 & c3 & Ef & Ea & Eb & Ec).
  set (n := Z.of_nat (length q)) in *. rewrite Ef in Hix.
  do 4 (apply wp_bind; eapply wp_index; [by apply Hix; [reflexivity|lia]|]).
  assert (bytes_ok [a0; a1; a2; a3]) as Ha by (rewrite <- Ea; apply Forall_reverse, digits_wf; lia).
  rewrite be32_bytes_value, (proj2 (be_value_iff _ (24 + n) Ha eq_refl ltac:(lia)) (eq_sym Ea)) by done.
  rewrite (proj2 (Z.leb_gt _ _)), !(proj2 (Z.ltb_ge _ _)) by lia. simpl orb. cbv iota.
  destruct (Z.ltb_spec (Z.of_nat (length p)) 28).
  { apply wp_ret. by rewrite (proj2 (Nat.eqb_neq _ _)) by lia. }
  do 4 (apply wp_bind; eapply wp_index; [by apply Hix; [reflexivity|lia]|]).
  do 5 (apply wp_bind; eapply wp_le32; [by apply Hix; [reflexivity|lia]..|done|]).
  rewrite <- Eb, <- Ec. unfold le32_bytes. rewrite !value_digits, !Z.mod_small by lia.
  change (value 8 [1; 0; 0; 0]) with 1. change (value 8 [0; 0; 0; 0]) with 0.
  rewrite (proj2 (Z.eqb_eq (24 + n) (24 + n))), (proj2 (Z.eqb_eq n (24 + n - 24))) by lia.
  simpl orb. cbv iota.
  destruct (Nat.eqb_spec (length p) (28 + length q)).
  - rewrite (proj2 (Z.eqb_eq _ _)) by lia. simpl negb. cbv iota. apply wp_ret.
    do 2 f_equal. lia.
  - rewrite (proj2 (Z.eqb_neq _ _)) by lia. by apply wp_ret.
Qed.

(** More than a frame is invalid. *)
Lemma parse_overrun q p capacity :
  24 + Z.of_nat (length q) < 2 ^ 32 -> frame q `prefix_of` p -> (length (frame q) < length p)%nat ->
  wp (tdx_qgs_parse_response p (Z.of_nat (length p)) capacity)
     (fun r _ => r = (-1, None)) (fun _ _ => False) tt.
Proof.
  intros Hn [rest ->] Hlt. rewrite length_app, frame_length in *. unfold tdx_qgs_parse_response.
  change (Z.of_nat TDX_QGS_HEADER_SIZE) with 28. change (Z.of_nat TDX_QGS_PREFIX_SIZE) with 4.
  change (Z.of_nat TDX_QGS_MESSAGE_SIZE) with 24.
  destruct ((capacity <? _) || _); [by apply wp_ret|].
  rewrite (proj2 (Z.ltb_ge _ 4)) by lia.
  destruct (frame_explicit q) as (a0 & a1 & a2 & a3 & b0 & b1 & b2 & b3 & c0 & c1 & c2 & c3 & Ef & Ea & _).
  rewrite Ef. do 4 wp_read.
  assert (bytes_ok [a0; a1; a2; a3]) as Ha by (rewrite <- Ea; apply Forall_reverse, digits_wf; lia).
  rewrite be32_bytes_value by done.
  rewrite (proj2 (be_value_iff _ (24 + Z.of_nat (length q)) Ha eq_refl ltac:(lia)) (eq_sym Ea)).
  rewrite (proj2 (Z.ltb_lt (4 + (24 + Z.of_nat (length q))) _)) by lia.
  rewrite orb_true_r. by apply wp_ret.
Qed.

(** ** Writing *)

Lemma u8_shiftr v k : 0 <= k -> u8 (Z.shiftr v k) = (v / 2 ^ k) mod 2 ^ 8.
Proof. intros. unfold u8. by rewrite Z.shiftr_div_pow2. Qed.

Lemma le32_bytes_explicit v :
  le32_bytes v = [u8 v; u8 (Z.shiftr v 8); u8 (Z.shiftr v 16); u8 (Z.shiftr v 24)].
Proof.
  rewrite !u8_shiftr by lia. unfold u8, le32_bytes.
  change (digits 8 4 v) with
    [v mod 2 ^ 8; v / 2 ^ 8 mod 2 ^ 8; v / 2 ^ 8 / 2 ^ 8 mod 2 ^ 8; v / 2 ^ 8 / 2 ^ 8 / 2 ^ 8 mod 2 ^ 8].
  by rewrite !Z.div_div by lia.
Qed.

Lemma wp_put_le32 pre rest b0 b1 b2 b3 off v (Qok : list Z -> unit -> Prop) Qerr st :
  length pre = off -> Qok (pre ++ le32_bytes v ++ rest) st ->
  wp (tdx_qgs_put_le32 (pre ++ b0 :: b1 :: b2 :: b3 :: rest) off v) Qok Qerr st.
Proof.
  intros <- HQ. unfold tdx_qgs_put_le32. rewrite le32_bytes_explicit in HQ.
  do 3 (apply wp_bind; apply wp_set_index; [rewrite ?length_insert, length_app, !length_cons; lia|]).
  apply wp_set_index; [rewrite ?length_insert, length_app, !length_cons; lia|].
  rewrite <- (Nat.add_0_r (length pre)) at 4. by rewrite !insert_app_r.
Qed.

(** The header of a request for a report of [n] bytes. *)
Definition request_header (n : Z) : list Z :=
  be32_bytes (24 + n) ++ [1; 0; 1; 0] ++ le32_bytes 0 ++ le32_bytes (24 + n) ++ le32_bytes 0 ++
  le32_bytes n ++ le32_bytes 0.

Lemma wp_request_header p n (Qok : list Z -> unit -> Prop) Qerr st :
  (TDX_QGS_HEADER_SIZE <= length p)%nat -> 0 <= n -> 24 + n < 2 ^ 32 ->
  Qok (request_header n ++ drop 28 p) st -> wp (tdx_qgs_request_header p n) Qok Qerr st.
Proof.
  change TDX_QGS_HEADER_SIZE with 28%nat. intros Hl Hn0 Hn HQ. unfold tdx_qgs_request_header.
  change (Z.of_nat TDX_QGS_MESSAGE_SIZE) with 24. change TDX_QGS_HEADER_SIZE with 28%nat.
  rewrite Z.mod_small by lia. apply wp_bind, wp_copy_from_slice; [lia|done|done|].
  rewrite take_0, app_nil_l. cbn [replicate app].
  do 6 (apply wp_bind; apply wp_set_index; [rewrite !length_cons; lia|]; cbn [insert list_insert]).
  apply wp_bind.
  apply (wp_put_le32 [u8 (Z.shiftr (24 + n) 24); u8 (Z.shiftr (24 + n) 16); u8 (Z.shiftr (24 + n) 8);
    u8 (24 + n); 1; 0; 1; 0; 0; 0; 0; 0]); [done|].
  rewrite le32_bytes_explicit. cbn [app].
  apply (wp_put_le32 [u8 (Z.shiftr (24 + n) 24); u8 (Z.shiftr (24 + n) 16); u8 (Z.shiftr (24 + n) 8);
    u8 (24 + n); 1; 0; 1; 0; 0; 0; 0; 0; u8 (24 + n); u8 (Z.shiftr (24 + n) 8);
    u8 (Z.shiftr (24 + n) 16); u8 (Z.shiftr (24 + n) 24); 0; 0; 0; 0]); [done|].
  unfold request_header, be32_bytes in HQ. fold (le32_bytes (24 + n)) in HQ.
  rewrite le32_bytes_explicit in HQ. by rewrite <- !app_assoc in HQ.
Qed.

Lemma wp_frame_request report junk (Qok : list Z -> unit -> Prop) Qerr st :
  length junk = TDX_QGS_HEADER_SIZE -> 24 + Z.of_nat (length report) < 2 ^ 32 ->
  Qok (request_header (Z.of_nat (length report)) ++ report) st ->
  wp (frame_request report junk) Qok Qerr st.
Proof.
  change TDX_QGS_HEADER_SIZE with 28%nat. intros Hj Hn HQ. unfold frame_request.
  change TDX_QGS_HEADER_SIZE with 28%nat.
  apply wp_bind, wp_copy_from_slice; [lia | rewrite length_app; lia | lia |].
  rewrite (drop_ge (report ++ junk)), app_nil_r by (rewrite length_app; lia).
  assert (length (take 28 (report ++ junk)) = 28%nat) as Ht by (rewrite length_take, length_app; lia).
  rewrite Z.mod_small by lia. apply wp_request_header; [|lia|done|].
  - change TDX_QGS_HEADER_SIZE with 28%nat. rewrite length_app. lia.
  - replace (drop 28 (take 28 (report ++ junk) ++ report)) with report; [done|].
    rewrite <- Ht at 1. by rewrite drop_app_length.
Qed.

(** ** Receiving *)

Lemma run_eq {A} (m : CM A) (Q : A -> Prop) :
  wp m (fun a _ => Q a) (fun _ _ => False) tt -> exists a, m tt = (Ret a, tt) /\ Q a.
Proof. unfold wp. destruct (m tt) as [[a|e|f] []]; [|done|done]. eauto. Qed.

Lemma frame_quote q : take (length q) (drop TDX_QGS_HEADER_SIZE (frame q)) = q.
Proof.
  destruct (frame_explicit q) as (a0 & a1 & a2 & a3 & b0 & b1 & b2 & b3 & c0 & c1 & c2 & c3 & -> & _).
  change (take (length q) q = q). by apply take_ge.
Qed.

(** A quote whose frame fits the buffer. *)
Definition fits (payload_len : Z) (q : list Z) : Prop :=
  bytes_ok q /\ q <> [] /\ 24 + Z.of_nat (length q) < 2 ^ 32 /\ 28 + Z.of_nat (length q) <= payload_len.

Lemma read_nonempty available room : 0 < room -> available <> [] -> piece available room <> [].
Proof.
  intros Hr Ha E. apply (f_equal length) in E. unfold piece in E. rewrite length_take in E.
  destruct available; [done|]. simpl in E. lia.
Qed.

Lemma buffer_take payload_len (buf available : list Z) : Z.of_nat (length buf) <= payload_len ->
  buf ++ piece available (payload_len - Z.of_nat (length buf)) =
  take (Z.to_nat payload_len) (buf ++ available).
Proof.
  intros H. unfold piece. rewrite take_app, (take_ge buf) by lia. do 2 f_equal. lia.
Qed.

(** A piece inside a frame, or up to its end. *)
Lemma on_readable_frame payload_len q buf available :
  fits payload_len q -> available <> [] -> (length buf < length (frame q))%nat ->
  take (Z.to_nat payload_len) (buf ++ available) `prefix_of` frame q ->
  on_readable payload_len buf available =
    if (length (take (Z.to_nat payload_len) (buf ++ available)) =? length (frame q))%nat then QuoteSuccess q
    else Pending (buf ++ available).
Proof.
  intros (Hq & Hne & Hn & Hc) Ha Hlt Hp. rewrite frame_length in Hlt. unfold on_readable.
  rewrite bool_decide_false by (apply read_nonempty; [lia|done]). cbv zeta.
  rewrite buffer_take by lia. set (p := take _ _) in *.
  destruct (run_eq _ _ (parse_frame q _ payload_len Hq Hne Hn Hc Hp)) as (r & -> & ->).
  destruct (Nat.eqb_spec (length p) (length (frame q))) as [El|Hl].
  - simpl fst. cbv iota. assert (p = frame q) as ->.
    { destruct Hp as [l E]. assert (l = []) as -> by (apply (f_equal length) in E;
        rewrite length_app in E; apply nil_length_inv; lia). by rewrite app_nil_r in E. }
    change (QuoteSuccess (take (Z.to_nat (Z.of_nat (length q))) (drop TDX_QGS_HEADER_SIZE (frame q))) =
            QuoteSuccess q).
    by rewrite Nat2Z.id, frame_quote.
  - simpl. f_equal. apply prefix_length in Hp. unfold p in *. rewrite length_take, frame_length in *.
    apply take_ge. lia.
Qed.

(** A piece across the end of a frame, with room for more. *)
Lemma on_readable_overrun payload_len q buf available :
  fits payload_len q -> (length buf < length (frame q))%nat ->
  frame q `prefix_of` buf ++ available -> buf ++ available <> frame q ->
  Z.of_nat (length (frame q)) < payload_len ->
  on_readable payload_len buf available = QuoteError.
Proof.
  intros (Hq & Hne & Hn & Hc) Hlt [rest E] Hx Hroom. unfold on_readable. cbv zeta.
  case_bool_decide; [done|]. rewrite buffer_take, E by lia.
  assert (rest <> []) as Hr by (intros ->; apply Hx; by rewrite E, app_nil_r).
  rewrite take_app, take_ge by lia.
  set (p := frame q ++ _). assert (length (frame q) < length p)%nat as Hp.
  { unfold p. rewrite length_app, length_take. destruct rest; [done|]. rewrite length_cons. lia. }
  assert (frame q `prefix_of` p) as Hpre by (by eexists).
  by destruct (run_eq _ _ (parse_overrun q p payload_len Hn Hpre Hp)) as (r & -> & ->).
Qed.

Lemma on_readable_sound payload_len buf available :
  bytes_ok (buf ++ available) -> Z.of_nat (length buf) <= payload_len ->
  match on_readable payload_len buf available with
  | Pending buf' => buf' = buf ++ available /\ Z.of_nat (length buf') <= payload_len
  | QuoteError => True
  | QuoteSuccess q => fits payload_len q /\ available <> [] /\ Z.of_nat (length buf) < payload_len /\
      take (Z.to_nat payload_len) (buf ++ available) = frame q
  end.
Proof.
  intros Hb Hl. unfold on_readable. cbv zeta. case_bool_decide as Hch; [done|].
  assert (available <> []) as Ha by (intros ->; apply Hch; apply take_nil).
  assert (Z.of_nat (length buf) < payload_len) as Hl1.
  { destruct (Z.lt_ge_cases (Z.of_nat (length buf)) payload_len); [done|]. destruct Hch.
    unfold piece. by replace (Z.to_nat _) with 0%nat by lia. }
  rewrite buffer_take by done. set (p := take _ _).
  assert (bytes_ok p) as Hp by (by apply Forall_take).
  assert (length p <= Z.to_nat payload_len)%nat as Hlp by (unfold p; rewrite length_take; lia).
  destruct (run_eq _ _ (parse_ok p payload_len Hp)) as (r & -> & Hr). simpl fst. cbv iota.
  destruct Hr as [->|[[-> Hlt]|(q & -> & Hne & Ef & Hc & Hn)]]; [done | |].
  - simpl. split; [|lia]. unfold p in *. rewrite length_take in Hlt. apply take_ge. lia.
  - change (1 <? 0) with false. change (0 <? 1) with true. cbv iota. cbn [default from_option id].
    rewrite Ef, Nat2Z.id, frame_quote. rewrite Ef, frame_length in Hc.
    split_and!; try done. split_and!; [|done|done|lia].
    rewrite Ef in Hp. unfold frame, digits_ok in Hp. rewrite !Forall_app in Hp. by destruct_and!.
Qed.

(** Pieces inside a frame are collected, wherever they end. *)
Lemma receive_inside payload_len q rest c1 : forall buf,
  fits payload_len q -> Forall (fun c => c <> []) c1 ->
  (buf ++ mjoin c1) `prefix_of` frame q -> (length (buf ++ mjoin c1) < length (frame q))%nat ->
  receive payload_len (c1 ++ rest) buf = receive payload_len rest (buf ++ mjoin c1).
Proof.
  induction c1 as [|c c1 IH]; intros buf Hfit Hf Hp Hl; [by rewrite app_nil_r|].
  apply Forall_cons in Hf as [Hc Hf]. change (mjoin (c :: c1)) with (c ++ mjoin c1) in *.
  rewrite app_assoc in *.
  assert (length (buf ++ c) < length (frame q))%nat as Hl1 by (rewrite length_app in Hl; lia).
  assert (take (Z.to_nat payload_len) (buf ++ c) = buf ++ c) as Et.
  { apply take_ge. destruct Hfit as (_ & _ & _ & ?). rewrite frame_length in Hl1. lia. }
  cbn [app receive]. rewrite (on_readable_frame payload_len q), Et; try done.
  - rewrite (proj2 (Nat.eqb_neq _ _)) by lia. by apply IH.
  - rewrite length_app in Hl1. lia.
  - rewrite Et. etrans; [|exact Hp]. by eexists.
Qed.

(** The pieces [c1] end inside the frame of [q], and [c] brings its end, or fills
    the buffer with it. *)
Definition arrives (payload_len : Z) (q : list Z) (c1 : list (list Z)) (c : list Z) : Prop :=
  Forall (fun c => c <> []) c1 /\ (length (mjoin c1) < length (frame q))%nat /\
  take (Z.to_nat payload_len) (mjoin c1 ++ c) = frame q.

Lemma receive_frame payload_len q c1 c c2 :
  fits payload_len q -> arrives payload_len q c1 c ->
  receive payload_len (c1 ++ c :: c2) [] = QuoteSuccess q.
Proof.
  intros Hfit (Hf & Hl & Et). pose proof Hfit as (_ & _ & _ & Hc). rewrite frame_length in Hl.
  assert (mjoin c1 `prefix_of` frame q) as Hp.
  { rewrite <- Et, take_app, take_ge by lia. by eexists. }
  rewrite <- frame_length in Hl. rewrite (receive_inside payload_len q) by done. rewrite frame_length in Hl.
  cbn [app receive]. rewrite (on_readable_frame payload_len q); rewrite ?frame_length; try done.
  - by rewrite Et, frame_length, Nat.eqb_refl.
  - intros ->. rewrite app_nil_r in Et. apply (f_equal length) in Et.
    rewrite length_take, frame_length in Et. lia.
  - by rewrite Et.
Qed.

Lemma receive_success payload_len q chunks : forall buf,
  bytes_ok buf -> Z.of_nat (length buf) <= payload_len -> Forall (fun c : list Z => bytes_ok c) chunks ->
  receive payload_len chunks buf = QuoteSuccess q ->
  fits payload_len q /\ exists c1 c c2, chunks = c1 ++ c :: c2 /\ Forall (fun c => c <> []) c1 /\
    Z.of_nat (length (buf ++ mjoin c1)) < payload_len /\ c <> [] /\
    take (Z.to_nat payload_len) ((buf ++ mjoin c1) ++ c) = frame q.
Proof.
  induction chunks as [|c chunks IH]; intros buf Hb Hl Hf E; [done|].
  apply Forall_cons in Hf as [Hc Hf]. cbn [receive] in E.
  assert (bytes_ok (buf ++ c)) as Hbc by (by apply Forall_app).
  pose proof (on_readable_sound payload_len buf c Hbc Hl) as H.
  destruct (on_readable payload_len buf c) as [buf'| |q'] eqn:Er; [|done|].
  - destruct H as [-> Hl']. destruct (IH _ Hbc Hl' Hf E) as (Hfit & c1 & d & c2 & -> & H1 & H2 & H3 & H4).
    split; [done|]. exists (c :: c1), d, c2. change (mjoin (c :: c1)) with (c ++ mjoin c1).
    rewrite (assoc_L (++) buf). split_and!; try done. constructor; [|done].
    intros ->. unfold on_readable, piece in Er. by rewrite take_nil in Er.
  - injection E as ->. destruct H as (Hfit & Hne & Hl1 & Et). split; [done|].
    exists [], c, chunks. simpl. by rewrite app_nil_r.
Qed.
(** ** Properties *)

(** C24: the response parser accepts exactly the frames.  On any received bytes it
    returns -1, 0 or 1 and reads none beyond them; 1 is returned only for the
    frame of a nonempty quote that fits the buffer, with the quote's size.  For
    every nonempty quote whose frame fits, each proper prefix of the frame is
    incomplete, and the frame itself gives 1 and the size. *)
Theorem parse_response_exact (p q : list Z) (capacity : Z) :
  let run := tdx_qgs_parse_response p (Z.of_nat (length p)) capacity tt in
  (bytes_ok p -> exists r, run = (Ret r, tt) /\
     (r = (-1, None) \/ r = (0, None) \/
      exists quote, r = (1, Some (Z.of_nat (length quote))) /\ quote <> [] /\ p = frame quote /\
        Z.of_nat (length p) <= capacity)) /\
  (bytes_ok q -> q <> [] -> 24 + Z.of_nat (length q) < 2 ^ 32 ->
   28 + Z.of_nat (length q) <= capacity -> p `prefix_of` frame q ->
   run = (Ret (if (length p =? length (frame q))%nat then (1, Some (Z.of_nat (length q)))
               else (0, None)), tt)).
Proof.
  intros run. split.
  - intros Hb. destruct (run_eq _ _ (parse_ok p capacity Hb)) as (r & E & Hr). exists r. split; [done|].
    destruct Hr as [?|[[? _]|(quote & ? & ? & ? & ? & _)]]; [by left | by right; left | right; right; by exists quote].
  - intros Hq Hne Hn Hc Hp.
    destruct (run_eq _ _ (parse_frame q p capacity Hq Hne Hn Hc Hp)) as (r & E & ->). exact E.
Qed.

Lemma parse_response_exact_witness :
  let q := [5; 6; 7] in
  tdx_qgs_parse_response (frame q) 31 100 tt = (Ret (1, Some 3), tt) /\
  tdx_qgs_parse_response (take 30 (frame q)) 30 100 tt = (Ret (0, None), tt).
Proof.
  assert (Hq : bytes_ok [5; 6; 7]) by concrete_digits.
  split.
  - exact (proj2 (parse_response_exact (frame [5; 6; 7]) [5; 6; 7] 100) Hq ltac:(discriminate)
      ltac:(reflexivity) ltac:(discriminate) (reflexivity _)).
  - exact (proj2 (parse_response_exact (take 30 (frame [5; 6; 7])) [5; 6; 7] 100) Hq ltac:(discriminate)
      ltac:(reflexivity) ltac:(discriminate) (prefix_take _ _)).
Defined.

(** C25: what receiving a response comes to.  The receiver ends with a quote
    exactly if its frame fits the buffer and arrives in nonempty pieces of which
    one ends where the frame ends, or fills the buffer at that point; where the
    other pieces end inside the frame does not matter, nor what follows.  As
    long as pieces of a frame arrive it waits; if a piece goes beyond the end of
    the frame, and there is room for more, or if the stream ends before, it ends
    with an error.  So no partial, empty or foreign message becomes a quote. *)
Theorem receive_exact (payload_len : Z) (chunks : list (list Z)) (q : list Z) :
  0 <= payload_len -> Forall (fun c : list Z => bytes_ok c) chunks ->
  (receive payload_len chunks [] = QuoteSuccess q <->
   fits payload_len q /\ exists c1 c c2, chunks = c1 ++ c :: c2 /\ arrives payload_len q c1 c) /\
  (forall c1 rest, chunks = c1 ++ rest -> Forall (fun c => c <> []) c1 -> fits payload_len q ->
     mjoin c1 `prefix_of` frame q -> mjoin c1 <> frame q ->
     (rest = [] -> receive payload_len chunks [] = Pending (mjoin c1)) /\
     (forall c2, rest = [] :: c2 -> receive payload_len chunks [] = QuoteError) /\
     (forall c c2, rest = c :: c2 -> frame q `prefix_of` mjoin c1 ++ c -> mjoin c1 ++ c <> frame q ->
        Z.of_nat (length (frame q)) < payload_len -> receive payload_len chunks [] = QuoteError)).
Proof.
  intros H0 Hb. split; [split|].
  - intros E. destruct (receive_success payload_len q chunks [] (Forall_nil_2 _) H0 Hb E)
      as (Hfit & c1 & c & c2 & -> & H1 & H2 & H3 & Et). simpl app in *. split; [done|].
    exists c1, c, c2. split; [done|]. split_and!; try done. rewrite <- Et, length_take, length_app.
    destruct c as [|b c]; [done|]. rewrite length_cons. lia.
  - intros (Hfit & c1 & c & c2 & -> & Ha). by apply receive_frame.
  - intros c1 rest -> Hf Hfit Hp Hne.
    assert (length (mjoin c1) < length (frame q))%nat as Hl.
    { destruct Hp as [l E]. rewrite E, length_app. destruct l; [|rewrite length_cons; lia].
      rewrite app_nil_r in E. by destruct Hne. }
    rewrite (receive_inside payload_len q) by done. simpl app. split_and!.
    + by intros ->.
    + intros c2 ->. cbn [receive]. unfold on_readable, piece. by rewrite take_nil.
    + intros c c2 -> Hpre Hx Hroom. cbn [receive]. by rewrite (on_readable_overrun payload_len q).
Qed.

Lemma receive_exact_witness :
  receive 100 [take 3 (frame [8; 9]); drop 3 (frame [8; 9]); [1]] [] = QuoteSuccess [8; 9] /\
  receive 100 [take 3 (frame [8; 9]); drop 3 (frame [8; 9]) ++ [1]] [] = QuoteError.
Proof.
  assert (Hf : bytes_ok (frame [8; 9])) by (apply frame_bytes; concrete_digits).
  assert (Hfit : fits 100 [8; 9]) by (split_and!; [concrete_digits | discriminate | reflexivity | discriminate]).
  split.
  - refine (proj2 (proj1 (receive_exact 100 [take 3 (frame [8; 9]); drop 3 (frame [8; 9]); [1]] [8; 9] _ _)) _);
      [discriminate | | split; [exact Hfit|]].
    + repeat (apply Forall_cons; split; [first [by apply Forall_take | by apply Forall_drop | concrete_digits]|]).
      constructor.
    + exists [take 3 (frame [8; 9])], (drop 3 (frame [8; 9])), [[1]]. split; [reflexivity|].
      split; [repeat constructor; discriminate|]. split; [vm_compute; lia | reflexivity].
  - refine (proj2 (proj2 (proj2 (receive_exact 100 [take 3 (frame [8; 9]); drop 3 (frame [8; 9]) ++ [1]]
      [8; 9] _ _) [take 3 (frame [8; 9])] [drop 3 (frame [8; 9]) ++ [1]] eq_refl _ Hfit _ _))
      (drop 3 (frame [8; 9]) ++ [1]) [] eq_refl _ _ _).
    + discriminate.
    + apply Forall_cons; split; [by apply Forall_take|]. apply Forall_cons; split; [|constructor].
      apply Forall_app. split; [by apply Forall_drop | concrete_digits].
    + repeat constructor; discriminate.
    + exists (drop 3 (frame [8; 9])). reflexivity.
    + discriminate.
    + exists [1]. reflexivity.
    + discriminate.
    + reflexivity.
Defined.

(** The 32-bit fields and the request header.  Writing a number and reading it
    at the same place gives it back and changes nothing else; the header of a
    request is the version, type and lengths of the protocol, in its 28 bytes
    and nowhere else, for every report whose size leaves room in 32 bits; and
    what is sent is this header followed by exactly the report, whatever the
    grown buffer held. *)
Lemma request_header_exact (pre rest p report junk : list Z) (b0 b1 b2 b3 v n : Z) :
  (0 <= v < 2 ^ 32 -> bytes_ok (pre ++ rest) -> exists p',
     tdx_qgs_put_le32 (pre ++ b0 :: b1 :: b2 :: b3 :: rest) (length pre) v tt = (Ret p', tt) /\
     p' = pre ++ le32_bytes v ++ rest /\ tdx_qgs_le32 p' (length pre) tt = (Ret v, tt)) /\
  ((28 <= length p)%nat -> 0 <= n -> 24 + n < 2 ^ 32 ->
     tdx_qgs_request_header p n tt = (Ret (request_header n ++ drop 28 p), tt)) /\
  (length junk = TDX_QGS_HEADER_SIZE -> 24 + Z.of_nat (length report) < 2 ^ 32 ->
     frame_request report junk tt = (Ret (request_header (Z.of_nat (length report)) ++ report), tt)).
Proof.
  split_and!.
  - intros Hv Hb.
    destruct (run_eq (tdx_qgs_put_le32 (pre ++ b0 :: b1 :: b2 :: b3 :: rest) (length pre) v)
      (eq (pre ++ le32_bytes v ++ rest))) as (p' & E & <-); [by apply wp_put_le32|].
    eexists. split_and!; [exact E | done |].
    destruct (run_eq (tdx_qgs_le32 (pre ++ le32_bytes v ++ rest) (length pre)) (eq v))
      as (v' & E' & <-); [|exact E'].
    assert (bytes_ok (pre ++ le32_bytes v ++ rest)) as Hb'.
    { unfold digits_ok in *. rewrite !Forall_app in *. destruct Hb.
      split_and!; [done | apply digits_wf; lia | done]. }
    assert (forall k b, le32_bytes v !! k = Some b ->
      (pre ++ le32_bytes v ++ rest) !! (length pre + k)%nat = Some b) as Hk.
    { intros k b Hk. rewrite lookup_app_r by lia. rewrite Nat.add_comm, Nat.add_sub.
      by apply lookup_app_l_Some. }
    pose proof (le32_bytes_explicit v) as Ev.
    pose proof (Hk 0%nat (u8 v)) as H0. rewrite Nat.add_0_r in H0.
    eapply wp_le32; [apply H0; by rewrite Ev | by apply Hk; rewrite Ev.. | done |].
    rewrite <- Ev. unfold le32_bytes. rewrite value_digits by lia. symmetry. by apply Z.mod_small.
  - intros Hl Hn0 Hn.
    destruct (run_eq (tdx_qgs_request_header p n) (eq (request_header n ++ drop 28 p)))
      as (p' & E & <-); [by apply wp_request_header|exact E].
  - intros Hj Hn.
    destruct (run_eq (frame_request report junk)
      (eq (request_header (Z.of_nat (length report)) ++ report))) as (p' & E & <-); [|exact E].
    by apply wp_frame_request.
Qed.
End qgs.
