(* ===== verification/EndToEnd.v ===== *)
(** What the client's answer means.

    The client prints a result.  Then the module has served a process with the
    approved digest, for the request on the client's command line and a nonce
    that the verifier drew for this very run; or else a text was signed under a
    key of the trusted root that the verifier's service did not give as a result,
    or the evidence has a forged signature, or a hash collides.  The proof goes
    from the text whose signature the client has checked back to the verifier's
    result ([Canonical]), from there to the challenge and the quote, and on to
    the module ([Security]). *)
From S2P Require Import Prelude Exec Sha256 Ffi RefKernel Vli Ecc Ecdsa Ioctl SetOnce Tarako.
From S2P Require Import Wire Attester Verifier Attestation Client Canonical Security.
From stdpp Require Import base gmap list numbers strings.
From Stdlib Require Import ZArith Lia.
#[local] Open Scope Z_scope.

Module end_to_end.
Import ioctl verifier client canonical security.

(** ** The verifier's service *)

Section Service.
Context {key : Type} `{!Cryptography key}.
Abbreviation table := (gmap (list Z) challenge_t).

(** A response of the service was given by the handler of one request, after
    those before it. *)
Lemma serve_split (es : list event) : forall (t : table) r, r ∈ fst (serve es t) ->
  exists es1 e es2, es = es1 ++ e :: es2 /\ fst (handle e (snd (serve es1 t))) = r.
Proof.
  induction es as [|e es IH]; intros t r; cbn [serve]; [by intros ?%elem_of_nil|].
  destruct (handle e t) as [r1 t1] eqn:Eh. specialize (IH t1 r).
  destruct (serve es t1) as [rs t2] eqn:Es. simpl in *. intros [->|H]%elem_of_cons.
  - exists [], e, es. split; [done|]. cbn [serve snd]. by rewrite Eh.
  - destruct (IH H) as (es1 & e' & es2 & -> & E). exists (e :: es1), e', es2. split; [done|].
    cbn [serve]. rewrite Eh. by destruct (serve es1 t1).
Qed.

Lemma policy_digest_bytes files digest pkb (pk : key) :
  load_appraisal_policy files = Some (digest, pkb, pk) -> bytes_ok digest.
Proof.
  unfold load_appraisal_policy.
  intros (f & _ & (d & Hd & (p & _ & [= <- _ _])%bind_Some)%bind_Some)%bind_Some.
  by eapply Hex.fromhex_wf.
Qed.

(** Where an outstanding challenge comes from. *)
Definition drawn (es : list event) (id : str) (ch : challenge_t) : Prop :=
  exists body nonce rid, EChallenge body nonce rid ∈ es /\ id = Hex.encode rid /\
    ch_nonce ch = Hex.encode nonce /\ json_request_value body = Some (ch_request ch).

Lemma handle_drawn (e : event) (t : table) (id : str) (ch : challenge_t) :
  snd (handle e t) !! id = Some ch -> t !! id = Some ch \/ drawn [e] id ch.
Proof.
  destruct e as [body nonce rid|files body]; simpl.
  - unfold challenge. destruct (json_request_value body) as [request|] eqn:Er; simpl; [|by left].
    intros [[<- <-]|[_ H]]%lookup_insert_Some; [right|by left].
    exists body, nonce, rid. split_and!; [by left | done..].
  - unfold verify. intros H. left. repeat case_match; simpl in H; try done;
      by apply lookup_delete_Some in H as [_ H].
Qed.

Lemma serve_drawn (es : list event) : forall (t : table) (id : str) (ch : challenge_t),
  snd (serve es t) !! id = Some ch -> t !! id = Some ch \/ drawn es id ch.
Proof.
  induction es as [|e es IH]; intros t id ch; cbn [serve]; [by left|].
  pose proof (handle_drawn e t id ch) as He. destruct (handle e t) as [r t1].
  specialize (IH t1 id ch). destruct (serve es t1) as [rs t2]. simpl in *. intros H.
  destruct (IH H) as [H1|(b & n & i & Hin & H1)].
  - destruct (He H1) as [H2|(b & n & i & Hin & H2)]; [by left|right].
    exists b, n, i. split; [|done]. apply list_elem_of_singleton in Hin as ->. left.
  - right. exists b, n, i. split; [by right|done].
Qed.

(** An accepted result of a service that started without challenges. *)
Lemma serve_accepted es res sig : Accepted res sig ∈ fst (serve es ∅) ->
  exists es1 files body t' body' nonce rid, EVerify files body ∈ es /\
    verify files body (snd (serve es1 ∅)) = (Accepted res sig, t') /\
    EChallenge body' nonce rid ∈ es /\
    snd (serve es1 ∅) !! res_challenge_id res = Some (mkChallenge (Hex.encode nonce) (res_request res)) /\
    res_nonce res = Hex.encode nonce.
Proof.
  intros (es1 & e & es2 & -> & E)%serve_split. destruct e as [b n i|files body]; simpl in E.
  { unfold challenge in E. by repeat case_match. }
  destruct (verify files body (snd (serve es1 ∅))) as [r t'] eqn:Ev. simpl in E. subst r.
  destruct (verify_sound _ _ _ _ _ _ Ev)
    as (ch & nonce & digest & pkb & pk & fields & quote & der & Ht & _ & En & Er & _).
  destruct (serve_drawn es1 ∅ _ _ Ht) as [H|(b & n & i & Hin & _ & Hn & _)];
    [by rewrite lookup_empty in H|].
  exists es1, files, body, t', b, n, i. split_and!; try done; [apply elem_of_app..| |by etransitivity].
  - right. left.
  - by left.
  - rewrite Ht. f_equal. destruct ch as [cn cr]; simpl in *. congruence.
Qed.
End Service.

(** ** The client *)

Section EndToEnd.
Context {W : Type} `{!Kernel W} `{!VliLaws W} `{!EccLaws W} `{!CurveLaws W} `{!ImaLaws W}
  `{!VerityLaws W} `{!UserLaws W} `{!MiscLaws W} `{!attestation.ShaLaws W}.
Context {N : Type} `{!Network N} {cert key : Type} `{!X509 cert key} `{!Cryptography key}.

(** The answer that the client has checked is not of the service: its text is
    signed under a key for which the trusted root has issued the certificate in
    the envelope, but it is not the text of any result that the service has
    given. *)
Definition not_served (trusted_root_ca : list Z) (envelope : list (str * json)) (es : list event)
    (result : json) : Prop :=
  exists certificate k signature sig,
    lookup (codes "certificate") envelope = Some (JStr certificate) /\
    issued trusted_root_ca certificate k /\
    lookup (codes "signature") envelope = Some (JStr signature) /\ Hex.fromhex signature = Some sig /\
    key_verify k sig (dumps result) = true /\
    forall res sig', Accepted res sig' ∈ fst (serve es ∅) -> result_bytes res <> dumps result.

(** Whether the service has given a result with this text. *)
Lemma served_or_not es (text : list Z) :
  (exists res sig, Accepted res sig ∈ fst (serve es ∅) /\ result_bytes res = text) \/
  (forall res sig, Accepted res sig ∈ fst (serve es ∅) -> result_bytes res <> text).
Proof.
  set (P r := match r with Accepted res _ => result_bytes res = text | _ => False end).
  assert (forall r, Decision (P r)) as Hdec by (intros [| |]; simpl; apply _).
  destruct (decide (Exists P (fst (serve es ∅)))) as [(r & Hin & HP)%Exists_exists|Hn]; [left|right].
  - destruct r as [| |res sig]; try done. by exists res, sig.
  - intros res sig Hin E. apply Hn, Exists_exists. by exists (Accepted res sig).
Qed.

(** The result that the client has checked is for the client's request, and one
    that the service has given for it and for the nonce of its challenge. *)
Lemma client_result trusted_root_ca verifier_host attester_host request (n n' : N) result es :
  main trusted_root_ca verifier_host attester_host request n = (inr result, n') ->
  exists challenge envelope n1 fields,
    obtain_envelope verifier_host attester_host request n = (inr (JObj challenge, JObj envelope), n1) /\
    result = JObj fields /\ lookup (codes "accepted") fields = Some (JBool true) /\
    lookup (codes "request") fields = Some (JStr request) /\
    (not_served trusted_root_ca envelope es result \/
     exists res sig s, Accepted res sig ∈ fst (serve es ∅) /\
       dumps (JObj fields) = result_bytes res /\ q request = q (res_request res) /\
       lookup (codes "nonce") challenge = Some (JStr s) /\ q s = q (res_nonce res)).
Proof.
  intros Hm.
  destruct (client_checked _ _ _ _ _ _ _ Hm) as (challenge & envelope & n1 & pem & rc & vc & k & sg &
    fields & certificate & signature & Ho & Hcert & Hpem & Hssl & Hrc & Hvc & Hiss & Hkey & Hsig & Hhex &
    Hver & _ & -> & Hacc & Hreq & _ & nonce & Hn & Heq).
  exists challenge, envelope, n1, fields. split_and!; try done.
  destruct (served_or_not es (dumps (JObj fields))) as [(res & sig & Hin & Ed)|Hno].
  2: { left. exists certificate, k, signature, sg. split_and!; try done. by exists pem, rc, vc. }
  right. symmetry in Ed.
  assert (forall f t, (codes f, t) ∈ result_items res ->
    exists v, lookup (codes f) fields = Some v /\ dumps v = t) as Hf
    by (intros f t; by apply result_field).
  destruct (Hf "request"%string (q (res_request res))) as (v & Ev & Hv);
    [apply (list_elem_of_lookup_2 _ 5); reflexivity|].
  rewrite Hreq in Ev. injection Ev as <-.
  destruct (Hf "nonce"%string (q (res_nonce res))) as (v & Ev & (s & -> & Es)%dumps_string);
    [apply (list_elem_of_lookup_2 _ 4); reflexivity|].
  unfold get in Heq. rewrite Ev in Heq. simpl in Heq.
  destruct nonce; try discriminate Heq. apply bool_decide_eq_true in Heq as <-.
  exists res, sig, s. by split_and!.
Qed.

(** Requests that are written alike have the same bindings. *)
Lemma binding_quoted request request' nonce :
  q request = q request' -> make_request_binding request nonce = make_request_binding request' nonce.
Proof. intros E. unfold make_request_binding, request_context. by rewrite E. Qed.

(** C1: the client's answer means attestation.  Suppose the client prints a
    result; the service always has the same policy and draws bytes for its
    nonces; and the module has reached its state in any way from a start with an
    empty record of transfers.  Then the printed result says "accepted" for the
    request on the command line.  Moreover, unless the text that the client
    checked was signed under a key that the trusted root certified and is no
    result of the service, the result is for the policy's digest, the nonce of
    the client's challenge is one that the service drew, and the module has
    written out, in one run of an ioctl and to the process that called it, whose
    executable has exactly that digest, a response that binds this request and
    this nonce, hashed and signed with the policy's key, recorded by IMA; unless
    evidence that was sent to the service presents a forgery for this request and
    nonce, or the module has hashed another message with the same hash. *)
Theorem client_acceptance_attests (st0 : kstate W) (s : tarako.system W) (es : list event)
    (trusted_root_ca : list Z) (verifier_host attester_host request : str) (n n' : N) (result : json)
    (digest pkb : list Z) (pk : key) :
  main trusted_root_ca verifier_host attester_host request n = (inr result, n') ->
  (forall files body, EVerify files body ∈ es ->
     load_appraisal_policy files = Some (digest, pkb, pk)) ->
  (forall body nonce id, EChallenge body nonce id ∈ es -> bytes_ok nonce) ->
  tarako.reachable st0 s -> user_log (world st0) = [] ->
  exists challenge envelope n1 fields,
    obtain_envelope verifier_host attester_host request n = (inr (JObj challenge, JObj envelope), n1) /\
    result = JObj fields /\ lookup (codes "accepted") fields = Some (JBool true) /\
    lookup (codes "request") fields = Some (JStr request) /\
    (not_served trusted_root_ca envelope es result \/
     exists body nonce id,
       lookup (codes "nonce") challenge = Some (JStr (Hex.encode nonce)) /\
       EChallenge body nonce id ∈ es /\
       lookup (codes "digest") fields = Some (JStr (Hex.encode digest)) /\
       let u := make_request_binding request nonce ++ replicate 96 0 in
       (attested st0 s digest u pkb \/
        (exists files evidence der, EVerify files evidence ∈ es /\ presents evidence der /\
           forged s pkb pk der (digest ++ u)) \/
        collides s (digest ++ u))).
Proof.
  intros Hm Hp Hc Hr H0.
  destruct (client_result _ _ _ _ _ _ _ es Hm)
    as (challenge & envelope & n1 & fields & Ho & -> & Ha & Hq & Hserved).
  exists challenge, envelope, n1, fields. split_and!; try done.
  destruct Hserved as [?|(res & sig & cn & Hin & Ed & Eq & Hn & En)]; [by left|right].
  destruct (serve_accepted es res sig Hin)
    as (es1 & files & body & t' & body' & nonce & rid & Hve & Hv & Hce & Ht & Enn).
  destruct (verify_sound _ _ _ _ _ _ Hv) as (ch & nonce' & digest' & pkb' & pk' & efields & quote & der &
    Ht' & _ & _ & _ & Hf & Hl & Edg & Eb & Etq & _ & _ & Eder & Hkv & _).
  rewrite Ht in Ht'. injection Ht' as <-. cbn [ch_nonce ch_request] in *.
  rewrite Hex.fromhex_encode in Hf by (by eapply Hc). injection Hf as <-.
  rewrite (Hp files body Hve) in Hl. injection Hl as <- <- <-.
  rewrite Enn in En. apply quoted_plain in En as ->; [|by eapply plain_hex, Hc].
  rewrite <- (binding_quoted _ _ _ Eq) in Hkv.
  exists body', nonce, rid. split_and!; [done | done | |].
  - destruct (result_field fields res (codes "digest") (q (res_digest res)) Ed)
      as (v & Ev & (t & -> & Et)%dumps_string); [apply (list_elem_of_lookup_2 _ 2); reflexivity|].
    rewrite Edg in Et. apply quoted_plain in Et as ->; [done|].
    apply plain_hex. exact (policy_digest_bytes _ _ _ _ (Hp files body Hve)).
  - destruct (signature_attested st0 s pkb pk der digest _ Hr H0 (proj1 (Sha256.sha256_wf _)) Hkv)
      as [?|[?|?]]; [by left | right; left | by right; right].
    exists files, body, der. split_and!; try done. by exists efields, quote.
Qed.
End EndToEnd.

(** ** The theorem on a run

    The run of [Security], seen by the client: the service issues the challenge,
    accepts the evidence and signs the result with its private key 7; keys of the
    package are private keys, as in [Attestation], and verify ECDSA signatures. *)
#[local] Existing Instances ToyKernel toy_Vli toy_Ecc toy_Curve toy_Ima toy_Verity toy_User
  toy_Ioctl toy_Misc attestation.toy_sha attestation.toy_memory ecdsa.toy_group.

#[local] Instance toy_keys : Cryptography Z := {|
  from_encoded_point := @from_encoded_point _ attestation.toy_crypto;
  key_verify := @key_verify _ attestation.toy_crypto;
  sign_result msg :=
    match ecdsa.sign_with PrimeCert.p256_order (be_value (Sha256.sha256 msg)) 7 13 (x_of 13) with
    | Some rs => Der.marshal rs
    | None => []
    end |}.

Definition toy_result : result_t :=
  match fst (verify (Some attestation.toy_policy) toy_evidence attestation.toy_table) with
  | Accepted res _ => res
  | _ => mkResult [] [] [] [] [] []
  end.

#[local] Instance toy_certificates : X509 unit Z := {|
  openssl_verify root pem := bool_decide (root = pem);
  load_pem_x509_certificate _ := Some tt;
  issuer _ := [1];
  subject _ := [1];
  public_key _ := Some 7 |}.

Definition toy_events : list event :=
  [EChallenge attestation.toy_body attestation.toy_nonce attestation.toy_id;
   EVerify (Some attestation.toy_policy) toy_evidence].

(** The answers that the client gets. *)
#[local] Instance toy_network : Network unit := fun _ _ path _ n =>
  (Some (mkHttp 200 (Some (JObj
    (if bool_decide (path = "/challenge"%string) then
       [(codes "challenge_id", JStr (Hex.encode attestation.toy_id));
        (codes "nonce", JStr (Hex.encode attestation.toy_nonce)); (codes "request", JStr (codes "hi"))]
     else if bool_decide (path = "/verify"%string) then
       [(codes "certificate", JStr (codes "CA")); (codes "result", result_json toy_result);
        (codes "signature", JStr (Hex.encode (sign_result (result_bytes toy_result))))]
     else [])))), n).

Lemma toy_main : main (codes "CA") [] [] (codes "hi") tt = (inr (result_json toy_result), tt).
Proof. vm_compute. reflexivity. Qed.

Lemma toy_served : fst (serve toy_events ∅) =
  [Challenged (Hex.encode attestation.toy_id) (Hex.encode attestation.toy_nonce) (codes "hi");
   Accepted toy_result (sign_result (result_bytes toy_result))].
Proof. vm_compute. reflexivity. Qed.

Lemma toy_is_served envelope : ~ not_served (codes "CA") envelope toy_events (result_json toy_result).
Proof.
  intros (c & k & sg & sig & _ & _ & _ & _ & _ & H).
  apply (H toy_result (sign_result (result_bytes toy_result))); [rewrite toy_served; right; left|].
  vm_compute. reflexivity.
Qed.

Lemma client_acceptance_attests_witness :
  exists result, main (codes "CA") [] [] (codes "hi") tt = (inr result, tt) /\
  exists fields, result = JObj fields /\
    lookup (codes "request") fields = Some (JStr (codes "hi")) /\
    lookup (codes "digest") fields = Some (JStr (Hex.encode (replicate 32 7))) /\
    attested tarako.toy_st toy_done (replicate 32 7)
      (make_request_binding (codes "hi") attestation.toy_nonce ++ replicate 96 0) (KeyPair.pubkey toy_kp).
Proof.
  exists (result_json toy_result). split; [exact toy_main|].
  destruct (client_acceptance_attests tarako.toy_st toy_done toy_events (codes "CA") [] [] (codes "hi")
    tt tt (result_json toy_result) (replicate 32 7) (KeyPair.pubkey toy_kp) 5 toy_main)
    as (challenge & envelope & n1 & fields & _ & Ef & _ & Hq & [Hno|(body & nonce & id & _ & Hin & Hd & Ha)]).
  - intros files body Hin. apply elem_of_cons in Hin as [[=]|Hin].
    apply list_elem_of_singleton in Hin. injection Hin as -> _. vm_compute. reflexivity.
  - intros body nonce id Hin. apply elem_of_cons in Hin as [E|Hin].
    + injection E as _ -> _. apply Forall_replicate. split; [discriminate|reflexivity].
    + apply list_elem_of_singleton in Hin. discriminate Hin.
  - exact toy_done_reachable.
  - reflexivity.
  - destruct (toy_is_served _ Hno).
  - exists fields. split; [exact Ef|]. split; [exact Hq|]. split; [exact Hd|].
    assert (nonce = attestation.toy_nonce) as ->.
    { apply elem_of_cons in Hin as [E|Hin]; [by injection E|].
      apply list_elem_of_singleton in Hin. discriminate Hin. }
    destruct Ha as [Ha|[(files & ev & der & _ & _ & Hf)|Hc]]; [exact Ha|..].
    + destruct (toy_not_forged 5 der Hf).
    + destruct (toy_no_collision Hc).
Defined.
End end_to_end.
