(* ===== verification/Protocol.v ===== *)
(** [formal-verification/tarako-attestation.pv]: the protocol in which a relying
    verifier appraises the platform once and then serves many requests under the
    established key, over a network that an attacker controls.

    The attacker derives messages from what was sent ([derives], [Split],
    [Open]); the roles are handlers that take a message the attacker can derive,
    record events and send an answer.  A handler runs from an input to the next
    one; an instance that gets a message it does not accept stays where it was,
    which gives the same sequences of events as one that stops.  The twelve
    queries of the model are boolean functions of a state.  The checks that
    [test-negative-models.py] removes one at a time are fields of a record. *)
From S2P Require Import Prelude.
From Stdlib Require Import Lia.
From stdpp Require Import base list numbers.
#[local] Open Scope nat_scope.

Module protocol.

(** ** Messages *)

Inductive key_name :=
  | tdx_attestation_key | tdx_verifier_key | ima_verifier_key | tarako_signing_key
  | relying_verifier_key.

Inductive constant :=
  | approved_ta_digest | unapproved_ta_digest | approved_tdx_measurement
  | approved_ima_policy_state | unapproved_ima_policy_state.

Inductive symbol1 :=
  | Public_key | Hash | Verification_request | Tdx_request | Tdx_appraisal_request | Ima_request
  | Tarako_request | Untrusted_tarako_request | Ima_key_entry | Rtmr_with_ima.
Inductive symbol2 :=
  | Sign | Session_context | Request_context | Ima_appraisal_request | Tarako_claim
  | Integrity_verdict | Ima_root.
Inductive symbol3 :=
  | Tdx_claim | Tdx_appraisal_answer | Ima_evidence | Ima_appraisal_answer.

Inductive term :=
  | Nonce (n : nat)
  | Const (c : constant)
  | Key (k : key_name)
  | T1 (f : symbol1) (a : term)
  | T2 (f : symbol2) (a b : term)
  | T3 (f : symbol3) (a b c : term).

#[global] Instance key_name_eq_dec : EqDecision key_name.
Proof. solve_decision. Defined.
#[global] Instance constant_eq_dec : EqDecision constant.
Proof. solve_decision. Defined.
#[global] Instance symbol1_eq_dec : EqDecision symbol1.
Proof. solve_decision. Defined.
#[global] Instance symbol2_eq_dec : EqDecision symbol2.
Proof. solve_decision. Defined.
#[global] Instance symbol3_eq_dec : EqDecision symbol3.
Proof. solve_decision. Defined.
#[global] Instance term_eq_dec : EqDecision term.
Proof. solve_decision. Defined.

(** The names of the model. *)
Abbreviation public_key := (T1 Public_key).
Abbreviation hash := (T1 Hash).
Abbreviation verification_request := (T1 Verification_request).
Abbreviation tdx_request := (T1 Tdx_request).
Abbreviation tdx_appraisal_request := (T1 Tdx_appraisal_request).
Abbreviation ima_request := (T1 Ima_request).
Abbreviation tarako_request := (T1 Tarako_request).
Abbreviation untrusted_tarako_request := (T1 Untrusted_tarako_request).
Abbreviation ima_key_entry := (T1 Ima_key_entry).
Abbreviation rtmr_with_ima := (T1 Rtmr_with_ima).
Abbreviation sign := (T2 Sign).
Abbreviation session_context := (T2 Session_context).
Abbreviation request_context := (T2 Request_context).
Abbreviation ima_appraisal_request := (T2 Ima_appraisal_request).
Abbreviation tarako_claim := (T2 Tarako_claim).
Abbreviation integrity_verdict := (T2 Integrity_verdict).
Abbreviation ima_root := (T2 Ima_root).
Abbreviation tdx_claim := (T3 Tdx_claim).
Abbreviation tdx_appraisal_answer := (T3 Tdx_appraisal_answer).
Abbreviation ima_evidence := (T3 Ima_evidence).
Abbreviation ima_appraisal_answer := (T3 Ima_appraisal_answer).

(** [verify(sign(message, key), public_key(key)) = message]. *)
Definition verify (t pk : term) : option term :=
  match t with
  | sign m k => if bool_decide (pk = public_key k) then Some m else None
  | _ => None
  end.

(** The [data] constructors, which anyone can take apart. *)
Definition data1 (f : symbol1) : bool :=
  match f with Public_key | Hash => false | _ => true end.
Definition data2 (f : symbol2) : bool :=
  match f with Sign | Ima_root => false | _ => true end.

(** ** Events *)

Inductive event :=
  | TdxQuoteIssued (challenge measurement rtmr : term)
  | TdxQuoteVerified (challenge measurement rtmr : term)
  | TdxAnswerIssued (answer_binding quote_binding challenge rtmr : term)
  | TdxAnswerAccepted (answer_binding quote_binding challenge rtmr : term)
  | ImaLogCommitted (root key : term)
  | ImaEvidenceVerified (tdx_binding root key : term)
  | ImaAnswerIssued (answer_binding tdx_binding evidence_binding key : term)
  | ImaAnswerAccepted (answer_binding tdx_binding evidence_binding key : term)
  | TarakoQuoteIssued (binding digest : term)
  | TarakoQuoteAccepted (cache binding digest : term)
  | IntegrityVerdictIssued (request digest : term)
  | ClientAcceptedIntegrity (request digest : term).

#[global] Instance event_eq_dec : EqDecision event.
Proof. solve_decision. Defined.

(** ** The checks of the roles *)

Inductive binding_kind := FreshBinding | StaticBinding | BindingWithoutNonce.

Record model := mkModel {
  published : list key_name;               (* keys declared without [private] *)
  tdx_service_checks_quote : bool;
  ima_service_checks_tdx_answer : bool;
  ima_service_compares_rtmr : bool;
  ima_service_searches_log : bool;
  verifier_checks_tdx_answer : bool;
  verifier_checks_ima_answer : bool;
  verifier_checks_tarako_quote : bool;
  verifier_binding : binding_kind;
  verifier_compares_binding : bool;
  verifier_compares_digest : bool;
  client_checks_verdict : bool }.

(** The model as it is written. *)
Definition tarako_attestation : model :=
  mkModel [] true true true true true true true FreshBinding true true true.

(** ** The state of a run *)

(** A relying verifier before its cache is established, and after. *)
Inductive phase :=
  | AwaitTdxQuote (tdx_challenge : term)
  | AwaitTdxAnswer (tdx_challenge received_tdx_quote : term)
  | AwaitImaEvidence (received_tdx_answer : term)
  | AwaitImaAnswer (received_tdx_answer received_ima_evidence : term)
  | Established (ima_answer_binding tarako_public_key : term).

(** An application request in progress. *)
Record request := mkRequest {
  cache : term;
  cached_key : term;
  client_request : term;
  request_binding : term }.

Record state := mkState {
  known : list term;           (* what was sent, or the attacker has derived *)
  trace : list event;          (* the latest event first *)
  fresh : nat;                 (* the next new name *)
  verifiers : list phase;
  requests : list request;
  clients : list term }.

Definition tak : term := public_key (Key tarako_signing_key).
Definition current_ima_root : term := ima_root tak (Const approved_ima_policy_state).
Definition current_rtmr : term := rtmr_with_ima current_ima_root.
Definition unapproved_ima_root : term := ima_root tak (Const unapproved_ima_policy_state).
Definition unapproved_rtmr : term := rtmr_with_ima unapproved_ima_root.

(** The table [ima_log] has the one entry that [process] inserts. *)
Definition ima_log : list (term * term) := [(current_ima_root, ima_key_entry tak)].

Definition public_constants : list term :=
  [Const approved_ta_digest; Const unapproved_ta_digest; Const approved_tdx_measurement;
   Const approved_ima_policy_state; Const unapproved_ima_policy_state].

Definition start (m : model) : state :=
  mkState (public_constants ++ map Key (published m)) [ImaLogCommitted current_ima_root tak]
    0 [] [] [].

(** ** The attacker *)

(** What can be composed: every function symbol is public. *)
Fixpoint derives (l : list term) (t : term) : bool :=
  bool_decide (t ∈ l) ||
  match t with
  | T1 _ a => derives l a
  | T2 _ a b => derives l a && derives l b
  | T3 _ a b c => derives l a && derives l b && derives l c
  | _ => false
  end.

(** What a message of a [data] constructor is made of. *)
Definition parts (t : term) : list term :=
  match t with
  | T1 f a => if data1 f then [a] else []
  | T2 f a b => if data2 f then [a; b] else []
  | T3 _ a b c => [a; b; c]
  | _ => []
  end.

Definition guard_ (b : bool) : option unit := if b then Some tt else None.

(** A handler takes a message from the network, records events, in their order,
    and sends messages. *)
Definition receive (t : term) (st : state) : option unit := guard_ (derives (known st) t).
Definition emit (events : list event) (sent : list term) (st : state) : state :=
  mkState (sent ++ known st) (reverse events ++ trace st) (fresh st) (verifiers st) (requests st)
    (clients st).

(** [new]. *)
Definition skip_names (n : nat) (st : state) : state :=
  mkState (known st) (trace st) (fresh st + n) (verifiers st) (requests st) (clients st).
Definition with_verifiers (l : list phase) (st : state) : state :=
  mkState (known st) (trace st) (fresh st) l (requests st) (clients st).
Definition with_requests (l : list request) (st : state) : state :=
  mkState (known st) (trace st) (fresh st) (verifiers st) l (clients st).
Definition with_clients (l : list term) (st : state) : state :=
  mkState (known st) (trace st) (fresh st) (verifiers st) (requests st) l.

Definition attacker_name (st : state) : option state :=
  Some (skip_names 1 (emit [] [Nonce (fresh st)] st)).
Definition attacker_split (t : term) (st : state) : option state :=
  _ ← receive t st; Some (emit [] (parts t) st).
Definition attacker_open (t pk : term) (st : state) : option state :=
  _ ← receive t st; _ ← receive pk st; m ← verify t pk; Some (emit [] [m] st).

(** ** The roles *)

(** A signed message, or the message itself where the check is left out. *)
Definition opened (check : bool) (t pk : term) : option term :=
  if check then verify t pk else Some t.

Definition TdxQuotingEntity (current_measurement current_rtmr challenge : term) (st : state)
    : option state :=
  _ ← receive (tdx_request challenge) st;
  Some (emit [TdxQuoteIssued challenge current_measurement current_rtmr]
    [sign (tdx_claim challenge current_measurement current_rtmr) (Key tdx_attestation_key)] st).

Definition TdxOpaqueVerifier (m : model) (received_quote : term) (st : state) : option state :=
  _ ← receive (tdx_appraisal_request received_quote) st;
  claim ← opened (tdx_service_checks_quote m) received_quote (public_key (Key tdx_attestation_key));
  match claim with
  | tdx_claim challenge measurement quoted_rtmr =>
      _ ← guard_ (bool_decide (measurement = Const approved_tdx_measurement));
      let quote_binding := hash received_quote in
      let signed_answer :=
        sign (tdx_appraisal_answer quote_binding challenge quoted_rtmr) (Key tdx_verifier_key) in
      Some (emit [TdxQuoteVerified challenge (Const approved_tdx_measurement) quoted_rtmr;
                  TdxAnswerIssued (hash signed_answer) quote_binding challenge quoted_rtmr]
              [signed_answer] st)
  | _ => None
  end.

Definition ImaLogEntity (current_root tarako_key tdx_answer_binding : term) (st : state)
    : option state :=
  _ ← receive (ima_request tdx_answer_binding) st;
  Some (emit [] [ima_evidence tdx_answer_binding current_root tarako_key] st).

Definition ImaOpaqueVerifier (m : model) (received_tdx_answer received_ima_evidence : term)
    (st : state) : option state :=
  _ ← receive (ima_appraisal_request received_tdx_answer received_ima_evidence) st;
  answer ← opened (ima_service_checks_tdx_answer m) received_tdx_answer
             (public_key (Key tdx_verifier_key));
  match answer, received_ima_evidence with
  | tdx_appraisal_answer _ _ quoted_rtmr, ima_evidence binding replayed_ima_root tarako_public_key =>
      let tdx_answer_binding := hash received_tdx_answer in
      _ ← guard_ (bool_decide (binding = tdx_answer_binding));
      _ ← guard_ (negb (ima_service_compares_rtmr m) ||
                  bool_decide (quoted_rtmr = rtmr_with_ima replayed_ima_root));
      _ ← guard_ (negb (ima_service_searches_log m) ||
                  bool_decide ((replayed_ima_root, ima_key_entry tarako_public_key) ∈ ima_log));
      let evidence_binding := hash received_ima_evidence in
      let signed_answer :=
        sign (ima_appraisal_answer tdx_answer_binding evidence_binding tarako_public_key)
          (Key ima_verifier_key) in
      Some (emit [ImaEvidenceVerified tdx_answer_binding replayed_ima_root tarako_public_key;
                  ImaAnswerIssued (hash signed_answer) tdx_answer_binding evidence_binding
                    tarako_public_key]
              [signed_answer] st)
  | _, _ => None
  end.

(** [TarakoEntity] and [UntrustedCaller] sign for their own digests. *)
Definition tarako_quote (digest binding : term) (st : state) : state :=
  emit [TarakoQuoteIssued binding digest]
    [sign (tarako_claim binding digest) (Key tarako_signing_key)] st.
Definition TarakoEntity (binding : term) (st : state) : option state :=
  _ ← receive (tarako_request binding) st; Some (tarako_quote (Const approved_ta_digest) binding st).
Definition UntrustedCaller (binding : term) (st : state) : option state :=
  _ ← receive (untrusted_tarako_request binding) st;
  Some (tarako_quote (Const unapproved_ta_digest) binding st).

(** [RelyingVerifier], from one input to the next. *)
Definition verifier_start (st : state) : option state :=
  let tdx_challenge := hash (session_context (Nonce (fresh st)) (Nonce (fresh st + 1))) in
  Some (with_verifiers (verifiers st ++ [AwaitTdxQuote tdx_challenge])
          (skip_names 2 (emit [] [tdx_request tdx_challenge] st))).

Definition verifier_tdx_quote (i : nat) (received_tdx_quote : term) (st : state) : option state :=
  _ ← receive received_tdx_quote st;
  ph ← verifiers st !! i;
  match ph with
  | AwaitTdxQuote tdx_challenge =>
      Some (with_verifiers (<[i := AwaitTdxAnswer tdx_challenge received_tdx_quote]> (verifiers st))
              (emit [] [tdx_appraisal_request received_tdx_quote] st))
  | _ => None
  end.

Definition verifier_tdx_answer (m : model) (i : nat) (received_tdx_answer : term) (st : state)
    : option state :=
  _ ← receive received_tdx_answer st;
  ph ← verifiers st !! i;
  match ph with
  | AwaitTdxAnswer tdx_challenge received_tdx_quote =>
      answer ← opened (verifier_checks_tdx_answer m) received_tdx_answer
                 (public_key (Key tdx_verifier_key));
      match answer with
      | tdx_appraisal_answer quote_binding challenge quoted_rtmr =>
          _ ← guard_ (bool_decide (quote_binding = hash received_tdx_quote));
          _ ← guard_ (bool_decide (challenge = tdx_challenge));
          let tdx_answer_binding := hash received_tdx_answer in
          Some (with_verifiers (<[i := AwaitImaEvidence received_tdx_answer]> (verifiers st))
                  (emit [TdxAnswerAccepted tdx_answer_binding (hash received_tdx_quote)
                           tdx_challenge quoted_rtmr]
                     [ima_request tdx_answer_binding] st))
      | _ => None
      end
  | _ => None
  end.

Definition verifier_ima_evidence (i : nat) (received_ima_evidence : term) (st : state)
    : option state :=
  _ ← receive received_ima_evidence st;
  ph ← verifiers st !! i;
  match ph with
  | AwaitImaEvidence received_tdx_answer =>
      Some (with_verifiers
              (<[i := AwaitImaAnswer received_tdx_answer received_ima_evidence]> (verifiers st))
              (emit [] [ima_appraisal_request received_tdx_answer received_ima_evidence] st))
  | _ => None
  end.

Definition verifier_ima_answer (m : model) (i : nat) (received_ima_answer : term) (st : state)
    : option state :=
  _ ← receive received_ima_answer st;
  ph ← verifiers st !! i;
  match ph with
  | AwaitImaAnswer received_tdx_answer received_ima_evidence =>
      answer ← opened (verifier_checks_ima_answer m) received_ima_answer
                 (public_key (Key ima_verifier_key));
      match answer with
      | ima_appraisal_answer tdx_binding evidence_binding tarako_public_key =>
          let tdx_answer_binding := hash received_tdx_answer in
          _ ← guard_ (bool_decide (tdx_binding = tdx_answer_binding));
          _ ← guard_ (bool_decide (evidence_binding = hash received_ima_evidence));
          let ima_answer_binding := hash received_ima_answer in
          Some (with_verifiers (<[i := Established ima_answer_binding tarako_public_key]> (verifiers st))
                  (emit [ImaAnswerAccepted ima_answer_binding tdx_answer_binding
                           (hash received_ima_evidence) tarako_public_key] [] st))
      | _ => None
      end
  | _ => None
  end.

(** A request under the established cache; the handler is replicated. *)
Definition verifier_request (m : model) (i : nat) (r : term) (st : state) : option state :=
  _ ← receive (verification_request r) st;
  ph ← verifiers st !! i;
  match ph with
  | Established ima_answer_binding tarako_public_key =>
      let binding :=
        match verifier_binding m with
        | FreshBinding => hash (request_context r (Nonce (fresh st)))
        | StaticBinding => ima_answer_binding
        | BindingWithoutNonce => hash (verification_request r)
        end in
      Some (with_requests
              (requests st ++ [mkRequest ima_answer_binding tarako_public_key r binding])
              (skip_names 1 (emit [] [tarako_request binding] st)))
  | _ => None
  end.

Definition verifier_tarako_quote (m : model) (j : nat) (received_tarako_quote : term) (st : state)
    : option state :=
  _ ← receive received_tarako_quote st;
  q ← requests st !! j;
  claim ← opened (verifier_checks_tarako_quote m) received_tarako_quote (cached_key q);
  match claim with
  | tarako_claim binding measured_ta_digest =>
      _ ← guard_ (negb (verifier_compares_binding m) || bool_decide (binding = request_binding q));
      _ ← guard_ (negb (verifier_compares_digest m) ||
                  bool_decide (measured_ta_digest = Const approved_ta_digest));
      Some (with_requests (delete j (requests st))
              (emit [TarakoQuoteAccepted (cache q) (request_binding q) measured_ta_digest;
                     IntegrityVerdictIssued (client_request q) measured_ta_digest]
                 [sign (integrity_verdict (client_request q) measured_ta_digest)
                    (Key relying_verifier_key)] st))
  | _ => None
  end.

Definition client_start (st : state) : option state :=
  let r := Nonce (fresh st) in
  Some (with_clients (clients st ++ [r]) (skip_names 1 (emit [] [verification_request r] st))).

Definition client_verdict (m : model) (j : nat) (received_verdict : term) (st : state) : option state :=
  _ ← receive received_verdict st;
  r ← clients st !! j;
  verdict ← opened (client_checks_verdict m) received_verdict (public_key (Key relying_verifier_key));
  match verdict with
  | integrity_verdict r' measured_ta_digest =>
      _ ← guard_ (bool_decide (r' = r));
      Some (with_clients (delete j (clients st)) (emit [ClientAcceptedIntegrity r measured_ta_digest] [] st))
  | _ => None
  end.

(** ** Runs *)

Inductive action :=
  | AttackerName
  | Split (t : term)
  | Open (t pk : term)
  | TdxQuote (rtmr : term) (challenge : term)
  | TdxAppraisal (quote : term)
  | ImaLog (tdx_answer_binding : term)
  | ImaAppraisal (tdx_answer evidence : term)
  | Tarako (binding : term)
  | Untrusted (binding : term)
  | VerifierStart
  | VerifierTdxQuote (i : nat) (quote : term)
  | VerifierTdxAnswer (i : nat) (answer : term)
  | VerifierImaEvidence (i : nat) (evidence : term)
  | VerifierImaAnswer (i : nat) (answer : term)
  | VerifierRequest (i : nat) (r : term)
  | VerifierTarakoQuote (j : nat) (quote : term)
  | ClientStart
  | ClientVerdict (j : nat) (verdict : term).

(** One step of [process]: the roles run in parallel, each any number of times;
    there are two quoting entities, with the two measurements. *)
Definition act (m : model) (a : action) (st : state) : option state :=
  match a with
  | AttackerName => attacker_name st
  | Split t => attacker_split t st
  | Open t pk => attacker_open t pk st
  | TdxQuote rtmr challenge =>
      _ ← guard_ (bool_decide (rtmr ∈ [current_rtmr; unapproved_rtmr]));
      TdxQuotingEntity (Const approved_tdx_measurement) rtmr challenge st
  | TdxAppraisal quote => TdxOpaqueVerifier m quote st
  | ImaLog binding => ImaLogEntity current_ima_root tak binding st
  | ImaAppraisal answer evidence => ImaOpaqueVerifier m answer evidence st
  | Tarako binding => TarakoEntity binding st
  | Untrusted binding => UntrustedCaller binding st
  | VerifierStart => verifier_start st
  | VerifierTdxQuote i quote => verifier_tdx_quote i quote st
  | VerifierTdxAnswer i answer => verifier_tdx_answer m i answer st
  | VerifierImaEvidence i evidence => verifier_ima_evidence i evidence st
  | VerifierImaAnswer i answer => verifier_ima_answer m i answer st
  | VerifierRequest i r => verifier_request m i r st
  | VerifierTarakoQuote j quote => verifier_tarako_quote m j quote st
  | ClientStart => client_start st
  | ClientVerdict j verdict => client_verdict m j verdict st
  end.

Fixpoint run (m : model) (actions : list action) (st : state) : option state :=
  match actions with
  | [] => Some st
  | a :: actions => act m a st ≫= run m actions
  end.

Inductive reachable (m : model) : state -> Prop :=
  | reachable_start : reachable m (start m)
  | reachable_act st a st' : reachable m st -> act m a st = Some st' -> reachable m st'.

(** ** The queries *)

Inductive query :=
  | TdxQuoteOrigin | TdxAnswerOrigin | ImaCommitted | ImaMatchesTdx | ImaAnswerOrigin
  | TarakoQuoteOrigin | TarakoCacheOrigin | TarakoQuoteInjective | VerdictOrigin
  | AcceptedDigest | TdxKeySecret | TarakoKeySecret.

(** Every event of the trace, with the events before it. *)
Fixpoint always (f : event -> list event -> bool) (tr : list event) : bool :=
  match tr with [] => true | e :: tr => f e tr && always f tr end.

Definition occurrences (p : event -> bool) (tr : list event) : nat := length (filter p tr).
Definition accepts (binding digest : term) (e : event) : bool :=
  match e with
  | TarakoQuoteAccepted _ b d => bool_decide (b = binding) && bool_decide (d = digest)
  | _ => false
  end.
Definition issues (binding digest : term) (e : event) : bool :=
  bool_decide (e = TarakoQuoteIssued binding digest).

(** An injective correspondence: whenever a quote is accepted, the quotes for
    the same binding and digest that were issued before are at least as many as
    those accepted until then, this one included. *)
Definition holds (q : query) (st : state) : bool :=
  match q with
  | TdxQuoteOrigin => always (fun e tr => match e with
      | TdxQuoteVerified c m r => bool_decide (TdxQuoteIssued c m r ∈ tr) | _ => true end) (trace st)
  | TdxAnswerOrigin => always (fun e tr => match e with
      | TdxAnswerAccepted a q c r => bool_decide (TdxAnswerIssued a q c r ∈ tr) | _ => true end) (trace st)
  | ImaCommitted => always (fun e tr => match e with
      | ImaEvidenceVerified _ root k => bool_decide (ImaLogCommitted root k ∈ tr) | _ => true end) (trace st)
  | ImaMatchesTdx => always (fun e tr => match e with
      | ImaEvidenceVerified b root _ => existsb (fun e' => match e' with
          | TdxAnswerIssued b' _ _ r => bool_decide (b' = b) && bool_decide (r = rtmr_with_ima root)
          | _ => false end) tr
      | _ => true end) (trace st)
  | ImaAnswerOrigin => always (fun e tr => match e with
      | ImaAnswerAccepted a t e k => bool_decide (ImaAnswerIssued a t e k ∈ tr) | _ => true end) (trace st)
  | TarakoQuoteOrigin => always (fun e tr => match e with
      | TarakoQuoteAccepted _ b d => bool_decide (TarakoQuoteIssued b d ∈ tr) | _ => true end) (trace st)
  | TarakoCacheOrigin => always (fun e tr => match e with
      | TarakoQuoteAccepted c _ _ => existsb (fun e' => match e' with
          | ImaAnswerIssued c' _ _ _ => bool_decide (c' = c) | _ => false end) tr
      | _ => true end) (trace st)
  | TarakoQuoteInjective => always (fun e tr => match e with
      | TarakoQuoteAccepted _ b d =>
          (occurrences (accepts b d) (e :: tr) <=? occurrences (issues b d) tr)%nat
      | _ => true end) (trace st)
  | VerdictOrigin => always (fun e tr => match e with
      | ClientAcceptedIntegrity r d => bool_decide (IntegrityVerdictIssued r d ∈ tr) | _ => true end)
      (trace st)
  | AcceptedDigest => always (fun e _ => match e with
      | ClientAcceptedIntegrity _ d => bool_decide (d = Const approved_ta_digest) | _ => true end)
      (trace st)
  | TdxKeySecret => negb (derives (known st) (Key tdx_attestation_key))
  | TarakoKeySecret => negb (derives (known st) (Key tarako_signing_key))
  end.
End protocol.
