(* ===== verification/ProtocolSafety.v ===== *)
(** The queries of the protocol hold in every run.

    The invariant says what a message that the attacker knows can contain: no
    private key, and under a private key only what its owner has signed, with
    the event that it records when it signs ([safe], [issued]).  It says that an
    established cache holds the module's key and comes from an answer of the IMA
    service, and that the bindings of the requests, in progress and accepted, are
    pairwise different. *)
From S2P Require Import Prelude Protocol.
From Stdlib Require Import Lia.
From stdpp Require Import base numbers gmap list.
#[local] Open Scope nat_scope.

Module protocol_safety.
Import protocol.

(** ** What the owner of a key signs *)

Definition issued (tr : list event) (k : key_name) (m : term) : Prop :=
  match k with
  | tdx_attestation_key => exists c me r, m = tdx_claim c me r /\ TdxQuoteIssued c me r ∈ tr
  | tdx_verifier_key => exists q c r, m = tdx_appraisal_answer q c r /\
      TdxAnswerIssued (hash (sign m (Key tdx_verifier_key))) q c r ∈ tr
  | ima_verifier_key => exists t e, m = ima_appraisal_answer t e tak /\
      ImaAnswerIssued (hash (sign m (Key ima_verifier_key))) t e tak ∈ tr
  | tarako_signing_key => exists b d, m = tarako_claim b d /\ TarakoQuoteIssued b d ∈ tr
  | relying_verifier_key => exists r, m = integrity_verdict r (Const approved_ta_digest) /\
      IntegrityVerdictIssued r (Const approved_ta_digest) ∈ tr
  end.

Fixpoint safe (tr : list event) (t : term) : Prop :=
  match t with
  | Nonce _ | Const _ | public_key _ => True
  | Key _ => False
  | sign m k => safe tr m /\ match k with Key k => issued tr k m | _ => safe tr k end
  | T1 _ a => safe tr a
  | T2 _ a b => safe tr a /\ safe tr b
  | T3 _ a b c => safe tr a /\ safe tr b /\ safe tr c
  end.

Lemma issued_mono tr tr' k m : tr ⊆ tr' -> issued tr k m -> issued tr' k m.
Proof. intros Hs. destruct k; simpl; naive_solver. Qed.

Lemma safe_mono tr tr' t : tr ⊆ tr' -> safe tr t -> safe tr' t.
Proof.
  intros Hs. induction t as [| | |[] a IHa|[] a IHa b IHb|f a IHa b IHb c IHc]; simpl; try naive_solver.
  destruct b; naive_solver eauto using issued_mono.
Qed.

(** What the attacker composes is safe when what it knows is. *)
Lemma derives_safe tr l t : Forall (safe tr) l -> derives l t = true -> safe tr t.
Proof.
  intros Hl. rewrite Forall_forall in Hl.
  induction t as [| | |f a IHa|f a IHa b IHb|f a IHa b IHb c IHc]; cbn [derives];
    intros [H%bool_decide_eq_true|H]%orb_true_iff; try done; try (by apply (Hl _ H)).
  - destruct f; simpl; auto.
  - apply andb_true_iff in H as [Ha%IHa Hb%IHb]. destruct f; simpl; auto. split; [done|]. by destruct b.
  - apply andb_true_iff in H as [[Ha%IHa Hb%IHb]%andb_true_iff Hc%IHc]. by simpl.
Qed.

Lemma parts_safe tr t : safe tr t -> Forall (safe tr) (parts t).
Proof. destruct t as [| | |[] a|[] a b|f a b c]; simpl; repeat constructor; naive_solver. Qed.

Lemma verify_inv t pk m : verify t pk = Some m -> exists k, t = sign m k /\ pk = public_key k.
Proof.
  unfold verify. intros H. repeat case_match; simplify_eq.
  match goal with E : bool_decide _ = true |- _ => apply bool_decide_eq_true in E end. eauto.
Qed.

Lemma verify_safe tr t pk m : safe tr t -> verify t pk = Some m -> safe tr m.
Proof. intros Hs (k & -> & _)%verify_inv. by destruct Hs. Qed.

(** A message that verifies under the public key of a private key was signed by
    its owner. *)
Lemma verify_issued tr t k m :
  safe tr t -> verify t (public_key (Key k)) = Some m -> t = sign m (Key k) /\ issued tr k m.
Proof. intros Hs (k' & -> & [= <-])%verify_inv. by destruct Hs. Qed.

(** ** The invariant *)

(** What an event says about the events before it. *)
Definition justified (e : event) (tr : list event) : Prop :=
  match e with
  | TdxQuoteVerified c m r => TdxQuoteIssued c m r ∈ tr
  | TdxAnswerAccepted a q c r => TdxAnswerIssued a q c r ∈ tr
  | ImaEvidenceVerified b root k => ImaLogCommitted root k ∈ tr /\
      exists q c, TdxAnswerIssued b q c (rtmr_with_ima root) ∈ tr
  | ImaAnswerAccepted a t e k => ImaAnswerIssued a t e k ∈ tr
  | TarakoQuoteAccepted c b d => TarakoQuoteIssued b d ∈ tr /\
      exists t e, ImaAnswerIssued c t e tak ∈ tr
  | ClientAcceptedIntegrity r d => IntegrityVerdictIssued r d ∈ tr /\ d = Const approved_ta_digest
  | _ => True
  end.

Fixpoint all_justified (tr : list event) : Prop :=
  match tr with [] => True | e :: tr => justified e tr /\ all_justified tr end.

(** The cache of a verifier. *)
Definition cache_ok (tr : list event) (c k : term) : Prop :=
  k = tak /\ exists t e, ImaAnswerIssued c t e tak ∈ tr.

Definition phase_ok (tr : list event) (ph : phase) : Prop :=
  match ph with
  | AwaitImaEvidence a | AwaitImaAnswer a _ => safe tr a
  | Established c k => cache_ok tr c k
  | _ => True
  end.

Definition request_ok (tr : list event) (q : request) : Prop :=
  cache_ok tr (cache q) (cached_key q) /\ safe tr (client_request q).

(** The bindings that were accepted, and those of all requests. *)
Definition accepted (tr : list event) : list term :=
  omap (fun e => match e with TarakoQuoteAccepted _ b _ => Some b | _ => None end) tr.
Definition bindings (st : state) : list term :=
  map request_binding (requests st) ++ accepted (trace st).
Definition fresh_binding (n : nat) (b : term) : Prop :=
  exists r i, b = hash (request_context r (Nonce i)) /\ i < n.

Record inv (st : state) : Prop := mkInv {
  inv_known : Forall (safe (trace st)) (known st);
  inv_trace : all_justified (trace st);
  inv_log : ImaLogCommitted current_ima_root tak ∈ trace st;
  inv_verifiers : Forall (phase_ok (trace st)) (verifiers st);
  inv_requests : Forall (request_ok (trace st)) (requests st);
  inv_distinct : NoDup (bindings st);
  inv_fresh : Forall (fresh_binding (fresh st)) (bindings st) }.

Lemma cache_ok_mono tr tr' c k : tr ⊆ tr' -> cache_ok tr c k -> cache_ok tr' c k.
Proof. intros Hs [-> (t & e & H)]. split; [done|]. exists t, e. by apply Hs. Qed.
Lemma phase_ok_mono tr tr' ph : tr ⊆ tr' -> phase_ok tr ph -> phase_ok tr' ph.
Proof. intros Hs. destruct ph; simpl; eauto using safe_mono, cache_ok_mono. Qed.
Lemma request_ok_mono tr tr' q : tr ⊆ tr' -> request_ok tr q -> request_ok tr' q.
Proof. intros Hs [H1 H2]. split; eauto using safe_mono, cache_ok_mono. Qed.

Lemma received_safe st t : inv st -> derives (known st) t = true -> safe (trace st) t.
Proof. intros Hi. apply derives_safe, Hi. Qed.

(** ** Changes of the state *)

Lemma accepted_app tr tr' : accepted (tr ++ tr') = accepted tr ++ accepted tr'.
Proof. apply omap_app. Qed.

Lemma fresh_binding_mono n n' b : n <= n' -> fresh_binding n b -> fresh_binding n' b.
Proof. intros Hn (r & i & -> & Hi). exists r, i. split; [done|lia]. Qed.

(** Events and messages, when no quote is accepted. *)
Lemma inv_emit es ts st : inv st -> accepted es = [] -> all_justified (reverse es ++ trace st) ->
  Forall (safe (reverse es ++ trace st)) ts -> inv (emit es ts st).
Proof.
  intros [H1 H2 H3 H4 H5 H6 H7] Ha Hj Hs.
  assert (trace st ⊆ reverse es ++ trace st) as Hsub by set_solver.
  assert (accepted (reverse es) = []) as Ha'.
  { unfold accepted in *. rewrite <- (reverse_involutive es) in Ha. revert Ha.
    generalize (reverse es). intros l. induction l as [|e l IH]; [done|].
    rewrite reverse_cons, omap_app, app_nil. intros [Hl He]. simpl in *.
    destruct e; simpl in *; try discriminate; by apply IH. }
  split; cbn [emit known trace fresh verifiers requests]; try done.
  - apply Forall_app. split; [done|]. eauto using Forall_impl, safe_mono.
  - by apply Hsub.
  - eauto using Forall_impl, phase_ok_mono.
  - eauto using Forall_impl, request_ok_mono.
  - unfold bindings in *. simpl. by rewrite accepted_app, Ha'.
  - unfold bindings in *. simpl. by rewrite accepted_app, Ha'.
Qed.

Lemma inv_skip n st : inv st -> inv (skip_names n st).
Proof.
  intros [H1 H2 H3 H4 H5 H6 H7]. split; try done. simpl.
  eapply Forall_impl; [exact H7|]. intros b. apply fresh_binding_mono. lia.
Qed.

Lemma inv_with_verifiers l st : inv st -> Forall (phase_ok (trace st)) l -> inv (with_verifiers l st).
Proof. intros [H1 H2 H3 H4 H5 H6 H7] Hl. by split. Qed.

Lemma inv_with_clients l st : inv st -> inv (with_clients l st).
Proof. intros [H1 H2 H3 H4 H5 H6 H7]. by split. Qed.

(** A verifier goes on. *)
Lemma inv_set_verifier i ph st :
  inv st -> phase_ok (trace st) ph -> inv (with_verifiers (<[i := ph]> (verifiers st)) st).
Proof. intros Hi Hp. apply inv_with_verifiers; [done|]. apply Forall_insert; [apply Hi | done]. Qed.

(** A new request, with a binding of its own. *)
Lemma inv_new_request q st : inv st -> request_ok (trace st) q ->
  request_binding q = hash (request_context (client_request q) (Nonce (fresh st))) ->
  inv (with_requests (requests st ++ [q]) (skip_names 1 st)).
Proof.
  intros [H1 H2 H3 H4 H5 H6 H7] Hq Eb.
  assert (bindings (with_requests (requests st ++ [q]) (skip_names 1 st)) ≡ₚ
          request_binding q :: bindings st) as Hp.
  { unfold bindings. simpl. rewrite map_app. simpl. rewrite <- app_assoc. symmetry. apply Permutation_middle. }
  split; try done; simpl.
  - apply Forall_app. split; [done|]. by apply Forall_singleton.
  - rewrite Hp. constructor; [|done]. intros Hin. rewrite Forall_forall in H7.
    destruct (H7 _ Hin) as (r & i & E & Hi). rewrite Eb in E. simplify_eq. lia.
  - rewrite Hp. constructor.
    + rewrite Eb. eexists _, _. split; [done|lia].
    + eapply Forall_impl; [exact H7|]. intros b. apply fresh_binding_mono. lia.
Qed.

(** A request whose quote is accepted. *)
Lemma inv_accept j q d st : inv st -> requests st !! j = Some q ->
  TarakoQuoteIssued (request_binding q) d ∈ trace st -> d = Const approved_ta_digest ->
  inv (with_requests (delete j (requests st))
         (emit [TarakoQuoteAccepted (cache q) (request_binding q) d;
                IntegrityVerdictIssued (client_request q) d]
            [sign (integrity_verdict (client_request q) d) (Key relying_verifier_key)] st)).
Proof.
  intros [H1 H2 H3 H4 H5 H6 H7] Hj Hi ->.
  set (es := [_; _]). assert (trace st ⊆ reverse es ++ trace st) as Hsub by set_solver.
  assert (request_ok (trace st) q) as [[Hk Hc] Hs] by (rewrite Forall_forall in H5; by eapply H5, list_elem_of_lookup_2).
  assert (bindings (with_requests (delete j (requests st)) (emit es
    [sign (integrity_verdict (client_request q) (Const approved_ta_digest)) (Key relying_verifier_key)] st))
    ≡ₚ bindings st) as Hp.
  { unfold bindings. simpl.
    pose proof (Permutation_map request_binding (delete_Permutation _ _ _ Hj)) as Hd. rewrite Hd.
    simpl. symmetry. apply Permutation_middle. }
  split; cbn [with_requests emit known trace fresh verifiers requests]; try done.
  - constructor; [|eauto using Forall_impl, safe_mono]. split; [split; [by eapply safe_mono|done]|].
    exists (client_request q). split; [done|]. unfold es, reverse. simpl. left.
  - by apply Hsub.
  - eauto using Forall_impl, phase_ok_mono.
  - apply Forall_delete. eauto using Forall_impl, request_ok_mono.
  - by rewrite Hp.
  - by rewrite Hp.
Qed.

(** ** Every step keeps the invariant *)

Lemma guard_inv b u : guard_ b = Some u -> b = true.
Proof. by destruct b. Qed.

(** Takes a handler that has returned apart. *)
Ltac handled H :=
  repeat first
    [ apply bind_Some in H as (? & ? & H)
    | match goal with
      | E : guard_ _ = Some _ |- _ => apply guard_inv in E
      | E : receive _ _ = Some _ |- _ => apply guard_inv in E
      | E : bool_decide _ = true |- _ => apply bool_decide_eq_true in E
      | E : opened _ ?t ?pk = Some ?m |- _ => change (verify t pk = Some m) in E
      | E : negb _ || ?b = true |- _ => change (b = true) in E
      | E : match ?t with _ => _ end = Some _ |- _ => is_var t; destruct t; try discriminate E
      end ]; simplify_eq.

(** A step that only sends. *)
Lemma inv_send ts st : inv st -> Forall (safe (trace st)) ts -> inv (emit [] ts st).
Proof. intros Hi Hs. apply inv_emit; try done. apply Hi. Qed.

(** One event, or two, that do not accept a quote. *)
Lemma inv_emit1 e ts st : inv st -> accepted [e] = [] -> justified e (trace st) ->
  Forall (safe (e :: trace st)) ts -> inv (emit [e] ts st).
Proof. intros Hi Ha Hj Hs. apply inv_emit; try done. split; [done|apply Hi]. Qed.

Lemma inv_emit2 e1 e2 ts st : inv st -> accepted [e1; e2] = [] -> justified e1 (trace st) ->
  justified e2 (e1 :: trace st) -> Forall (safe (e2 :: e1 :: trace st)) ts ->
  inv (emit [e1; e2] ts st).
Proof. intros Hi Ha H1 H2 Hs. apply inv_emit; try done. split; [done|]. split; [done|apply Hi]. Qed.

Lemma safe_cons e tr t : safe tr t -> safe (e :: tr) t.
Proof. apply safe_mono. set_solver. Qed.

(** A message that a role has checked. *)
Lemma checked_issued tr k t m : safe tr t -> verify t (public_key (Key k)) = Some m ->
  safe tr m /\ t = sign m (Key k) /\ issued tr k m.
Proof. intros Hs H. split; [by eapply verify_safe|]. by apply verify_issued. Qed.

Tactic Notation "checked" "as" simple_intropattern(p) :=
  match goal with
  | Ht : safe _ ?t, E : verify ?t _ = Some _ |- _ => destruct (checked_issued _ _ _ _ Ht E) as p
  end.

Tactic Notation "received" "as" simple_intropattern(p) :=
  match goal with
  | Hi : inv ?st, E : derives (known ?st) _ = true |- _ => pose proof (received_safe st _ Hi E) as p
  end.

Section Steps.
Context (st st' : state) (Hi : inv st).

Lemma attacker_inv a : a = AttackerName \/ (exists t, a = Split t) \/ (exists t pk, a = Open t pk) ->
  act tarako_attestation a st = Some st' -> inv st'.
Proof using Hi.
  intros [->|[[t ->]|(t & pk & ->)]] H; cbn [act] in H; unfold attacker_name, attacker_split, attacker_open in H;
    handled H; try apply inv_skip; (apply inv_send; [done|]).
  - by apply Forall_singleton.
  - by apply parts_safe, received_safe.
  - apply Forall_singleton. apply (verify_safe _ t pk); [by apply received_safe|done].
Qed.

Lemma tdx_quote_inv r c : act tarako_attestation (TdxQuote r c) st = Some st' -> inv st'.
Proof using Hi.
  intros H; cbn [act] in H; unfold TdxQuotingEntity in H; handled H.
  apply inv_emit1; try done. apply Forall_singleton.
  assert (safe (trace st) c) as Hc%(safe_cons (TdxQuoteIssued c (Const approved_tdx_measurement) r))
    by (by apply (received_safe st (tdx_request c))).
  assert (forall tr, safe tr r) as Hr by (intros tr; set_unfold; naive_solver).
  split; [by split_and!|]. eexists _, _, _. split; [done|left].
Qed.

Lemma tdx_appraisal_inv q : act tarako_attestation (TdxAppraisal q) st = Some st' -> inv st'.
Proof using Hi.
  intros H; cbn [act] in H; unfold TdxOpaqueVerifier in H; handled H.
  assert (safe (trace st) q) as Hq by (by apply (received_safe st (tdx_appraisal_request q))).
  checked as (Hs & Eq & Hc). destruct Hc as (c & me & r & [= <- <- <-] & Hin). destruct Hs as (Hsc & _ & Hsr).
  apply inv_emit2; try done. apply Forall_singleton.
  split; [split_and!; by repeat apply safe_cons|]. eexists _, _, _. split; [done|left].
Qed.

Lemma ima_log_inv b : act tarako_attestation (ImaLog b) st = Some st' -> inv st'.
Proof using Hi.
  intros H; cbn [act] in H; unfold ImaLogEntity in H; handled H.
  apply inv_send; [done|]. apply Forall_singleton.
  split; [by apply (received_safe st (ima_request b))|done].
Qed.

Lemma ima_appraisal_inv t e : act tarako_attestation (ImaAppraisal t e) st = Some st' -> inv st'.
Proof using Hi.
  intros H; cbn [act] in H; unfold ImaOpaqueVerifier in H; handled H.
  received as [Ht He]. checked as (Hs & Eq & (q & c & r & E & Hin)).
  match goal with E : _ ∈ ima_log |- _ => apply list_elem_of_singleton in E end. simplify_eq.
  apply inv_emit2; try done.
  - split; [apply Hi|]. by exists q, c.
  - apply Forall_singleton. split; [|eexists _, _; split; [done|left]].
    split_and!; [by repeat apply safe_cons..|done].
Qed.

Lemma tarako_inv b : act tarako_attestation (Tarako b) st = Some st' -> inv st'.
Proof using Hi.
  intros H; cbn [act] in H; unfold TarakoEntity in H; handled H.
  apply inv_emit1; try done. apply Forall_singleton.
  split; [split; [by apply safe_cons, (received_safe st (tarako_request b))|done]|].
  eexists _, _. split; [done|left].
Qed.

Lemma untrusted_inv b : act tarako_attestation (Untrusted b) st = Some st' -> inv st'.
Proof using Hi.
  intros H; cbn [act] in H; unfold UntrustedCaller in H; handled H.
  apply inv_emit1; try done. apply Forall_singleton.
  split; [split; [by apply safe_cons, (received_safe st (untrusted_tarako_request b))|done]|].
  eexists _, _. split; [done|left].
Qed.

Lemma verifier_phase i ph : verifiers st !! i = Some ph -> phase_ok (trace st) ph.
Proof using Hi.
  intros Hph. pose proof (inv_verifiers _ Hi) as Hv. rewrite Forall_forall in Hv.
  by eapply Hv, list_elem_of_lookup_2.
Qed.

Lemma verifier_start_inv : act tarako_attestation VerifierStart st = Some st' -> inv st'.
Proof using Hi.
  intros [= <-]. apply inv_with_verifiers.
  - apply inv_skip, inv_send; [done|]. by apply Forall_singleton.
  - apply Forall_app. split; [apply Hi|]. by apply Forall_singleton.
Qed.

Lemma verifier_tdx_quote_inv i q : act tarako_attestation (VerifierTdxQuote i q) st = Some st' -> inv st'.
Proof using Hi.
  intros H; cbn [act] in H; unfold verifier_tdx_quote in H; handled H. received as Hq.
  apply (inv_set_verifier i _ (emit [] _ st)); [|done]. apply inv_send; [done|]. by apply Forall_singleton.
Qed.

Lemma verifier_tdx_answer_inv i a : act tarako_attestation (VerifierTdxAnswer i a) st = Some st' -> inv st'.
Proof using Hi.
  intros H; cbn [act] in H; unfold verifier_tdx_answer in H; handled H. received as Ha.
  checked as (Hs & Eq & (q & c & r & E & Hin)). simplify_eq.
  apply (inv_set_verifier i _ (emit [_] _ st)); [|by apply safe_cons].
  apply inv_emit1; try done. apply Forall_singleton. by apply safe_cons.
Qed.

Lemma verifier_ima_evidence_inv i e :
  act tarako_attestation (VerifierImaEvidence i e) st = Some st' -> inv st'.
Proof using Hi.
  intros H; cbn [act] in H; unfold verifier_ima_evidence in H; handled H. received as He.
  pose proof (verifier_phase i _ ltac:(eassumption)) as Ha.
  apply (inv_set_verifier i _ (emit [] _ st)); [|done]. apply inv_send; [done|]. by apply Forall_singleton.
Qed.

Lemma verifier_ima_answer_inv i a : act tarako_attestation (VerifierImaAnswer i a) st = Some st' -> inv st'.
Proof using Hi.
  intros H; cbn [act] in H; unfold verifier_ima_answer in H; handled H. received as Ha.
  checked as (Hs & Eq & (t & e & E & Hin)). simplify_eq.
  apply (inv_set_verifier i _ (emit [_] _ st)).
  - by apply inv_emit1.
  - split; [done|]. eexists _, _. right. exact Hin.
Qed.

Lemma verifier_request_inv i r : act tarako_attestation (VerifierRequest i r) st = Some st' -> inv st'.
Proof using Hi.
  intros H; cbn [act] in H; unfold verifier_request in H; handled H. received as Hr.
  pose proof (verifier_phase i _ ltac:(eassumption)) as Hc.
  apply (inv_new_request _ (emit [] _ st)); [|done|done]. apply inv_send; [done|]. by apply Forall_singleton.
Qed.

Lemma verifier_tarako_quote_inv j q :
  act tarako_attestation (VerifierTarakoQuote j q) st = Some st' -> inv st'.
Proof using Hi.
  intros H; cbn [act] in H; unfold verifier_tarako_quote in H; handled H. received as Hq.
  match goal with E : requests st !! j = Some ?x |- _ => rename E into Hj; rename x into r end.
  assert (request_ok (trace st) r) as [[Hk _] _]
    by (pose proof (inv_requests _ Hi) as Hv; rewrite Forall_forall in Hv; by eapply Hv, list_elem_of_lookup_2).
  rewrite Hk in *. checked as (Hs & Eq & (b & d & E & Hin)). simplify_eq. by apply inv_accept.
Qed.

Lemma client_inv a : a = ClientStart \/ (exists j v, a = ClientVerdict j v) ->
  act tarako_attestation a st = Some st' -> inv st'.
Proof using Hi.
  intros [->|(j & v & ->)] H; cbn [act] in H; unfold client_start, client_verdict in H; handled H;
    apply inv_with_clients.
  - apply inv_skip, inv_send; [done|]. by apply Forall_singleton.
  - received as Hv. checked as (Hs & Eq & (r & E & Hin)). simplify_eq. by apply inv_emit1.
Qed.

Lemma act_inv a : act tarako_attestation a st = Some st' -> inv st'.
Proof using Hi.
  destruct a; first [apply attacker_inv; by eauto | apply client_inv; by eauto |
    apply tdx_quote_inv | apply tdx_appraisal_inv | apply ima_log_inv | apply ima_appraisal_inv |
    apply tarako_inv | apply untrusted_inv | apply verifier_start_inv | apply verifier_tdx_quote_inv |
    apply verifier_tdx_answer_inv | apply verifier_ima_evidence_inv | apply verifier_ima_answer_inv |
    apply verifier_request_inv | apply verifier_tarako_quote_inv].
Qed.
End Steps.

Lemma protocol_inv_start : inv (start tarako_attestation).
Proof.
  split; simpl; by repeat constructor.
Qed.

Lemma protocol_inv_reachable st : reachable tarako_attestation st -> inv st.
Proof. induction 1 as [|st a st' _ IH H]; [apply protocol_inv_start | by eapply act_inv]. Qed.

(** ** From the invariant to the queries *)

Lemma always_justified f tr : (forall e tr, justified e tr -> f e tr = true) ->
  all_justified tr -> always f tr = true.
Proof.
  intros Hf. induction tr as [|e tr IH]; [done|]. intros [He Htr]. simpl.
  by rewrite (Hf e tr He), IH.
Qed.

Lemma existsb_in {A} (p : A -> bool) l x : x ∈ l -> p x = true -> existsb p l = true.
Proof. intros Hx Hp. apply existsb_exists. exists x. by rewrite <- list_elem_of_In. Qed.

(** A quote is accepted at most once, so that the one that was issued is enough. *)
Lemma accepts_none tr b d : b ∉ accepted tr -> occurrences (accepts b d) tr = 0.
Proof.
  intros Hb. unfold occurrences. induction tr as [|e tr IH]; [done|].
  rewrite filter_cons. destruct (decide (accepts b d e)) as [Ha|Ha].
  - destruct e; try done. unfold accepts in Ha. exfalso. apply Hb.
    apply Is_true_true, andb_true_iff in Ha as [->%bool_decide_eq_true _]. left.
  - apply IH. intros Hin. apply Hb. destruct e; try done. by right.
Qed.

Lemma injective_always tr : all_justified tr -> NoDup (accepted tr) ->
  always (fun e tr => match e with
      | TarakoQuoteAccepted _ b d =>
          (occurrences (accepts b d) (e :: tr) <=? occurrences (issues b d) tr)%nat
      | _ => true end) tr = true.
Proof.
  induction tr as [|e tr IH]; [done|]. intros [He Htr] Hn. cbn [always].
  assert (NoDup (accepted tr)) as Hn' by (destruct e; try done; by apply NoDup_cons in Hn as [_ Hn]).
  rewrite (IH Htr Hn'), andb_true_r. destruct e as [| | | | | | | | |c b d| |]; try done.
  apply NoDup_cons in Hn as [Hb _]. destruct He as [Hin _]. apply Nat.leb_le.
  unfold occurrences. rewrite filter_cons_True by (by unfold accepts; rewrite !bool_decide_true).
  cbn [length]. fold (occurrences (accepts b d) tr). rewrite accepts_none by done.
  assert (TarakoQuoteIssued b d ∈ filter (issues b d) tr) as Hf
    by (apply list_elem_of_filter; split; [by unfold issues; rewrite bool_decide_true|done]).
  destruct (filter (issues b d) tr); [by apply elem_of_nil in Hf | simpl; lia].
Qed.

(** C16: the protocol is secure.  In every state that the roles and an attacker who
    controls the network can reach, all twelve queries of the model hold: what
    was verified or accepted was issued by the party concerned, the accepted
    IMA evidence is committed and matches an appraised TDX quote, a quote of the
    module accounts for one acceptance only, what the client accepts is a
    verdict of the relying verifier for the approved digest, and the signing
    keys of the platform and of the module stay secret. *)
Theorem queries_hold (st : state) (q : query) :
  reachable tarako_attestation st -> holds q st = true.
Proof.
  intros Hi%protocol_inv_reachable. pose proof (inv_trace _ Hi) as Hj.
  assert (forall k, derives (known st) (Key k) = false) as Hk.
  { intros k. apply not_true_is_false. intros H. by apply (received_safe st (Key k) Hi). }
  destruct q; cbn [holds]; try (by rewrite Hk);
    try (apply injective_always; [done|]; eapply NoDup_app, (inv_distinct _ Hi));
    (apply always_justified; [|done]); intros [] tr He; try done; simpl in He; split_hyps; subst;
    try (by apply bool_decide_eq_true_2);
    (eapply existsb_in; [eassumption|]; simpl; by rewrite ?bool_decide_true).
Qed.
End protocol_safety.
