(* ===== verification/ProtocolAttacks.v ===== *)
(** [formal-verification/test-negative-models.py]: runs of the protocol.

    The honest run shows that the queries do not hold for want of runs: a client
    accepts, and two quotes are accepted under one cache.  The scenarios remove
    one check of the model, or publish one key; each has a run in which the
    queries that the test expects to fail do fail, so that no check of the
    protocol is superfluous. *)
From S2P Require Import Prelude Protocol ProtocolSafety.
From stdpp Require Import base numbers gmap list strings.
#[local] Open Scope nat_scope.

Module protocol_attacks.
Import protocol.

Lemma run_reachable m actions : forall st st',
  reachable m st -> run m actions st = Some st' -> reachable m st'.
Proof.
  induction actions as [|a actions IH]; intros st st' Hr; simpl; [by intros [= <-]|].
  intros (st1 & Ha & H)%bind_Some. eapply IH; [|exact H]. by eapply reachable_act.
Qed.

(** ** The messages of a run

    The client's request is the first new name, and the first verifier's names
    follow. *)
Definition r : term := Nonce 0.
Definition challenge : term := hash (session_context (Nonce 1) (Nonce 2)).
Definition any : term := Const approved_ta_digest.

Definition tdx_quote (c rtmr : term) : term :=
  sign (tdx_claim c (Const approved_tdx_measurement) rtmr) (Key tdx_attestation_key).
Definition tdx_answer (q c rtmr : term) : term :=
  sign (tdx_appraisal_answer (hash q) c rtmr) (Key tdx_verifier_key).
Definition quote : term := tdx_quote challenge current_rtmr.
Definition answer : term := tdx_answer quote challenge current_rtmr.
Definition evidence : term := ima_evidence (hash answer) current_ima_root tak.
Definition ima_answer (e : term) : term :=
  sign (ima_appraisal_answer (hash answer) (hash e) tak) (Key ima_verifier_key).
Definition binding (n : nat) : term := hash (request_context r (Nonce n)).
Definition quoted (b d : term) : term := sign (tarako_claim b d) (Key tarako_signing_key).
Definition verdict (d : term) : term := sign (integrity_verdict r d) (Key relying_verifier_key).

(** The client asks, and a verifier has the platform's quote appraised. *)
Definition appraise_tdx : list action :=
  [ClientStart; VerifierStart; TdxQuote current_rtmr challenge; VerifierTdxQuote 0 quote;
   TdxAppraisal quote; VerifierTdxAnswer 0 answer].
Definition establish : list action :=
  appraise_tdx ++ [ImaLog (hash answer); VerifierImaEvidence 0 evidence;
    ImaAppraisal answer evidence; VerifierImaAnswer 0 (ima_answer evidence)].
Definition serve_request (n : nat) : list action :=
  [VerifierRequest 0 r; Tarako (binding n); VerifierTarakoQuote 0 (quoted (binding n) any)].
Definition honest : list action :=
  establish ++ serve_request 3 ++ serve_request 4 ++ [ClientVerdict 0 (verdict any)].

(** ** The scenarios of the test *)

Record scenario := mkScenario {
  name : string;
  mutation : model;
  attack : list action;
  fails : list query }.

Definition published_key (k : key_name) : model :=
  mkModel [k] true true true true true true true FreshBinding true true true.

(** What the attacker learns of the log. *)
Definition learn_log : list action := [ImaLog any; Split (ima_evidence any current_ima_root tak)].

Definition scenarios : list scenario :=
  [ mkScenario "public-tdx-attestation-key" (published_key tdx_attestation_key)
      [TdxAppraisal (tdx_quote any any)] [TdxQuoteOrigin; TdxKeySecret];
    mkScenario "public-tdx-verifier-key" (published_key tdx_verifier_key)
      [ClientStart; VerifierStart; Split (tdx_request challenge); VerifierTdxQuote 0 any;
       VerifierTdxAnswer 0 (tdx_answer any challenge any)] [TdxAnswerOrigin];
    mkScenario "public-ima-verifier-key" (published_key ima_verifier_key)
      (learn_log ++ appraise_tdx ++ [VerifierImaEvidence 0 any; VerifierImaAnswer 0 (ima_answer any)] ++
       serve_request 3) [ImaAnswerOrigin; TarakoCacheOrigin];
    mkScenario "public-tarako-signing-key" (published_key tarako_signing_key)
      (establish ++ [VerifierRequest 0 r; Split (tarako_request (binding 3));
                     VerifierTarakoQuote 0 (quoted (binding 3) any)])
      [TarakoQuoteOrigin; TarakoKeySecret];
    mkScenario "public-relying-verifier-key" (published_key relying_verifier_key)
      [ClientStart; Split (verification_request r);
       ClientVerdict 0 (verdict (Const unapproved_ta_digest))] [VerdictOrigin; AcceptedDigest];
    mkScenario "tdx-service-skips-quote-signature"
      (mkModel [] false true true true true true true FreshBinding true true true)
      [TdxAppraisal (tdx_claim any (Const approved_tdx_measurement) any)] [TdxQuoteOrigin];
    mkScenario "ima-service-skips-tdx-verifier-signature"
      (mkModel [] true false true true true true true FreshBinding true true true)
      (learn_log ++ [ImaAppraisal (tdx_appraisal_answer any any current_rtmr)
        (ima_evidence (hash (tdx_appraisal_answer any any current_rtmr)) current_ima_root tak)])
      [ImaMatchesTdx];
    mkScenario "ima-service-skips-rtmr-comparison"
      (mkModel [] true true false true true true true FreshBinding true true true)
      (let q := tdx_quote any unapproved_rtmr in
       let a := tdx_answer q any unapproved_rtmr in
       learn_log ++ [TdxQuote unapproved_rtmr any; TdxAppraisal q;
         ImaAppraisal a (ima_evidence (hash a) current_ima_root tak)]) [ImaMatchesTdx];
    mkScenario "ima-service-skips-log-membership"
      (mkModel [] true true true false true true true FreshBinding true true true)
      (let q := tdx_quote any unapproved_rtmr in
       let a := tdx_answer q any unapproved_rtmr in
       learn_log ++ [TdxQuote unapproved_rtmr any; TdxAppraisal q;
         ImaAppraisal a (ima_evidence (hash a) unapproved_ima_root tak)]) [ImaCommitted];
    mkScenario "relying-verifier-skips-tdx-service-signature"
      (mkModel [] true true true true false true true FreshBinding true true true)
      [ClientStart; VerifierStart; Split (tdx_request challenge); VerifierTdxQuote 0 any;
       VerifierTdxAnswer 0 (tdx_appraisal_answer (hash any) challenge any)] [TdxAnswerOrigin];
    mkScenario "relying-verifier-skips-ima-service-signature"
      (mkModel [] true true true true true false true FreshBinding true true true)
      (appraise_tdx ++ [VerifierImaEvidence 0 any;
         VerifierImaAnswer 0 (ima_appraisal_answer (hash answer) (hash any) any)]) [ImaAnswerOrigin];
    mkScenario "relying-verifier-skips-tarako-signature"
      (mkModel [] true true true true true true false FreshBinding true true true)
      (establish ++ [VerifierRequest 0 r; Split (tarako_request (binding 3));
                     VerifierTarakoQuote 0 (tarako_claim (binding 3) any)]) [TarakoQuoteOrigin];
    mkScenario "cached-request-reuses-static-binding"
      (mkModel [] true true true true true true true StaticBinding true true true)
      (let b := hash (ima_answer evidence) in
       establish ++ [VerifierRequest 0 r; VerifierRequest 0 r; Tarako b;
         VerifierTarakoQuote 0 (quoted b any); VerifierTarakoQuote 0 (quoted b any)])
      [TarakoQuoteInjective];
    mkScenario "cached-request-omits-verifier-nonce"
      (mkModel [] true true true true true true true BindingWithoutNonce true true true)
      (let b := hash (verification_request r) in
       establish ++ [VerifierRequest 0 r; VerifierRequest 0 r; Tarako b;
         VerifierTarakoQuote 0 (quoted b any); VerifierTarakoQuote 0 (quoted b any)])
      [TarakoQuoteInjective];
    mkScenario "relying-verifier-skips-request-binding"
      (mkModel [] true true true true true true true FreshBinding false true true)
      (establish ++ [VerifierRequest 0 r; VerifierRequest 0 r; Tarako (binding 3);
         VerifierTarakoQuote 0 (quoted (binding 3) any); VerifierTarakoQuote 0 (quoted (binding 3) any)])
      [TarakoQuoteInjective];
    mkScenario "relying-verifier-skips-approved-digest"
      (mkModel [] true true true true true true true FreshBinding true false true)
      (let d := Const unapproved_ta_digest in
       establish ++ [VerifierRequest 0 r; Split (tarako_request (binding 3)); Untrusted (binding 3);
         VerifierTarakoQuote 0 (quoted (binding 3) d); ClientVerdict 0 (verdict d)]) [AcceptedDigest];
    mkScenario "client-skips-relying-verifier-signature"
      (mkModel [] true true true true true true true FreshBinding true true false)
      [ClientStart; Split (verification_request r);
       ClientVerdict 0 (integrity_verdict r (Const unapproved_ta_digest))] [VerdictOrigin; AcceptedDigest] ].

(** In how many places a model departs from the one that is written. *)
Definition departures (m : model) : nat :=
  length (published m) +
  length (filter negb [tdx_service_checks_quote m; ima_service_checks_tdx_answer m;
    ima_service_compares_rtmr m; ima_service_searches_log m; verifier_checks_tdx_answer m;
    verifier_checks_ima_answer m; verifier_checks_tarako_quote m;
    match verifier_binding m with FreshBinding => true | _ => false end;
    verifier_compares_binding m; verifier_compares_digest m; client_checks_verdict m]).

(** A scenario passes if its run exists and the expected queries fail in its
    last state. *)
Definition passes (sc : scenario) : bool :=
  match run (mutation sc) (attack sc) (start (mutation sc)) with
  | Some st => forallb (fun q => negb (holds q st)) (fails sc)
  | None => false
  end.

Lemma passes_reachable sc : passes sc = true ->
  exists st, reachable (mutation sc) st /\ Forall (fun q => holds q st = false) (fails sc).
Proof.
  unfold passes. destruct (run _ _ _) as [st|] eqn:E; [|done]. intros H. exists st.
  split; [by eapply run_reachable; [constructor|]|]. apply Forall_forall. intros q Hq.
  rewrite forallb_forall in H. by apply negb_true_iff, H, list_elem_of_In.
Qed.

Lemma all_pass : forallb (fun sc => passes sc && (departures (mutation sc) =? 1)) scenarios = true.
Proof. vm_compute. reflexivity. Qed.

#[global] Instance query_eq_dec : EqDecision query.
Proof. solve_decision. Defined.

(** The events of a run. *)
Definition reaches (m : model) (actions : list action) (es : list event) : bool :=
  match run m actions (start m) with
  | Some st => forallb (fun e => bool_decide (e ∈ trace st)) es
  | None => false
  end.

Lemma reaches_reachable m actions es : reaches m actions es = true ->
  exists st, reachable m st /\ forall e, e ∈ es -> e ∈ trace st.
Proof.
  unfold reaches. destruct (run m actions (start m)) as [st|] eqn:E; [|done]. intros H. exists st.
  split; [by eapply run_reachable; [constructor|]|]. intros e He. rewrite forallb_forall in H.
  apply (bool_decide_eq_true_1 _). by apply H, list_elem_of_In.
Qed.

Definition cached : term := hash (ima_answer evidence).
Definition honest_events : list event :=
  [ClientAcceptedIntegrity r any; TarakoQuoteAccepted cached (binding 3) any;
   TarakoQuoteAccepted cached (binding 4) any].

Lemma honest_runs : reaches tarako_attestation honest honest_events = true.
Proof. vm_compute. reflexivity. Qed.

(** C20: the protocol can succeed, and needs all its checks.  There is a run in
    which a client accepts and two different quotes are accepted under one
    cache.  Each of the seventeen scenarios of the test departs from the model
    in one place, a published key or a missing check, and then has a reachable
    state in which the queries that the test names are false; every query fails
    in one of them. *)
Theorem negative_models :
  (exists st d c b b', reachable tarako_attestation st /\
     ClientAcceptedIntegrity r d ∈ trace st /\ b <> b' /\
     TarakoQuoteAccepted c b d ∈ trace st /\ TarakoQuoteAccepted c b' d ∈ trace st) /\
  length scenarios = 17 /\
  Forall (fun sc => departures (mutation sc) = 1 /\
    exists st, reachable (mutation sc) st /\ Forall (fun q => holds q st = false) (fails sc)) scenarios /\
  forall q, exists sc, sc ∈ scenarios /\ q ∈ fails sc.
Proof.
  split_and!; [| done | |].
  - destruct (reaches_reachable _ _ _ honest_runs) as (st & Hr & He).
    exists st, any, cached, (binding 3), (binding 4).
    split_and!; [done | apply He | done | apply He | apply He]; unfold honest_events; set_solver.
  - apply Forall_forall. intros sc Hsc. pose proof all_pass as H. rewrite forallb_forall in H.
    apply list_elem_of_In, H, andb_true_iff in Hsc as [Hp Hd%Nat.eqb_eq].
    split; [done | by apply passes_reachable].
  - intros q. assert (existsb (fun sc => bool_decide (q ∈ fails sc)) scenarios = true) as H
      by (by destruct q).
    apply existsb_exists in H as (sc & Hsc & Hq). exists sc.
    split; [by apply list_elem_of_In | by apply bool_decide_eq_true in Hq].
Qed.

Lemma queries_hold_witness :
  exists st, reachable tarako_attestation st /\ ClientAcceptedIntegrity r any ∈ trace st /\
    holds TarakoQuoteInjective st = true.
Proof.
  destruct (reaches_reachable _ _ _ honest_runs) as (st & Hr & He). exists st.
  split; [exact Hr|]. split; [apply He; left|].
  exact (protocol_safety.queries_hold st TarakoQuoteInjective Hr).
Defined.
End protocol_attacks.
