(* ===== verification/QuoteTools.v ===== *)
(** The quote tools of [test/]: [tarako-quote.py], [tdx-attest.py], [tpm-quote.py]
    and the benchmark [quote-bench.py] that runs them.

    A program is a computation over the state of the host, with the exception
    that ends it and a log of what it asked of the host: commands, files, devices
    and random bytes.  The host is the class [Host]; nothing is assumed of its
    answers.  Command lines are taken after parsing.  What the programs print is
    modelled where another program reads it; clocks are read and not logged. *)
From S2P Require Import Prelude Sha256 Wire Ffi RefKernel Ecdsa Ioctl Tarako Attester Verifier Attestation.
From stdpp Require Import base numbers gmap list strings pretty.
From Stdlib Require Import ZArith Lia.
#[local] Open Scope Z_scope.

(** ** Text *)
Module Text.

(** A continuation byte of UTF-8. *)
Definition cont (b : Z) : bool := (0x80 <=? b) && (b <=? 0xbf).

(** [bytes.decode()]: strict UTF-8, without overlong forms and surrogates. *)
Fixpoint decode (bs : list Z) : option str :=
  match bs with
  | [] => Some []
  | a :: bs =>
      if a <? 0x80 then s ← decode bs; Some (a :: s)
      else if a <? 0xc2 then None
      else if a <? 0xe0 then
        match bs with
        | b :: bs => if cont b then s ← decode bs; Some ((a - 0xc0) * 64 + (b - 0x80) :: s) else None
        | _ => None
        end
      else if a <? 0xf0 then
        match bs with
        | b :: c :: bs =>
            let u := (a - 0xe0) * 4096 + (b - 0x80) * 64 + (c - 0x80) in
            if cont b && cont c && (0x800 <=? u) && negb ((0xd800 <=? u) && (u <=? 0xdfff))
            then s ← decode bs; Some (u :: s) else None
        | _ => None
        end
      else if a <? 0xf5 then
        match bs with
        | b :: c :: d :: bs =>
            let u := (a - 0xf0) * 262144 + (b - 0x80) * 4096 + (c - 0x80) * 64 + (d - 0x80) in
            if cont b && cont c && cont d && (0x10000 <=? u) && (u <=? 0x10ffff)
            then s ← decode bs; Some (u :: s) else None
        | _ => None
        end
      else None
  end.

(** The characters at which [str.splitlines] ends a line. *)
Definition line_break (c : Z) : bool :=
  (10 <=? c) && (c <=? 13) || (28 <=? c) && (c <=? 30) ||
  (c =? 0x85) || (c =? 0x2028) || (c =? 0x2029).

(** [line] is the current line, reversed. *)
Fixpoint lines_from (line : str) (s : str) : list str :=
  match s with
  | [] => match line with [] => [] | _ => [reverse line] end
  | c :: s =>
      if line_break c then
        reverse line ::
          match c, s with
          | 13, 10 :: s => lines_from [] s      (* "\r\n" is one break *)
          | _, _ => lines_from [] s
          end
      else lines_from (c :: line) s
  end.
Definition splitlines (s : str) : list str := lines_from [] s.

(** [s.startswith(p)]; the rest of [s]. *)
Fixpoint strip_prefix (p s : str) : option str :=
  match p, s with
  | [], _ => Some s
  | c :: p, d :: s => if c =? d then strip_prefix p s else None
  | _, [] => None
  end.
Definition startswith (s p : str) : bool := match strip_prefix p s with Some _ => true | None => false end.

(** [p in s]. *)
Fixpoint contains (p s : str) : bool :=
  startswith s p || match s with [] => false | _ :: s => contains p s end.

(** The characters of [[0-9.]]. *)
Definition numeric (c : Z) : bool := (48 <=? c) && (c <=? 57) || (c =? 46).
Fixpoint span (s : str) : str * str :=
  match s with
  | c :: s' => if numeric c then let '(a, b) := span s' in (c :: a, b) else ([], s)
  | [] => ([], [])
  end.

(** [re.compile(prefix + "([0-9.]+) ms").search(s)], the group.  After the
    longest run of [[0-9.]] a shorter one cannot be followed by a blank. *)
Definition match_here (prefix s : str) : option str :=
  rest ← strip_prefix prefix s;
  let '(number, rest) := span rest in
  if bool_decide (number = []) then None
  else _ ← strip_prefix (codes " ms") rest; Some number.
Fixpoint search (prefix s : str) : option str :=
  match match_here prefix s with
  | Some n => Some n
  | None => match s with [] => None | _ :: s => search prefix s end
  end.

(** [float] of such a group, as a decimal fraction before it is rounded: digits
    without the point, and how many follow it.  [None] is a [ValueError]. *)
Fixpoint digits_of (s : str) : option (list Z) :=
  match s with
  | [] => Some []
  | c :: s => if (48 <=? c) && (c <=? 57) then l ← digits_of s; Some (c - 48 :: l) else None
  end.
Fixpoint at_point (s : str) : str * option str :=
  match s with
  | [] => ([], None)
  | c :: s => if c =? 46 then ([], Some s) else let '(a, b) := at_point s in (c :: a, b)
  end.
Definition float (s : str) : option (Z * nat) :=
  let '(whole, fraction) := at_point s in
  let fraction := default [] fraction in
  a ← digits_of whole; b ← digits_of fraction;
  if bool_decide (a ++ b = []) then None
  else Some (foldl (fun v d => 10 * v + d) 0 (a ++ b), length b).

(** *** Lemmas *)

Lemma decode_ascii_app a b :
  Forall (fun c => 0 <= c < 0x80) a -> decode (a ++ b) = (fun s => a ++ s) <$> decode b.
Proof.
  induction 1 as [|c a Hc _ IH]; [cbn [app]; by destruct (decode b)|]. cbn [app decode].
  rewrite (proj2 (Z.ltb_lt _ _)), IH by lia. by destruct (decode b).
Qed.

Lemma lines_from_app line a b : Forall (fun c => line_break c = false) a ->
  lines_from line (a ++ 10 :: b) = (reverse line ++ a) :: lines_from [] b.
Proof.
  intros H. revert line. induction H as [|c a Hc _ IH]; intros line.
  - cbn. by rewrite app_nil_r.
  - cbn [app lines_from]. rewrite Hc, IH, reverse_cons, <- (assoc_L (++)). done.
Qed.

Lemma strip_prefix_app p s : strip_prefix p (p ++ s) = Some s.
Proof. induction p as [|c p IH]; simpl; [by destruct s|]. by rewrite Z.eqb_refl. Qed.

Lemma span_app a b : Forall (fun c => numeric c = true) a ->
  match b with c :: _ => numeric c = false | [] => True end -> span (a ++ b) = (a, b).
Proof.
  intros Ha Hb. induction Ha as [|c a Hc _ IH]; simpl.
  - destruct b as [|c b]; simpl; [done|]. by rewrite Hb.
  - by rewrite Hc, IH.
Qed.

Lemma match_here_timing p t rest : t <> [] -> Forall (fun c => numeric c = true) t ->
  match_here p (p ++ t ++ codes " ms" ++ rest) = Some t.
Proof.
  intros Hn Ht. unfold match_here, mbind, option_bind. rewrite strip_prefix_app, span_app by done.
  by rewrite bool_decide_false, strip_prefix_app.
Qed.

Lemma search_skip c p u v : Forall (fun d => d <> c) u -> search (c :: p) (u ++ v) = search (c :: p) v.
Proof.
  induction 1 as [|d u Hd _ IH]; [done|]. cbn [app search].
  replace (match_here (c :: p) (d :: u ++ v)) with (@None str); [done|].
  unfold match_here. simpl. by rewrite (proj2 (Z.eqb_neq c d)).
Qed.

Lemma search_here p s m : match_here p s = Some m -> search p s = Some m.
Proof. destruct s; simpl; by intros ->. Qed.
End Text.

Module quote_tools.
Import Text attester.

(** ** The host *)

(** The result of [subprocess.run]: bytes, or text where the caller asks for it. *)
Record CompletedProcess := mkCompletedProcess { returncode : Z; stdout : list Z; stderr : list Z }.

(** [None] is an [OSError], for a command also a timeout; [false] an [OSError]. *)
Class Host (S : Type) := {
  os_urandom : nat -> S -> list Z * S;
  run_command : list str -> list Z -> S -> option CompletedProcess * S;   (* the input of the command *)
  run_text : list str -> S -> option CompletedProcess * S;
  path_exists : str -> S -> bool * S;
  path_is_dir : str -> S -> bool * S;
  shutil_which : str -> S -> option str * S;
  path_mkdir : str -> S -> bool * S;
  make_dirs : bool -> str -> S -> bool * S;                        (* [parents], with [exist_ok=True] *)
  path_rmdir : str -> S -> bool * S;
  shutil_copy2 : str -> str -> S -> bool * S;
  path_write : str -> list Z -> S -> bool * S;
  path_read : str -> S -> option (list Z) * S;
  device_ioctl : str -> Z -> list Z -> S -> option (list Z) * S;   (* the new buffer *)
  perf_counter_ns : S -> Z * S
}.

(** What was asked, with the answer. *)
Inductive event :=
  | Random (bytes : list Z)
  | Command (command : list str) (input : list Z) (result : option CompletedProcess)
  | TextCommand (command : list str) (result : option CompletedProcess)
  | Exists (path : str) (answer : bool)
  | IsDir (path : str) (answer : bool)
  | Which (name : str) (answer : option str)
  | Mkdir (path : str) (ok : bool)
  | MakeDirs (parents : bool) (path : str) (ok : bool)
  | Rmdir (path : str) (ok : bool)
  | Copy (source target : str) (ok : bool)
  | Write (path : str) (data : list Z) (ok : bool)
  | Read (path : str) (data : option (list Z))
  | Ioctl (path : str) (request : Z) (buffer : list Z) (result : option (list Z)).

(** The exceptions; [SystemExit] by the place that raises it. *)
Inductive exit :=
  | Usage | InvalidNonce | NonceLength | NotProtected | NoAttester | EnableFailed
  | NoTsm | GetQuoteFailed | VerificationFailed
  | CommandFailed | NotVerified | NoTiming.
Inductive raised :=
  | SystemExit (e : exit) | OSError | CalledProcessError | UnicodeDecodeError | ValueError.

Section Tools.
Context {T : Type} `{!Host T}.

Definition TM (A : Type) : Type := T * list event -> (raised + A) * (T * list event).
#[local] Instance TM_ret : MRet TM := fun A a s => (inr a, s).
#[local] Instance TM_bind : MBind TM := fun A B f m s =>
  match m s with (inr a, s) => f a s | (inl e, s) => (inl e, s) end.

Definition raise {A} (e : raised) : TM A := fun s => (inl e, s).
Definition try_ {A} (o : option A) (e : raised) : TM A :=
  match o with Some a => mret a | None => raise e end.
Definition check (b : bool) (e : raised) : TM unit := if b then mret tt else raise e.


(** One question to the host. *)
Definition ask {A} (f : T -> A * T) (log : A -> event) : TM A := fun '(s, l) =>
  let '(a, s) := f s in (inr a, (s, l ++ [log a])).
Definition now : TM Z := fun '(s, l) => let '(t, s) := perf_counter_ns s in (inr t, (s, l)).

Definition urandom (n : nat) : TM (list Z) := ask (os_urandom n) Random.
Definition subprocess (command : list str) (input : list Z) : TM (option CompletedProcess) :=
  ask (run_command command input) (Command command input).
Definition exists_ (p : str) : TM bool := ask (path_exists p) (Exists p).
Definition which (name : str) : TM (option str) := ask (shutil_which name) (Which name).
Definition done_ (m : TM bool) : TM unit := ok ← m; check ok OSError.
Definition makedirs (parents : bool) (p : str) : TM unit :=
  done_ (ask (make_dirs parents p) (MakeDirs parents p)).
Definition copy2 (a b : str) : TM unit := done_ (ask (shutil_copy2 a b) (Copy a b)).
Definition write_bytes (p : str) (data : list Z) : TM unit := done_ (ask (path_write p data) (Write p data)).

(** [subprocess.run(command, check=True)]. *)
Definition run_checked (command : list str) : TM CompletedProcess :=
  o ← subprocess command [];
  c ← try_ o OSError;
  _ ← check (returncode c =? 0) CalledProcessError;
  mret c.

(** The three tools have this function, each with its own limit. *)
Definition parse_nonce (limit : nat) (value : option str) : TM (list Z) :=
  match value with
  | None => urandom 32
  | Some value =>
      nonce ← try_ (Hex.fromhex value) (SystemExit InvalidNonce);
      _ ← check (negb ((length nonce =? 0)%nat || (limit <? length nonce)%nat)) (SystemExit NonceLength);
      mret nonce
  end.

(** ** [tarako-quote.py] *)

Definition TARAKO_APP : str := codes "/var/lib/tarako/tarako-attester".
Definition measure_command : list str := [codes "fsverity"; codes "measure"; TARAKO_APP].
Definition enable_command : list str :=
  [codes "fsverity"; codes "enable"; codes "--block-size=1024"; TARAKO_APP].

Definition is_verity_enabled : TM bool :=
  o ← subprocess measure_command [];
  result ← try_ o OSError;
  mret (returncode result =? 0).

Definition use_existing_app : TM bool :=
  there ← exists_ TARAKO_APP;
  if negb there then mret false else
  protected ← is_verity_enabled;
  _ ← check protected (SystemExit NotProtected);
  mret true.

Definition prepare_app : TM unit :=
  existing ← use_existing_app;
  if (existing : bool) then mret tt else
  o ← which (codes "tarako-attester");
  source ← try_ o (SystemExit NoAttester);
  _ ← makedirs true (codes "/var/lib/tarako");
  _ ← copy2 source TARAKO_APP;
  _ ← run_checked enable_command;
  protected ← is_verity_enabled;
  check protected (SystemExit EnableFailed).

Definition sign_timing (app_output : str) : str :=
  default (codes "sign ioctl: unavailable in the installed tarako-attester")
    (head (filter (fun line => startswith line (codes "sign ioctl:")) (splitlines app_output))).

(** The lines that the tool prints to its standard output. *)
Definition tarako_quote_main (nonce : option str) (output : str) : TM str :=
  nonce ← parse_nonce 128 nonce;
  _ ← prepare_app;
  result ← run_checked [TARAKO_APP; codes "quote"; Hex.encode nonce];
  _ ← write_bytes output (stdout result);
  app_output ← try_ (decode (stdout result)) UnicodeDecodeError;
  mret (codes "nonce: " ++ Hex.encode nonce ++ [10] ++ sign_timing app_output ++ [10] ++
        codes "wrote Tarako response to " ++ output ++ [10]).

(** ** [tdx-attest.py] *)

Definition TDX_REPORT_DATA_LEN : nat := 64.
Definition TDX_REPORT_LEN : nat := 1024.
Definition TDX_CMD_GET_REPORT0 : Z := 0xC4405401.

(** [nonce.ljust(n, b"\0")]. *)
Definition ljust (n : nat) (bs : list Z) : list Z := bs ++ replicate (n - length bs) 0.










(** ** [tpm-quote.py] *)

Definition STATE_DIR : str := codes "/tmp/tpm-quote".

(** The commands run in [STATE_DIR]. *)
Definition createek_command : list str := codes <$> ["tpm2_createek"; "-G"; "rsa"; "-c"; "ek.ctx"]%string.
Definition createak_command : list str := codes <$>
  ["tpm2_createak"; "-C"; "ek.ctx"; "-G"; "ecc"; "-g"; "sha256"; "-s"; "ecdsa"; "-c"; "ak.ctx";
   "-u"; "ak.pub"; "-n"; "ak.name"]%string.
Definition tpm_quote_command (nonce : list Z) : list str :=
  (codes <$> ["tpm2_quote"; "-c"; "ak.ctx"; "-l"; "sha256:0,1,2,3,4,5,6,7"; "-q"]%string) ++
  [Hex.encode nonce] ++
  (codes <$> ["-m"; "quote.msg"; "-s"; "quote.sig"; "-o"; "quote.pcr"]%string).

Definition ensure_attestation_key : TM unit :=
  _ ← makedirs false STATE_DIR;
  there ← exists_ (STATE_DIR ++ codes "/ak.ctx");
  if (there : bool) then mret tt else
  _ ← run_checked createek_command;
  _ ← run_checked createak_command;
  mret tt.

Definition tpm_quote_main (nonce : option str) : TM Z :=
  nonce ← parse_nonce 64 nonce;
  _ ← ensure_attestation_key;
  started ← now;
  _ ← run_checked (tpm_quote_command nonce);
  ended ← now;
  mret (ended - started).

(** ** [quote-bench.py] *)

Inductive target := tdx | tpm | tarako.

(** [TARGETS]: the command and what precedes the timing in its output. *)
Definition command_of (t : target) : list str :=
  codes <$> match t with
            | tdx => ["tdx-attest"; "quote"]
            | tpm => ["tpm-quote"]
            | tarako => ["tarako-quote"]
            end%string.
Definition pattern_of (t : target) : str :=
  codes match t with
        | tdx => "TDX quote: " | tpm => "TPM quote: " | tarako => "sign ioctl: "
        end.

Definition is_tdx (t : target) : bool := match t with tdx => true | _ => false end.
Definition arguments (t : target) (tdx_collateral : bool) (nonce : list Z) : list str :=
  command_of t ++ [Hex.encode nonce] ++
  if is_tdx t && tdx_collateral then [codes "--verify-collateral"] else [].

Definition measure (t : target) (tdx_collateral : bool) : TM (Z * nat) :=
  nonce ← urandom 32;
  let args := arguments t tdx_collateral nonce in
  o ← ask (run_text args) (TextCommand args);
  result ← try_ o OSError;
  let output := stdout result ++ stderr result in
  _ ← check (returncode result =? 0) (SystemExit CommandFailed);
  _ ← check (negb (is_tdx t) || contains (codes "TDX verification: OK") output) (SystemExit NotVerified);
  m ← try_ (search (pattern_of t) output) (SystemExit NoTiming);
  try_ (float m) ValueError.

(** [[measure(...) for _ in range(n)]]. *)
Fixpoint measures (n : nat) (t : target) (tdx_collateral : bool) : TM (list (Z * nat)) :=
  match n with
  | O => mret []
  | S n =>
      v ← measure t tdx_collateral;
      vs ← measures n t tdx_collateral;
      mret (v :: vs)
  end.

(** The values that [print_results] summarizes. *)
Definition benchmark (t : target) (warmup runs : nat) (tdx_collateral : bool) : TM (list (Z * nat)) :=
  _ ← measures warmup t tdx_collateral;
  measures runs t tdx_collateral.

Fixpoint benchmarks (targets : list target) (warmup runs : nat) (tdx_collateral : bool)
    : TM (list (list (Z * nat))) :=
  match targets with
  | [] => mret []
  | t :: targets =>
      values ← benchmark t warmup runs tdx_collateral;
      rest ← benchmarks targets warmup runs tdx_collateral;
      mret (values :: rest)
  end.

(** [None] is the target [all]. *)
Definition bench_main (target_ : option target) (warmup runs : Z) (tdx_collateral : bool)
    : TM (list (list (Z * nat))) :=
  _ ← check (negb (warmup <? 0)) (SystemExit Usage);
  _ ← check (negb (runs <? 1)) (SystemExit Usage);
  _ ← check (negb (tdx_collateral && match target_ with Some t => negb (is_tdx t) | None => false end))
        (SystemExit Usage);
  let targets := match target_ with None => [tdx; tpm; tarako] | Some t => [t] end in
  benchmarks targets (Z.to_nat warmup) (Z.to_nat runs) tdx_collateral.

(** ** What a program asks

    [traces m E Q]: whatever the host answers, [m] adds questions to the log that
    satisfy [Q] with its value if it returns, and [E] if it raises. *)
Definition traces {A} (m : TM A) (E : list event -> Prop) (Q : A -> list event -> Prop) : Prop :=
  forall s l, exists es, snd (snd (m (s, l))) = l ++ es /\
    match fst (m (s, l)) with inr a => Q a es | inl _ => E es end.

Lemma traces_run {A} (m : TM A) E Q s l a s' l' :
  traces m E Q -> m (s, l) = (inr a, (s', l')) -> exists es, l' = l ++ es /\ Q a es.
Proof using All. intros H R. destruct (H s l) as (es & He & HQ). rewrite R in *. simpl in *. eauto. Qed.

Lemma traces_mono {A} (m : TM A) (E E' : list event -> Prop) (Q Q' : A -> list event -> Prop) :
  traces m E Q -> (forall es, E es -> E' es) -> (forall a es, Q a es -> Q' a es) -> traces m E' Q'.
Proof using All.
  intros H HE HQ s l. destruct (H s l) as (es & He & Hq). exists es. split; [done|].
  destruct (fst (m (s, l))); auto.
Qed.

Lemma traces_ret {A} (a : A) (E : list event -> Prop) (Q : A -> list event -> Prop) :
  Q a [] -> traces (mret a) E Q.
Proof using All. intros H s l. exists []. by rewrite app_nil_r. Qed.

Lemma traces_raise {A} e (E : list event -> Prop) (Q : A -> list event -> Prop) :
  E [] -> traces (raise e) E Q.
Proof using All. intros H s l. exists []. by rewrite app_nil_r. Qed.

Lemma traces_bind {A B} (m : TM A) (f : A -> TM B) (E : list event -> Prop)
    (Q : B -> list event -> Prop) :
  traces m E (fun a es => traces (f a) (fun es' => E (es ++ es')) (fun b es' => Q b (es ++ es'))) ->
  traces (m ≫= f) E Q.
Proof using All.
  intros H s l. unfold mbind, TM_bind. destruct (H s l) as (es & He & Hq).
  destruct (m (s, l)) as [[e|a] [s1 l1]]; simpl in *; subst; [by exists es|].
  destruct (Hq s1 (l ++ es)) as (es' & He' & Hq'). exists (es ++ es').
  rewrite (assoc_L (++)). auto.
Qed.


Lemma traces_ask {A} (f : T -> A * T) log (E : list event -> Prop) (Q : A -> list event -> Prop) :
  (forall s a s', f s = (a, s') -> Q a [log a]) -> traces (ask f log) E Q.
Proof using All.
  intros H s l. unfold ask. destruct (f s) as [a s'] eqn:Ef. exists [log a]. split; [done|]. by eapply H.
Qed.


Lemma traces_check b e (E : list event -> Prop) (Q : unit -> list event -> Prop) :
  (b = true -> Q tt []) -> (b = false -> E []) -> traces (check b e) E Q.
Proof using All. destruct b; intros H H'; [apply traces_ret | apply traces_raise]; auto. Qed.

Lemma traces_try {A} (o : option A) e (E : list event -> Prop) (Q : A -> list event -> Prop) :
  (forall a, o = Some a -> Q a []) -> (o = None -> E []) -> traces (try_ o e) E Q.
Proof using All. destruct o; intros H H'; [apply traces_ret | apply traces_raise]; auto. Qed.

(** ** The benchmark *)

(** The questions of one measurement: a nonce of its own, and the command. *)
Definition asked (t : target) (tdx_collateral : bool) (sample : list Z * CompletedProcess) : list event :=
  [Random (fst sample); TextCommand (arguments t tdx_collateral (fst sample)) (Some (snd sample))].

(** A measurement that counts: the command succeeded, it has verified its quote
    if it is one of TDX, and the value is the timing that it printed. *)
Definition sample_ok (t : target) (sample : list Z * CompletedProcess) (v : Z * nat) : Prop :=
  let output := stdout (snd sample) ++ stderr (snd sample) in
  returncode (snd sample) = 0 /\
  (t = tdx -> contains (codes "TDX verification: OK") output = true) /\
  exists m, search (pattern_of t) output = Some m /\ float m = Some v.

Abbreviation anything := (fun _ : list event => True).

Lemma Forall2_left {A B} (R : A -> B -> Prop) l k :
  Forall2 R l k -> Forall (fun x => exists y, R x y) l.
Proof using. induction 1; constructor; eauto. Qed.

Lemma measure_traces t coll :
  traces (measure t coll) anything
    (fun v es => exists sample, es = asked t coll sample /\ sample_ok t sample v).
Proof using All.
  unfold measure, urandom.
  apply traces_bind, traces_ask. intros _ nonce _ _.
  apply traces_bind, traces_ask. intros _ o _ _.
  apply traces_bind, traces_try; [|done]. intros result ->.
  apply traces_bind, traces_check; [|done]. intros Hr%Z.eqb_eq.
  apply traces_bind, traces_check; [|done]. intros Hv.
  apply traces_bind, traces_try; [|done]. intros m Hm.
  apply traces_try; [|done]. intros v Hf.
  exists (nonce, result). split; [done|]. split_and!; [done| |by exists m].
  intros ->. exact Hv.
Qed.

Lemma measures_traces n t coll :
  traces (measures n t coll) anything
    (fun vs es => exists samples, length samples = n /\ es = mjoin (asked t coll <$> samples) /\
      Forall2 (sample_ok t) samples vs).
Proof using All.
  induction n as [|n IH]; simpl; [apply traces_ret; exists []; done|].
  apply traces_bind. eapply traces_mono; [apply measure_traces | done |].
  intros v es (sample & -> & Hs).
  apply traces_bind. eapply traces_mono; [apply IH | done |].
  intros vs es' (samples & Hl & -> & Hss). apply traces_ret. exists (sample :: samples).
  split_and!; [by simpl; f_equal | by rewrite app_nil_r | by constructor].
Qed.

Lemma benchmark_traces t warmup runs coll :
  traces (benchmark t warmup runs coll) anything
    (fun vs es => exists samples, length samples = (warmup + runs)%nat /\
      es = mjoin (asked t coll <$> samples) /\
      Forall (fun sample => exists v, sample_ok t sample v) samples /\
      Forall2 (sample_ok t) (drop warmup samples) vs).
Proof using All.
  apply traces_bind. eapply traces_mono; [apply measures_traces | done |].
  intros ws es (warm & Hlw & -> & Hw). eapply traces_mono; [apply measures_traces | done |].
  intros vs es (samples & Hl & -> & Hs). exists (warm ++ samples).
  rewrite length_app, fmap_app, join_app, <- Hlw, drop_app_length, Forall_app.
  split_and!; [lia | done | | | done].
  - by eapply Forall2_left.
  - by eapply Forall2_left.
Qed.

Lemma benchmarks_traces targets warmup runs coll :
  traces (benchmarks targets warmup runs coll) anything
    (fun values es => exists samples,
      es = mjoin (zip_with (fun t smps => mjoin (asked t coll <$> smps)) targets samples) /\
      Forall3 (fun t smps vs => length smps = (warmup + runs)%nat /\
        Forall (fun sample => exists v, sample_ok t sample v) smps /\
        Forall2 (sample_ok t) (drop warmup smps) vs) targets samples values).
Proof using All.
  induction targets as [|t targets IH]; simpl; [apply traces_ret; exists []; split; [done|constructor]|].
  apply traces_bind. eapply traces_mono; [apply benchmark_traces | done |].
  intros vs es (smps & Hl & -> & Hok & Hvs).
  apply traces_bind. eapply traces_mono; [apply IH | done |].
  intros rest es' (samples & -> & H3). apply traces_ret. exists (smps :: samples).
  split; [by rewrite app_nil_r | by constructor].
Qed.

(** C39: the benchmark reports nothing but measurements that count.  When it
    returns, the numbers of runs are sane, and for every target there were
    exactly the warm-up runs and the runs asked for; each had a nonce of its own,
    drawn for it just before and passed to its command; every command succeeded
    and, for TDX, had verified its quote; and the values that are summarized are
    those that the commands of the runs, in their order, have printed. *)
Theorem bench_samples (target_ : option target) (warmup runs : Z) (coll : bool) (s s' : T)
    (values : list (list (Z * nat))) (log : list event) :
  bench_main target_ warmup runs coll (s, []) = (inr values, (s', log)) ->
  0 <= warmup /\ 1 <= runs /\
  let targets := match target_ with None => [tdx; tpm; tarako] | Some t => [t] end in
  exists samples : list (list (list Z * CompletedProcess)),
    log = mjoin (zip_with (fun t smps => mjoin (asked t coll <$> smps)) targets samples) /\
    Forall3 (fun t smps vs => Z.of_nat (length smps) = warmup + runs /\
      Forall (fun sample => exists v, sample_ok t sample v) smps /\
      Forall2 (sample_ok t) (drop (Z.to_nat warmup) smps) vs) targets samples values.
Proof using All.
  intros H. set (targets := match target_ with None => [tdx; tpm; tarako] | Some t => [t] end).
  assert (traces (bench_main target_ warmup runs coll) anything
    (fun values es => 0 <= warmup /\ 1 <= runs /\ exists samples,
      es = mjoin (zip_with (fun t smps => mjoin (asked t coll <$> smps)) targets samples) /\
      Forall3 (fun t smps vs => length smps = (Z.to_nat warmup + Z.to_nat runs)%nat /\
        Forall (fun sample => exists v, sample_ok t sample v) smps /\
        Forall2 (sample_ok t) (drop (Z.to_nat warmup) smps) vs) targets samples values)) as Ht.
  { apply traces_bind, traces_check; [|done]. intros Hw%negb_true_iff%Z.ltb_ge.
    apply traces_bind, traces_check; [|done]. intros Hr%negb_true_iff%Z.ltb_ge.
    apply traces_bind, traces_check; [|done]. intros _.
    eapply traces_mono; [apply benchmarks_traces | done |]. intros vs es Hs. split_and!; [done..|].
    exact Hs. }
  eapply traces_run in Ht as (es & -> & Hw & Hr & samples & -> & H3); [|exact H].
  split_and!; [done..|]. exists samples. split; [done|].
  eapply Forall3_impl; [exact H3|]. intros t smps vs (Hl & Ho). split; [lia|exact Ho].
Qed.

(** ** The tools *)

(** The nonce of a tool: drawn, or read from the command line. *)
Definition nonce_of (limit : nat) (value : option str) (n : list Z) (es : list event) : Prop :=
  match value with
  | None => es = [Random n] /\ exists s, n = fst (os_urandom 32 s)
  | Some v => es = [] /\ Hex.fromhex v = Some n /\ (1 <= length n <= limit)%nat
  end.

Lemma parse_nonce_traces limit value (E : list event -> Prop) :
  E [] -> traces (parse_nonce limit value) E (nonce_of limit value).
Proof using All.
  intros HE. destruct value as [v|]; simpl.
  2: { apply traces_ask. intros s n s' Hs. split; [done|]. exists s. by rewrite Hs. }
  apply traces_bind, traces_try; [|done]. intros n Hn.
  apply traces_bind, traces_check; [|done]. intros [H1 H2]%negb_true_iff%orb_false_iff.
  apply traces_ret. rewrite Nat.eqb_neq in H1. rewrite Nat.ltb_ge in H2. split_and!; [done..|lia|lia].
Qed.

Lemma traces_done {A} (f : T -> bool * T) log (g : TM A) (E : list event -> Prop) Q :
  E [log false] -> traces g (fun es => E (log true :: es)) (fun a es => Q a (log true :: es)) ->
  traces (done_ (ask f log) ≫= fun _ => g) E Q.
Proof using All.
  intros HE Hg. apply traces_bind, traces_bind, traces_ask. intros _ ok _ _.
  apply traces_check; [intros -> | by intros ->]. done.
Qed.

Lemma run_checked_traces {A} command (g : CompletedProcess -> TM A) (E : list event -> Prop) Q :
  (forall o, E [Command command [] o]) ->
  (forall s c s', run_command command [] s = (Some c, s') -> returncode c = 0 ->
    traces (g c) (fun es => E (Command command [] (Some c) :: es))
      (fun a es => Q a (Command command [] (Some c) :: es))) ->
  traces (run_checked command ≫= g) E Q.
Proof using All.
  intros HE Hg. apply traces_bind, traces_bind, traces_ask. intros s o s' Hs.
  apply traces_bind, traces_try; [|intros ->; apply HE]. intros c ->.
  apply traces_bind, traces_check; [|intros _; apply HE]. intros Hc%Z.eqb_eq. apply traces_ret.
  by eapply Hg.
Qed.

(** *** TDX *)













(** The buffer of a TDX report has the size that its request number encodes. *)
Lemma report_buffer_size (nonce : list Z) :
  (length nonce <= TDX_REPORT_DATA_LEN)%nat ->
  Z.of_nat (length (ljust TDX_REPORT_DATA_LEN nonce ++ replicate TDX_REPORT_LEN 0)) =
    Z.land (Z.shiftr TDX_CMD_GET_REPORT0 16) 0x3fff.
Proof using.
  intros H. unfold ljust. rewrite !length_app, !length_replicate.
  replace (length nonce + (TDX_REPORT_DATA_LEN - length nonce) + TDX_REPORT_LEN)%nat with 1088%nat
    by (change TDX_REPORT_DATA_LEN with 64%nat in *; change TDX_REPORT_LEN with 1024%nat; lia).
  reflexivity.
Qed.

(** *** Tarako *)

(** The questions of [prepare_app] when it returns: the last is whether the
    program is protected, and the answer is yes. *)
Definition prepared (es : list event) : Prop :=
  exists m, returncode m = 0 /\
    (es = [Exists TARAKO_APP true; Command measure_command [] (Some m)] \/
     exists source c, returncode c = 0 /\
       es = [Exists TARAKO_APP false; Which (codes "tarako-attester") (Some source);
             MakeDirs true (codes "/var/lib/tarako") true; Copy source TARAKO_APP true;
             Command enable_command [] (Some c); Command measure_command [] (Some m)]).

Lemma is_verity_enabled_traces :
  traces is_verity_enabled anything
    (fun b es => exists m, b = (returncode m =? 0) /\ es = [Command measure_command [] (Some m)]).
Proof using All.
  apply traces_bind, traces_ask. intros _ o _ _. apply traces_bind, traces_try; [|done]. intros m ->.
  apply traces_ret. by exists m.
Qed.

Lemma prepare_app_traces : traces prepare_app anything (fun _ => prepared).
Proof using All.
  apply traces_bind, traces_bind, traces_ask. intros _ there _ _.
  destruct there; simpl negb; cbv iota.
  - apply traces_bind. eapply traces_mono; [apply is_verity_enabled_traces | done |].
    intros b es (m & -> & ->). apply traces_bind, traces_check; [|done]. intros Hm%Z.eqb_eq.
    apply traces_ret, traces_ret. exists m. auto.
  - apply traces_ret. apply traces_bind, traces_ask. intros _ o _ _.
    apply traces_bind, traces_try; [|done]. intros source ->.
    apply traces_done; [done|]. apply traces_done; [done|].
    apply run_checked_traces; [done|]. intros _ c _ _ Hc.
    apply traces_bind. eapply traces_mono; [apply is_verity_enabled_traces | done |].
    intros b es (m & -> & ->). apply traces_check; [|done]. intros Hm%Z.eqb_eq.
    exists m. split; [done|]. right. by exists source, c.
Qed.

(** From a state with [P], [m] returns, if it does, in one with [Q]. *)
Definition leads {A} (P : T -> Prop) (m : TM A) (Q : A -> T -> Prop) : Prop :=
  forall s l a s' l', P s -> m (s, l) = (inr a, (s', l')) -> Q a s'.

Lemma leads_ret {A} (P : T -> Prop) (a : A) Q : (forall s, P s -> Q a s) -> leads P (mret a) Q.
Proof using. intros H s l b s' l' Hs [= <- <- <-]. by apply H. Qed.
Lemma leads_check (P : T -> Prop) b e Q :
  (b = true -> forall s, P s -> Q tt s) -> leads P (check b e) Q.
Proof using. intros H s l [] s' l' Hs. destruct b; [|done]. intros [= <- <-]. by apply H. Qed.
Lemma leads_try {A} (P : T -> Prop) (o : option A) e Q :
  (forall a, o = Some a -> forall s, P s -> Q a s) -> leads P (try_ o e) Q.
Proof using. intros H s l a s' l' Hs. destruct o; [|done]. intros [= <- <- <-]. by apply H. Qed.
Lemma leads_ask {A} (P : T -> Prop) (f : T -> A * T) log Q :
  (forall s a s', P s -> f s = (a, s') -> Q a s') -> leads P (ask f log) Q.
Proof using.
  intros H s l a s' l' Hs. unfold ask. destruct (f s) as [b t] eqn:E. intros [= <- <- <-]. by eapply H.
Qed.
Lemma leads_bind {A B} (P : T -> Prop) (m : TM A) (f : A -> TM B) Q R :
  leads P m Q -> (forall a, leads (Q a) (f a) R) -> leads P (m ≫= f) R.
Proof using.
  intros Hm Hf s l b s' l' Hs. unfold mbind, TM_bind.
  destruct (m (s, l)) as [[e|a] [s1 l1]] eqn:E; [done|]. apply Hf. by eapply Hm.
Qed.

(** A question whose answer has to be yes. *)
Lemma leads_done (P : T -> Prop) (f : T -> bool * T) log Q :
  (forall s s', P s -> f s = (true, s') -> Q s') -> leads P (done_ (ask f log)) (fun _ => Q).
Proof using.
  intros H. apply (leads_bind _ _ _ (fun b s => b = true -> Q s)).
  - apply leads_ask. intros s b s' Hs E ->. by eapply H.
  - intros b. apply leads_check. intros -> s Hs. by apply Hs.
Qed.

Lemma tool_bind_inr {A B} (m : TM A) (f : A -> TM B) st b st' :
  (m ≫= f) st = (inr b, st') -> exists a st1, m st = (inr a, st1) /\ f a st1 = (inr b, st').
Proof using. unfold mbind, TM_bind. destruct (m st) as [[e|a] st1]; [done|]. eauto. Qed.

Lemma tarako_quote_run nonce output s printed s' log :
  tarako_quote_main nonce output (s, []) = (inr printed, (s', log)) ->
  exists n pre prep c sa la lb s1 s2 app_output,
    nonce_of 128 nonce n pre /\ prepared prep /\ returncode c = 0 /\
    parse_nonce 128 nonce (s, []) = (inr n, (sa, la)) /\ prepare_app (sa, la) = (inr tt, (s1, lb)) /\
    run_command [TARAKO_APP; codes "quote"; Hex.encode n] [] s1 = (Some c, s2) /\
    decode (stdout c) = Some app_output /\
    printed = codes "nonce: " ++ Hex.encode n ++ [10] ++ sign_timing app_output ++ [10] ++
      codes "wrote Tarako response to " ++ output ++ [10] /\
    log = pre ++ prep ++ [Command [TARAKO_APP; codes "quote"; Hex.encode n] [] (Some c);
                          Write output (stdout c) true].
Proof using.
  intros (n & [sa la] & E1 & H)%tool_bind_inr. apply tool_bind_inr in H as ([] & [s1 lb] & E2 & H).
  pose proof (traces_run _ anything _ _ _ _ _ _ (parse_nonce_traces 128 nonce anything Logic.I) E1)
    as (pre & -> & Hn).
  pose proof (traces_run _ _ _ _ _ _ _ _ prepare_app_traces E2) as (prep & -> & Hp).
  apply tool_bind_inr in H as (c & st & E3 & H). apply tool_bind_inr in E3 as (o & [s2 lc] & E3 & E4).
  unfold subprocess, ask in E3. destruct (run_command _ _ s1) as [o' s2'] eqn:Er. injection E3 as -> -> <-.
  destruct o as [c'|]; [|done]. apply tool_bind_inr in E4 as (c0 & ? & [= <- <-] & E4).
  apply tool_bind_inr in E4 as ([] & ? & E4 & [= <- <-]).
  destruct (returncode c' =? 0) eqn:Ec; [|done]. injection E4 as <-. apply Z.eqb_eq in Ec.
  apply tool_bind_inr in H as ([] & st & E5 & H). apply tool_bind_inr in E5 as (ok & [s3 ld] & E5 & E6).
  unfold ask in E5. destruct (path_write _ _ s2) as [ok' s3'] eqn:Ew. injection E5 as -> -> <-.
  destruct ok; [|done]. injection E6 as <-.
  apply tool_bind_inr in H as (app_output & st & E7 & E8). destruct (decode (stdout c')) as [t|] eqn:Ed; [|done].
  injection E7 as -> <-. injection E8 as <- _ <-.
  eexists n, pre, prep, c', sa, _, _, s1, s2, app_output. split_and!; try done.
  by rewrite <- !(assoc_L (++)).
Qed.
End Tools.

(** ** The attester on the command line *)

(** [fmt.Printf] of the duration, whose digits are [timing], and the JSON of the
    quote as [json.NewEncoder] writes it. *)
Definition timing_line (timing : str) : str := codes "sign ioctl: " ++ timing ++ codes " ms".
Definition encode_quote (q : quoteResponse) : list Z :=
  Json.object Json.go_char
    [(codes "hash", Json.quoted Json.go_char (Hash q));
     (codes "public_key", Json.quoted Json.go_char (PublicKey q));
     (codes "signature_der", Json.quoted Json.go_char (SignatureDER q));
     (codes "user_data", Json.quoted Json.go_char (UserData q))] ++ [10].

Inductive process := Exited (c : CompletedProcess) | Serving.

(** [main]: [args] is [os.Args[1:]]; an error ends the program with status 1.
    Without the word [quote] it goes on to serve requests. *)
Definition attester_main {D} `{!Device D} (args : list str) (random : option (list Z)) (timing : str)
    (s : D) : process * D :=
  match args with
  | a :: args =>
      if bool_decide (a = codes "quote") then
        match runQuote args random s with
        | (Some (inr q), s) => (Exited (mkCompletedProcess 0 (timing_line timing ++ [10] ++ encode_quote q) []), s)
        | (_, s) => (Exited (mkCompletedProcess 1 [] []), s)
        end
      else (Serving, s)
  | [] => (Serving, s)
  end.

Lemma hex_chars bs : bytes_ok bs -> Forall (fun c => 48 <= c <= 57 \/ 97 <= c <= 102) (Hex.encode bs).
Proof.
  induction 1 as [|b bs Hb _ IH]; [constructor|]. cbn [Hex.encode].
  destruct (Hex.byte_nibbles b Hb) as (H1 & H2 & _).
  assert (forall n, 0 <= n < 16 -> 48 <= Hex.digit n <= 57 \/ 97 <= Hex.digit n <= 102) as Hd.
  { intros n Hn. unfold Hex.digit. destruct (Z.ltb_spec n 10); lia. }
  constructor; [by apply Hd|]. constructor; [by apply Hd|done].
Qed.

(** The timing of the attester reaches the benchmark through the tool. *)
Lemma timing_found n timing rest app_output output tail :
  bytes_ok n -> timing <> [] -> Forall (fun c => numeric c = true) timing ->
  decode (timing_line timing ++ [10] ++ rest) = Some app_output ->
  search (pattern_of tarako)
    ((codes "nonce: " ++ Hex.encode n ++ [10] ++ sign_timing app_output ++ [10] ++ output) ++ tail) =
  Some timing.
Proof.
  intros Hb Hne Hnum Hd.
  assert (Forall (fun c => 46 <= c <= 57) timing) as Hr.
  { eapply Forall_impl; [exact Hnum|]. intros c. unfold numeric. lia. }
  assert (forall P : Z -> Prop, Forall P (codes "sign ioctl: ") -> Forall P (codes " ms") ->
    (forall c, 46 <= c <= 57 -> P c) -> Forall P (timing_line timing)) as Hline.
  { intros P H1 H2 HP. unfold timing_line. rewrite !Forall_app. split_and!; [done| |done].
    eapply Forall_impl; [exact Hr|]. exact HP. }
  assert (exists text, app_output = timing_line timing ++ 10 :: text) as [text ->].
  { rewrite (assoc_L (++)), decode_ascii_app in Hd.
    - destruct (decode rest) as [text|]; [|done]. injection Hd as <-. exists text.
      by rewrite <- (assoc_L (++)).
    - apply Forall_app. split; [|by repeat constructor].
      apply Hline; [by repeat constructor.. | intros; lia]. }
  assert (sign_timing (timing_line timing ++ 10 :: text) = timing_line timing) as ->.
  { unfold sign_timing, splitlines. rewrite lines_from_app.
    - rewrite reverse_nil, app_nil_l, filter_cons_True; [done|]. unfold timing_line, startswith.
      replace (codes "sign ioctl: ") with (codes "sign ioctl:" ++ [32]) by reflexivity.
      by rewrite <- (assoc_L (++)), strip_prefix_app.
    - apply Hline; [by repeat constructor..|]. intros c Hc. unfold line_break. lia. }
  replace ((codes "nonce: " ++ Hex.encode n ++ [10] ++ timing_line timing ++ [10] ++ output) ++ tail)
    with ((codes "nonce: " ++ Hex.encode n ++ [10]) ++ timing_line timing ++ [10] ++ output ++ tail)
    by (by rewrite <- !(assoc_L (++))).
  change (pattern_of tarako) with (115 :: codes "ign ioctl: "). rewrite search_skip.
  - apply search_here. unfold timing_line. rewrite <- !(assoc_L (++)). by apply match_here_timing.
  - rewrite !Forall_app. split_and!; [by repeat constructor| |by repeat constructor].
    eapply Forall_impl; [by apply hex_chars|]. intros c Hc. simpl in Hc. lia.
Qed.

Section Attests.
Context {T : Type} `{!Host T} `{!Device T} {ready : T -> Prop} {d pk : list Z}
  {sig_ok : list Z -> Z * Z -> Prop} `{!SigningDevice T ready d pk sig_ok}.
(** What [rand.Read] gives to the attester, and the digits of its duration. *)
Context (random : T -> option (list Z)) (timing : T -> str).

(** The host, as far as the tool meets it; [program path s]: in the state [s] the
    file at [path] is the attester.  A file at [TARAKO_APP], if there is one, and
    what the search path gives for its name are the attester, and a copy of it
    is; making the directory, copying and asking [fsverity] neither replace it
    nor take the device away; and where it is installed, running it is running
    the attester. *)
Record attester_host (program : str -> T -> Prop) : Prop := {
  host_random s : ready s -> ready (snd (os_urandom 32 s));
  host_random_bytes s : bytes_ok (fst (os_urandom 32 s)) /\ length (fst (os_urandom 32 s)) = 32%nat;
  host_exists s b s' : ready s -> path_exists TARAKO_APP s = (b, s') ->
    ready s' /\ (b = true -> program TARAKO_APP s');
  host_which s o s' : ready s -> shutil_which (codes "tarako-attester") s = (o, s') ->
    ready s' /\ forall source, o = Some source -> program source s';
  host_makedirs source s ok s' : ready s -> program source s ->
    make_dirs true (codes "/var/lib/tarako") s = (ok, s') -> ready s' /\ program source s';
  host_copy source s s' : ready s -> program source s ->
    shutil_copy2 source TARAKO_APP s = (true, s') -> ready s' /\ program TARAKO_APP s';
  host_fsverity c s o s' : c ∈ [measure_command; enable_command] ->
    ready s -> program TARAKO_APP s -> run_command c [] s = (o, s') -> ready s' /\ program TARAKO_APP s';
  host_runs args s : program TARAKO_APP s ->
    run_command (TARAKO_APP :: args) [] s =
      match attester_main args (random s) (timing s) s with
      | (Exited c, s') => (Some c, s')
      | (Serving, s') => (None, s')
      end }.

Section Host.
Context (program : str -> T -> Prop) (Hhost : attester_host program).
Abbreviation installed := (fun s => ready s /\ program TARAKO_APP s).

Lemma parse_nonce_leads value : leads ready (parse_nonce 128 value) (fun _ => ready).
Proof using Hhost.
  destruct value as [v|].
  - apply (leads_bind _ _ _ (fun _ => ready)); [by apply leads_try|]. intros n.
    apply (leads_bind _ _ _ (fun _ => ready)); [by apply leads_check|]. intros _. by apply leads_ret.
  - apply leads_ask. intros s n s' Hs E. pose proof (host_random _ Hhost s Hs) as H. by rewrite E in H.
Qed.

Lemma fsverity_leads c : c ∈ [measure_command; enable_command] ->
  leads installed (subprocess c []) (fun _ => installed).
Proof using Hhost. intros Hc. apply leads_ask. intros s o s' [H1 H2]. by apply (host_fsverity _ Hhost c). Qed.

Lemma is_verity_enabled_leads : leads installed is_verity_enabled (fun _ => installed).
Proof using Hhost.
  apply (leads_bind _ _ _ (fun _ => installed)); [apply fsverity_leads; left|]. intros o.
  apply (leads_bind _ _ _ (fun _ => installed)); [by apply leads_try|]. intros r. by apply leads_ret.
Qed.

(** When the preparation returns, the attester is installed, whether it was
    there before or not. *)
Lemma prepare_app_leads : leads ready prepare_app (fun _ => installed).
Proof using Hhost.
  apply (leads_bind _ _ _ (fun b s => ready s /\ (b = true -> program TARAKO_APP s))).
  { apply (leads_bind _ _ _ (fun b s => ready s /\ (b = true -> program TARAKO_APP s))).
    - apply leads_ask. intros s b s' Hs. by apply host_exists.
    - intros [|]; [|apply leads_ret; naive_solver]. simpl negb. cbv iota.
      apply (leads_bind _ _ _ (fun _ => installed)).
      { intros s l b s' l' [H1 H2]. by apply is_verity_enabled_leads; auto. }
      intros b. apply (leads_bind _ _ _ (fun _ => installed)); [by apply leads_check|]. intros _.
      apply leads_ret. naive_solver. }
  intros [|]; [apply leads_ret; naive_solver|].
  apply (leads_bind _ _ _ (fun o s => ready s /\ forall source, o = Some source -> program source s)).
  { apply leads_ask. intros s o s' [Hs _]. by apply host_which. }
  intros o. apply (leads_bind _ _ _ (fun source s => ready s /\ program source s)).
  { apply leads_try. naive_solver. }
  intros source. apply (leads_bind _ _ _ (fun _ s => ready s /\ program source s)).
  { apply leads_done. intros s s' [H1 H2]. by apply host_makedirs. }
  intros _. apply (leads_bind _ _ _ (fun _ => installed)).
  { apply leads_done. intros s s' [H1 H2]. by apply host_copy. }
  intros _. apply (leads_bind _ _ _ (fun _ => installed)).
  { apply (leads_bind _ _ _ (fun _ => installed)); [apply fsverity_leads; right; left|]. intros o'.
    apply (leads_bind _ _ _ (fun _ => installed)); [by apply leads_try|]. intros c.
    apply (leads_bind _ _ _ (fun _ => installed)); [by apply leads_check|]. intros _. by apply leads_ret. }
  intros _. apply (leads_bind _ _ _ (fun _ => installed)); [apply is_verity_enabled_leads|].
  intros b. by apply leads_check.
Qed.
End Host.

(** C37: the tool's quote is good.  On a host as above, with a device that attests
    the attester's executable: when the tool returns, whether it has installed
    the program or found it there, its nonce has 1 to 128 bytes; the program that
    it has run was protected by fs-verity when it was last asked, just before; the
    output file has what this program printed for the nonce, a time and a quote;
    the quote attests the nonce; and in what the tool prints the benchmark finds
    the time that the attester has measured. *)
Theorem tarako_quote_attests (program : str -> T -> Prop)
    (nonce : option str) (output printed : str) (s s' : T) (log : list event) :
  attester_host program ->
  (forall s, timing s <> [] /\ Forall (fun c => numeric c = true) (timing s)) ->
  ready s -> tarako_quote_main nonce output (s, []) = (inr printed, (s', log)) ->
  exists n pre prep c t q,
    nonce_of 128 nonce n pre /\ (1 <= length n <= 128)%nat /\ prepared prep /\
    log = pre ++ prep ++ [Command [TARAKO_APP; codes "quote"; Hex.encode n] [] (Some c);
                          Write output (stdout c) true] /\
    stdout c = timing_line t ++ [10] ++ encode_quote q /\
    good_quote d pk sig_ok n q /\
    forall rest, search (pattern_of tarako) (printed ++ rest) = Some t.
Proof using All.
  intros Hhost Htime Hs (n & pre & prep & c & sa & la & lb & s1 & s2 & app_output & Hn & Hp & Hc & E1 & E2 & Hr &
    Ho & -> & ->)%tarako_quote_run.
  assert (ready s1 /\ program TARAKO_APP s1) as [Hr1 Hp1].
  { eapply (prepare_app_leads program Hhost); [|exact E2].
    eapply (parse_nonce_leads program Hhost); [exact Hs | exact E1]. }
  assert (bytes_ok n /\ (1 <= length n <= 128)%nat) as [Hb Hl].
  { destruct nonce as [v|]; [destruct Hn as (_ & Hf & ?) | destruct Hn as (_ & s0 & ->)].
    - split; [by eapply Hex.fromhex_wf | done].
    - destruct (host_random_bytes _ Hhost s0) as [? ->]. split; [done|lia]. }
  rewrite (host_runs _ Hhost) in Hr by done.
  unfold attester_main in Hr. rewrite bool_decide_true in Hr by done.
  cbn [runQuote] in Hr.
  assert (parseUserData (Hex.encode n) = inr n) as Hparse.
  { unfold parseUserData, userDataBytes. rewrite Hex.decode_encode by done.
    rewrite (proj2 (Nat.eqb_neq _ _)), (proj2 (Nat.ltb_ge _ _)) by lia. done. }
  rewrite Hparse in Hr. destruct (tarakoQuote n s1) as [[e|q] s3] eqn:Eq.
  { injection Hr as <- <-. discriminate Hc. }
  injection Hr as <- <-. eexists n, pre, prep, _, (timing s1), q.
  split_and!; try done; try lia.
  - by eapply quote_good.
  - intros rest. destruct (Htime s1) as [Ht1 Ht2].
    exact (timing_found n (timing s1) (encode_quote q) app_output _ rest Hb Ht1 Ht2 Ho).
Qed.
End Attests.

(** ** Runs on a concrete host

    The state of the host is that of the module and whether the attester is
    installed: it is not at first.  Every command succeeds; those of the benchmark
    print what its own test has them print, and [TARAKO_APP], once installed, is
    the attester on the driver. *)
Import ioctl attestation.
#[local] Existing Instances ToyKernel toy_Vli toy_Ecc toy_Curve toy_Verity toy_User toy_Ioctl
  toy_memory toy_sha ecdsa.toy_group ecdsa.toy_group_laws.

Definition toy_machine : Type := tarako.module RW * bool.

(** The device of a machine that has more than its state. *)
Definition on_fst {D X A} (f : D -> A * D) (s : D * X) : A * (D * X) :=
  let '(a, m) := f (fst s) in (a, (m, snd s)).
#[local] Instance beside_device {D X} (dev : Device D) : Device (D * X) := {|
  dev_open := on_fst dev_open;
  dev_close s := (dev_close (fst s), snd s);
  dev_ioctl cmd b := on_fst (dev_ioctl cmd b) |}.

Lemma on_fst_run {D X A} (f : D -> A * D) (s : D * X) a s' :
  on_fst f s = (a, s') -> f (fst s) = (a, fst s').
Proof. unfold on_fst. destruct (f (fst s)) as [b m]. by intros [= <- <-]. Qed.

Lemma beside_signing {D X} (dev : Device D) (ready_ : D -> Prop) d pk sig_ok_ :
  SigningDevice D ready_ d pk sig_ok_ ->
  @SigningDevice (D * X) (beside_device dev) (fun s => ready_ (fst s)) d pk sig_ok_.
Proof.
  intros H. split.
  - intros s o s' Hs E%on_fst_run. by eapply open_ready.
  - intros s r b s' Hs E%on_fst_run. by eapply hello_ready.
  - intros s r b s' Hs E%on_fst_run. by eapply pubkey_ready.
  - intros s req r b s' Hs H1 H2 E%on_fst_run. by eapply sign_ready.
Qed.

#[local] Instance toy_dev : Device toy_machine := beside_device toy_device.

Definition toy_timing : str := codes "0.100".
Definition toy_run (command : list str) (s : toy_machine) : option CompletedProcess * toy_machine :=
  match command with
  | a :: args =>
      if bool_decide (a = TARAKO_APP) then
        if snd s then
          match attester_main args (Some (replicate 32 5)) toy_timing s with
          | (Exited c, s') => (Some c, s')
          | (Serving, s') => (None, s')
          end
        else (None, s)
      else (Some (mkCompletedProcess 0 [] []), s)
  | [] => (None, s)
  end.
Definition toy_printed : CompletedProcess :=
  mkCompletedProcess 0 (codes "TDX verification: OK" ++ [10])
    (codes "TDX quote: 5.000 ms" ++ [10] ++ codes "TPM quote: 2.000 ms" ++ [10] ++
     codes "sign ioctl: 0.100 ms" ++ [10]).
Definition toy_source : str := codes "/bin/tarako-attester".

#[local] Instance toy_host : Host toy_machine := {|
  os_urandom n s := (replicate n 5, s);
  run_command command _ s := toy_run command s;
  run_text _ s := (Some toy_printed, s);
  path_exists p s := (if bool_decide (p = TARAKO_APP) then snd s else true, s);
  path_is_dir _ s := (true, s);
  shutil_which _ s := (Some toy_source, s);
  path_mkdir _ s := (true, s);
  make_dirs _ _ s := (true, s);
  path_rmdir _ s := (true, s);
  shutil_copy2 _ b s := (true, (fst s, snd s || bool_decide (b = TARAKO_APP)));
  path_write _ _ s := (true, s);
  path_read _ s := (Some [1; 2; 3], s);
  device_ioctl _ _ b s := (Some b, s);
  perf_counter_ns s := (0, s) |}.

Definition value_of {S A} (r : (raised + A) * (S * list event)) : option A :=
  match fst r with inr a => Some a | inl _ => None end.
Lemma value_run {S A} (r : (raised + A) * (S * list event)) a :
  value_of r = Some a -> exists s' log, r = (inr a, (s', log)).
Proof. destruct r as [[e|b] [s' log]]; [done|]. intros [= ->]. by exists s', log. Qed.

Definition toy_bench : (raised + list (list (Z * nat))) * (toy_machine * list event) :=
  bench_main None 1 2 false ((toy_module, false), []).

Lemma bench_samples_witness :
  exists s' log samples, toy_bench = (inr [[(5000, 3%nat); (5000, 3%nat)]; [(2000, 3%nat); (2000, 3%nat)];
      [(100, 3%nat); (100, 3%nat)]], (s', log)) /\
    log = mjoin (zip_with (fun t smps => mjoin (asked t false <$> smps)) [tdx; tpm; tarako] samples).
Proof.
  destruct (value_run toy_bench [[(5000, 3%nat); (5000, 3%nat)]; [(2000, 3%nat); (2000, 3%nat)];
      [(100, 3%nat); (100, 3%nat)]]) as (s' & log & E); [vm_compute; reflexivity|].
  destruct (bench_samples None 1 2 false (toy_module, false) s' _ log E) as (_ & _ & samples & Hl & _).
  exists s', log, samples. split; [exact E | exact Hl].
Defined.



Definition toy_tarako : (raised + str) * (toy_machine * list event) :=
  tarako_quote_main None (codes "/tmp/quote") ((toy_module, false), []).
Definition toy_text : str := default [] (value_of toy_tarako).

(** The attester is in the search path, and at its place once it is installed. *)
Definition toy_program (path : str) (s : toy_machine) : Prop :=
  path = toy_source \/ path = TARAKO_APP /\ snd s = true.

Lemma toy_attester_host :
  attester_host (ready := fun s : toy_machine => ready toy_kp (fst s))
    (fun _ => Some (replicate 32 5)) (fun _ => toy_timing) toy_program.
Proof.
  split.
  - done.
  - intros s. split; [apply Forall_replicate; split; [discriminate|reflexivity] | apply length_replicate].
  - intros s b s' Hs E. cbn [path_exists toy_host] in E. rewrite bool_decide_true in E by done.
    injection E as <- <-. split; [done|]. by right.
  - intros s o s' Hs [= <- <-]. split; [done|]. intros source [= <-]. by left.
  - by intros source s ok s' Hs Hp [= <- <-].
  - intros source s s' Hs Hp E. cbn [shutil_copy2 toy_host] in E. injection E as <-. split; [done|].
    right. split; [done|]. exact (orb_true_r (snd s)).
  - intros c s o s' Hc Hs Hp E. assert (s' = s) as ->; [|done].
    rewrite !elem_of_cons in Hc. destruct Hc as [->|[->|[]%elem_of_nil]]; by injection E.
  - intros args s [E|[_ E]]; [discriminate E|]. cbn [run_command toy_host]. unfold toy_run.
    by rewrite bool_decide_true, E by done.
Qed.

Lemma tarako_quote_attests_witness :
  exists s' log n q, toy_tarako = (inr toy_text, (s', log)) /\
    Copy toy_source TARAKO_APP true ∈ log /\ length n = 32%nat /\
    good_quote (replicate 32 7) (KeyPair.pubkey toy_kp) (sig_ok toy_kp) n q /\
    search (pattern_of tarako) toy_text = Some toy_timing.
Proof.
  assert (value_of toy_tarako = Some toy_text) as Hv by (vm_compute; reflexivity).
  destruct (value_run toy_tarako toy_text Hv) as (s' & log & E).
  pose proof (beside_signing (X := bool) toy_device _ _ _ _
    (driver_is_signing (toy_task 1) 4096 toy_poke true toy_kp 1 (replicate 32 7)
       toy_kp_ok eq_refl eq_refl eq_refl)) as Hdev.
  destruct (tarako_quote_attests (SigningDevice0 := Hdev) (fun _ => Some (replicate 32 5))
    (fun _ => toy_timing) toy_program None (codes "/tmp/quote") toy_text (toy_module, false) s' log
    toy_attester_host)
    as (n & pre & prep & c & t & q & Hn & _ & _ & _ & _ & Hq & _).
  - intros _. split; [discriminate | repeat constructor].
  - exact toy_ready.
  - exact E.
  - exists s', log, n, q. split; [exact E|]. split.
    { assert (log = snd (snd toy_tarako)) as -> by (by rewrite E).
      apply (list_elem_of_lookup_2 _ 4). vm_compute. reflexivity. }
    split; [destruct Hn as [_ [s0 ->]]; apply length_replicate|].
    split; [exact Hq|]. vm_compute. reflexivity.
Defined.
End quote_tools.
